(** * Parsoid: the wikitext serializer and the indent-pre token handler

    A shallow embedding of two JavaScript modules of the repository:

    - [mediawiki.WikitextSerializer.js] (src/unnamed/part_000, lines 1-1154):
      the per-token emission algorithm, the tag handler table, the text
      escaper and the DOM walker;
    - [ext.core.PreHandler.js] (src/unnamed/part_003): the 5-state automaton
      that turns lines starting with one space into [pre] blocks.

    JavaScript strings are modelled by [string]: sequences of code units
    below 256.  Numbers that the code uses as counters are [nat]; source
    offsets, which can be -1, are [Z].  Mutable objects are records that are
    threaded through the functions; exceptions are results of the step
    functions. *)

From Stdlib Require Import String Ascii List ZArith Lia Bool.
From stdpp Require Import base gmap strings.
Import ListNotations.

Local Open Scope string_scope.
Local Open Scope list_scope.

(** ** JavaScript strings *)

Module JS.

Definition LF : ascii := "010"%char.
Definition CR : ascii := "013"%char.
Definition SP : ascii := " "%char.
Definition DQUOTE : ascii := "034"%char.

Definition nl : string := String LF "".
Definition dquote : string := String DQUOTE "".

(** [s.length] as a source offset. *)
Definition zlen (s : string) : Z := Z.of_nat (String.length s).

(** [s.length] is truthy. *)
Definition nonEmpty (s : string) : bool :=
  match s with EmptyString => false | String _ _ => true end.

Fixpoint dropS (n : nat) (s : string) : string :=
  match n, s with
  | O, _ => s
  | S _, EmptyString => EmptyString
  | S n', String _ s' => dropS n' s'
  end.

Fixpoint takeS (n : nat) (s : string) : string :=
  match n, s with
  | O, _ => EmptyString
  | S _, EmptyString => EmptyString
  | S n', String c s' => String c (takeS n' s')
  end.

(** [s.slice(1)] *)
Definition slice1 (s : string) : string := dropS 1 s.

(** [s.substr(start, len)] (ECMAScript B.2.3): a negative start counts
    from the end, the length is clamped to what is left. *)
Definition substr (s : string) (start len : Z) : string :=
  let size := zlen s in
  let start' := if (start <? 0)%Z then Z.max (size + start) 0 else start in
  let len' := Z.min (Z.max len 0) (size - start') in
  if (len' <=? 0)%Z then EmptyString
  else takeS (Z.to_nat len') (dropS (Z.to_nat start') s).

(** [s.substr(start)] *)
Definition substrFrom (s : string) (start : Z) : string :=
  substr s start (zlen s).

Fixpoint isPrefix (p s : string) : bool :=
  match p, s with
  | EmptyString, _ => true
  | String a p', String b s' => Ascii.eqb a b && isPrefix p' s'
  | String _ _, EmptyString => false
  end.

(** [s.replace(pat, rep)] with a string pattern: the first occurrence only.
    ([rep] holds no [$], so it is taken literally.) *)
Fixpoint replaceFirst (pat rep s : string) : string :=
  if isPrefix pat s then rep +:+ dropS (String.length pat) s
  else match s with
       | EmptyString => EmptyString
       | String c s' => String c (replaceFirst pat rep s')
       end.

(** [s.replace(/pat/g, rep)] for a literal, non-empty pattern: every
    occurrence, scanning left to right without overlap.  [skip] counts the
    characters of a match that are still to be passed over. *)
Fixpoint replaceAllFrom (skip : nat) (pat rep s : string) : string :=
  match s with
  | EmptyString => EmptyString
  | String c s' =>
      match skip with
      | S k => replaceAllFrom k pat rep s'
      | O => if isPrefix pat s
             then rep +:+ replaceAllFrom (String.length pat - 1) pat rep s'
             else String c (replaceAllFrom O pat rep s')
      end
  end.

Definition replaceAll (pat rep s : string) : string :=
  replaceAllFrom 0 pat rep s.

(** The class [\s] on code units below 256. *)
Definition isSpace (c : ascii) : bool :=
  let n := nat_of_ascii c in
  (Nat.leb 9 n && Nat.leb n 13) || Nat.eqb n 32 || Nat.eqb n 160.

Fixpoint allSpace (s : string) : bool :=   (* /^\s*$/ *)
  match s with
  | EmptyString => true
  | String c s' => isSpace c && allSpace s'
  end.

Fixpoint hasChar (c : ascii) (s : string) : bool :=
  match s with
  | EmptyString => false
  | String a s' => Ascii.eqb a c || hasChar c s'
  end.

Definition toUpperChar (c : ascii) : ascii :=
  let n := nat_of_ascii c in
  if Nat.leb 97 n && Nat.leb n 122 then ascii_of_nat (n - 32) else c.

(** [s.toUpperCase()] on the letters a-z. *)
Fixpoint toUpperCase (s : string) : string :=
  match s with
  | EmptyString => EmptyString
  | String c s' => String (toUpperChar c) (toUpperCase s')
  end.

(** [arr.join(sep)] *)
Definition join (sep : string) (arr : list string) : string :=
  String.concat sep arr.

(** [n] newline characters. *)
Fixpoint newlines (n : nat) : string :=
  match n with
  | O => EmptyString
  | S n' => String LF (newlines n')
  end.

End JS.

(** ** Tokens (mediawiki.parser.defines.js) *)

Record KV := mkKV { k : string; v : string }.

(** [dataAttribs]: the round-trip record of a token.  A field that is
    absent in the JavaScript object is [None] ([false] for [gc]). *)
Record DataAttribs := mkDA {
  tsr : option (Z * Z);
  stx : option string;
  stx_v : option string;
  src : option string;
  gc : bool;
  tail : option string;
  sHref : option string
}.

Definition noDA : DataAttribs := mkDA None None None None false None None.
Definition tsrDA (a b : Z) : DataAttribs :=
  mkDA (Some (a, b)) None None None false None None.

Inductive Token :=
| TagTk (name : string) (attribs : list KV) (dataAttribs : DataAttribs)
| EndTagTk (name : string) (attribs : list KV) (dataAttribs : DataAttribs)
| SelfclosingTagTk (name : string) (attribs : list KV) (dataAttribs : DataAttribs)
| Str (s : string)
| CommentTk (value : string) (dataAttribs : DataAttribs)
| NlTk (dataAttribs : DataAttribs)
| EOFTk.

(** ** WSP._serializeAttributes (part_000, lines 811-829) *)

Module Attributes.

Definition pushAttribute (out : list string) (kv : KV) : list string :=
  if JS.nonEmpty (k kv) then
    if JS.nonEmpty (v kv) then
      out ++ [k kv +:+ "=" +:+ JS.dquote
              +:+ JS.replaceFirst JS.dquote "&quot;" (v kv) +:+ JS.dquote]
    else out ++ [k kv]
  else if JS.nonEmpty (v kv) then out ++ [v kv]
  else out.

Definition _serializeAttributes (attribs : list KV) : string :=
  let out := foldl pushAttribute [] attribs in
  JS.join " " out.

(** The rendering of one pair in the words of the specification. *)
Fixpoint escapeFirstQuote (value : string) : string :=
  match value with
  | EmptyString => EmptyString
  | String c rest =>
      if Ascii.eqb c JS.DQUOTE then "&quot;" +:+ rest
      else String c (escapeFirstQuote rest)
  end.

Definition renderedAttribute (kv : KV) : option string :=
  match k kv, v kv with
  | String _ _, String _ _ =>
      Some (k kv +:+ "=" +:+ JS.dquote +:+ escapeFirstQuote (v kv) +:+ JS.dquote)
  | String _ _, EmptyString => Some (k kv)
  | EmptyString, String _ _ => Some (v kv)
  | EmptyString, EmptyString => None
  end.

Definition renderedAttributes (attribs : list KV) : string :=
  String.concat " " (omap renderedAttribute attribs).

End Attributes.

(** ** The indent-pre handler (part_003) *)

Module Pre.

(** [PreHandler.STATE_SOL] ... [PreHandler.STATE_IGNORE] (lines 105-110). *)
Inductive State :=
| STATE_SOL
| STATE_PRE
| STATE_PRE_COLLECT
| STATE_MULTILINE_PRE
| STATE_IGNORE.

(** What the handler writes to the console: [console.warn] when tracing,
    [console.error] on the two paths the code marks as unreachable. *)
Inductive Console :=
| Warn_separator
| Warn_nl (st : State) (token : Token)
| Warn_any (st : State) (token : Token)
| Warn_saved (toks : list Token)
| Warn_ret (ret : option (list Token))
| Error_notIgnore (st : State) (token : Token)
| Error_ignore (token : Token).

(** The handler object.  [anyTransform], [newlineTransform] and
    [endTransform] record which of its three transforms are registered with
    the token transform manager ([addTransform] / [removeTransform]). *)
Record PreHandler := mkPreHandler {
  debug : bool;
  trace : bool;
  newlineTransform : bool;
  endTransform : bool;
  anyTransform : bool;
  state : State;
  lastNlTk : option Token;
  preTSR : Z;
  tokens : list Token;
  preWSToken : option Token;
  multiLinePreWSToken : option Token;
  solTransparentTokens : list Token;
  inPre : bool;
  console : list Console
}.

Definition set_anyTransform (b : bool) (h : PreHandler) : PreHandler :=
  mkPreHandler (debug h) (trace h) (newlineTransform h) (endTransform h) b
    (state h) (lastNlTk h) (preTSR h) (tokens h) (preWSToken h)
    (multiLinePreWSToken h) (solTransparentTokens h) (inPre h) (console h).

Definition set_state (s : State) (h : PreHandler) : PreHandler :=
  mkPreHandler (debug h) (trace h) (newlineTransform h) (endTransform h)
    (anyTransform h) s (lastNlTk h) (preTSR h) (tokens h) (preWSToken h)
    (multiLinePreWSToken h) (solTransparentTokens h) (inPre h) (console h).

Definition set_lastNlTk (t : option Token) (h : PreHandler) : PreHandler :=
  mkPreHandler (debug h) (trace h) (newlineTransform h) (endTransform h)
    (anyTransform h) (state h) t (preTSR h) (tokens h) (preWSToken h)
    (multiLinePreWSToken h) (solTransparentTokens h) (inPre h) (console h).

Definition set_preTSR (z : Z) (h : PreHandler) : PreHandler :=
  mkPreHandler (debug h) (trace h) (newlineTransform h) (endTransform h)
    (anyTransform h) (state h) (lastNlTk h) z (tokens h) (preWSToken h)
    (multiLinePreWSToken h) (solTransparentTokens h) (inPre h) (console h).

Definition set_tokens (l : list Token) (h : PreHandler) : PreHandler :=
  mkPreHandler (debug h) (trace h) (newlineTransform h) (endTransform h)
    (anyTransform h) (state h) (lastNlTk h) (preTSR h) l (preWSToken h)
    (multiLinePreWSToken h) (solTransparentTokens h) (inPre h) (console h).

Definition set_preWSToken (t : option Token) (h : PreHandler) : PreHandler :=
  mkPreHandler (debug h) (trace h) (newlineTransform h) (endTransform h)
    (anyTransform h) (state h) (lastNlTk h) (preTSR h) (tokens h) t
    (multiLinePreWSToken h) (solTransparentTokens h) (inPre h) (console h).

Definition set_multiLinePreWSToken (t : option Token) (h : PreHandler)
  : PreHandler :=
  mkPreHandler (debug h) (trace h) (newlineTransform h) (endTransform h)
    (anyTransform h) (state h) (lastNlTk h) (preTSR h) (tokens h)
    (preWSToken h) t (solTransparentTokens h) (inPre h) (console h).

Definition set_solTransparentTokens (l : list Token) (h : PreHandler)
  : PreHandler :=
  mkPreHandler (debug h) (trace h) (newlineTransform h) (endTransform h)
    (anyTransform h) (state h) (lastNlTk h) (preTSR h) (tokens h)
    (preWSToken h) (multiLinePreWSToken h) l (inPre h) (console h).

Definition set_inPre (b : bool) (h : PreHandler) : PreHandler :=
  mkPreHandler (debug h) (trace h) (newlineTransform h) (endTransform h)
    (anyTransform h) (state h) (lastNlTk h) (preTSR h) (tokens h)
    (preWSToken h) (multiLinePreWSToken h) (solTransparentTokens h) b
    (console h).

(** [console.warn(e)] / [console.error(e)] *)
Definition log (e : Console) (h : PreHandler) : PreHandler :=
  mkPreHandler (debug h) (trace h) (newlineTransform h) (endTransform h)
    (anyTransform h) (state h) (lastNlTk h) (preTSR h) (tokens h)
    (preWSToken h) (multiLinePreWSToken h) (solTransparentTokens h) (inPre h)
    (console h ++ [e]).

(** Modelled from the spec: [Token.prototype.isHTMLTag] of
    mediawiki.parser.defines.js, which is not under src.  A tag token is an
    HTML tag when its source marker says it was written as markup
    ([dataAttribs.stx === 'html'], the test _getTokenHandler makes); a string,
    comment, newline or end-of-input token is none. *)
Definition isHTMLTag (token : Token) : bool :=
  match token with
  | TagTk _ _ da | EndTagTk _ _ da | SelfclosingTagTk _ _ da =>
      match stx da with Some s => String.eqb s "html" | None => false end
  | _ => false
  end.

(** [token.name] of a tag token. *)
Definition tagName (token : Token) : string :=
  match token with
  | TagTk n _ _ | EndTagTk n _ _ | SelfclosingTagTk n _ _ => n
  | _ => EmptyString
  end.

(** [isPre(token, TagTk)] and [isPre(token, EndTagTk)] (lines 79-81). *)
Definition isPreOpen (token : Token) : bool :=
  match token with
  | TagTk n _ _ => isHTMLTag token && String.eqb (JS.toUpperCase n) "PRE"
  | _ => false
  end.

Definition isPreClose (token : Token) : bool :=
  match token with
  | EndTagTk n _ _ => isHTMLTag token && String.eqb (JS.toUpperCase n) "PRE"
  | _ => false
  end.

(** [Util.isSolTransparent].  mediawiki.Util.js is not under src; this is
    the predicate the earlier variant of the handler defines for itself
    (part_000, lines 1244-1255), and the one the header of part_003
    describes: white-space, comments and meta tags. *)
Definition isSolTransparent (token : Token) : bool :=
  match token with
  | Str s => JS.allSpace s
  | CommentTk _ _ => true
  | SelfclosingTagTk n _ _ => String.eqb n "meta"
  | _ => false
  end.

(** [(tc === String) && token.match(/^ /)] *)
Definition startsWithSpace (token : Token) : bool :=
  match token with
  | Str s => JS.isPrefix " " s
  | _ => false
  end.

(** [token.match(/^ $/)] *)
Definition isSingleSpace (token : Token) : bool :=
  match token with
  | Str s => String.eqb s " "
  | _ => false
  end.

(** [token.slice(1)] and [token[0]] of a string that starts with a space. *)
Definition sliced (token : Token) : Token :=
  match token with
  | Str s => Str (JS.slice1 s)
  | t => t
  end.

Definition firstChar (token : Token) : Token :=
  match token with
  | Str s => Str (JS.takeS 1 s)
  | t => t
  end.

(** [token.length] *)
Definition tokenLength (token : Token) : nat :=
  match token with
  | Str s => String.length s
  | _ => 0
  end.

(** [init(handler, addAnyHandler)] (lines 121-136). *)
Definition init (h : PreHandler) (addAnyHandler : bool) : PreHandler :=
  mkPreHandler (debug h) (trace h) (newlineTransform h) (endTransform h)
    (if addAnyHandler then true else anyTransform h)
    STATE_SOL None 0%Z [] None None [] (inPre h) (console h).

(** [env.conf.parsoid]: the two settings the constructor reads. *)
Record ParsoidConf := mkConf {
  conf_debug : bool;
  conf_traceFlags : option (list string)
}.

Definition hasTraceFlag (flag : string) (c : ParsoidConf) : bool :=
  match conf_traceFlags c with
  | Some flags => existsb (String.eqb flag) flags
  | None => false
  end.

(** [new PreHandler(manager, options)] (lines 84-97).  With [options.noPre]
    nothing is registered and [init] does not run: the object then takes no
    part in the pipeline. *)
Definition PreHandler_new (c : ParsoidConf) (noPre : bool) : PreHandler :=
  let dbg := conf_debug c || hasTraceFlag "pre_debug" c in
  let trc := dbg || hasTraceFlag "pre" c in
  let this := mkPreHandler dbg trc false false false
                STATE_SOL None 0%Z [] None None [] false [] in
  if noPre then this
  else init (mkPreHandler dbg trc true true false
               STATE_SOL None 0%Z [] None None [] false []) true.

(** [moveToIgnoreState] (lines 138-141). *)
Definition moveToIgnoreState (h : PreHandler) : PreHandler :=
  set_anyTransform false (set_state STATE_IGNORE h).

(** [popLastNL(ret)] (lines 143-148): the array after the call and the
    handler after it. *)
Definition popLastNL (h : PreHandler) (ret : list Token)
  : PreHandler * list Token :=
  match lastNlTk h with
  | Some nltk => (set_lastNlTk None h, ret ++ [nltk])
  | None => (h, ret)
  end.

Definition optToList (o : option Token) : list Token :=
  match o with Some t => [t] | None => [] end.

(** [getResultAndReset(token)] (lines 150-168). *)
Definition getResultAndReset (h : PreHandler) (token : Token)
  : PreHandler * list Token :=
  let '(h, ret) := popLastNL h (tokens h) in
  let '(h, ret) :=
    match preWSToken h with
    | Some ws => (set_preWSToken None h, ret ++ [ws])
    | None => (h, ret)
    end in
  let '(h, ret) :=
    match solTransparentTokens h with
    | [] => (h, ret)
    | _ :: _ => (set_solTransparentTokens [] h, ret ++ solTransparentTokens h)
    end in
  let ret := ret ++ [token] in
  (set_multiLinePreWSToken None (set_tokens [] h), ret).

(** The synthesized open tag: [new TagTk('pre', [], da)] with
    [da = { tsr: [preTSR, preTSR+1] }], or [da = null] when [preTSR] is -1. *)
Definition preOpenTag (preTSR : Z) : Token :=
  TagTk "pre" []
    (if (preTSR =? -1)%Z then noDA else tsrDA preTSR (preTSR + 1)).

Definition preCloseTag : Token := EndTagTk "pre" [] noDA.

(** [processPre(token)] (lines 170-203). *)
Definition processPre (h : PreHandler) (token : Token)
  : PreHandler * list Token :=
  let ret :=
    match tokens h with
    | [] => []
    | _ :: _ => [preOpenTag (preTSR h)] ++ [] ++ tokens h ++ [preCloseTag]
    end in
  let '(h, ret) :=
    match multiLinePreWSToken h with
    | Some ws => (set_multiLinePreWSToken None h, ret ++ [ws])
    | None => (h, ret)
    end in
  let '(h, ret) := popLastNL h ret in
  let ret := ret ++ solTransparentTokens h in
  let ret := ret ++ [token] in
  (set_tokens [] (set_solTransparentTokens [] h), ret).

(** [initPreTSR(nltk)] (lines 206-210): [tsr[1]] when it is set and not
    zero, else -1. *)
Definition initPreTSR (nltk : Token) : Z :=
  match nltk with
  | NlTk da =>
      match tsr da with
      | Some (_, e) => if (e =? 0)%Z then (-1)%Z else e
      | None => (-1)%Z
      end
  | _ => (-1)%Z
  end.

(** The trace at the start of a transform and the debug dump at its end. *)
Definition traceStart (mk : State -> Token -> Console) (token : Token)
    (h : PreHandler) : PreHandler :=
  if trace h then
    log (mk (state h) token) (if debug h then log Warn_separator h else h)
  else h.

Definition debugEnd (ret : option (list Token)) (h : PreHandler)
  : PreHandler :=
  if debug h then log (Warn_ret ret) (log (Warn_saved (tokens h)) h) else h.

(** [onNewline(token, manager, cb)] (lines 205-259). *)
Definition onNewline (h : PreHandler) (token : Token)
  : PreHandler * option (list Token) :=
  let h := traceStart Warn_nl token h in
  let '(h, ret) :=
    match state h with
    | STATE_SOL =>
        let '(h, ret) := getResultAndReset h token in
        (set_preTSR (initPreTSR token) h, Some ret)
    | STATE_PRE =>
        let '(h, ret) := getResultAndReset h token in
        (set_state STATE_SOL (set_preTSR (initPreTSR token) h), Some ret)
    | STATE_PRE_COLLECT =>
        (set_state STATE_MULTILINE_PRE (set_lastNlTk (Some token) h), None)
    | STATE_MULTILINE_PRE =>
        let '(h, ret) := processPre h token in
        (set_state STATE_SOL (set_preTSR (initPreTSR token) h), Some ret)
    | STATE_IGNORE =>
        (set_preTSR (initPreTSR token) (init h true), Some [token])
    end in
  (debugEnd ret h, ret).

(** [onEnd(token, manager, cb)] (lines 261-272). *)
Definition onEnd (h : PreHandler) (token : Token)
  : PreHandler * option (list Token) :=
  let h := set_inPre false h in
  match state h with
  | STATE_IGNORE => (init h true, Some [token])
  | st => (init (log (Error_notIgnore st token) h) false, Some [token])
  end.

(** [getUpdatedPreTSR(tsr, token)] (lines 274-287).  Its callers pass
    sol-transparent tokens only: a comment, a self-closing tag or a string.
    (On any other token [token.length] is undefined; the model leaves the
    offset as it is there.) *)
Definition getUpdatedPreTSR (tsr0 : Z) (token : Token) : Z :=
  match token with
  | CommentTk value da =>
      match tsr da with
      | Some (_, e) => e
      | None => if (tsr0 =? -1)%Z then (-1)%Z
                else (JS.zlen value + 7 + tsr0)%Z
      end
  | SelfclosingTagTk _ _ _ => (-1)%Z
  | _ => if (tsr0 =? -1)%Z then tsr0
         else (tsr0 + Z.of_nat (tokenLength token))%Z
  end.

Section Handler.

(** [Util.isTableTag] and [Util.isBlockTag] (mediawiki.Util.js, not under
    src): which tokens are wikitext table tags, which names are HTML block
    elements. *)
Variable isTableTag : Token -> bool.
Variable isBlockTag : string -> bool.

(** [onAny(token, manager, cb)] (lines 289-412), by the parts of its body.
    Lines 291-295: an HTML [pre] tag opens or closes. *)
Definition trackInPre (token : Token) (h : PreHandler) : PreHandler :=
  if isPreOpen token then set_inPre true h
  else if isPreClose token then set_inPre false h
  else h.

(** Lines 309-324: the end of input. *)
Definition onAny_EOF (h : PreHandler) (token : Token)
  : PreHandler * option (list Token) :=
  let '(h, ret) :=
    match state h with
    | STATE_SOL | STATE_PRE =>
        let '(h, ret) := getResultAndReset h token in (h, Some ret)
    | STATE_PRE_COLLECT | STATE_MULTILINE_PRE =>
        let '(h, ret) := processPre h token in (h, Some ret)
    | STATE_IGNORE => (h, None)
    end in
  (init (set_inPre false h) false, ret).

(** Lines 327-347: [case PreHandler.STATE_SOL].  [self] is the method
    itself, called on what follows the first space; what that call returns
    is dropped. *)
Definition onAny_SOL (self : PreHandler -> Token -> PreHandler)
    (h : PreHandler) (token : Token) : PreHandler * option (list Token) :=
  if startsWithSpace token && negb (inPre h) then
    let ret := tokens h in
    let h := set_tokens [] h in
    let h := set_preWSToken (Some (firstChar token)) h in
    let h := set_state STATE_PRE h in
    let h := if negb (isSingleSpace token) then self h (sliced token)
             else h in
    (h, Some ret)
  else if isSolTransparent token then
    let h := set_preTSR (getUpdatedPreTSR (preTSR h) token) h in
    (set_tokens (tokens h ++ [token]) h, None)
  else
    let '(h, ret) := getResultAndReset h token in
    (moveToIgnoreState h, Some ret).

(** Lines 349-366: [case PreHandler.STATE_PRE]. *)
Definition onAny_PRE (h : PreHandler) (token : Token)
  : PreHandler * option (list Token) :=
  if isSolTransparent token then
    (set_solTransparentTokens (solTransparentTokens h ++ [token]) h, None)
  else if isTableTag token
          || (isHTMLTag token && isBlockTag (tagName token)) then
    let '(h, ret) := getResultAndReset h token in
    (moveToIgnoreState h, Some ret)
  else
    let h := set_tokens (tokens h ++ solTransparentTokens h) h in
    let h := set_tokens (tokens h ++ [token]) h in
    let h := set_solTransparentTokens [] h in
    let h := set_preWSToken None h in
    let h := set_multiLinePreWSToken None h in
    (set_state STATE_PRE_COLLECT h, None).

(** Lines 368-379: [case PreHandler.STATE_PRE_COLLECT]. *)
Definition onAny_PRE_COLLECT (h : PreHandler) (token : Token)
  : PreHandler * option (list Token) :=
  if isHTMLTag token && isBlockTag (tagName token) then
    let '(h, ret) := processPre h token in
    (moveToIgnoreState h, Some ret)
  else
    let h := set_preWSToken None h in
    let h := set_multiLinePreWSToken None h in
    (set_tokens (tokens h ++ [token]) h, None).

(** Lines 381-402: [case PreHandler.STATE_MULTILINE_PRE]. *)
Definition onAny_MULTILINE_PRE (self : PreHandler -> Token -> PreHandler)
    (h : PreHandler) (token : Token) : PreHandler * option (list Token) :=
  if startsWithSpace token then
    let '(h, toks) := popLastNL h (tokens h) in
    let h := set_tokens toks h in
    let h := set_state STATE_PRE_COLLECT h in
    let h := set_tokens (tokens h ++ solTransparentTokens h) h in
    let h := set_solTransparentTokens [] h in
    let h := set_multiLinePreWSToken (Some (firstChar token)) h in
    let h := if negb (isSingleSpace token) then self h (sliced token)
             else h in
    (h, None)
  else if isSolTransparent token then
    (set_solTransparentTokens (solTransparentTokens h ++ [token]) h, None)
  else
    let '(h, ret) := processPre h token in
    (moveToIgnoreState h, Some ret).

(** The method as a whole: lines 289-412 with [self] for the method
    itself. *)
Definition onAny_body (self : PreHandler -> Token -> PreHandler)
    (h : PreHandler) (token : Token) : PreHandler * option (list Token) :=
  let h := trackInPre token h in
  let h := traceStart Warn_any token h in
  match state h with
  | STATE_IGNORE => (log (Error_ignore token) h, None)
  | st =>
    let '(h, ret) :=
      match token with
      | EOFTk => onAny_EOF h token
      | _ =>
          match st with
          | STATE_SOL => onAny_SOL self h token
          | STATE_PRE => onAny_PRE h token
          | STATE_PRE_COLLECT => onAny_PRE_COLLECT h token
          | STATE_MULTILINE_PRE => onAny_MULTILINE_PRE self h token
          | STATE_IGNORE => (h, None)
          end
      end in
    (debugEnd ret h, ret)
  end.

(** The method calls itself on [token.slice(1)]; [fuel] bounds the depth
    of these calls, and [onAny] below gives it one more than the token has
    characters. *)
Fixpoint onAny_fuel (fuel : nat) (h : PreHandler) (token : Token)
  : PreHandler * option (list Token) :=
  match fuel with
  | O => (h, None)
  | S fuel' =>
      onAny_body (fun h' token' => fst (onAny_fuel fuel' h' token')) h token
  end.

Definition onAny (h : PreHandler) (token : Token)
  : PreHandler * option (list Token) :=
  onAny_fuel (S (tokenLength token)) h token.

(** Modelled from the spec: the token transform manager
    (mediawiki.TokenTransformManager.js is not under src).  Section 6: the
    newline transform fires on every Newline token and the any-token
    transform on every other token; section 4.4: in [Ignore] the any-token
    transform is unregistered, so tokens pass unchanged.  An end-of-input
    token reaches [onEnd] only when [onAny] is not registered, since what
    [onAny] returns for it carries [skipRank], above [endRank].  A transform
    that returns [{tokens: null}] has consumed the token. *)
Definition passOn (token : Token) (r : PreHandler * option (list Token))
  : PreHandler * list Token :=
  match r with
  | (h, Some toks) => (h, toks)
  | (h, None) => (h, [])
  end.

Definition feed (h : PreHandler) (token : Token) : PreHandler * list Token :=
  match token with
  | NlTk _ =>
      if newlineTransform h then passOn token (onNewline h token)
      else (h, [token])
  | EOFTk =>
      if anyTransform h then passOn token (onAny h token)
      else if endTransform h then passOn token (onEnd h token)
      else (h, [token])
  | _ =>
      if anyTransform h then passOn token (onAny h token)
      else (h, [token])
  end.

(** One pipeline run: the handler after the tokens and what it sent on. *)
Fixpoint run (h : PreHandler) (toks : list Token) : PreHandler * list Token :=
  match toks with
  | [] => (h, [])
  | t :: rest =>
      let '(h1, out1) := feed h t in
      let '(h2, out2) := run h1 rest in
      (h2, out1 ++ out2)
  end.

End Handler.

End Pre.

(** ** Notions used to state the properties of the handler *)

Module PreSpec.
Import Pre.

(** The handler without what it wrote to the console and without its
    debug and trace settings. *)
Definition quiet (h : PreHandler) : PreHandler :=
  mkPreHandler false false (newlineTransform h) (endTransform h)
    (anyTransform h) (state h) (lastNlTk h) (preTSR h) (tokens h)
    (preWSToken h) (multiLinePreWSToken h) (solTransparentTokens h) (inPre h)
    [].

(** [token.isHTMLTag() && Util.isBlockTag(token.name)] *)
Definition isHTMLBlock (isBlockTag : string -> bool) (token : Token) : bool :=
  isHTMLTag token && isBlockTag (tagName token).

(** A token that the any-token transform receives: neither a newline nor
    the end of input. *)
Definition isInline (token : Token) : bool :=
  match token with
  | NlTk _ | EOFTk => false
  | _ => true
  end.

(** A token that keeps [STATE_PRE_COLLECT] collecting. *)
Definition collectable (isBlockTag : string -> bool) (token : Token) : bool :=
  isInline token && negb (isHTMLBlock isBlockTag token).

(** A token that takes [STATE_PRE] to [STATE_PRE_COLLECT]: it is not
    sol-transparent, and neither a table tag nor an HTML block tag. *)
Definition startsContent (isTableTag : Token -> bool)
    (isBlockTag : string -> bool) (token : Token) : bool :=
  isInline token && negb (isSolTransparent token)
  && negb (isTableTag token || isHTMLBlock isBlockTag token).

(** What is left of a text token after its first character, as the list of
    tokens fed on: nothing when the text was that one character. *)
Definition restOfText (s : string) : list Token :=
  match s with
  | EmptyString => []
  | String _ _ => [Str s]
  end.

(** The source range of a tag token. *)
Definition tokenTsr (token : Token) : option (Z * Z) :=
  match token with
  | TagTk _ _ da | EndTagTk _ _ da | SelfclosingTagTk _ _ da
  | CommentTk _ da | NlTk da => tsr da
  | _ => None
  end.

(** *** Offsets of the source

    An offset is [Some] position of the source text, or [None] where it
    is not known. *)








(** The transforms of a handler in the pipeline: the newline and end
    transforms are registered, and the any-token transform is registered
    exactly when the automaton is not in [STATE_IGNORE]. *)
Definition wired (h : PreHandler) : Prop :=
  newlineTransform h = true /\ endTransform h = true
  /\ (anyTransform h = false <-> state h = STATE_IGNORE).

(** What every transform keeps, from the handler [h] before it to the
    handler [h'] after it: the wiring, and the offset [preTSR] unless the
    automaton is then in [STATE_SOL]. *)
Definition kept (h h' : PreHandler) : Prop :=
  (wired h -> wired h')
  /\ (state h' <> STATE_SOL -> preTSR h' = preTSR h).

(** Two handlers with the same automaton state, wiring and offset. *)
Definition sameFrame (h h' : PreHandler) : Prop :=
  state h' = state h /\ anyTransform h' = anyTransform h
  /\ newlineTransform h' = newlineTransform h
  /\ endTransform h' = endTransform h /\ preTSR h' = preTSR h.

(** A handler in the pipeline that has written nothing to the console,
    given by the fields of the automaton. *)
Definition machine (st : State) (ln : option Token) (p : Z)
    (toks : list Token) (pw mw : option Token) (sol : list Token)
    (ip : bool) : PreHandler :=
  mkPreHandler false false true true
    (match st with STATE_IGNORE => false | _ => true end)
    st ln p toks pw mw sol ip [].

(** [inPre] after lines 291-295 have seen [token]. *)
Definition inPreAfter (ip : bool) (token : Token) : bool :=
  if isPreOpen token then true
  else if isPreClose token then false
  else ip.

End PreSpec.

(** An instance of the two predicates of mediawiki.Util.js that the
    handler takes as given, for evaluating it on concrete streams: the
    table tags of wikitext and the block elements of HTML. *)
Module UtilModel.

Definition tableTagNames : list string :=
  ["table"; "tbody"; "caption"; "th"; "tr"; "td"].

Definition blockTagNames : list string :=
  ["div"; "p"; "table"; "tbody"; "tr"; "td"; "th"; "caption"; "ul"; "ol";
   "li"; "dl"; "dt"; "dd"; "h1"; "h2"; "h3"; "h4"; "h5"; "h6"; "hr"; "pre";
   "blockquote"; "center"; "form"; "address"].

Definition isTableTag (token : Token) : bool :=
  match token with
  | TagTk n _ _ | EndTagTk n _ _ => existsb (String.eqb n) tableTagNames
  | _ => false
  end.

Definition isBlockTag (name : string) : bool :=
  existsb (String.eqb name) blockTagNames.

End UtilModel.

(** ** The wikitext serializer (part_000, lines 1-1154) *)

Module WS.

(** *** Exceptions and the console *)

(** What the code can throw: a [TypeError] (a property of [undefined], a
    call of something that is no function), the [SyntaxError] of
    [JSON.parse], the [URIError] of [decodeURIComponent], and the string the
    escaper throws itself. *)
Inductive Exn :=
| TypeError (what : string)
| SyntaxError
| URIError
| NoTsrOnEndToken (token : Token).

(** [console.warn] calls, by the line that makes them. *)
Inductive Console :=
| Warn_noTsrOn (token : Token)           (* line 112 *)
| Warn_caught (e : Exn)                  (* lines 209 and 1067 *)
| Warn_metaArgs (attribs : list KV)      (* line 700 *)
| Warn_debug (token : Token) (res : string)   (* lines 976-981 *)
| Warn_unhandledNode (nodeType : nat).   (* line 1107 *)

(** *** The serializer state (lines 19-55) *)

(** One entry of [listStack]. *)
Record ListCtx := mkListCtx {
  itemCount : nat;
  bullets : string;
  itemBullet : string
}.

(** The state object of one serialization, without its [listStack]: the
    sink [chunkCB] is the list of the chunks it has received, the console
    the list of what was written to it. *)
Record State := mkState {
  onNewline : bool;
  onStartOfLine : bool;
  availableNewlineCount : nat;
  singleLineMode : nat;
  emitNewlineOnNextToken : bool;
  dropContent : bool;
  dropTail : option string;
  prevToken : option Token;
  curToken : option Token;
  prevTagToken : option Token;
  currTagToken : option Token;
  inNoWiki : bool;
  inHTMLPre : bool;
  inIndentPre : bool;
  textHandler : bool;
  chunks : list string;
  console : list Console
}.

Definition set_onNewline (x : bool) (s : State) : State :=
  mkState x (onStartOfLine s) (availableNewlineCount s) (singleLineMode s)
    (emitNewlineOnNextToken s) (dropContent s) (dropTail s) (prevToken s)
    (curToken s) (prevTagToken s) (currTagToken s) (inNoWiki s) (inHTMLPre
    s) (inIndentPre s) (textHandler s) (chunks s) (console s).

Definition set_onStartOfLine (x : bool) (s : State) : State :=
  mkState (onNewline s) x (availableNewlineCount s) (singleLineMode s)
    (emitNewlineOnNextToken s) (dropContent s) (dropTail s) (prevToken s)
    (curToken s) (prevTagToken s) (currTagToken s) (inNoWiki s) (inHTMLPre
    s) (inIndentPre s) (textHandler s) (chunks s) (console s).

Definition set_availableNewlineCount (x : nat) (s : State) : State :=
  mkState (onNewline s) (onStartOfLine s) x (singleLineMode s)
    (emitNewlineOnNextToken s) (dropContent s) (dropTail s) (prevToken s)
    (curToken s) (prevTagToken s) (currTagToken s) (inNoWiki s) (inHTMLPre
    s) (inIndentPre s) (textHandler s) (chunks s) (console s).

Definition set_singleLineMode (x : nat) (s : State) : State :=
  mkState (onNewline s) (onStartOfLine s) (availableNewlineCount s) x
    (emitNewlineOnNextToken s) (dropContent s) (dropTail s) (prevToken s)
    (curToken s) (prevTagToken s) (currTagToken s) (inNoWiki s) (inHTMLPre
    s) (inIndentPre s) (textHandler s) (chunks s) (console s).

Definition set_emitNewlineOnNextToken (x : bool) (s : State) : State :=
  mkState (onNewline s) (onStartOfLine s) (availableNewlineCount s)
    (singleLineMode s) x (dropContent s) (dropTail s) (prevToken s)
    (curToken s) (prevTagToken s) (currTagToken s) (inNoWiki s) (inHTMLPre
    s) (inIndentPre s) (textHandler s) (chunks s) (console s).

Definition set_dropContent (x : bool) (s : State) : State :=
  mkState (onNewline s) (onStartOfLine s) (availableNewlineCount s)
    (singleLineMode s) (emitNewlineOnNextToken s) x (dropTail s) (prevToken
    s) (curToken s) (prevTagToken s) (currTagToken s) (inNoWiki s)
    (inHTMLPre s) (inIndentPre s) (textHandler s) (chunks s) (console s).

Definition set_dropTail (x : option string) (s : State) : State :=
  mkState (onNewline s) (onStartOfLine s) (availableNewlineCount s)
    (singleLineMode s) (emitNewlineOnNextToken s) (dropContent s) x
    (prevToken s) (curToken s) (prevTagToken s) (currTagToken s) (inNoWiki
    s) (inHTMLPre s) (inIndentPre s) (textHandler s) (chunks s) (console s).

Definition set_prevToken (x : option Token) (s : State) : State :=
  mkState (onNewline s) (onStartOfLine s) (availableNewlineCount s)
    (singleLineMode s) (emitNewlineOnNextToken s) (dropContent s) (dropTail
    s) x (curToken s) (prevTagToken s) (currTagToken s) (inNoWiki s)
    (inHTMLPre s) (inIndentPre s) (textHandler s) (chunks s) (console s).

Definition set_curToken (x : option Token) (s : State) : State :=
  mkState (onNewline s) (onStartOfLine s) (availableNewlineCount s)
    (singleLineMode s) (emitNewlineOnNextToken s) (dropContent s) (dropTail
    s) (prevToken s) x (prevTagToken s) (currTagToken s) (inNoWiki s)
    (inHTMLPre s) (inIndentPre s) (textHandler s) (chunks s) (console s).

Definition set_prevTagToken (x : option Token) (s : State) : State :=
  mkState (onNewline s) (onStartOfLine s) (availableNewlineCount s)
    (singleLineMode s) (emitNewlineOnNextToken s) (dropContent s) (dropTail
    s) (prevToken s) (curToken s) x (currTagToken s) (inNoWiki s) (inHTMLPre
    s) (inIndentPre s) (textHandler s) (chunks s) (console s).

Definition set_currTagToken (x : option Token) (s : State) : State :=
  mkState (onNewline s) (onStartOfLine s) (availableNewlineCount s)
    (singleLineMode s) (emitNewlineOnNextToken s) (dropContent s) (dropTail
    s) (prevToken s) (curToken s) (prevTagToken s) x (inNoWiki s) (inHTMLPre
    s) (inIndentPre s) (textHandler s) (chunks s) (console s).

Definition set_inNoWiki (x : bool) (s : State) : State :=
  mkState (onNewline s) (onStartOfLine s) (availableNewlineCount s)
    (singleLineMode s) (emitNewlineOnNextToken s) (dropContent s) (dropTail
    s) (prevToken s) (curToken s) (prevTagToken s) (currTagToken s) x
    (inHTMLPre s) (inIndentPre s) (textHandler s) (chunks s) (console s).

Definition set_inHTMLPre (x : bool) (s : State) : State :=
  mkState (onNewline s) (onStartOfLine s) (availableNewlineCount s)
    (singleLineMode s) (emitNewlineOnNextToken s) (dropContent s) (dropTail
    s) (prevToken s) (curToken s) (prevTagToken s) (currTagToken s)
    (inNoWiki s) x (inIndentPre s) (textHandler s) (chunks s) (console s).

Definition set_inIndentPre (x : bool) (s : State) : State :=
  mkState (onNewline s) (onStartOfLine s) (availableNewlineCount s)
    (singleLineMode s) (emitNewlineOnNextToken s) (dropContent s) (dropTail
    s) (prevToken s) (curToken s) (prevTagToken s) (currTagToken s)
    (inNoWiki s) (inHTMLPre s) x (textHandler s) (chunks s) (console s).

Definition set_textHandler (x : bool) (s : State) : State :=
  mkState (onNewline s) (onStartOfLine s) (availableNewlineCount s)
    (singleLineMode s) (emitNewlineOnNextToken s) (dropContent s) (dropTail
    s) (prevToken s) (curToken s) (prevTagToken s) (currTagToken s)
    (inNoWiki s) (inHTMLPre s) (inIndentPre s) x (chunks s) (console s).

Definition set_chunks (x : list string) (s : State) : State :=
  mkState (onNewline s) (onStartOfLine s) (availableNewlineCount s)
    (singleLineMode s) (emitNewlineOnNextToken s) (dropContent s) (dropTail
    s) (prevToken s) (curToken s) (prevTagToken s) (currTagToken s)
    (inNoWiki s) (inHTMLPre s) (inIndentPre s) (textHandler s) x (console
    s).

Definition set_console (x : list Console) (s : State) : State :=
  mkState (onNewline s) (onStartOfLine s) (availableNewlineCount s)
    (singleLineMode s) (emitNewlineOnNextToken s) (dropContent s) (dropTail
    s) (prevToken s) (curToken s) (prevTagToken s) (currTagToken s)
    (inNoWiki s) (inHTMLPre s) (inIndentPre s) (textHandler s) (chunks s) x.

(** The parts of the prototype object [WSP] that the code writes to.
    [listStack] is [WSP.initialState.listStack]: [$.extend({},
    this.initialState, this.options)] copies the properties of
    [initialState] one by one, so [state.listStack] of every serialization
    is this one array.  The flags are the properties [startsNewline] and
    [newlineTransparent] that handlers of [WSP.tagHandlers] assign to their
    own descriptor ([handler.startsNewline = ...], [this.newlineTransparent
    = ...]). *)
Record Proto := mkProto {
  listStack : list ListCtx;
  ul_startsNewline : bool;
  ol_startsNewline : bool;
  dl_startsNewline : bool;
  li_startsNewline : bool;
  dt_startsNewline : bool;
  dd_startsNewline : bool;
  tableEnd_startsNewline : bool;
  th_startsNewline : bool;
  td_startsNewline : bool;
  meta_newlineTransparent : bool
}.

Definition set_listStack (x : list ListCtx) (w : Proto) : Proto :=
  mkProto x (ul_startsNewline w) (ol_startsNewline w) (dl_startsNewline w)
    (li_startsNewline w) (dt_startsNewline w) (dd_startsNewline w)
    (tableEnd_startsNewline w) (th_startsNewline w) (td_startsNewline w)
    (meta_newlineTransparent w).

Definition set_ul_startsNewline (x : bool) (w : Proto) : Proto :=
  mkProto (listStack w) x (ol_startsNewline w) (dl_startsNewline w)
    (li_startsNewline w) (dt_startsNewline w) (dd_startsNewline w)
    (tableEnd_startsNewline w) (th_startsNewline w) (td_startsNewline w)
    (meta_newlineTransparent w).

Definition set_ol_startsNewline (x : bool) (w : Proto) : Proto :=
  mkProto (listStack w) (ul_startsNewline w) x (dl_startsNewline w)
    (li_startsNewline w) (dt_startsNewline w) (dd_startsNewline w)
    (tableEnd_startsNewline w) (th_startsNewline w) (td_startsNewline w)
    (meta_newlineTransparent w).

Definition set_dl_startsNewline (x : bool) (w : Proto) : Proto :=
  mkProto (listStack w) (ul_startsNewline w) (ol_startsNewline w) x
    (li_startsNewline w) (dt_startsNewline w) (dd_startsNewline w)
    (tableEnd_startsNewline w) (th_startsNewline w) (td_startsNewline w)
    (meta_newlineTransparent w).

Definition set_li_startsNewline (x : bool) (w : Proto) : Proto :=
  mkProto (listStack w) (ul_startsNewline w) (ol_startsNewline w)
    (dl_startsNewline w) x (dt_startsNewline w) (dd_startsNewline w)
    (tableEnd_startsNewline w) (th_startsNewline w) (td_startsNewline w)
    (meta_newlineTransparent w).

Definition set_dt_startsNewline (x : bool) (w : Proto) : Proto :=
  mkProto (listStack w) (ul_startsNewline w) (ol_startsNewline w)
    (dl_startsNewline w) (li_startsNewline w) x (dd_startsNewline w)
    (tableEnd_startsNewline w) (th_startsNewline w) (td_startsNewline w)
    (meta_newlineTransparent w).

Definition set_dd_startsNewline (x : bool) (w : Proto) : Proto :=
  mkProto (listStack w) (ul_startsNewline w) (ol_startsNewline w)
    (dl_startsNewline w) (li_startsNewline w) (dt_startsNewline w) x
    (tableEnd_startsNewline w) (th_startsNewline w) (td_startsNewline w)
    (meta_newlineTransparent w).

Definition set_tableEnd_startsNewline (x : bool) (w : Proto) : Proto :=
  mkProto (listStack w) (ul_startsNewline w) (ol_startsNewline w)
    (dl_startsNewline w) (li_startsNewline w) (dt_startsNewline w)
    (dd_startsNewline w) x (th_startsNewline w) (td_startsNewline w)
    (meta_newlineTransparent w).

Definition set_th_startsNewline (x : bool) (w : Proto) : Proto :=
  mkProto (listStack w) (ul_startsNewline w) (ol_startsNewline w)
    (dl_startsNewline w) (li_startsNewline w) (dt_startsNewline w)
    (dd_startsNewline w) (tableEnd_startsNewline w) x (td_startsNewline w)
    (meta_newlineTransparent w).

Definition set_td_startsNewline (x : bool) (w : Proto) : Proto :=
  mkProto (listStack w) (ul_startsNewline w) (ol_startsNewline w)
    (dl_startsNewline w) (li_startsNewline w) (dt_startsNewline w)
    (dd_startsNewline w) (tableEnd_startsNewline w) (th_startsNewline w) x
    (meta_newlineTransparent w).

Definition set_meta_newlineTransparent (x : bool) (w : Proto) : Proto :=
  mkProto (listStack w) (ul_startsNewline w) (ol_startsNewline w)
    (dl_startsNewline w) (li_startsNewline w) (dt_startsNewline w)
    (dd_startsNewline w) (tableEnd_startsNewline w) (th_startsNewline w)
    (td_startsNewline w) x.

(** [WSP.initialState] (lines 49-55): the state a serialization starts
    from; the properties the code reads before it has set them are
    [undefined], here [false] or [None]. *)
Definition initialState : State :=
  mkState true true 0 0 false false None None None None None
    false false false false [] [].

(** The handler table as it is when the module has been loaded. *)
Definition initialProto : Proto :=
  mkProto [] true true true false false false false false false false.

(** What a serialization works on: the prototype object and its own state. *)
Record World := mkWorld {
  proto : Proto;
  state : State
}.

(** *** Computations that change the world and can throw *)

Inductive Result (A : Type) :=
| Ok (a : A)
| Throw (e : Exn).
Arguments Ok {A} a.
Arguments Throw {A} e.

Definition M (A : Type) : Type := World -> Result A * World.

Definition ret {A : Type} (a : A) : M A := fun w => (Ok a, w).

Definition bind {A B : Type} (m : M A) (f : A -> M B) : M B :=
  fun w =>
    match m w with
    | (Ok a, w') => f a w'
    | (Throw e, w') => (Throw e, w')
    end.

Definition throw {A : Type} (e : Exn) : M A := fun w => (Throw e, w).

Notation "x <- m ;; f" := (bind m (fun x => f))
  (at level 100, m at next level, right associativity).
Notation "m ;;; f" := (bind m (fun _ => f))
  (at level 100, right associativity).

Definition getState : M State := fun w => (Ok (state w), w).
Definition getProto : M Proto := fun w => (Ok (proto w), w).

Definition modifyState (f : State -> State) : M unit :=
  fun w => (Ok tt, mkWorld (proto w) (f (state w))).

Definition modifyProto (f : Proto -> Proto) : M unit :=
  fun w => (Ok tt, mkWorld (f (proto w)) (state w)).

(** [state.chunkCB(out)] *)
Definition chunkCB (out : string) : M unit :=
  modifyState (fun s => set_chunks (chunks s ++ [out]) s).

Definition warn (c : Console) : M unit :=
  modifyState (fun s => set_console (console s ++ [c]) s).

(** [if (cond) body] *)
Definition when (cond : bool) (body : M unit) : M unit :=
  if cond then body else ret tt.

(** *** The environment *)

(** [state.env] and the built-in functions whose code is not part of the
    serializer: the tokenizer [new PegTokenizer(env).process(text)] with the
    tokens of all its chunks, [env.KVtoHash], [env.wgScriptPath],
    [env.normalizeTitle], [env.tokensToString] (of a value that may be
    [undefined]), [env.debug], [decodeURIComponent] ([None]: it throws) and
    [JSON.parse] of a [data-mw] attribute ([None]: it throws). *)
Record Env := mkEnv {
  tokenize : string -> list Token;
  KVtoHash : list KV -> gmap string string;
  wgScriptPath : string;
  normalizeTitle : string -> string;
  tokensToString : option string -> string;
  debug : bool;
  decodeURIComponent : string -> option string;
  JSON_parse : string -> option DataAttribs
}.

(** Modelled from the spec: [env.KVtoHash] of mediawiki.parser.environment.js,
    which is not under src.  Section 3: the keys of an attribute list need
    not be unique and are treated as last-wins when interpreted. *)
Definition lastWins (kvs : list KV) : gmap string string :=
  foldl (fun (m : gmap string string) kv => <[k kv := v kv]> m) ∅ kvs.

(** An environment for evaluating the serializer on concrete inputs: its
    tokenizer returns the text as one string token and the end of input,
    which is what a tokenizer returns for text without markup. *)
Definition plainEnv : Env :=
  mkEnv (fun text => [Str text; EOFTk]) lastWins "" (fun t => t)
    (fun t => match t with Some s => s | None => "undefined" end)
    false (fun s => Some s) (fun _ => Some noDA).



Section Serializer.

Variable env : Env.

(** *** The escaper: WSP.escapeWikiText (lines 57-218) *)

(** [WSP._inStartOfLineContext] and [WSP._inNewLineContext] (lines 226-236). *)
Definition _inStartOfLineContext (s : State) : bool :=
  onStartOfLine s || emitNewlineOnNextToken s
  || Nat.ltb 0 (availableNewlineCount s).

Definition _inNewLineContext (s : State) : bool :=
  onNewline s || emitNewlineOnNextToken s
  || Nat.ltb 0 (availableNewlineCount s).

(** [token.dataAttribs.tsr] *)
Definition tokenTsr (token : Token) : option (Z * Z) :=
  match token with
  | TagTk _ _ da | EndTagTk _ _ da | SelfclosingTagTk _ _ da
  | CommentTk _ da | NlTk da => tsr da
  | Str _ | EOFTk => None
  end.

(** [s.replace(/<(\/?nowiki)>/g, '&lt;$1&gt;')] (line 141).  [skip] counts
    the characters of a match that are still to be passed over. *)
Fixpoint escapeNowikiFrom (skip : nat) (s : string) : string :=
  match s with
  | EmptyString => EmptyString
  | String c s' =>
      match skip with
      | S n => escapeNowikiFrom n s'
      | O =>
          if JS.isPrefix "<nowiki>" s
          then "&lt;nowiki&gt;" +:+ escapeNowikiFrom 7 s'
          else if JS.isPrefix "</nowiki>" s
          then "&lt;/nowiki&gt;" +:+ escapeNowikiFrom 8 s'
          else String c (escapeNowikiFrom O s')
      end
  end.

Definition escapeNowiki (s : string) : string := escapeNowikiFrom 0 s.

(** The variables of [escapeWikiText] that [wrapNonTextTokens] and the
    loop over the tokens share. *)
Record Escaping := mkEscaping {
  outTexts : list string;
  nonTextTokenAccum : list Token;
  cursor : Z
}.

(** What a step of the escaper leaves: the shared variables, the warnings
    it wrote, and the exception it threw, if any. *)
Definition Escaped : Type := Escaping * list Console * option Exn.

(** [wrapNonTextTokens()] (lines 104-151). *)
Definition wrapNonTextTokens (text : string) (inNewlineContext : bool)
    (e : Escaping) : Escaped :=
  match nonTextTokenAccum e with
  | [] => (e, [], None)
  | first :: _ =>
      let lastToken := List.last (nonTextTokenAccum e) first in
      let '(rangeStart, cursor1, warned) :=
        match tokenTsr first with
        | None => (cursor e, cursor e, [Warn_noTsrOn first])
        | Some (a, _) =>
            let rangeStart := if inNewlineContext then a else (a - 1)%Z in
            (rangeStart, rangeStart, [])
        end in
      let '(rangeEnd, missingRangeEnd) :=
        match tokenTsr lastToken with
        | None => (JS.zlen text, true)
        | Some (_, b) =>
            (if inNewlineContext then b else (b - 1)%Z, false)
        end in
      let escapedSource :=
        escapeNowiki (JS.substr text rangeStart (rangeEnd - rangeStart)) in
      let out := outTexts e ++ ["<nowiki>"; escapedSource; "</nowiki>"] in
      let cursor2 := (cursor1 + 17 + JS.zlen escapedSource)%Z in
      if missingRangeEnd then
        (mkEscaping out (nonTextTokenAccum e) cursor2, warned,
         Some (NoTsrOnEndToken lastToken))
      else (mkEscaping out [] cursor2, warned, None)
  end.

(** Line 178-183: a token of generated content that carries its source. *)
Definition hasSourceOfGeneratedContent (token : Token) : bool :=
  match token with
  | TagTk _ (kv :: _) da =>
      String.eqb (k kv) "data-mw-gc" && String.eqb (v kv) "both"
      && match src da with Some s => JS.nonEmpty s | None => false end
  | _ => false
  end.

Definition srcOf (token : Token) : string :=
  match token with
  | TagTk _ _ da =>
      match src da with Some s => s | None => EmptyString end
  | _ => EmptyString
  end.

(** The loop over the tokens (lines 153-207).  [skipTo] is the name of the
    end tag that the inner loop of lines 191-197 is looking for. *)
Fixpoint escapeTokens (text : string) (inNewlineContext : bool)
    (skipTo : option string) (toks : list Token) (e : Escaping) : Escaped :=
  match toks with
  | [] => (e, [], None)
  | token :: rest =>
      match skipTo with
      | Some name =>
          match token with
          | EndTagTk n _ _ =>
              if String.eqb n name
              then escapeTokens text inNewlineContext None rest e
              else escapeTokens text inNewlineContext skipTo rest e
          | _ => escapeTokens text inNewlineContext skipTo rest e
          end
      | None =>
          let wrapThen (next : Escaping -> Escaped) : Escaped :=
            match wrapNonTextTokens text inNewlineContext e with
            | (e1, warned, Some exn) => (e1, warned, Some exn)
            | (e1, warned, None) =>
                let '(e2, warned2, exn) := next e1 in
                (e2, warned ++ warned2, exn)
            end in
          match token with
          | Str s =>
              wrapThen (fun e1 =>
                escapeTokens text inNewlineContext None rest
                  (mkEscaping (outTexts e1 ++ [s]) (nonTextTokenAccum e1)
                     (cursor e1 + JS.zlen s)%Z))
          | NlTk _ =>
              wrapThen (fun e1 =>
                escapeTokens text inNewlineContext None rest
                  (mkEscaping (outTexts e1 ++ [JS.nl]) (nonTextTokenAccum e1)
                     (cursor e1 + 1)%Z))
          | EOFTk =>
              wrapThen (fun e1 =>
                escapeTokens text inNewlineContext None rest e1)
          | TagTk name _ _ =>
              if hasSourceOfGeneratedContent token then
                wrapThen (fun e1 =>
                  escapeTokens text inNewlineContext (Some name) rest
                    (mkEscaping (outTexts e1 ++ [srcOf token])
                       (nonTextTokenAccum e1) (cursor e1)))
              else
                escapeTokens text inNewlineContext None rest
                  (mkEscaping (outTexts e) (nonTextTokenAccum e ++ [token])
                     (cursor e))
          | _ =>
              escapeTokens text inNewlineContext None rest
                (mkEscaping (outTexts e) (nonTextTokenAccum e ++ [token])
                   (cursor e))
          end
      end
  end.

(** The tokens by what the loop does with them: a string or newline token
    is text and goes to the output; any other token but the end of input
    and a tag of generated content with its source is kept as part of a
    run of non-text tokens. *)
Definition isTextToken (token : Token) : bool :=
  match token with
  | Str _ | NlTk _ => true
  | _ => false
  end.

Definition textOf (token : Token) : string :=
  match token with
  | Str s => s
  | NlTk _ => JS.nl
  | _ => EmptyString
  end.

Definition accumulates (token : Token) : bool :=
  match token with
  | Str _ | NlTk _ | EOFTk => false
  | _ => negb (hasSourceOfGeneratedContent token)
  end.


(** Lines 86-93: the guard character is taken off the first token. *)
Definition stripGuard (tokens : list Token) : Result (list Token) :=
  match tokens with
  | Str s :: rest =>
      if String.eqb s "_" then Ok rest
      else Ok (Str (JS.substr s 1 (JS.zlen s)) :: rest)
  | _ :: _ => Throw (TypeError "tokens[0].substr is not a function")
  | [] => Throw (TypeError "tokens[0] is undefined")
  end.

(** Lines 70-80: the text that is tokenized.  Outside a newline context
    a guard character goes in front of it, and in an indent-pre after every
    newline. *)
Definition guardedText (s : State) (text : string) : string :=
  let prefixedText :=
    if _inNewLineContext s then text else "_" +:+ text in
  if inIndentPre s
  then JS.replaceAll JS.nl (JS.nl +:+ "_") prefixedText
  else prefixedText.

(** Lines 212-217: the result, with the guards after newlines taken out. *)
Definition unguarded (s : State) (e : Escaping) : string :=
  let res := JS.join "" (outTexts e) in
  if inIndentPre s then JS.replaceAll (JS.nl +:+ "_") JS.nl res else res.

(** The tokens that the loop goes over: those of the tokenizer, without
    the guard. *)
Definition tokensToEscape (s : State) (text : string)
  : Result (list Token) :=
  let tokens := tokenize env (guardedText s text) in
  if _inNewLineContext s then Ok tokens else stripGuard tokens.

(** What the [catch] of line 208 writes to the console. *)
Definition caughtWarning (exn : option Exn) : list Console :=
  match exn with
  | Some caught => [Warn_caught caught]
  | None => []
  end.

(** [WSP.escapeWikiText(state, text)]. *)
Definition escapeWikiText (text : string) : M string :=
  s <- getState ;;
  tokens <- (match tokensToEscape s text with
             | Ok toks => ret toks
             | Throw e => throw e
             end) ;;
  let '(e, warned, exn) :=
    escapeTokens text (_inNewLineContext s) None tokens
      (mkEscaping [] [] 0%Z) in
  modifyState (fun s =>
    set_console (console s ++ warned ++ caughtWarning exn) s) ;;;
  ret (unguarded s e).

(** *** The tag handlers (lines 238-469) *)

Definition tokenAttribs (token : Token) : list KV :=
  match token with
  | TagTk _ a _ | EndTagTk _ a _ | SelfclosingTagTk _ a _ => a
  | _ => []
  end.

Definition tokenDA (token : Token) : DataAttribs :=
  match token with
  | TagTk _ _ da | EndTagTk _ _ da | SelfclosingTagTk _ _ da
  | CommentTk _ da | NlTk da => da
  | _ => noDA
  end.

Definition tokenName (token : Token) : string := Pre.tagName token.

Definition isTagTk (token : Token) : bool :=
  match token with TagTk _ _ _ => true | _ => false end.

Definition isEndTagTk (token : Token) : bool :=
  match token with EndTagTk _ _ _ => true | _ => false end.

(** [o === s] for a property [o] that may be [undefined]. *)
Definition isStr (o : option string) (s : string) : bool :=
  match o with Some x => String.eqb x s | None => false end.

(** A string property that is set and not empty. *)
Definition truthy (o : option string) : bool :=
  match o with Some x => JS.nonEmpty x | None => false end.

(** ['<' + o + '>'] and the like: [undefined] prints as its name. *)
Definition printed (o : option string) : string :=
  match o with Some x => x | None => "undefined" end.

(** [x.constructor] of a token that may be [undefined]. *)
Definition defined (what : string) (o : option Token) : M Token :=
  match o with
  | Some t => ret t
  | None => throw (TypeError what)
  end.

(** The list, list item and table cell tags, whose handlers write the
    [startsNewline] of their own descriptor. *)
Inductive ListTag := UL | OL | DL.
Inductive ItemTag := LI | DT | DD.
Inductive CellTag := TH | TD.

Definition setListStartsNewline (tag : ListTag) (b : bool) : M unit :=
  modifyProto (match tag with
               | UL => set_ul_startsNewline b
               | OL => set_ol_startsNewline b
               | DL => set_dl_startsNewline b
               end).

Definition setItemStartsNewline (tag : ItemTag) (b : bool) : M unit :=
  modifyProto (match tag with
               | LI => set_li_startsNewline b
               | DT => set_dt_startsNewline b
               | DD => set_dd_startsNewline b
               end).

Definition setCellStartsNewline (tag : CellTag) (b : bool) : M unit :=
  modifyProto (match tag with
               | TH => set_th_startsNewline b
               | TD => set_td_startsNewline b
               end).

(** [stack.last()] with its [itemCount] and [itemBullet] changed in place. *)
Fixpoint updateLast (f : ListCtx -> ListCtx) (stack : list ListCtx)
  : list ListCtx :=
  match stack with
  | [] => []
  | [c] => [f c]
  | c :: rest => c :: updateLast f rest
  end.

Definition lastCtx (stack : list ListCtx) : option ListCtx :=
  match stack with
  | [] => None
  | c :: rest => Some (List.last rest c)
  end.

(** [isListItem(token)] of _listHandler (lines 239-244). *)
Definition isListItem (token : Token) : bool :=
  match token with
  | TagTk n _ _ =>
      String.eqb n "li" || String.eqb n "dt" || String.eqb n "dd"
  | _ => false
  end.

(** [WSP._listHandler(handler, bullet, state, token)] (lines 238-278). *)
Definition _listHandler (tag : ListTag) (bullet : string) (token : Token)
  : M string :=
  s <- getState ;;
  when (Nat.ltb 0 (singleLineMode s))
       (modifyState (set_singleLineMode (singleLineMode s - 1))) ;;;
  w <- getProto ;;
  found <-
    match lastCtx (listStack w) with
    | None =>
        setListStartsNewline tag true ;;;
        ret (bullet, bullet)
    | Some curList =>
        let bulletsNow := bullets curList +:+ itemBullet curList +:+ bullet in
        modifyProto (fun w =>
          set_listStack
            (updateLast (fun c => mkListCtx (S (itemCount c)) (bullets c)
                                    (itemBullet c)) (listStack w)) w) ;;;
        nested <-
          (if Nat.ltb 1 (S (itemCount curList)) then
             prev <- defined "token.constructor" (prevToken s) ;;
             ret (negb (isListItem prev))
           else ret false) ;;
        if nested : bool then
          setListStartsNewline tag true ;;;
          ret (bulletsNow, bulletsNow)
        else
          setListStartsNewline tag false ;;;
          ret (bulletsNow, bullet)
    end ;;
  let '(bulletsNow, res) := found in
  modifyProto (fun w =>
    set_listStack (listStack w ++ [mkListCtx 0 bulletsNow ""]) w) ;;;
  ret res.

(** [WSP._listEndHandler] (lines 280-283). *)
Definition _listEndHandler : M string :=
  modifyProto (fun w => set_listStack (removelast (listStack w)) w) ;;;
  ret "".

(** [WSP._listItemHandler(handler, bullet, state, token)] (lines 285-337). *)
Definition _listItemHandler (tag : ItemTag) (bullet : string) (token : Token)
  : M string :=
  w <- getProto ;;
  match lastCtx (listStack w) with
  | None => throw (TypeError "curList.itemCount")
  | Some curList =>
      modifyProto (fun w =>
        set_listStack
          (updateLast (fun c => mkListCtx (S (itemCount c)) (bullets c) bullet)
             (listStack w)) w) ;;;
      s <- getState ;;
      prefixed <-
        (if Nat.ltb 1 (S (itemCount curList)) then
           if _inStartOfLineContext s then ret true
           else
             prev <- defined "state.prevToken.constructor" (prevToken s) ;;
             if isEndTagTk prev && String.eqb (tokenName prev) (tokenName token)
             then ret true
             else if String.eqb (tokenName token) "dd"
                     && negb (isStr (stx (tokenDA token)) "row") then
               prevTag <- defined "state.prevTagToken.constructor"
                            (prevTagToken s) ;;
               ret (isEndTagTk prevTag && String.eqb (tokenName prevTag) "dt")
             else ret false
         else ret false) ;;
      if prefixed : bool then
        setItemStartsNewline tag true ;;;
        ret (bullets curList +:+ bullet)
      else
        setItemStartsNewline tag false ;;;
        ret bullet
  end.

(** [WSP._serializeTableTag(symbol, optionEndSymbol, state, token)]
    (lines 339-345). *)
Definition _serializeTableTag (symbol optionEndSymbol : string)
    (token : Token) : string :=
  match tokenAttribs token with
  | [] => symbol
  | attribs =>
      symbol +:+ " " +:+ Attributes._serializeAttributes attribs
      +:+ optionEndSymbol
  end.

(** The names that every JavaScript object inherits from
    [Object.prototype]: looked up in [WSP._emptyTags] or [WSP.tagHandlers]
    they give a function or an object, which is truthy and has none of the
    properties the code asks for. *)
Definition inheritedNames : list string :=
  ["constructor"; "__proto__"; "toString"; "toLocaleString"; "valueOf";
   "hasOwnProperty"; "isPrototypeOf"; "propertyIsEnumerable";
   "__defineGetter__"; "__defineSetter__"; "__lookupGetter__";
   "__lookupSetter__"].

Definition isInherited (name : string) : bool :=
  existsb (String.eqb name) inheritedNames.

(** [WSP._emptyTags[name]] (line 347) as a condition. *)
Definition _emptyTags (name : string) : bool :=
  String.eqb name "br" || String.eqb name "meta" || isInherited name.

(** [WSP._serializeHTMLTag] (lines 349-369). *)
Definition _serializeHTMLTag (token : Token) : M string :=
  let close := if _emptyTags (tokenName token) then "/" else "" in
  when (String.eqb (tokenName token) "pre")
       (modifyState (set_inHTMLPre true)) ;;;
  match tokenAttribs token with
  | [] => ret ("<" +:+ tokenName token +:+ close +:+ ">")
  | attribs =>
      ret ("<" +:+ tokenName token +:+ " "
           +:+ Attributes._serializeAttributes attribs +:+ close +:+ ">")
  end.

(** [WSP._serializeHTMLEndTag] (lines 371-380). *)
Definition _serializeHTMLEndTag (token : Token) : M string :=
  when (String.eqb (tokenName token) "pre")
       (modifyState (set_inHTMLPre false)) ;;;
  if negb (_emptyTags (tokenName token))
  then ret ("</" +:+ tokenName token +:+ ">")
  else ret "".

(** [WSP._linkHandler] (lines 382-452). *)
Definition _linkHandler (token : Token) : M string :=
  let attribDict := KVtoHash env (tokenAttribs token) in
  let tokenData := tokenDA token in
  match attribDict !! "href" with
  | Some href =>
      if truthy (attribDict !! "rel") then
        if isStr (attribDict !! "rel") "mw:wikiLink" then
          let base := wgScriptPath env in
          let prefix := JS.substr href 0 (JS.zlen base) in
          let target :=
            if String.eqb prefix base
            then JS.substrFrom href (JS.zlen base) else href in
          target <- match decodeURIComponent env target with
                    | Some t => ret t
                    | None => throw URIError
                    end ;;
          target <-
            (if truthy (tail tokenData) then
               modifyState (set_dropTail (tail tokenData)) ;;;
               ret (if gc tokenData then sHref tokenData
                    else Some (JS.replaceAll "_" " " target))
             else
               match sHref tokenData with
               | Some (String c origRest) =>
                   let origLinkTgt := String c origRest in
                   let normalizedOrigLinkTgt :=
                     normalizeTitle env
                       (tokensToString env (Some origLinkTgt)) in
                   ret (if String.eqb normalizedOrigLinkTgt target
                        then Some origLinkTgt else Some target)
               | _ => ret (Some (JS.replaceAll "_" " " target))
               end) ;;
          let target := tokensToString env target in
          if gc tokenData then
            modifyState (set_dropContent true) ;;;
            ret ("[[" +:+ target)
          else ret ("[[" +:+ target +:+ "|")
        else if isStr (attribDict !! "rel") "mw:extLink" then
          if isStr (stx tokenData) "urllink" then
            modifyState (set_dropContent true) ;;;
            ret href
          else if gc tokenData then
            modifyState (set_dropContent true) ;;;
            ret ("[" +:+ href)
          else ret ("[" +:+ href +:+ " ")
        else _serializeHTMLTag token
      else _serializeHTMLTag token
  | None => _serializeHTMLTag token
  end.

(** [WSP._linkEndHandler] (lines 453-469). *)
Definition _linkEndHandler (token : Token) : M string :=
  let attribDict := KVtoHash env (tokenAttribs token) in
  match attribDict !! "href" with
  | Some _ =>
      if truthy (attribDict !! "rel") then
        if isStr (attribDict !! "rel") "mw:wikiLink" then
          modifyState (set_dropContent false) ;;;
          modifyState (set_dropTail None) ;;;
          ret ("]]" +:+ (if truthy (tail (tokenDA token))
                         then printed (tail (tokenDA token)) else ""))
        else if isStr (attribDict !! "rel") "mw:extLink" then
          modifyState (set_dropContent false) ;;;
          ret (if isStr (stx (tokenDA token)) "urllink" then "" else "]")
        else _serializeHTMLEndTag token
      else _serializeHTMLEndTag token
  | None => _serializeHTMLEndTag token
  end.

(** *** WSP.tagHandlers (lines 498-808) *)

(** The [handle] functions of the table. *)
Inductive Handle :=
| H_body
| H_list (tag : ListTag) (bullet : string)
| H_listEnd
| H_listItem (tag : ItemTag) (bullet : string)
| H_tableTag (symbol optionEndSymbol : string)
| H_tableEnd
| H_cell (tag : CellTag) (rowSymbol symbol : string)
| H_tr
| H_preStart
| H_preEnd
| H_meta
| H_spanStart
| H_spanEnd
| H_id (text : string)
| H_link
| H_linkEnd
| H_htmlTag
| H_htmlEndTag.

(** [handler.handle(state, token)] for each of them. *)
Definition runHandle (h : Handle) (token : Token) : M string :=
  match h with
  | H_body =>
      modifyState (set_emitNewlineOnNextToken false) ;;; ret ""
  | H_list tag bullet => _listHandler tag bullet token
  | H_listEnd => _listEndHandler
  | H_listItem tag bullet => _listItemHandler tag bullet token
  | H_tableTag symbol optionEndSymbol =>
      ret (_serializeTableTag symbol optionEndSymbol token)
  | H_tableEnd =>
      s <- getState ;;
      modifyProto
        (set_tableEnd_startsNewline
           (match prevTagToken s with
            | Some t => String.eqb (tokenName t) "tr"
            | None => false
            end)) ;;;
      ret "|}"
  | H_cell tag rowSymbol symbol =>
      if isStr (stx_v (tokenDA token)) "row" then
        setCellStartsNewline tag false ;;;
        ret (_serializeTableTag rowSymbol " |" token)
      else
        setCellStartsNewline tag true ;;;
        ret (_serializeTableTag symbol " |" token)
  | H_tr =>
      s <- getState ;;
      prev <- defined "state.prevToken.constructor" (prevToken s) ;;
      if isTagTk prev && String.eqb (tokenName prev) "tbody" then ret ""
      else ret (_serializeTableTag "|-" "" token)
  | H_preStart =>
      modifyState (set_inIndentPre true) ;;;
      modifyState (set_textHandler true) ;;;
      ret " "
  | H_preEnd =>
      modifyState (set_inIndentPre false) ;;;
      modifyState (set_textHandler false) ;;;
      ret ""
  | H_meta =>
      let argDict := KVtoHash env (tokenAttribs token) in
      if isStr (argDict !! "typeof") "mw:tag" then
        modifyProto (set_meta_newlineTransparent true) ;;;
        (if isStr (argDict !! "content") "nowiki" then
           modifyState (set_inNoWiki true)
         else if isStr (argDict !! "content") "/nowiki" then
           modifyState (set_inNoWiki false)
         else warn (Warn_metaArgs (tokenAttribs token))) ;;;
        ret ("<" +:+ printed (argDict !! "content") +:+ ">")
      else if isStr (argDict !! "typeof") "mw:noinclude" then
        modifyProto (set_meta_newlineTransparent true) ;;;
        if isStr (src (tokenDA token)) "<noinclude>"
        then ret "<noinclude>" else ret "</noinclude>"
      else
        modifyProto (set_meta_newlineTransparent false) ;;;
        _serializeHTMLTag token
  | H_spanStart =>
      let argDict := KVtoHash env (tokenAttribs token) in
      if isStr (argDict !! "data-mw-gc") "both"
         && truthy (src (tokenDA token)) then
        modifyState (set_dropContent true) ;;;
        ret (printed (src (tokenDA token)))
      else if isStr (argDict !! "data-mw-gc") "wrapper" then
        ret "<nowiki>"
      else _serializeHTMLTag token
  | H_spanEnd =>
      let argDict := KVtoHash env (tokenAttribs token) in
      if isStr (argDict !! "data-mw-gc") "both"
         && truthy (src (tokenDA token)) then
        modifyState (set_dropContent false) ;;;
        ret ""
      else if isStr (argDict !! "data-mw-gc") "wrapper" then
        ret "</nowiki>"
      else _serializeHTMLEndTag token
  | H_id text => ret text
  | H_link => _linkHandler token
  | H_linkEnd => _linkEndHandler token
  | H_htmlTag => _serializeHTMLTag token
  | H_htmlEndTag => _serializeHTMLEndTag token
  end.

(** An emission descriptor: the properties of one [start] or [end] object
    of the table.  A [pairSepNLCount] that is not set is 0, a [singleLine]
    that is not set is 0. *)
Record Desc := mkDesc {
  startsNewline : bool;
  endsLine : bool;
  pairSepNLCount : nat;
  newlineTransparent : bool;
  singleLine : Z;
  ignore : bool;
  handle : option Handle
}.

(** [{}] *)
Definition emptyDesc : Desc := mkDesc false false 0 false 0 false None.

Definition heading (marks : string) : Desc * Desc :=
  (mkDesc true false 0 false 0 false (Some (H_id marks)),
   mkDesc false true 0 false 0 false (Some (H_id marks))).

(** [WSP.tagHandlers[name].start] and [.end], with the two properties that
    handlers write read from the prototype object; [None] where the table
    has no entry for the name or the entry no such property. *)
Definition tableStart (w : Proto) (name : string) : option Desc :=
  if String.eqb name "body" then
    Some (mkDesc false false 0 false 0 false (Some H_body))
  else if String.eqb name "ul" then
    Some (mkDesc (ul_startsNewline w) false 2 true 0 false
            (Some (H_list UL "*")))
  else if String.eqb name "ol" then
    Some (mkDesc (ol_startsNewline w) false 2 true 0 false
            (Some (H_list OL "#")))
  else if String.eqb name "dl" then
    Some (mkDesc (dl_startsNewline w) false 2 false 0 false
            (Some (H_list DL "")))
  else if String.eqb name "li" then
    Some (mkDesc (li_startsNewline w) false 1 false 1 false
            (Some (H_listItem LI "")))
  else if String.eqb name "dt" then
    Some (mkDesc (dt_startsNewline w) false 1 true 1 false
            (Some (H_listItem DT ";")))
  else if String.eqb name "dd" then
    Some (mkDesc (dd_startsNewline w) false 1 true 1 false
            (Some (H_listItem DD ":")))
  else if String.eqb name "table" then
    Some (mkDesc false false 0 false 0 false (Some (H_tableTag "{|" "")))
  else if String.eqb name "tbody" then
    Some (mkDesc false false 0 false 0 true None)
  else if String.eqb name "th" then
    Some (mkDesc (th_startsNewline w) false 0 false 0 false
            (Some (H_cell TH "!!" "!")))
  else if String.eqb name "tr" then
    Some (mkDesc true false 0 false 0 false (Some H_tr))
  else if String.eqb name "td" then
    Some (mkDesc (td_startsNewline w) false 0 false 0 false
            (Some (H_cell TD "||" "|")))
  else if String.eqb name "caption" then
    Some (mkDesc true false 0 false 0 false (Some (H_tableTag "|+" " |")))
  else if String.eqb name "p" then
    Some (mkDesc true false 2 false 0 false None)
  else if String.eqb name "pre" then
    Some (mkDesc true false 0 false 0 false (Some H_preStart))
  else if String.eqb name "meta" then
    Some (mkDesc false false 0 (meta_newlineTransparent w) 0 false
            (Some H_meta))
  else if String.eqb name "span" then
    Some (mkDesc false false 0 false 0 false (Some H_spanStart))
  else if String.eqb name "hr" then
    Some (mkDesc true true 0 false 0 false (Some (H_id "----")))
  else if String.eqb name "h1" then Some (fst (heading "="))
  else if String.eqb name "h2" then Some (fst (heading "=="))
  else if String.eqb name "h3" then Some (fst (heading "==="))
  else if String.eqb name "h4" then Some (fst (heading "===="))
  else if String.eqb name "h5" then Some (fst (heading "====="))
  else if String.eqb name "h6" then Some (fst (heading "======"))
  else if String.eqb name "br" then
    Some (mkDesc true true 0 false 0 false (Some (H_id "")))
  else if String.eqb name "b" then
    Some (mkDesc false false 0 false 0 false (Some (H_id "'''")))
  else if String.eqb name "i" then
    Some (mkDesc false false 0 false 0 false (Some (H_id "''")))
  else if String.eqb name "a" then
    Some (mkDesc false false 0 false 0 false (Some H_link))
  else None.

Definition tableEnd (w : Proto) (name : string) : option Desc :=
  if String.eqb name "ul" || String.eqb name "ol" || String.eqb name "dl"
  then Some (mkDesc false true 0 false 0 false (Some H_listEnd))
  else if String.eqb name "li" || String.eqb name "dt" then
    Some (mkDesc false false 0 false (-1) false None)
  else if String.eqb name "dd" then
    Some (mkDesc false true 0 false (-1) false None)
  else if String.eqb name "table" then
    Some (mkDesc (tableEnd_startsNewline w) false 0 false 0 false
            (Some H_tableEnd))
  else if String.eqb name "tbody" then
    Some (mkDesc false false 0 false 0 true None)
  else if String.eqb name "p" then
    Some (mkDesc false true 0 false 0 false None)
  else if String.eqb name "pre" then
    Some (mkDesc false true 0 false 0 false (Some H_preEnd))
  else if String.eqb name "span" then
    Some (mkDesc false false 0 false 0 false (Some H_spanEnd))
  else if String.eqb name "h1" then Some (snd (heading "="))
  else if String.eqb name "h2" then Some (snd (heading "=="))
  else if String.eqb name "h3" then Some (snd (heading "==="))
  else if String.eqb name "h4" then Some (snd (heading "===="))
  else if String.eqb name "h5" then Some (snd (heading "====="))
  else if String.eqb name "h6" then Some (snd (heading "======"))
  else if String.eqb name "b" then
    Some (mkDesc false false 0 false 0 false (Some (H_id "'''")))
  else if String.eqb name "i" then
    Some (mkDesc false false 0 false 0 false (Some (H_id "''")))
  else if String.eqb name "a" then
    Some (mkDesc false false 0 false 0 false (Some H_linkEnd))
  else None.

(** The names that have an entry in the table. *)
Definition tableNames : list string :=
  ["body"; "ul"; "ol"; "dl"; "li"; "dt"; "dd"; "table"; "tbody"; "th"; "tr";
   "td"; "caption"; "p"; "pre"; "meta"; "span"; "hr"; "h1"; "h2"; "h3"; "h4";
   "h5"; "h6"; "br"; "b"; "i"; "a"].

Definition hasEntry (name : string) : bool :=
  existsb (String.eqb name) tableNames.

(** [WSP.defaultHTMLTagHandler] (lines 852-855). *)
Definition defaultStart : Desc :=
  mkDesc false false 0 false 0 false (Some H_htmlTag).
Definition defaultEnd : Desc :=
  mkDesc false false 0 false 0 false (Some H_htmlEndTag).

(** The object that [_getTokenHandler] settles on before it takes its
    [start] or [end]: the default handler, an entry of the table, or
    something every object inherits. *)
Inductive HandlerObj :=
| DefaultHandler
| TableEntry (name : string)
| InheritedObj.

(** The object [handler] of [_serializeToken]: [{}], the descriptor of a
    comment, or the [start] or [end] of a [HandlerObj]. *)
Inductive Handler :=
| NoHandler
| CommentHandler
| TagHandler (obj : HandlerObj) (isStart : bool).

(** The descriptor a [Handler] stands for, as the prototype object has it
    now. *)
Definition descOf (w : Proto) (h : Handler) : Desc :=
  match h with
  | NoHandler => emptyDesc
  | CommentHandler => mkDesc false false 0 true 0 false None
  | TagHandler DefaultHandler true => defaultStart
  | TagHandler DefaultHandler false => defaultEnd
  | TagHandler (TableEntry name) true =>
      match tableStart w name with Some d => d | None => emptyDesc end
  | TagHandler (TableEntry name) false =>
      match tableEnd w name with Some d => d | None => emptyDesc end
  | TagHandler InheritedObj _ => emptyDesc
  end.

(** [WSP._getTokenHandler(state, token)] (lines 857-877). *)
Definition _getTokenHandler (s : State) (token : Token) : Handler :=
  let obj :=
    if isStr (stx (tokenDA token)) "html" then DefaultHandler
    else
      let tname := tokenName token in
      if hasEntry tname then
        if String.eqb tname "p" then
          (* p.make *)
          if Nat.ltb 0 (singleLineMode s) then DefaultHandler
          else TableEntry tname
        else TableEntry tname
      else if isInherited tname then InheritedObj
      else DefaultHandler in
  match token with
  | TagTk _ _ _ | SelfclosingTagTk _ _ _ => TagHandler obj true
  | _ => TagHandler obj false
  end.

(** *** WSP._serializeToken (lines 882-1046) *)

(** The match of line 947.  The pattern has three groups between the
    anchors: a greedy run of line breaks (each a line feed, with or without
    a carriage return before it), a lazy middle, and again a greedy run of
    line breaks.  The first group takes the line breaks the text starts
    with, the last group those it ends with, and the middle (any characters
    of a line, or a run of line-break characters followed by a character
    that is none) can match what lies between exactly when that does not
    end in a carriage return or a line feed.  This is the pattern on
    strings of code units below 256, where the dot rejects the line feed
    and the carriage return and nothing else; the line separators U+2028
    and U+2029, which the dot rejects as well and on which the pattern can
    fail where no carriage return or line feed stands before them, are no
    such code units, and texts that hold them are outside this
    development.  [leadingBreaks] counts the line breaks at the start and
    returns what follows them. *)
Fixpoint leadingBreaks (s : string) : nat * string :=
  match s with
  | EmptyString => (0, EmptyString)
  | String c s' =>
      if Ascii.eqb c JS.LF then
        let '(n, rest) := leadingBreaks s' in (S n, rest)
      else if Ascii.eqb c JS.CR then
        match s' with
        | String c' s'' =>
            if Ascii.eqb c' JS.LF then
              let '(n, rest) := leadingBreaks s'' in (S n, rest)
            else (0, s)
        | EmptyString => (0, s)
        end
      else (0, s)
  end.

Fixpoint revAppend (s acc : string) : string :=
  match s with
  | EmptyString => acc
  | String c s' => revAppend s' (String c acc)
  end.

Definition reverse (s : string) : string := revAppend s EmptyString.

(** The same from the end, on the reversed text: a line feed, and the
    carriage return before it if there is one. *)
Fixpoint trailingBreaksRev (r : string) : nat * string :=
  match r with
  | EmptyString => (0, EmptyString)
  | String c r' =>
      if Ascii.eqb c JS.LF then
        match r' with
        | String c' r'' =>
            if Ascii.eqb c' JS.CR then
              let '(n, rest) := trailingBreaksRev r'' in (S n, rest)
            else
              let '(n, rest) := trailingBreaksRev r' in (S n, rest)
        | EmptyString => (1, EmptyString)
        end
      else (0, r)
  end.

(** What the match gives: the text is line breaks only, or it has a
    middle part between [leading] and [trailing] line breaks, or the
    pattern does not match ([res.match] is [null]). *)
Inductive NewlineMatch :=
| AllNewlines (count : nat)
| Stripped (leading : nat) (middle : string) (trailing : nat)
| NoMatch.

Definition matchNewlines (res : string) : NewlineMatch :=
  let '(leading, rest) := leadingBreaks res in
  match rest with
  | EmptyString => AllNewlines leading
  | String _ _ =>
      let '(trailing, middleRev) := trailingBreaksRev (reverse rest) in
      match middleRev with
      | String c _ =>
          if Ascii.eqb c JS.CR then NoMatch
          else Stripped leading (reverse middleRev) trailing
      | EmptyString => NoMatch
      end
  end.

(** [state.textHandler(res)] of an indent-pre (lines 673-675). *)
Definition applyTextHandler (s : State) (res : string) : string :=
  if textHandler s then JS.replaceAll JS.nl (JS.nl +:+ " ") res else res.

(** Lines 887-939: the token is looked at, its handler found and run.
    The result is the handler and the text [res]. *)
Definition dispatchToken (token : Token) : M (Handler * string) :=
  modifyState (fun s => set_curToken (Some token)
                          (set_prevToken (curToken s) s)) ;;;
  s <- getState ;;
  w <- getProto ;;
  match token with
  | TagTk _ _ _ | SelfclosingTagTk _ _ _ =>
      let handler := _getTokenHandler s token in
      if negb (ignore (descOf w handler)) then
        modifyState (fun s => set_currTagToken (Some token)
                                (set_prevTagToken (currTagToken s) s)) ;;;
        res <- match handle (descOf w handler) with
               | Some h => runHandle h token
               | None => ret ""
               end ;;
        ret (handler, res)
      else ret (handler, "")
  | EndTagTk _ _ _ =>
      let handler := _getTokenHandler s token in
      if negb (ignore (descOf w handler)) then
        modifyState (fun s => set_currTagToken (Some token)
                                (set_prevTagToken (currTagToken s) s)) ;;;
        when ((singleLine (descOf w handler) <? 0)%Z
              && Nat.ltb 0 (singleLineMode s))
             (modifyState (set_singleLineMode (singleLineMode s - 1))) ;;;
        res <- match handle (descOf w handler) with
               | Some h => runHandle h token
               | None => ret ""
               end ;;
        ret (handler, res)
      else ret (handler, "")
  | Str text =>
      res <- (if inNoWiki s || inHTMLPre s then ret text
              else escapeWikiText text) ;;
      ret (NoHandler, applyTextHandler s res)
  | CommentTk value _ =>
      ret (CommentHandler, "<!--" +:+ value +:+ "-->")
  | NlTk _ =>
      ret (NoHandler, applyTextHandler s JS.nl)
  | EOFTk =>
      let res := JS.newlines (availableNewlineCount s) in
      chunkCB res ;;;
      ret (NoHandler, res)
  end.

(** Lines 944-963: leading newlines go to [availableNewlineCount], the
    trailing ones are counted for later.  The result is the text without
    them and the count [newNLCount]. *)
Definition stripNewlines (res : string) : M (string * nat) :=
  match res with
  | EmptyString => ret (EmptyString, 0)
  | String _ _ =>
      match matchNewlines res with
      | NoMatch => throw (TypeError "match[1]")
      | AllNewlines n =>
          modifyState (fun s =>
            set_availableNewlineCount (availableNewlineCount s + n) s) ;;;
          ret (EmptyString, 0)
      | Stripped leading middle trailing =>
          modifyState (fun s =>
            set_availableNewlineCount (availableNewlineCount s + leading) s)
          ;;;
          ret (middle, trailing)
      end
  end.

(** Lines 965-974: a pair of identical tags, [</p><p>] and the like. *)
Definition isPairOf (s : State) (token : Token) : bool :=
  match prevTagToken s with
  | Some prev =>
      isEndTagTk prev && String.eqb (tokenName prev) (tokenName token)
  | None => false
  end.

Definition separatePair (d : Desc) (token : Token) : M unit :=
  s <- getState ;;
  when (Nat.ltb 0 (pairSepNLCount d) && isPairOf s token
        && Nat.ltb (availableNewlineCount s) (pairSepNLCount d))
       (modifyState (set_availableNewlineCount (pairSepNLCount d))).

(** [res.substr(- state.dropTail.length) === state.dropTail] *)
Definition endsWith (res suffix : string) : bool :=
  String.eqb (JS.substr res (- JS.zlen suffix) (JS.zlen suffix)) suffix.

(** Lines 1009-1011: the tail of a link is taken off the text that ends
    with it. *)
Definition withoutTail (s : State) (res : string) : string :=
  match dropTail s with
  | Some t =>
      if JS.nonEmpty t && endsWith res t
      then JS.substr res 0 (JS.zlen res - JS.zlen t) else res
  | None => res
  end.

(** Lines 1013-1015: in single-line mode the newlines of the text become
    spaces. *)
Definition onOneLine (s : State) (res : string) : string :=
  if Nat.ltb 0 (singleLineMode s) then JS.replaceAll JS.nl " " res else res.

(** Lines 982-1027: a text that is not empty is sent to the sink, after
    the newlines that are owed. *)
Definition emitText (handler : Handler) (res : string) (newNLCount : nat)
  : M unit :=
  s <- getState ;;
  w <- getProto ;;
  let d := descOf w handler in
  when (negb (Nat.ltb 0 (singleLineMode s))
        && ((negb (JS.allSpace res) && emitNewlineOnNextToken s)
            || (startsNewline d && negb (onStartOfLine s))))
       (modifyState (fun s =>
          set_emitNewlineOnNextToken false
            (if Nat.eqb (availableNewlineCount s) 0
             then set_availableNewlineCount 1 s else s))) ;;;
  s <- getState ;;
  when (Nat.ltb 0 (availableNewlineCount s))
       (modifyState (fun s => set_onStartOfLine true (set_onNewline true s)))
  ;;;
  let out := JS.newlines (availableNewlineCount s) in
  modifyState (set_availableNewlineCount newNLCount) ;;;
  let res := onOneLine s (withoutTail s res) in
  let out := out +:+ res in
  when (JS.nonEmpty res)
       (modifyState (fun s =>
          let s := set_onNewline false s in
          if negb (newlineTransparent d) then set_onStartOfLine false s
          else s)) ;;;
  chunkCB out.

(** Lines 942-1045: what follows the handler, unless content is dropped. *)
Definition afterHandler (handler : Handler) (token : Token) (res : string)
  : M unit :=
  found <- stripNewlines res ;;
  let '(res, newNLCount) := found in
  w <- getProto ;;
  separatePair (descOf w handler) token ;;;
  s <- getState ;;
  when (debug env) (warn (Warn_debug token res)) ;;;
  (if JS.nonEmpty res then emitText handler res newNLCount
   else
     modifyState (fun s =>
       set_availableNewlineCount (availableNewlineCount s + newNLCount) s) ;;;
     when (startsNewline (descOf w handler) && negb (onStartOfLine s))
          (modifyState (set_emitNewlineOnNextToken true))) ;;;
  when (endsLine (descOf w handler))
       (modifyState (set_emitNewlineOnNextToken true)) ;;;
  when (0 <? singleLine (descOf w handler))%Z
       (modifyState (fun s =>
          set_singleLineMode
            (singleLineMode s + Z.to_nat (singleLine (descOf w handler))) s)).

(** [WSP._serializeToken(state, token)]. *)
Definition _serializeToken (token : Token) : M unit :=
  s0 <- getState ;;
  let dropContent0 := dropContent s0 in
  found <- dispatchToken token ;;
  let '(handler, res) := found in
  s <- getState ;;
  if negb dropContent0 || negb (dropContent s)
  then afterHandler handler token res
  else ret tt.

(** *** The DOM walker (lines 1071-1131) *)

(** A DOM node: an element with its name, attributes and children, a text
    node, a comment node, or a node of another type. *)
#[warnings="-register-all"]
Inductive Node :=
| Element (nodeName : string) (attributes : list KV) (childNodes : list Node)
| TextNode (data : string)
| CommentNode (data : string)
| OtherNode (nodeType : nat).

(** The lower-case form of a code unit below 256: the letters A-Z and the
    upper-case letters of Latin-1, U+00C0 to U+00DE without the
    multiplication sign U+00D7, are 32 below their lower-case forms; every
    other code unit below 256 is its own. *)
Definition toLowerChar (c : ascii) : ascii :=
  let n := nat_of_ascii c in
  if (Nat.leb 65 n && Nat.leb n 90)
     || (Nat.leb 192 n && Nat.leb n 222 && negb (Nat.eqb n 215))
  then ascii_of_nat (n + 32) else c.

(** [s.toLowerCase()] *)
Fixpoint toLowerCase (s : string) : string :=
  match s with
  | EmptyString => EmptyString
  | String c s' => String (toLowerChar c) (toLowerCase s')
  end.

(** [WSP._getDOMAttribs] (lines 1113-1123). *)
Definition _getDOMAttribs (attribs : list KV) : list KV :=
  filter (fun kv => negb (String.eqb (k kv) "data-mw")) attribs.

(** [WSP._getDOMRTInfo] (lines 1125-1131). *)
Definition _getDOMRTInfo (attribs : list KV) : M DataAttribs :=
  match find (fun kv => String.eqb (k kv) "data-mw") attribs with
  | Some kv =>
      match v kv with
      | EmptyString => ret noDA
      | value =>
          match JSON_parse env value with
          | Some da => ret da
          | None => throw SyntaxError
          end
      end
  | None => ret noDA
  end.

(** [WSP._serializeDOM(node, state)] (lines 1075-1111). *)
Fixpoint _serializeDOM (node : Node) : M unit :=
  match node with
  | Element nodeName attributes children =>
      let name := toLowerCase nodeName in
      let tkAttribs := _getDOMAttribs attributes in
      tkRTInfo <- _getDOMRTInfo attributes ;;
      _serializeToken (TagTk name tkAttribs tkRTInfo) ;;;
      (fix serializeChildren (nodes : list Node) : M unit :=
         match nodes with
         | [] => ret tt
         | child :: rest => _serializeDOM child ;;; serializeChildren rest
         end) children ;;;
      _serializeToken (EndTagTk name tkAttribs tkRTInfo)
  | TextNode data => _serializeToken (Str data)
  | CommentNode data =>
      s <- getState ;;
      let savedEmitNewlineOnNextToken := emitNewlineOnNextToken s in
      modifyState (set_emitNewlineOnNextToken false) ;;;
      _serializeToken (CommentTk data noDA) ;;;
      modifyState (set_emitNewlineOnNextToken savedEmitNewlineOnNextToken)
  | OtherNode nodeType => warn (Warn_unhandledNode nodeType)
  end.

(** The loop of [serializeTokens] (lines 840-842). *)
Fixpoint serializeEach (tokens : list Token) : M unit :=
  match tokens with
  | [] => ret tt
  | token :: rest => _serializeToken token ;;; serializeEach rest
  end.

(** *** The two top-level calls *)

(** [$.extend({}, this.initialState, this.options)]: a new state object
    with the properties of [initialState]; its [listStack] is the array of
    the prototype object, which the world holds already. *)
Definition newWorld (w : Proto) : World := mkWorld w initialState.

(** [WSP.serializeTokens(tokens)] (lines 834-850): the chunks, or the
    exception that a token threw, and the prototype object afterwards. *)
Definition serializeTokens (w : Proto) (tokens : list Token)
  : Result (list string) * Proto :=
  match serializeEach tokens (newWorld w) with
  | (Ok _, w') => (Ok (chunks (state w')), proto w')
  | (Throw e, w') => (Throw e, proto w')
  end.

(** [WSP.serializeDOM(node)] (lines 1051-1069): the wikitext, or
    [undefined] after an exception, which is caught and written to the
    console; the chunks the sink has received; the prototype object
    afterwards. *)
Record Serialized := mkSerialized {
  wikitext : option string;
  sunk : list string;
  warned : list Console;
  protoAfter : Proto
}.

Definition serializeDOM (w : Proto) (node : Node) : Serialized :=
  match (_serializeDOM node ;;; _serializeToken EOFTk) (newWorld w) with
  | (Ok _, w') =>
      mkSerialized (Some (JS.join "" (chunks (state w'))))
        (chunks (state w')) (console (state w')) (proto w')
  | (Throw e, w') =>
      mkSerialized None (chunks (state w'))
        (console (state w') ++ [Warn_caught e]) (proto w')
  end.


End Serializer.

End WS.

(** ** Inputs of the serializer *)

Module SerSpec.
Import WS.

(** The environment [env] with another tokenizer. *)
Definition withTokenizer (tokenize' : string -> list Token) (env : Env)
  : Env :=
  mkEnv tokenize' (KVtoHash env) (wgScriptPath env) (normalizeTitle env)
    (tokensToString env) (debug env) (decodeURIComponent env)
    (JSON_parse env).

(** The tokens of a text without markup: the text and the end of input. *)
Definition plainTokens (text : string) : list Token := [Str text; EOFTk].

(** The tokenizer of [env] where it is known to read the letters [x] and
    [y] as text. *)
Definition readingLetters (env : Env) (text : string) : list Token :=
  if String.eqb text "x" then plainTokens "x"
  else if String.eqb text "y" then plainTokens "y"
  else tokenize env text.

(** The body of a document with the two paragraphs [x] and [y]. *)
Definition twoParagraphs : Node :=
  Element "BODY" []
    [Element "P" [] [TextNode "x"]; Element "P" [] [TextNode "y"]].

(** The start of a span of generated content with its source, and two
    paragraphs in it: the tokens up to the end of the first paragraph. *)
Definition generatedSpan : Token :=
  TagTk "span" [mkKV "data-mw-gc" "both"]
    (mkDA None None None (Some "{{echo}}") false None None).

Definition generatedParagraph : list Token :=
  [generatedSpan; TagTk "p" [] noDA; Str "x"; EndTagTk "p" [] noDA].


Definition nestedList : Node :=
  Element "UL" []
    [Element "LI" []
       [TextNode "a"; Element "UL" [] [Element "LI" [] [TextNode "b"]]]].

(** The three elements of a list. *)
Definition isItemName (name : string) : bool :=
  String.eqb name "li" || String.eqb name "dt" || String.eqb name "dd".


(** Tokens that open a list and an item and close neither. *)
Definition openList : list Token := [TagTk "ul" [] noDA; TagTk "li" [] noDA].

(** A list of one empty item. *)
Definition emptyItem : Node := Element "UL" [] [Element "LI" [] []].

(** The serializer after a first paragraph [x], and after the same
    paragraph inside the span of generated content. *)
Definition firstParagraph : list Token :=
  [TagTk "p" [] noDA; Str "x"; EndTagTk "p" [] noDA].

Definition afterFirstParagraph : World :=
  snd (serializeEach plainEnv firstParagraph (newWorld initialProto)).

Definition afterGeneratedParagraph : World :=
  snd (serializeEach plainEnv generatedParagraph (newWorld initialProto)).


End SerSpec.

(** ** Notions used to state more properties of the serializer *)

Module TokenMore.
(** The token is the end of input. *)
Definition endOfInput (token : Token) : bool :=
  match token with EOFTk => true | _ => false end.
End TokenMore.

Module JSMore.
(** [s.indexOf(pat) !== -1] *)
Fixpoint includes (pat s : string) : bool :=
  JS.isPrefix pat s
  || match s with
     | EmptyString => false
     | String _ s' => includes pat s'
     end.
End JSMore.

Module Frame.
Import WS.
Section Keeps.
Context {X : Type} (proj : World -> X).

(** A computation that leaves [proj] of the world as it is, whether it
    returns or throws. *)
Definition keeps {A : Type} (m : M A) : Prop :=
  forall w, proj (snd (m w)) = proj w.
End Keeps.

(** What the list stack, and what the sink holds. *)
Definition stackOf (w : World) : list ListCtx := listStack (proto w).
Definition stackSize (w : World) : nat := length (listStack (proto w)).
Definition sinkOf (w : World) : list string := chunks (state w).

(** A computation that, when it returns, has taken the size of the list
    stack from [n] to [g n]. *)
Definition moves (g : nat -> nat) {A : Type} (m : M A) : Prop :=
  forall w, match m w with
            | (Ok _, w') => stackSize w' = g (stackSize w)
            | (Throw _, _) => True
            end.

(** An element that is written as a list: [ul], [ol] or [dl], unless its
    source marker says that it was written as an HTML tag. *)
Definition opensList (name : string) (da : DataAttribs) : bool :=
  negb (isStr (stx da) "html")
  && (String.eqb name "ul" || String.eqb name "ol" || String.eqb name "dl").

(** What an element adds to the list stack when it starts, and takes
    from it when it ends. *)
Definition listDelta (name : string) (da : DataAttribs) : nat :=
  if opensList name da then 1 else 0.

(** A computation that sends at most [n] chunks to the sink and leaves
    what the sink holds already. *)
Definition sends (n : nat) {A : Type} (m : M A) : Prop :=
  forall w, exists sent : list string,
    sinkOf (snd (m w)) = sinkOf w ++ sent /\ length sent <= n.
End Frame.

Module Walk.
Import WS.

(** [_getDOMRTInfo] where [JSON.parse] returns. *)
Definition rtInfoOf (env : Env) (attribs : list KV) : option DataAttribs :=
  match find (fun kv => String.eqb (k kv) "data-mw") attribs with
  | Some kv =>
      match v kv with
      | EmptyString => Some noDA
      | value => JSON_parse env value
      end
  | None => Some noDA
  end.

(** The tokens that [_serializeDOM] makes of a tree, in the order in which
    it serializes them: a start tag, the tokens of the children and an end
    tag for an element, the text for a text node.  [None] for a tree with a
    comment, with a node of another type or with a [data-mw] attribute that
    [JSON.parse] rejects. *)
Fixpoint tokensOf (env : Env) (node : Node) : option (list Token) :=
  match node with
  | Element nodeName attributes children =>
      let name := toLowerCase nodeName in
      let tkAttribs := _getDOMAttribs attributes in
      match rtInfoOf env attributes with
      | Some tkRTInfo =>
          match
            (fix tokensOfAll (nodes : list Node) : option (list Token) :=
               match nodes with
               | [] => Some []
               | child :: rest =>
                   match tokensOf env child, tokensOfAll rest with
                   | Some a, Some b => Some (a ++ b)
                   | _, _ => None
                   end
               end) children
          with
          | Some inner =>
              Some (TagTk name tkAttribs tkRTInfo :: inner
                    ++ [EndTagTk name tkAttribs tkRTInfo])
          | None => None
          end
      | None => None
      end
  | TextNode data => Some [Str data]
  | CommentNode _ | OtherNode _ => None
  end.
End Walk.

Module Drop.
Import WS.
(** Content is being dropped. *)
Definition dropping (w : World) : bool := dropContent (state w).

(** A computation that, where content is dropped, leaves it so. *)
Definition staysDropping {A : Type} (m : M A) : Prop :=
  forall w, dropping w = true -> dropping (snd (m w)) = true.

(** The end tag of a link or of a span that is not written as an HTML
    tag: the tokens whose handlers end the dropping of content. *)
Definition endsDropping (token : Token) : bool :=
  match token with
  | EndTagTk name _ da =>
      negb (isStr (stx da) "html")
      && (String.eqb name "a" || String.eqb name "span")
  | _ => false
  end.
End Drop.

Module Flags.
Import WS.

(** Two worlds with the same state and the same list stack: they differ
    at most in the flags that handlers have written to their
    descriptors. *)
Definition agree (w1 w2 : World) : Prop :=
  state w1 = state w2 /\ listStack (proto w1) = listStack (proto w2).

(** Two runs, from worlds that agree and whose prototype objects are
    related by [P]: they return or throw the same, the worlds they leave
    agree, and where they return [a] the prototype objects are related by
    [Q a]. *)
Definition sim {A : Type} (P : Proto -> Proto -> Prop)
    (Q : A -> Proto -> Proto -> Prop) (m1 m2 : M A) : Prop :=
  forall w1 w2,
    agree w1 w2 -> P (proto w1) (proto w2) ->
    fst (m1 w1) = fst (m2 w2)
    /\ agree (snd (m1 w1)) (snd (m2 w2))
    /\ forall a, fst (m1 w1) = Ok a ->
                 Q a (proto (snd (m1 w1))) (proto (snd (m2 w2))).

(** No condition on the flags. *)
Definition anyFlags : Proto -> Proto -> Prop := fun _ _ => True.

(** The flag that the handler [h] writes is the same in both. *)
Definition writtenBy (h : Handle) (p1 p2 : Proto) : Prop :=
  match h with
  | H_list UL _ => ul_startsNewline p1 = ul_startsNewline p2
  | H_list OL _ => ol_startsNewline p1 = ol_startsNewline p2
  | H_list DL _ => dl_startsNewline p1 = dl_startsNewline p2
  | H_listItem LI _ => li_startsNewline p1 = li_startsNewline p2
  | H_listItem DT _ => dt_startsNewline p1 = dt_startsNewline p2
  | H_listItem DD _ => dd_startsNewline p1 = dd_startsNewline p2
  | H_cell TH _ _ => th_startsNewline p1 = th_startsNewline p2
  | H_cell TD _ _ => td_startsNewline p1 = td_startsNewline p2
  | H_tableEnd => tableEnd_startsNewline p1 = tableEnd_startsNewline p2
  | H_meta => meta_newlineTransparent p1 = meta_newlineTransparent p2
  | _ => True
  end.

(** The descriptor of [handler] is the same in both. *)
Definition sameDesc (handler : Handler) (p1 p2 : Proto) : Prop :=
  descOf p1 handler = descOf p2 handler.

(** A computation whose two runs keep the relation [I] on the flags. *)
Definition keepsRel (I : Proto -> Proto -> Prop) {A : Type} (m : M A)
  : Prop :=
  sim I (fun _ => I) m m.
End Flags.

Module Line.
Import WS.

(** The state inside a line of inline content: no newline is owed, the
    serializer is not in a [pre] or [nowiki], nothing is dropped.  [mode]
    is [singleLineMode], [startOfLine] and [lineEnd] are the flags
    [onStartOfLine] and [emitNewlineOnNextToken], [out] the chunks that
    the sink has received. *)
Definition inline (s : State) (mode : nat) (startOfLine lineEnd : bool)
    (out : list string) : Prop :=
  onStartOfLine s = startOfLine /\ emitNewlineOnNextToken s = lineEnd
  /\ chunks s = out
  /\ availableNewlineCount s = 0 /\ singleLineMode s = mode
  /\ dropContent s = false /\ dropTail s = None
  /\ inNoWiki s = false /\ inHTMLPre s = false
  /\ inIndentPre s = false /\ textHandler s = false.

(** A text that is not empty and has no line break. *)
Definition plainText (text : string) : bool :=
  JS.nonEmpty text && negb (JS.hasChar JS.LF text)
  && negb (JS.hasChar JS.CR text).

(** The state between two tokens of a block, outside single-line mode:
    [count] newlines are owed.  With no newline owed this is [inline] with
    the mode 0. *)
Definition owing (s : State) (count : nat) (startOfLine lineEnd : bool)
    (out : list string) : Prop :=
  onStartOfLine s = startOfLine /\ emitNewlineOnNextToken s = lineEnd
  /\ chunks s = out
  /\ availableNewlineCount s = count /\ singleLineMode s = 0
  /\ dropContent s = false /\ dropTail s = None
  /\ inNoWiki s = false /\ inHTMLPre s = false
  /\ inIndentPre s = false /\ textHandler s = false.
End Line.

Module Flat.
Import WS.

(** A list item with one child, a text. *)
Record Entry := mkEntry {
  entryTag : string;
  entryAttribs : list KV;
  entryText : string
}.

Definition node (e : Entry) : Node :=
  Element (entryTag e) (entryAttribs e) [TextNode (entryText e)].

(** An item [li] that is not marked as an HTML tag, around a text without
    line breaks that the tokenizer reads as it is. *)
Definition plain (env : Env) (e : Entry) : Prop :=
  toLowerCase (entryTag e) = "li"
  /\ (exists da : DataAttribs,
        Walk.rtInfoOf env (entryAttribs e) = Some da
        /\ isStr (stx da) "html" = false)
  /\ tokenize env ("_" +:+ entryText e) = [Str ("_" +:+ entryText e); EOFTk]
  /\ Line.plainText (entryText e) = true.

(** The state after the end tag of an item: inside a line, with the end
    tag as the last token and the last tag. *)
Definition afterItem (s : State) (out : list string) : Prop :=
  Line.inline s 0 false false out /\ onNewline s = false
  /\ exists (a : list KV) (da : DataAttribs),
       curToken s = Some (EndTagTk "li" a da)
       /\ currTagToken s = Some (EndTagTk "li" a da).
End Flat.

Module Para.
Import WS.
(** A paragraph that is not marked as an HTML tag, around a text without
    line breaks that the tokenizer reads as it is. *)
Definition plain (env : Env) (e : Flat.Entry) : Prop :=
  toLowerCase (Flat.entryTag e) = "p"
  /\ (exists da : DataAttribs,
        Walk.rtInfoOf env (Flat.entryAttribs e) = Some da
        /\ isStr (stx da) "html" = false)
  /\ tokenize env (Flat.entryText e) = [Str (Flat.entryText e); EOFTk]
  /\ Line.plainText (Flat.entryText e) = true.

(** The state after the end tag of a paragraph. *)
Definition afterParagraph (s : State) (out : list string) : Prop :=
  Line.owing s 0 false true out
  /\ exists (a : list KV) (da : DataAttribs),
       currTagToken s = Some (EndTagTk "p" a da).
End Para.

Module Grid.
Import WS.

(** A table cell with one text, a row of such cells, and a table of such
    rows inside a [tbody]; none of the elements has an attribute. *)
Definition cell (text : string) : Node := Element "TD" [] [TextNode text].

Definition row (cells : list string) : Node :=
  Element "TR" [] (map cell cells).

Definition table (rows : list (list string)) : Node :=
  Element "TABLE" [] [Element "TBODY" [] (map row rows)].

(** A text without line breaks that the tokenizer reads as it is inside a
    line. *)
Definition plain (env : Env) (text : string) : Prop :=
  tokenize env ("_" +:+ text) = [Str ("_" +:+ text); EOFTk]
  /\ Line.plainText text = true.

(** The state after the end tag of a row. *)
Definition afterRow (s : State) (out : list string) : Prop :=
  (exists e : bool, Line.owing s 0 false e out)
  /\ curToken s = Some (EndTagTk "tr" [] noDA)
  /\ currTagToken s = Some (EndTagTk "tr" [] noDA).
End Grid.

Module Terms.
Import WS.

(** An element [name] that is not marked as an HTML tag, around a text
    without line breaks that the tokenizer reads as it is. *)
Definition plainAs (env : Env) (name : string) (e : Flat.Entry) : Prop :=
  toLowerCase (Flat.entryTag e) = name
  /\ (exists da : DataAttribs,
        Walk.rtInfoOf env (Flat.entryAttribs e) = Some da
        /\ isStr (stx da) "html" = false)
  /\ tokenize env ("_" +:+ Flat.entryText e)
     = [Str ("_" +:+ Flat.entryText e); EOFTk]
  /\ Line.plainText (Flat.entryText e) = true.

(** Whether the element is marked as written on the line of the element
    before it. *)
Definition onRow (env : Env) (e : Flat.Entry) : bool :=
  match Walk.rtInfoOf env (Flat.entryAttribs e) with
  | Some da => isStr (stx da) "row"
  | None => false
  end.

(** The children of a list of terms, each with one description. *)
Definition nodes (pairs : list (Flat.Entry * Flat.Entry)) : list Node :=
  flat_map (fun pr => [Flat.node (fst pr); Flat.node (snd pr)]) pairs.

(** A term with its description. *)
Definition plainPair (env : Env) (pr : Flat.Entry * Flat.Entry) : Prop :=
  plainAs env "dt" (fst pr) /\ plainAs env "dd" (snd pr).

(** The state after the end tag of a description. *)
Definition afterDescription (s : State) (out : list string) : Prop :=
  Line.owing s 0 false true out
  /\ exists (a : list KV) (da : DataAttribs),
       currTagToken s = Some (EndTagTk "dd" a da).

(** The state after the end tag of a term. *)
Definition afterTerm (s : State) (out : list string) : Prop :=
  Line.inline s 0 false false out /\ onNewline s = false
  /\ exists (a : list KV) (da : DataAttribs),
       curToken s = Some (EndTagTk "dt" a da)
       /\ currTagToken s = Some (EndTagTk "dt" a da).
End Terms.

(** ** Notions used to state more properties of the pre handler *)

Module PreMore.
Import Pre PreSpec.
(** A handler at rest: in [STATE_SOL], where [tokens] holds the
    sol-transparent tokens of the line so far, or in [STATE_IGNORE] with
    nothing held; no newline, no space and no other token is held back. *)
Definition calm (h : PreHandler) : Prop :=
  exists st p toks mw ip,
    quiet h = machine st None p toks None mw [] ip
    /\ (st = STATE_SOL \/ (st = STATE_IGNORE /\ toks = [])).
End PreMore.

Module PreTags.
Import Pre PreSpec.

(** A [pre] tag that is not marked as an HTML tag: the tags that
    [processPre] makes are of this kind. *)
Definition synthetic (t : Token) : bool :=
  match t with
  | TagTk n _ _ | EndTagTk n _ _ => String.eqb n "pre" && negb (isHTMLTag t)
  | _ => false
  end.

Definition plain (t : Token) : bool := negb (synthetic t).

(** Whether a block is open after [toks], when it is [open] before them;
    [None] when a block is opened inside a block or closed outside one. *)
Fixpoint nesting (open : bool) (toks : list Token) : option bool :=
  match toks with
  | [] => Some open
  | t :: rest =>
      if synthetic t then
        match t, open with
        | TagTk _ _ _, false => nesting true rest
        | EndTagTk _ _ _, true => nesting false rest
        | _, _ => None
        end
      else nesting open rest
  end.

(** The blocks of [toks] are closed and none is nested in another. *)
Definition paired (toks : list Token) : Prop := nesting false toks = Some false.

Definition plainOpt (o : option Token) : bool :=
  match o with Some t => plain t | None => true end.

(** The handler holds no tag of this kind. *)
Definition clean (h : PreHandler) : bool :=
  forallb plain (tokens h) && forallb plain (solTransparentTokens h)
  && plainOpt (lastNlTk h) && plainOpt (preWSToken h)
  && plainOpt (multiLinePreWSToken h).
(** What a transform returns: nothing, or tokens whose blocks are paired. *)
Definition pairedOpt (ret : option (list Token)) : Prop :=
  match ret with Some toks => paired toks | None => True end.
End PreTags.

Module PreLines.
Import Pre PreSpec.

(** Whether the handler is at the start of a line after [t], when
    [atStart] says whether it is before: a newline starts a line, and the
    first token of a line that is not sol-transparent ends its start. *)
Definition atStartAfter (atStart : bool) (t : Token) : bool :=
  match t with
  | NlTk _ => true
  | _ => atStart && isSolTransparent t
  end.

(** An end tag of an HTML [pre] comes at the start of a line: it is the
    first token of its line that is not sol-transparent. *)
Fixpoint closesPreAtStart (atStart : bool) (toks : list Token) : bool :=
  match toks with
  | [] => false
  | t :: rest =>
      (atStart && isPreClose t) || closesPreAtStart (atStartAfter atStart t) rest
  end.

(** The state of a handler at rest: at the start of a line or not. *)
Definition stateAt (atStart : bool) : State :=
  if atStart then STATE_SOL else STATE_IGNORE.

(** The handler inside an HTML [pre], at rest. *)
Definition restsInPre (atStart : bool) (h : PreHandler) : Prop :=
  exists p toks mw,
    quiet h = machine (stateAt atStart) None p toks None mw [] true
    /\ (atStart = false -> toks = []).
End PreLines.

(** ** Inputs on which the properties are evaluated *)

Module Sample.
Import WS.

(** The serializer in the middle of a line: after a text, with no newline
    owed. *)
Definition midLine : World :=
  mkWorld initialProto
    (set_onStartOfLine false (set_onNewline false initialState)).

(** The same inside an indent-pre. *)
Definition midLineOfIndentPre : World :=
  mkWorld initialProto
    (set_inIndentPre true
       (set_onStartOfLine false (set_onNewline false initialState))).

(** The serializer inside an HTML [pre]. *)
Definition insideHTMLPre : World :=
  mkWorld initialProto (set_inHTMLPre true initialState).

(** The serializer inside generated content, which is dropped. *)
Definition insideGenerated : World :=
  mkWorld initialProto (set_dropContent true initialState).

(** The serializer after the start of a link with the tail [s]. *)
Definition insideLinkWithTail : State :=
  set_dropTail (Some "s") initialState.

(** An environment whose tokenizer reads the quotes of the guarded text
    [_a'''c] as a bold tag with its source range. *)
Definition rangedEnv : Env :=
  SerSpec.withTokenizer
    (fun _ => [Str "_a"; TagTk "b" [] (tsrDA 2 5); Str "c"; EOFTk]) plainEnv.

(** An environment whose tokenizer returns a tag as the first token. *)
Definition tagFirstEnv : Env :=
  SerSpec.withTokenizer (fun _ => [TagTk "b" [] noDA; EOFTk]) plainEnv.

(** A line that starts with a space, and the start of the line after
    it. *)
Definition indentedLine : list Token :=
  [NlTk noDA; Str " a"; NlTk noDA; Str "b"].

(** The prototype object with the flags as another call can have left
    them. *)
Definition flagsSet : Proto :=
  mkProto [] false false false true true true true true true true.

(** The round-trip record of a tag that was written as an HTML tag. *)
Definition htmlDA : DataAttribs :=
  mkDA None (Some "html") None None false None None.

(** The JSON text of an object with the one property [stx], a string:
    a brace, the quoted name, a colon, the quoted [value], a brace. *)
Definition stxJSON (value : string) : string :=
  "{" +:+ JS.dquote +:+ "stx" +:+ JS.dquote +:+ ":"
  +:+ JS.dquote +:+ value +:+ JS.dquote +:+ "}".

(** An environment for documents whose [data-mw] attributes hold the JSON
    text of the record of a tag that was written as an HTML tag:
    [JSON.parse] reads that text as the record; of the other texts this
    environment knows nothing, and has it throw. *)
Definition htmlEnv : Env :=
  mkEnv (tokenize plainEnv) (KVtoHash plainEnv) (wgScriptPath plainEnv)
    (normalizeTitle plainEnv) (tokensToString plainEnv) (debug plainEnv)
    (decodeURIComponent plainEnv)
    (fun text =>
       if String.eqb text (stxJSON "html") then Some htmlDA else None).

(** What follows the start tag of an HTML [pre]: a line whose text is
    followed by the end tag, and a line that starts with a space. *)
Definition afterHTMLPre : list Token :=
  [NlTk noDA; Str "x"; EndTagTk "pre" [] htmlDA; NlTk noDA; Str " y";
   NlTk noDA].

(** Two lines without indentation. *)
Definition twoLines : list Token :=
  [Str "a"; NlTk noDA; CommentTk "c" noDA; Str "b"].

(** Two list items, the second with an attribute. *)
Definition twoItems : list Flat.Entry :=
  [Flat.mkEntry "LI" [] "a"; Flat.mkEntry "LI" [mkKV "id" "x"] "b"].

(** Two paragraphs, the second with an attribute. *)
Definition twoTexts : list Flat.Entry :=
  [Flat.mkEntry "P" [] "a"; Flat.mkEntry "P" [mkKV "id" "x"] "b"].

(** A table of two rows, of two cells and of one. *)
Definition twoRows : list (list string) := [["a"; "b"]; ["c"]].

(** The round-trip record of a description that was written on the line
    of its term. *)
Definition rowDA : DataAttribs :=
  mkDA None (Some "row") None None false None None.

(** An environment for documents whose [data-mw] attributes hold the JSON
    text of that record: [JSON.parse] reads that text as the record; of
    the other texts this environment knows nothing, and has it throw. *)
Definition rowEnv : Env :=
  mkEnv (tokenize plainEnv) (KVtoHash plainEnv) (wgScriptPath plainEnv)
    (normalizeTitle plainEnv) (tokensToString plainEnv) (debug plainEnv)
    (decodeURIComponent plainEnv)
    (fun text =>
       if String.eqb text (stxJSON "row") then Some rowDA else None).

(** Two terms; the description of the second is marked as written on the
    line of its term. *)
Definition twoTerms : list (Flat.Entry * Flat.Entry) :=
  [(Flat.mkEntry "DT" [] "x", Flat.mkEntry "DD" [] "a");
   (Flat.mkEntry "DT" [] "y",
    Flat.mkEntry "DD" [mkKV "data-mw" (stxJSON "row")] "b")].
End Sample.

(** ** The earlier variant of the indent-pre handler (part_000, lines
    1155-1459) *)

Module PreOld.

(** What the handler writes with [console.error], on the two paths the
    code marks as unreachable. *)
Inductive Console :=
| Error_notIgnore (st : Pre.State) (token : Token)
| Error_ignore (token : Token).

(** The handler object.  [lastNLTk] is the property that [init] writes,
    [lastNlTk] the one that the methods read and write.  The three flags
    record which transforms are registered with the token transform
    manager. *)
Record PreHandler := mkPreHandler {
  newlineTransform : bool;
  endTransform : bool;
  anyTransform : bool;
  state : Pre.State;
  lastNLTk : option Token;
  lastNlTk : option Token;
  tokens : list Token;
  solTransparentTokens : list Token;
  console : list Console
}.

Definition set_anyTransform (b : bool) (h : PreHandler) : PreHandler :=
  mkPreHandler (newlineTransform h) (endTransform h) b (state h) (lastNLTk h)
    (lastNlTk h) (tokens h) (solTransparentTokens h) (console h).

Definition set_state (s : Pre.State) (h : PreHandler) : PreHandler :=
  mkPreHandler (newlineTransform h) (endTransform h) (anyTransform h) s
    (lastNLTk h) (lastNlTk h) (tokens h) (solTransparentTokens h) (console h).

Definition set_lastNlTk (t : option Token) (h : PreHandler) : PreHandler :=
  mkPreHandler (newlineTransform h) (endTransform h) (anyTransform h)
    (state h) (lastNLTk h) t (tokens h) (solTransparentTokens h) (console h).

Definition set_tokens (l : list Token) (h : PreHandler) : PreHandler :=
  mkPreHandler (newlineTransform h) (endTransform h) (anyTransform h)
    (state h) (lastNLTk h) (lastNlTk h) l (solTransparentTokens h) (console h).

Definition set_solTransparentTokens (l : list Token) (h : PreHandler)
  : PreHandler :=
  mkPreHandler (newlineTransform h) (endTransform h) (anyTransform h)
    (state h) (lastNLTk h) (lastNlTk h) (tokens h) l (console h).

(** [console.error(e)] *)
Definition log (e : Console) (h : PreHandler) : PreHandler :=
  mkPreHandler (newlineTransform h) (endTransform h) (anyTransform h)
    (state h) (lastNLTk h) (lastNlTk h) (tokens h) (solTransparentTokens h)
    (console h ++ [e]).

(** [init(handler, addAnyHandler)] (lines 1233-1242).  It sets [lastNLTk]
    and leaves [lastNlTk] as it is. *)
Definition init (h : PreHandler) (addAnyHandler : bool) : PreHandler :=
  mkPreHandler (newlineTransform h) (endTransform h)
    (if addAnyHandler then true else anyTransform h)
    Pre.STATE_SOL None (lastNlTk h) [] [] (console h).

(** [new PreHandler(manager, options)] (lines 1211-1218). *)
Definition PreHandler_new : PreHandler :=
  init (mkPreHandler true true false Pre.STATE_SOL None None [] [] []) true.

(** [isSolTransparent(token)] (lines 1244-1255). *)
Definition isSolTransparent (token : Token) : bool :=
  match token with
  | Str s => JS.allSpace s
  | CommentTk _ _ => true
  | SelfclosingTagTk n _ _ => String.eqb n "meta"
  | _ => false
  end.

(** [(tc === String) && token.match(/^\s/)] *)
Definition startsWithWhitespace (token : Token) : bool :=
  match token with
  | Str (String c _) => JS.isSpace c
  | _ => false
  end.

(** [moveToIgnoreState] (lines 1257-1260). *)
Definition moveToIgnoreState (h : PreHandler) : PreHandler :=
  set_anyTransform false (set_state Pre.STATE_IGNORE h).

(** [popLastNL(ret)] (lines 1262-1267): the handler and the array after
    the call. *)
Definition popLastNL (h : PreHandler) (ret : list Token)
  : PreHandler * list Token :=
  match lastNlTk h with
  | Some nltk => (set_lastNlTk None h, ret ++ [nltk])
  | None => (h, ret)
  end.

(** [getResultAndReset(token)] (lines 1269-1286). *)
Definition getResultAndReset (h : PreHandler) (token : Token)
  : PreHandler * list Token :=
  let '(h, ret) := popLastNL h (tokens h) in
  let '(h, ret) :=
    match solTransparentTokens h with
    | [] => (h, ret)
    | _ :: _ =>
        (set_solTransparentTokens [] h,
         (ret ++ [Str " "]) ++ solTransparentTokens h)
    end in
  let ret := ret ++ [token] in
  (set_tokens [] h, ret).

(** [processPre(token)] (lines 1288-1310).  Where no tokens are held, the
    newline that [popLastNL] pushes goes to an array that is dropped. *)
Definition processPre (h : PreHandler) (token : Token)
  : PreHandler * list Token :=
  let '(h, ret) :=
    match tokens h with
    | [] =>
        let '(h, _) := popLastNL h [] in
        (h, match solTransparentTokens h with
            | [] => []
            | stToks => [Str " "] ++ stToks
            end)
    | _ :: _ =>
        let ret := [TagTk "pre" [] noDA] ++ tokens h in
        let ret := ret ++ [EndTagTk "pre" [] noDA] in
        let '(h, ret) := popLastNL h ret in
        (h, ret ++ solTransparentTokens h)
    end in
  let ret := ret ++ [token] in
  (set_tokens [] (set_solTransparentTokens [] h), ret).

(** [onNewline(token, manager, cb)] (lines 1312-1356). *)
Definition onNewline (h : PreHandler) (token : Token)
  : PreHandler * option (list Token) :=
  match state h with
  | Pre.STATE_SOL =>
      let '(h, ret) := getResultAndReset h token in (h, Some ret)
  | Pre.STATE_PRE =>
      let '(h, ret) :=
        match tokens h with
        | _ :: _ => processPre h token
        | [] => getResultAndReset h token
        end in
      (set_state Pre.STATE_SOL h, Some ret)
  | Pre.STATE_PRE_COLLECT =>
      (set_state Pre.STATE_MULTILINE_PRE (set_lastNlTk (Some token) h), None)
  | Pre.STATE_MULTILINE_PRE =>
      let '(h, ret) := processPre h token in
      (set_state Pre.STATE_SOL h, Some ret)
  | Pre.STATE_IGNORE => (init h true, Some [token])
  end.

(** [onEnd(token, manager, cb)] (lines 1358-1367). *)
Definition onEnd (h : PreHandler) (token : Token)
  : PreHandler * option (list Token) :=
  match state h with
  | Pre.STATE_IGNORE => (init h true, Some [token])
  | st => (init (log (Error_notIgnore st token) h) false, Some [token])
  end.

Section Handler.

(** [Util.isBlockTag] (mediawiki.Util.js, not under src). *)
Variable isBlockTag : string -> bool.

(** [onAny(token, manager, cb)] (lines 1369-1455). *)
Definition onAny (h : PreHandler) (token : Token)
  : PreHandler * option (list Token) :=
  match state h with
  | Pre.STATE_IGNORE => (log (Error_ignore token) h, None)
  | st =>
      match token with
      | EOFTk =>
          let '(h, ret) :=
            match st with
            | Pre.STATE_SOL | Pre.STATE_PRE => getResultAndReset h token
            | _ => processPre h token
            end in
          (init h false, Some ret)
      | _ =>
          match st with
          | Pre.STATE_SOL =>
              if startsWithWhitespace token then
                (set_state Pre.STATE_PRE (set_tokens [] h), Some (tokens h))
              else if isSolTransparent token then
                (set_tokens (tokens h ++ [token]) h, None)
              else
                let '(h, ret) := getResultAndReset h token in
                (moveToIgnoreState h, Some ret)
          | Pre.STATE_PRE =>
              if isSolTransparent token then
                (set_solTransparentTokens (solTransparentTokens h ++ [token])
                   h, None)
              else
                let h := set_tokens (tokens h ++ solTransparentTokens h) h in
                let h := set_tokens (tokens h ++ [token]) h in
                let h := set_solTransparentTokens [] h in
                (set_state Pre.STATE_PRE_COLLECT h, None)
          | Pre.STATE_PRE_COLLECT =>
              if Pre.isHTMLTag token && isBlockTag (Pre.tagName token) then
                let '(h, ret) := processPre h token in
                (moveToIgnoreState h, Some ret)
              else (set_tokens (tokens h ++ [token]) h, None)
          | Pre.STATE_MULTILINE_PRE =>
              if startsWithWhitespace token then
                let '(h, toks) := popLastNL h (tokens h) in
                (set_state Pre.STATE_PRE (set_tokens toks h), None)
              else if isSolTransparent token then
                (set_solTransparentTokens (solTransparentTokens h ++ [token])
                   h, None)
              else
                let '(h, ret) := processPre h token in
                (moveToIgnoreState h, Some ret)
          | Pre.STATE_IGNORE => (h, None)
          end
      end
  end.

(** Modelled from the spec: the token transform manager, as for the later
    variant ([Pre.feed]).  A newline token goes to the newline transform,
    any other token to the any-token transform while that is registered,
    and the end of input to [onEnd] when it is not. *)
Definition feed (h : PreHandler) (token : Token) : PreHandler * list Token :=
  let passOn (r : PreHandler * option (list Token)) :=
    match r with
    | (h, Some toks) => (h, toks)
    | (h, None) => (h, [])
    end in
  match token with
  | NlTk _ =>
      if newlineTransform h then passOn (onNewline h token)
      else (h, [token])
  | EOFTk =>
      if anyTransform h then passOn (onAny h token)
      else if endTransform h then passOn (onEnd h token)
      else (h, [token])
  | _ =>
      if anyTransform h then passOn (onAny h token)
      else (h, [token])
  end.

(** One pipeline run: the handler after the tokens and what it sent on. *)
Fixpoint run (h : PreHandler) (toks : list Token) : PreHandler * list Token :=
  match toks with
  | [] => (h, [])
  | t :: rest =>
      let '(h1, out1) := feed h t in
      let '(h2, out2) := run h1 rest in
      (h2, out1 ++ out2)
  end.

End Handler.
End PreOld.

(** Notions used to state the properties of the earlier variant. *)
Module PreOldSpec.
Import PreOld.

(** A token that the any-token transform receives and that is not the end
    of input. *)
Definition isInline (token : Token) : bool :=
  match token with
  | NlTk _ | EOFTk => false
  | _ => true
  end.

(** A token that starts the content of a block: it is not sol-transparent. *)
Definition startsContent (token : Token) : bool :=
  isInline token && negb (isSolTransparent token).

(** A token that [STATE_PRE_COLLECT] collects. *)
Definition collectable (isBlockTag : string -> bool) (token : Token) : bool :=
  isInline token
  && negb (Pre.isHTMLTag token && isBlockTag (Pre.tagName token)).

(** A handler in the pipeline that has written nothing to the console. *)
Definition machine (st : Pre.State) (ln : option Token)
    (toks sol : list Token) : PreHandler :=
  mkPreHandler true true
    (match st with Pre.STATE_IGNORE => false | _ => true end)
    st None ln toks sol [].

(** What the handler holds in each state: a newline in
    [STATE_MULTILINE_PRE] and in no other state; tokens of a block in
    [STATE_PRE_COLLECT] and [STATE_MULTILINE_PRE]; nothing in
    [STATE_IGNORE]; no sol-transparent tokens aside at the start of a line
    and while it collects.  Its newline and end transforms are registered,
    and the any-token transform unless it is in [STATE_IGNORE]. *)
Definition sound (h : PreHandler) : Prop :=
  newlineTransform h = true /\ endTransform h = true
  /\ anyTransform h
     = match state h with Pre.STATE_IGNORE => false | _ => true end
  /\ match state h with
     | Pre.STATE_SOL => lastNlTk h = None /\ solTransparentTokens h = []
     | Pre.STATE_PRE => lastNlTk h = None
     | Pre.STATE_PRE_COLLECT =>
         lastNlTk h = None /\ tokens h <> [] /\ solTransparentTokens h = []
     | Pre.STATE_MULTILINE_PRE => lastNlTk h <> None /\ tokens h <> []
     | Pre.STATE_IGNORE =>
         lastNlTk h = None /\ tokens h = [] /\ solTransparentTokens h = []
     end.

(** The handler without what it wrote to the console. *)
Definition quiet (h : PreHandler) : PreHandler :=
  mkPreHandler (newlineTransform h) (endTransform h) (anyTransform h)
    (state h) (lastNLTk h) (lastNlTk h) (tokens h) (solTransparentTokens h)
    [].

(** What a line that holds white-space and sol-transparent tokens only
    leaves of them. *)
Definition blankLine (sols : list Token) : list Token :=
  match sols with
  | [] => []
  | _ :: _ => Str " " :: sols
  end.
End PreOldSpec.

(** * Theorems *)

(** ** Strings *)

Lemma append_String (c : ascii) (a b : string) :
  String c a +:+ b = String c (a +:+ b).
Proof. reflexivity. Qed.

Lemma append_Empty (b : string) : EmptyString +:+ b = b.
Proof. reflexivity. Qed.

(** ** Attributes *)

Lemma isPrefix_dquote (c : ascii) (s : string) :
  JS.isPrefix JS.dquote (String c s) = Ascii.eqb c JS.DQUOTE.
Proof.
  unfold JS.dquote; cbn [JS.isPrefix]. rewrite andb_true_r.
  destruct (Ascii.eqb_spec JS.DQUOTE c) as [He|Hne];
    destruct (Ascii.eqb_spec c JS.DQUOTE) as [He'|Hne']; congruence.
Qed.

Lemma replaceFirst_dquote (value : string) :
  JS.replaceFirst JS.dquote "&quot;" value = Attributes.escapeFirstQuote value.
Proof.
  induction value as [|c rest IH]; [reflexivity|].
  cbn [JS.replaceFirst Attributes.escapeFirstQuote].
  rewrite isPrefix_dquote.
  destruct (Ascii.eqb c JS.DQUOTE); [reflexivity|].
  now rewrite IH.
Qed.

Lemma pushAttribute_rendered (out : list string) (kv : KV) :
  Attributes.pushAttribute out kv
  = out ++ match Attributes.renderedAttribute kv with
           | Some s => [s]
           | None => []
           end.
Proof.
  unfold Attributes.pushAttribute, Attributes.renderedAttribute.
  destruct kv as [key value]; simpl.
  destruct key, value; cbn [JS.nonEmpty]; rewrite ?app_nil_r; try reflexivity.
  now rewrite replaceFirst_dquote.
Qed.

Lemma foldl_pushAttribute (attribs : list KV) (out : list string) :
  foldl Attributes.pushAttribute out attribs
  = out ++ omap Attributes.renderedAttribute attribs.
Proof.
  revert out; induction attribs as [|kv rest IH]; intros out; simpl.
  - now rewrite app_nil_r.
  - rewrite IH, pushAttribute_rendered.
    destruct (Attributes.renderedAttribute kv); simpl.
    + now rewrite <- app_assoc.
    + now rewrite app_nil_r.
Qed.

Lemma escapeFirstQuote_split (a b : string) :
  JS.hasChar JS.DQUOTE a = false ->
  Attributes.escapeFirstQuote (a +:+ JS.dquote +:+ b) = a +:+ "&quot;" +:+ b.
Proof.
  induction a as [|c a IH]; intros H.
  - reflexivity.
  - cbn [JS.hasChar] in H. apply orb_false_iff in H as [Hc Ha].
    rewrite !append_String. cbn [Attributes.escapeFirstQuote]. rewrite Hc.
    now rewrite IH.
Qed.

Lemma escapeFirstQuote_none (value : string) :
  JS.hasChar JS.DQUOTE value = false ->
  Attributes.escapeFirstQuote value = value.
Proof.
  induction value as [|c rest IH]; intros H; [reflexivity|].
  cbn [JS.hasChar] in H. apply orb_false_iff in H as [Hc Hr].
  cbn [Attributes.escapeFirstQuote]. rewrite Hc. now rewrite IH.
Qed.

(** C10.  [_serializeAttributes] renders a pair with key and value as the
    key, an equals sign and the value between double quotes, where only the
    first double quote of the value becomes
    [&quot;] and whatever follows it is kept as it is; a pair with an empty
    value as the key; a pair with an empty key as the value; a pair with
    neither as nothing; and joins the renderings with single spaces. *)
Theorem serializeAttributes_renders_pairs :
  (forall attribs : list KV,
     Attributes._serializeAttributes attribs
     = String.concat " " (omap Attributes.renderedAttribute attribs))
  /\ (forall key value : string, key <> "" -> value <> "" ->
        Attributes.renderedAttribute (mkKV key value)
        = Some (key +:+ "=" +:+ JS.dquote
                +:+ Attributes.escapeFirstQuote value +:+ JS.dquote))
  /\ (forall key : string, key <> "" ->
        Attributes.renderedAttribute (mkKV key "") = Some key)
  /\ (forall value : string, value <> "" ->
        Attributes.renderedAttribute (mkKV "" value) = Some value)
  /\ (forall before after : string,
        JS.hasChar JS.DQUOTE before = false ->
        Attributes.escapeFirstQuote (before +:+ JS.dquote +:+ after)
        = before +:+ "&quot;" +:+ after)
  /\ (forall value : string,
        JS.hasChar JS.DQUOTE value = false ->
        Attributes.escapeFirstQuote value = value).
Proof.
  repeat split.
  - intros attribs. unfold Attributes._serializeAttributes, JS.join.
    now rewrite foldl_pushAttribute.
  - intros key value Hk Hv. destruct key, value; try congruence. reflexivity.
  - intros key Hk. destruct key; try congruence. reflexivity.
  - intros value Hv. destruct value; try congruence. reflexivity.
  - apply escapeFirstQuote_split.
  - apply escapeFirstQuote_none.
Qed.

(** Four pairs: key [a] whose value holds two double quotes, key [b] with
    an empty value, an empty key with value [c], and an empty pair.  Only
    the first quote of the value of [a] is escaped. *)
Lemma serializeAttributes_renders_pairs_witness :
  Attributes._serializeAttributes
    [mkKV "a" ("x" +:+ JS.dquote +:+ "y" +:+ JS.dquote +:+ "z");
     mkKV "b" ""; mkKV "" "c"; mkKV "" ""]
  = "a=" +:+ JS.dquote +:+ "x&quot;y" +:+ JS.dquote +:+ "z" +:+ JS.dquote
    +:+ " b c"
  /\ Attributes.escapeFirstQuote
       ("x" +:+ JS.dquote +:+ ("y" +:+ JS.dquote +:+ "z"))
     = "x" +:+ "&quot;" +:+ ("y" +:+ JS.dquote +:+ "z").
Proof.
  destruct serializeAttributes_renders_pairs as (Hall & _ & _ & _ & Hsplit & _).
  split.
  - rewrite Hall. reflexivity.
  - apply Hsplit. reflexivity.
Defined.

(** ** The indent-pre handler *)

Section PreTheorems.
Import Pre PreSpec.

Variable isTableTag : Token -> bool.
Variable isBlockTag : string -> bool.

Local Abbreviation onAny_fuel := (Pre.onAny_fuel isTableTag isBlockTag).
Local Abbreviation onAny := (Pre.onAny isTableTag isBlockTag).
Local Abbreviation feed := (Pre.feed isTableTag isBlockTag).
Local Abbreviation run := (Pre.run isTableTag isBlockTag).

(** *** Console output does not steer the automaton *)

(** Two handlers that differ at most in their console and in their debug
    and trace settings. *)
Local Abbreviation alike h1 h2 := (quiet h1 = quiet h2).

Ltac same_fields H :=
  match type of H with
  | quiet ?h1 = quiet ?h2 =>
      destruct h1 as [dbg1 trc1 nt et at_ st ln p toks pw mw sol ip con1];
      destruct h2 as [dbg2 trc2 nt2 et2 at2 st2 ln2 p2 toks2 pw2 mw2 sol2 ip2 con2];
      unfold quiet in H; cbn in H; injection H as -> -> -> -> -> -> -> -> -> -> ->
  end.

Lemma getResultAndReset_alike (h1 h2 : PreHandler) (token : Token) :
  alike h1 h2 ->
  alike (fst (getResultAndReset h1 token)) (fst (getResultAndReset h2 token))
  /\ snd (getResultAndReset h1 token) = snd (getResultAndReset h2 token).
Proof.
  intros H. same_fields H.
  unfold getResultAndReset, popLastNL; cbn.
  destruct ln2, pw2, sol2; split; reflexivity.
Qed.

Lemma processPre_alike (h1 h2 : PreHandler) (token : Token) :
  alike h1 h2 ->
  alike (fst (processPre h1 token)) (fst (processPre h2 token))
  /\ snd (processPre h1 token) = snd (processPre h2 token).
Proof.
  intros H. same_fields H.
  unfold processPre, popLastNL; cbn.
  destruct toks2, mw2, ln2; split; reflexivity.
Qed.

Lemma onEnd_alike (h1 h2 : PreHandler) (token : Token) :
  alike h1 h2 ->
  alike (fst (onEnd h1 token)) (fst (onEnd h2 token))
  /\ snd (onEnd h1 token) = snd (onEnd h2 token).
Proof.
  intros H. same_fields H.
  unfold onEnd; cbn. destruct st2; split; reflexivity.
Qed.

Lemma traceStart_alike mk (h1 h2 : PreHandler) (token : Token) :
  alike h1 h2 -> alike (traceStart mk token h1) (traceStart mk token h2).
Proof.
  intros H. same_fields H. unfold traceStart; cbn.
  destruct trc1, dbg1, trc2, dbg2; reflexivity.
Qed.

Lemma debugEnd_alike ret1 ret2 (h1 h2 : PreHandler) :
  alike h1 h2 -> alike (debugEnd ret1 h1) (debugEnd ret2 h2).
Proof.
  intros H. same_fields H. unfold debugEnd; cbn.
  destruct dbg1, dbg2; reflexivity.
Qed.

Lemma alike_state (h1 h2 : PreHandler) :
  alike h1 h2 -> state h1 = state h2.
Proof. intros H. now same_fields H. Qed.

Lemma alike_set (h1 h2 : PreHandler) :
  alike h1 h2 ->
  (forall b, alike (set_inPre b h1) (set_inPre b h2))
  /\ (forall s, alike (set_state s h1) (set_state s h2))
  /\ (forall l, alike (set_tokens l h1) (set_tokens l h2))
  /\ (forall t, alike (set_preWSToken t h1) (set_preWSToken t h2))
  /\ (forall t, alike (set_multiLinePreWSToken t h1)
                  (set_multiLinePreWSToken t h2))
  /\ (forall l, alike (set_solTransparentTokens l h1)
                  (set_solTransparentTokens l h2))
  /\ (forall z, alike (set_preTSR z h1) (set_preTSR z h2))
  /\ (forall t, alike (set_lastNlTk t h1) (set_lastNlTk t h2))
  /\ (forall e1 e2, alike (log e1 h1) (log e2 h2))
  /\ (forall b, alike (init h1 b) (init h2 b))
  /\ alike (moveToIgnoreState h1) (moveToIgnoreState h2).
Proof. intros H. same_fields H. repeat split. Qed.

Lemma onNewline_alike (h1 h2 : PreHandler) (token : Token) :
  alike h1 h2 ->
  alike (fst (onNewline h1 token)) (fst (onNewline h2 token))
  /\ snd (onNewline h1 token) = snd (onNewline h2 token).
Proof.
  intros H. unfold onNewline.
  pose proof (traceStart_alike Warn_nl _ _ token H) as H'.
  set (k1 := traceStart Warn_nl token h1) in *.
  set (k2 := traceStart Warn_nl token h2) in *.
  rewrite (alike_state _ _ H').
  destruct (getResultAndReset_alike k1 k2 token H') as [Ha Hr].
  destruct (processPre_alike k1 k2 token H') as [Hb Hs].
  destruct (getResultAndReset k1 token) as [a1 r1].
  destruct (getResultAndReset k2 token) as [a2 r2].
  destruct (processPre k1 token) as [b1 s1].
  destruct (processPre k2 token) as [b2 s2].
  cbn [fst snd] in *. subst r2 s2.
  destruct (state k2); cbn [fst snd]; (split; [|reflexivity]);
    apply debugEnd_alike; repeat (apply alike_set); assumption.
Qed.

Lemma trackInPre_alike (h1 h2 : PreHandler) (token : Token) :
  alike h1 h2 -> alike (trackInPre token h1) (trackInPre token h2).
Proof.
  intros H. unfold trackInPre.
  destruct (isPreOpen token), (isPreClose token);
    try assumption; now apply alike_set.
Qed.

Lemma onAny_EOF_alike (h1 h2 : PreHandler) (token : Token) :
  alike h1 h2 ->
  alike (fst (onAny_EOF h1 token)) (fst (onAny_EOF h2 token))
  /\ snd (onAny_EOF h1 token) = snd (onAny_EOF h2 token).
Proof.
  intros H. unfold onAny_EOF. rewrite (alike_state _ _ H).
  destruct (getResultAndReset_alike h1 h2 token H) as [Ha Hr].
  destruct (processPre_alike h1 h2 token H) as [Hb Hs].
  destruct (getResultAndReset h1 token) as [a1 r1].
  destruct (getResultAndReset h2 token) as [a2 r2].
  destruct (processPre h1 token) as [b1 s1].
  destruct (processPre h2 token) as [b2 s2].
  cbn [fst snd] in *. subst r2 s2.
  destruct (state h2); cbn [fst snd]; (split; [|reflexivity]).
  all: apply alike_set; now apply alike_set.
Qed.

Lemma onAny_PRE_alike (h1 h2 : PreHandler) (token : Token) :
  alike h1 h2 ->
  alike (fst (Pre.onAny_PRE isTableTag isBlockTag h1 token))
        (fst (Pre.onAny_PRE isTableTag isBlockTag h2 token))
  /\ snd (Pre.onAny_PRE isTableTag isBlockTag h1 token)
     = snd (Pre.onAny_PRE isTableTag isBlockTag h2 token).
Proof.
  intros H. unfold Pre.onAny_PRE.
  destruct (isSolTransparent token).
  { cbn [fst snd]. split; [|reflexivity]. same_fields H. reflexivity. }
  destruct (isTableTag token || isHTMLTag token && isBlockTag (tagName token)).
  - destruct (getResultAndReset_alike h1 h2 token H) as [Ha Hr].
    destruct (getResultAndReset h1 token) as [a1 r1].
    destruct (getResultAndReset h2 token) as [a2 r2].
    cbn [fst snd] in *. subst r2. split; [|reflexivity].
    now apply alike_set.
  - cbn [fst snd]. split; [|reflexivity]. same_fields H. reflexivity.
Qed.

Lemma onAny_PRE_COLLECT_alike (h1 h2 : PreHandler) (token : Token) :
  alike h1 h2 ->
  alike (fst (Pre.onAny_PRE_COLLECT isBlockTag h1 token))
        (fst (Pre.onAny_PRE_COLLECT isBlockTag h2 token))
  /\ snd (Pre.onAny_PRE_COLLECT isBlockTag h1 token)
     = snd (Pre.onAny_PRE_COLLECT isBlockTag h2 token).
Proof.
  intros H. unfold Pre.onAny_PRE_COLLECT.
  destruct (isHTMLTag token && isBlockTag (tagName token)).
  - destruct (processPre_alike h1 h2 token H) as [Ha Hr].
    destruct (processPre h1 token) as [a1 r1].
    destruct (processPre h2 token) as [a2 r2].
    cbn [fst snd] in *. subst r2. split; [|reflexivity].
    now apply alike_set.
  - cbn [fst snd]. split; [|reflexivity]. same_fields H. reflexivity.
Qed.

Section Self.
Variable self : PreHandler -> Token -> PreHandler.
Hypothesis self_alike :
  forall h1 h2 token, alike h1 h2 -> alike (self h1 token) (self h2 token).

Lemma onAny_SOL_alike (h1 h2 : PreHandler) (token : Token) :
  alike h1 h2 ->
  alike (fst (onAny_SOL self h1 token)) (fst (onAny_SOL self h2 token))
  /\ snd (onAny_SOL self h1 token) = snd (onAny_SOL self h2 token).
Proof.
  intros H. unfold onAny_SOL.
  assert (Hip : inPre h1 = inPre h2) by (same_fields H; reflexivity).
  assert (Htk : tokens h1 = tokens h2) by (same_fields H; reflexivity).
  assert (Hp : preTSR h1 = preTSR h2) by (same_fields H; reflexivity).
  rewrite Hip.
  destruct (startsWithSpace token && negb (inPre h2)).
  - cbn [fst snd]. split; [|now rewrite Htk].
    destruct (negb (isSingleSpace token)).
    + apply self_alike. same_fields H. reflexivity.
    + same_fields H. reflexivity.
  - destruct (isSolTransparent token).
    + cbn [fst snd]. split; [|reflexivity]. same_fields H. reflexivity.
    + destruct (getResultAndReset_alike h1 h2 token H) as [Ha Hr].
      destruct (getResultAndReset h1 token) as [h1' r1].
      destruct (getResultAndReset h2 token) as [h2' r2].
      cbn [fst snd] in *. subst r2. split; [|reflexivity].
      now apply alike_set.
Qed.

Lemma onAny_MULTILINE_PRE_alike (h1 h2 : PreHandler) (token : Token) :
  alike h1 h2 ->
  alike (fst (onAny_MULTILINE_PRE self h1 token))
        (fst (onAny_MULTILINE_PRE self h2 token))
  /\ snd (onAny_MULTILINE_PRE self h1 token)
     = snd (onAny_MULTILINE_PRE self h2 token).
Proof.
  intros H. unfold onAny_MULTILINE_PRE.
  destruct (startsWithSpace token).
  - unfold popLastNL.
    assert (Hl : lastNlTk h1 = lastNlTk h2) by (same_fields H; reflexivity).
    rewrite Hl. destruct (lastNlTk h2); cbn [fst snd];
      (split; [|reflexivity]);
      (destruct (negb (isSingleSpace token));
       [apply self_alike|]; same_fields H; reflexivity).
  - destruct (isSolTransparent token).
    + cbn [fst snd]. split; [|reflexivity]. same_fields H. reflexivity.
    + destruct (processPre_alike h1 h2 token H) as [Ha Hr].
      destruct (processPre h1 token) as [h1' r1].
      destruct (processPre h2 token) as [h2' r2].
      cbn [fst snd] in *. subst r2. split; [|reflexivity].
      now apply alike_set.
Qed.

End Self.

Lemma onAny_fuel_alike (fuel : nat) :
  forall (h1 h2 : PreHandler) (token : Token),
    alike h1 h2 ->
    alike (fst (onAny_fuel fuel h1 token)) (fst (onAny_fuel fuel h2 token))
    /\ snd (onAny_fuel fuel h1 token) = snd (onAny_fuel fuel h2 token).
Proof.
  induction fuel as [|fuel IH]; intros h1 h2 token H.
  - split; [exact H | reflexivity].
  - cbn [Pre.onAny_fuel]. unfold Pre.onAny_body.
    pose proof (traceStart_alike Warn_any _ _ token
                  (trackInPre_alike _ _ token H)) as H'.
    set (k1 := traceStart Warn_any token (trackInPre token h1)) in *.
    set (k2 := traceStart Warn_any token (trackInPre token h2)) in *.
    rewrite (alike_state _ _ H').
    assert (Hself : forall a b t, alike a b ->
              alike (fst (onAny_fuel fuel a t)) (fst (onAny_fuel fuel b t)))
      by (intros a b t Hab; now apply IH).
    assert (Hbody :
      forall (f1 f2 : PreHandler * option (list Token)),
        alike (fst f1) (fst f2) /\ snd f1 = snd f2 ->
        alike (fst (let '(h, ret) := f1 in (debugEnd ret h, ret)))
              (fst (let '(h, ret) := f2 in (debugEnd ret h, ret)))
        /\ snd (let '(h, ret) := f1 in (debugEnd ret h, ret))
           = snd (let '(h, ret) := f2 in (debugEnd ret h, ret))).
    { intros [a ra] [b rb] [Ha Hr]; cbn [fst snd] in *. subst rb.
      split; [now apply debugEnd_alike | reflexivity]. }
    destruct (state k2) eqn:Est.
    all: try (apply Hbody; destruct token;
              first [ now apply onAny_EOF_alike
                    | now apply (onAny_SOL_alike _ Hself)
                    | now apply onAny_PRE_alike
                    | now apply onAny_PRE_COLLECT_alike
                    | now apply (onAny_MULTILINE_PRE_alike _ Hself) ]).
    cbn [fst snd]. split; [|reflexivity]. now apply alike_set.
Qed.

Lemma passOn_alike (token : Token)
    (r1 r2 : PreHandler * option (list Token)) :
  alike (fst r1) (fst r2) /\ snd r1 = snd r2 ->
  alike (fst (passOn token r1)) (fst (passOn token r2))
  /\ snd (passOn token r1) = snd (passOn token r2).
Proof.
  destruct r1 as [a [ra|]], r2 as [b [rb|]]; cbn; intros [Ha Hr];
    try discriminate; split; try assumption; congruence.
Qed.

Lemma feed_alike (h1 h2 : PreHandler) (token : Token) :
  alike h1 h2 ->
  alike (fst (feed h1 token)) (fst (feed h2 token))
  /\ snd (feed h1 token) = snd (feed h2 token).
Proof.
  intros H. unfold Pre.feed, Pre.onAny.
  assert (Hn : newlineTransform h1 = newlineTransform h2)
    by (same_fields H; reflexivity).
  assert (He : endTransform h1 = endTransform h2)
    by (same_fields H; reflexivity).
  assert (Ha : anyTransform h1 = anyTransform h2)
    by (same_fields H; reflexivity).
  rewrite Hn, He, Ha.
  destruct token;
    repeat match goal with
           | |- context [if ?b then _ else _] => destruct b
           end;
    try (split; [assumption | reflexivity]);
    apply passOn_alike;
    first [ now apply onAny_fuel_alike
          | now apply onNewline_alike
          | now apply onEnd_alike ].
Qed.

Lemma run_alike (toks : list Token) :
  forall h1 h2 : PreHandler,
    alike h1 h2 ->
    alike (fst (run h1 toks)) (fst (run h2 toks))
    /\ snd (run h1 toks) = snd (run h2 toks).
Proof.
  induction toks as [|t rest IH]; intros h1 h2 H; cbn [Pre.run].
  - split; [assumption | reflexivity].
  - destruct (feed_alike h1 h2 t H) as [Hf Ho].
    destruct (feed h1 t) as [a1 o1], (feed h2 t) as [a2 o2].
    cbn [fst snd] in *. subst o2.
    destruct (IH a1 a2 Hf) as [Hr Hq].
    destruct (run a1 rest) as [b1 q1], (run a2 rest) as [b2 q2].
    cbn [fst snd] in *. subst q2. split; [assumption | reflexivity].
Qed.

Lemma run_app (toks1 toks2 : list Token) (h : PreHandler) :
  run h (toks1 ++ toks2)
  = (fst (run (fst (run h toks1)) toks2),
     snd (run h toks1) ++ snd (run (fst (run h toks1)) toks2)).
Proof.
  revert h; induction toks1 as [|t rest IH]; intros h; cbn [Pre.run app].
  - cbn [fst snd]. now destruct (run h toks2).
  - destruct (feed h t) as [h1 o1]. rewrite IH.
    destruct (run h1 rest) as [h2 o2]. cbn [fst snd].
    now rewrite app_assoc.
Qed.

(** *** The any-token transform is registered exactly outside [STATE_IGNORE] *)

Lemma alike_fields (h1 h2 : PreHandler) :
  alike h1 h2 ->
  state h1 = state h2 /\ tokens h1 = tokens h2
  /\ lastNlTk h1 = lastNlTk h2 /\ preTSR h1 = preTSR h2
  /\ solTransparentTokens h1 = solTransparentTokens h2
  /\ inPre h1 = inPre h2 /\ anyTransform h1 = anyTransform h2
  /\ preWSToken h1 = preWSToken h2
  /\ multiLinePreWSToken h1 = multiLinePreWSToken h2.
Proof. intros H. same_fields H. repeat split. Qed.

Lemma wired_alike (h1 h2 : PreHandler) :
  alike h1 h2 -> wired h1 -> wired h2.
Proof. intros H. same_fields H. unfold wired; cbn. tauto. Qed.

Lemma wired_any (h : PreHandler) :
  wired h -> state h <> STATE_IGNORE -> anyTransform h = true.
Proof.
  intros (_ & _ & Hw) Hs. destruct (anyTransform h); [reflexivity|].
  exfalso. apply Hs, Hw. reflexivity.
Qed.

Lemma wired_ignore (h : PreHandler) :
  wired h -> state h = STATE_IGNORE -> anyTransform h = false.
Proof. intros (_ & _ & Hw) Hs. now apply Hw. Qed.

Ltac fields h :=
  destruct h as [dbg trc nt et at_ st ln p toks pw mw sol ip con].

Lemma getResultAndReset_frame (h : PreHandler) (token : Token) :
  sameFrame h (fst (getResultAndReset h token)).
Proof.
  fields h. unfold sameFrame, getResultAndReset, popLastNL; cbn.
  destruct ln, pw, sol; cbn; repeat split.
Qed.

Lemma processPre_frame (h : PreHandler) (token : Token) :
  sameFrame h (fst (processPre h token)).
Proof.
  fields h. unfold sameFrame, processPre, popLastNL; cbn.
  destruct toks, mw, ln; cbn; repeat split.
Qed.

Lemma traceStart_frame mk (h : PreHandler) (token : Token) :
  sameFrame h (traceStart mk token h).
Proof.
  fields h. unfold sameFrame, traceStart; cbn.
  destruct trc, dbg; cbn; repeat split.
Qed.

Lemma debugEnd_frame ret (h : PreHandler) : sameFrame h (debugEnd ret h).
Proof.
  fields h. unfold sameFrame, debugEnd; cbn. destruct dbg; cbn; repeat split.
Qed.

Lemma trackInPre_frame (h : PreHandler) (token : Token) :
  sameFrame h (trackInPre token h).
Proof.
  unfold sameFrame, trackInPre.
  destruct (isPreOpen token), (isPreClose token); repeat split.
Qed.

Lemma sameFrame_trans (a b c : PreHandler) :
  sameFrame a b -> sameFrame b c -> sameFrame a c.
Proof. unfold sameFrame. intuition congruence. Qed.

Lemma sameFrame_kept (a b : PreHandler) : sameFrame a b -> kept a b.
Proof.
  fields a. destruct b. unfold sameFrame, kept, wired; cbn.
  intros (-> & -> & -> & -> & ->). split; [tauto | reflexivity].
Qed.

Lemma kept_frame_l (a b c : PreHandler) :
  sameFrame a b -> kept b c -> kept a c.
Proof.
  fields a. destruct b, c. unfold sameFrame, kept, wired; cbn.
  intros (-> & -> & -> & -> & ->). tauto.
Qed.

Lemma kept_frame_r (a b c : PreHandler) :
  kept a b -> sameFrame b c -> kept a c.
Proof.
  fields a. destruct b, c. unfold sameFrame, kept, wired; cbn.
  intros Hk (-> & -> & -> & -> & ->). tauto.
Qed.

(** Leaving for another state than [STATE_IGNORE], or for [STATE_IGNORE]
    with the any-token transform removed. *)
Lemma kept_set_state (h : PreHandler) (s : State) :
  state h <> STATE_IGNORE -> s <> STATE_IGNORE -> s <> STATE_SOL ->
  kept h (set_state s h).
Proof.
  fields h. unfold kept, wired; cbn. intros Hs Hn Hsol. split; [|reflexivity].
  intros (-> & -> & Hw). repeat split; try congruence.
  intros Ha. apply Hw in Ha. congruence.
Qed.

Lemma kept_moveToIgnoreState (h : PreHandler) :
  kept h (moveToIgnoreState h).
Proof.
  fields h. unfold kept, wired; cbn. split; [|reflexivity].
  intros (-> & -> & _). repeat split.
Qed.

Lemma kept_init (h : PreHandler) (b : bool) :
  (b = false -> state h <> STATE_IGNORE) -> kept h (init h b).
Proof.
  fields h. unfold kept, wired; cbn. intros Hb. split; [|congruence].
  intros (-> & -> & Hw). repeat split; try congruence.
  destruct b; [discriminate|]. intros Ha. exfalso. apply Hb; [reflexivity|].
  now apply Hw.
Qed.

Lemma kept_trans_frame (a b c : PreHandler) :
  kept a b -> kept b c -> state b <> STATE_SOL -> kept a c.
Proof.
  unfold kept. intros [W1 P1] [W2 P2] Hb. split; [tauto|].
  intros Hc. rewrite (P2 Hc). now apply P1.
Qed.

Lemma onAny_EOF_kept (h : PreHandler) (token : Token) :
  state h <> STATE_IGNORE -> kept h (fst (onAny_EOF h token)).
Proof.
  intros Hs. unfold onAny_EOF.
  pose proof (getResultAndReset_frame h token) as F1.
  pose proof (processPre_frame h token) as F2.
  destruct (getResultAndReset h token) as [a ra].
  destruct (processPre h token) as [b rb]. cbn [fst] in *.
  assert (K : forall x, sameFrame h x -> kept h (init (set_inPre false x) false)).
  { intros x F. eapply kept_frame_l; [exact F|].
    eapply kept_frame_l with (b := set_inPre false x); [repeat split|].
    apply kept_init. intros _. cbn. destruct F as [-> _]. exact Hs. }
  destruct (state h); cbn [fst]; try (now apply K); try congruence.
Qed.

Lemma onAny_PRE_kept (h : PreHandler) (token : Token) :
  state h = STATE_PRE ->
  kept h (fst (Pre.onAny_PRE isTableTag isBlockTag h token)).
Proof.
  intros Hs. unfold Pre.onAny_PRE.
  destruct (isSolTransparent token).
  { cbn [fst]. apply sameFrame_kept. repeat split. }
  destruct (isTableTag token || isHTMLTag token && isBlockTag (tagName token)).
  - pose proof (getResultAndReset_frame h token) as F.
    destruct (getResultAndReset h token) as [a ra]. cbn [fst] in *.
    eapply kept_frame_l; [exact F|]. apply kept_moveToIgnoreState.
  - cbn [fst].
    eapply kept_frame_r; [apply (kept_set_state h STATE_PRE_COLLECT);
                          congruence|].
    repeat split.
Qed.

Lemma onAny_PRE_COLLECT_kept (h : PreHandler) (token : Token) :
  kept h (fst (Pre.onAny_PRE_COLLECT isBlockTag h token)).
Proof.
  unfold Pre.onAny_PRE_COLLECT.
  destruct (isHTMLTag token && isBlockTag (tagName token)).
  - pose proof (processPre_frame h token) as F.
    destruct (processPre h token) as [a ra]. cbn [fst] in *.
    eapply kept_frame_l; [exact F|]. apply kept_moveToIgnoreState.
  - cbn [fst]. apply sameFrame_kept. repeat split.
Qed.

Section SelfKept.
Variable self : PreHandler -> Token -> PreHandler.
Hypothesis self_kept : forall h token, kept h (self h token).

Lemma onAny_SOL_kept (h : PreHandler) (token : Token) :
  state h = STATE_SOL -> kept h (fst (onAny_SOL self h token)).
Proof.
  intros Hs. unfold onAny_SOL.
  destruct (startsWithSpace token && negb (inPre h)).
  - cbn [fst].
    set (h1 := set_state STATE_PRE
                 (set_preWSToken (Some (firstChar token)) (set_tokens [] h))).
    assert (K1 : kept h h1).
    { eapply kept_frame_r; [apply (kept_set_state h STATE_PRE); congruence|].
      repeat split. }
    destruct (negb (isSingleSpace token)); [|exact K1].
    eapply kept_trans_frame; [exact K1 | apply self_kept | discriminate].
  - destruct (isSolTransparent token).
    + cbn [fst]. fields h. cbn in Hs. subst st. unfold kept, wired; cbn.
      split; [tauto | congruence].
    + pose proof (getResultAndReset_frame h token) as F.
      destruct (getResultAndReset h token) as [a ra]. cbn [fst] in *.
      eapply kept_frame_l; [exact F|]. apply kept_moveToIgnoreState.
Qed.

Lemma onAny_MULTILINE_PRE_kept (h : PreHandler) (token : Token) :
  state h = STATE_MULTILINE_PRE ->
  kept h (fst (onAny_MULTILINE_PRE self h token)).
Proof.
  intros Hs. unfold onAny_MULTILINE_PRE.
  destruct (startsWithSpace token).
  - assert (K1 : forall x, sameFrame h x ->
                 kept h (set_state STATE_PRE_COLLECT x)).
    { intros x F. eapply kept_frame_l; [exact F|].
      apply kept_set_state; try congruence. destruct F as [-> _]. congruence. }
    unfold popLastNL. destruct (lastNlTk h); cbn [fst].
    all: match goal with
         | |- kept ?a (if _ then self ?x _ else _) =>
             assert (K : kept a x)
               by (eapply kept_frame_r;
                   [apply (K1 a); repeat split | repeat split])
         end.
    all: destruct (negb (isSingleSpace token)); [|exact K].
    all: eapply kept_trans_frame; [exact K | apply self_kept | discriminate].
  - destruct (isSolTransparent token).
    + cbn [fst]. apply sameFrame_kept. repeat split.
    + pose proof (processPre_frame h token) as F.
      destruct (processPre h token) as [a ra]. cbn [fst] in *.
      eapply kept_frame_l; [exact F|]. apply kept_moveToIgnoreState.
Qed.

End SelfKept.

Lemma onAny_fuel_kept (fuel : nat) :
  forall (h : PreHandler) (token : Token),
    kept h (fst (onAny_fuel fuel h token)).
Proof.
  induction fuel as [|fuel IH]; intros h token.
  - cbn. apply sameFrame_kept. repeat split.
  - cbn [Pre.onAny_fuel]. unfold Pre.onAny_body.
    pose proof (sameFrame_trans _ _ _ (trackInPre_frame h token)
                  (traceStart_frame Warn_any (trackInPre token h) token)) as F.
    set (k := traceStart Warn_any token (trackInPre token h)) in *.
    eapply kept_frame_l; [exact F|].
    assert (Hbody : forall f : PreHandler * option (list Token),
              kept k (fst f) ->
              kept k (fst (let '(h, ret) := f in (debugEnd ret h, ret)))).
    { intros [a ra] Ha; cbn [fst] in *.
      eapply kept_frame_r; [exact Ha | apply debugEnd_frame]. }
    destruct (state k) eqn:Est.
    all: try (apply Hbody; destruct token;
              first [ apply onAny_EOF_kept; congruence
                    | now apply (onAny_SOL_kept _ IH)
                    | now apply onAny_PRE_kept
                    | now apply onAny_PRE_COLLECT_kept
                    | now apply (onAny_MULTILINE_PRE_kept _ IH) ]).
    cbn [fst]. apply sameFrame_kept. repeat split.
Qed.

Lemma onNewline_kept (h : PreHandler) (token : Token) :
  kept h (fst (onNewline h token)).
Proof.
  unfold onNewline.
  pose proof (traceStart_frame Warn_nl h token) as F.
  set (k := traceStart Warn_nl token h) in *.
  eapply kept_frame_l; [exact F|].
  pose proof (getResultAndReset_frame k token) as F1.
  pose proof (processPre_frame k token) as F2.
  destruct (getResultAndReset k token) as [a ra].
  destruct (processPre k token) as [b rb]. cbn [fst] in *.
  destruct (state k) eqn:Est; cbn [fst];
    (eapply kept_frame_r; [|apply debugEnd_frame]).
  - fields k. destruct a. unfold sameFrame in F1; cbn in *.
    destruct F1 as (-> & -> & -> & -> & ->). subst.
    unfold kept, wired; cbn. split; [tauto | congruence].
  - fields k. destruct a. unfold sameFrame in F1; cbn in *.
    destruct F1 as (-> & -> & -> & -> & ->). subst.
    unfold kept, wired; cbn. split; [|congruence].
    intros (-> & -> & Hw). repeat split; try congruence.
    intros Ha. apply Hw in Ha. congruence.
  - eapply kept_frame_r;
      [apply (kept_set_state k STATE_MULTILINE_PRE); congruence|].
    repeat split.
  - fields k. destruct b. unfold sameFrame in F2; cbn in *.
    destruct F2 as (-> & -> & -> & -> & ->). subst.
    unfold kept, wired; cbn. split; [|congruence].
    intros (-> & -> & Hw). repeat split; try congruence.
    intros Ha. apply Hw in Ha. congruence.
  - fields k. cbn in *. subst. unfold kept, wired; cbn.
    split; [|congruence]. intros (-> & -> & Hw). repeat split; congruence.
Qed.

Lemma onEnd_kept (h : PreHandler) (token : Token) :
  state h = STATE_IGNORE -> kept h (fst (onEnd h token)).
Proof.
  intros Hs. fields h. cbn in Hs. subst st. unfold onEnd; cbn.
  unfold kept, wired; cbn. split; [|congruence].
  intros (-> & -> & Hw). repeat split; congruence.
Qed.

Lemma passOn_fst (token : Token) (r : PreHandler * option (list Token)) :
  fst (passOn token r) = fst r.
Proof. now destruct r as [h [l|]]. Qed.

Lemma feed_kept (h : PreHandler) (token : Token) :
  wired h -> kept h (fst (feed h token)).
Proof.
  intros W. unfold Pre.feed, Pre.onAny.
  pose proof W as (Hn & He & Hw). rewrite Hn, He.
  destruct token; try (destruct (anyTransform h) eqn:Ea);
    rewrite ?passOn_fst;
    first [ apply onAny_fuel_kept
          | apply onNewline_kept
          | apply onEnd_kept; now apply Hw
          | apply sameFrame_kept; repeat split ].
Qed.

Lemma run_wired (toks : list Token) :
  forall h : PreHandler, wired h -> wired (fst (run h toks)).
Proof.
  induction toks as [|t rest IH]; intros h W; cbn [Pre.run].
  - exact W.
  - pose proof (feed_kept h t W) as [K _].
    destruct (feed h t) as [h1 o1]. cbn [fst] in *.
    specialize (IH h1 (K W)). destruct (run h1 rest) as [h2 o2]. exact IH.
Qed.

Lemma PreHandler_new_wired (c : ParsoidConf) :
  wired (PreHandler_new c false).
Proof. unfold wired; cbn. repeat split; congruence. Qed.

(** The end of input puts the handler back into the state of a new one. *)
Lemma feed_EOF_fresh (h : PreHandler) (c : ParsoidConf) :
  wired h -> alike (fst (feed h EOFTk)) (PreHandler_new c false).
Proof.
  intros W. pose proof W as (Hn & He & Hw).
  unfold Pre.feed, Pre.onAny. rewrite He.
  destruct (anyTransform h) eqn:Ea; rewrite passOn_fst.
  - assert (Hs : state h <> STATE_IGNORE).
    { intros Hs. apply Hw in Hs. congruence. }
    cbn [tokenLength Pre.onAny_fuel]. unfold Pre.onAny_body.
    cbn [trackInPre isPreOpen isPreClose].
    pose proof (traceStart_frame Warn_any h EOFTk) as F.
    set (k := traceStart Warn_any EOFTk h) in *.
    destruct F as (Fs & Fa & Fn & Fe & _).
    unfold onAny_EOF.
    pose proof (getResultAndReset_frame k EOFTk) as F1.
    pose proof (processPre_frame k EOFTk) as F2.
    destruct (getResultAndReset k EOFTk) as [a ra].
    destruct (processPre k EOFTk) as [b rb]. cbn [fst] in *.
    destruct F1 as (_ & F1a & F1n & F1e & _).
    destruct F2 as (_ & F2a & F2n & F2e & _).
    destruct (state k) eqn:Est; try congruence; cbn [fst].
    all: unfold debugEnd, init, set_inPre, quiet, log; cbn.
    all: match goal with
         | |- context [if debug ?x then _ else _] => destruct (debug x); cbn
         end.
    all: repeat f_equal; congruence.
  - assert (Hs : state h = STATE_IGNORE) by now apply Hw.
    fields h. cbn in *. subst. reflexivity.
Qed.

(** C9.  The pre-block state machine is deterministic.  Two runs over the
    same token sequence, each from a newly constructed handler, send on the
    same tokens, whatever the debug and trace settings of the two handlers;
    and a handler that has seen the end of input behaves in its next run
    as a new one does. *)
Theorem pre_block_runs_agree :
  forall (c1 c2 : ParsoidConf) (noPre : bool) (toks : list Token),
    snd (run (PreHandler_new c1 noPre) toks)
    = snd (run (PreHandler_new c2 noPre) toks)
    /\ forall before : list Token,
         snd (run (fst (run (PreHandler_new c1 false) (before ++ [EOFTk])))
                toks)
         = snd (run (PreHandler_new c2 false) toks).
Proof.
  intros c1 c2 noPre toks. split.
  - apply run_alike. destruct noPre; reflexivity.
  - intros before. apply run_alike.
    rewrite run_app. cbn [fst Pre.run].
    pose proof (run_wired before _ (PreHandler_new_wired c1)) as W.
    pose proof (feed_EOF_fresh _ c2 W) as E.
    destruct (feed (fst (run (PreHandler_new c1 false) before)) EOFTk)
      as [h1 o1]. exact E.
Qed.

(** *** Closing out a block *)


(** *** Evaluating the transforms on a handler given by its fields *)

Lemma trackInPre_machine st ln p toks pw mw sol ip token :
  trackInPre token (machine st ln p toks pw mw sol ip)
  = machine st ln p toks pw mw sol (inPreAfter ip token).
Proof.
  unfold trackInPre, inPreAfter.
  destruct (isPreOpen token), (isPreClose token); reflexivity.
Qed.

Lemma feed_machine (token : Token) st ln p toks pw mw sol ip :
  isInline token = true -> st <> STATE_IGNORE ->
  feed (machine st ln p toks pw mw sol ip) token
  = passOn token
      (let self := fun h' t' => fst (onAny_fuel (tokenLength token) h' t') in
       let m := machine st ln p toks pw mw sol (inPreAfter ip token) in
       let '(h, ret) :=
         match st with
         | STATE_SOL => onAny_SOL self m token
         | STATE_PRE => Pre.onAny_PRE isTableTag isBlockTag m token
         | STATE_PRE_COLLECT => Pre.onAny_PRE_COLLECT isBlockTag m token
         | STATE_MULTILINE_PRE => onAny_MULTILINE_PRE self m token
         | STATE_IGNORE => (m, None)
         end in
       (debugEnd ret h, ret)).
Proof.
  intros Hi Hst.
  assert (E : feed (machine st ln p toks pw mw sol ip) token
              = passOn token (onAny (machine st ln p toks pw mw sol ip) token))
    by (destruct token, st; try discriminate; try congruence; reflexivity).
  rewrite E. unfold Pre.onAny. cbn [Pre.onAny_fuel]. unfold Pre.onAny_body.
  rewrite trackInPre_machine.
  destruct st; try congruence; destruct token; try discriminate; reflexivity.
Qed.

Ltac to_machine H token :=
  let Ha := fresh "Ha" in
  destruct (feed_alike _ _ token H) as [Ha ->]; try rewrite Ha; clear Ha.

(** [STATE_PRE]: a sol-transparent token is buffered. *)
Lemma feed_PRE_transparent (h : PreHandler) (token : Token)
    ln p toks pw mw sol ip :
  alike h (machine STATE_PRE ln p toks pw mw sol ip) ->
  isSolTransparent token = true ->
  alike (fst (feed h token))
        (machine STATE_PRE ln p toks pw mw (sol ++ [token]) ip)
  /\ snd (feed h token) = [].
Proof.
  intros H Hsol. to_machine H token.
  assert (Hin : isInline token = true /\ inPreAfter ip token = ip).
  { unfold inPreAfter. destruct token; try discriminate; repeat split. }
  destruct Hin as (Hi & Hip).
  rewrite feed_machine by (assumption || discriminate).
  cbv zeta. rewrite Hip. unfold Pre.onAny_PRE. rewrite Hsol.
  split; reflexivity.
Qed.

(** [STATE_PRE]: the first token of the content starts the collection. *)
Lemma feed_PRE_content (h : PreHandler) (token : Token)
    ln p toks pw mw sol ip :
  alike h (machine STATE_PRE ln p toks pw mw sol ip) ->
  startsContent isTableTag isBlockTag token = true ->
  alike (fst (feed h token))
        (machine STATE_PRE_COLLECT ln p ((toks ++ sol) ++ [token]) None None
           [] (inPreAfter ip token))
  /\ snd (feed h token) = [].
Proof.
  intros H Hc. to_machine H token.
  unfold startsContent, isHTMLBlock in Hc.
  apply andb_true_iff in Hc as [Hc Hd]. apply andb_true_iff in Hc as [Hi Hs].
  apply negb_true_iff in Hs, Hd.
  rewrite feed_machine by (assumption || discriminate).
  cbv zeta. unfold Pre.onAny_PRE. rewrite Hs, Hd.
  split; reflexivity.
Qed.

(** [STATE_PRE_COLLECT]: a token that is no HTML block tag is collected. *)
Lemma feed_PRE_COLLECT_token (h : PreHandler) (token : Token)
    ln p toks pw mw sol ip :
  alike h (machine STATE_PRE_COLLECT ln p toks pw mw sol ip) ->
  collectable isBlockTag token = true ->
  alike (fst (feed h token))
        (machine STATE_PRE_COLLECT ln p (toks ++ [token]) None None sol
           (inPreAfter ip token))
  /\ snd (feed h token) = [].
Proof.
  intros H Hc. to_machine H token.
  unfold collectable, isHTMLBlock in Hc.
  apply andb_true_iff in Hc as [Hi Hd]. apply negb_true_iff in Hd.
  rewrite feed_machine by (assumption || discriminate).
  cbv zeta. unfold Pre.onAny_PRE_COLLECT. rewrite Hd.
  split; reflexivity.
Qed.

Lemma debugEnd_quiet ret (h : PreHandler) : alike (debugEnd ret h) h.
Proof. fields h. unfold debugEnd; cbn. destruct dbg; reflexivity. Qed.

Lemma run_single (h : PreHandler) (token : Token) :
  run h [token] = (fst (feed h token), snd (feed h token)).
Proof.
  cbn [Pre.run]. destruct (feed h token) as [h1 o1]. cbn.
  now rewrite app_nil_r.
Qed.

(** [STATE_SOL]: a text that starts with a space.  The tokens buffered so
    far are sent on, the space is kept aside, and what follows it in the
    text is fed to the automaton, now in [STATE_PRE], as a token of its
    own. *)
Lemma feed_SOL_space (h : PreHandler) (s : string) ln p toks pw mw sol :
  alike h (machine STATE_SOL ln p toks pw mw sol false) ->
  alike (fst (feed h (Str (String " " s))))
        (fst (run (machine STATE_PRE ln p [] (Some (Str " ")) mw sol false)
                (restOfText s)))
  /\ snd (feed h (Str (String " " s))) = toks.
Proof.
  intros H. to_machine H (Str (String " " s)).
  rewrite feed_machine by (reflexivity || discriminate).
  cbv zeta. unfold onAny_SOL, inPreAfter.
  cbn [isPreOpen isPreClose startsWithSpace JS.isPrefix machine inPre negb
       andb Ascii.eqb Bool.eqb tokens firstChar JS.takeS sliced JS.slice1
       JS.dropS tokenLength String.length passOn fst snd].
  destruct s as [|c s].
  - split; reflexivity.
  - replace (isSingleSpace (Str (String " " (String c s)))) with false
      by reflexivity.
    cbn [negb restOfText fst snd].
    split; [|reflexivity].
    rewrite debugEnd_quiet, run_single. cbn [fst].
    change (feed ?m (Str (String c s)))
      with (passOn (Str (String c s)) (onAny m (Str (String c s)))).
    rewrite passOn_fst. reflexivity.
Qed.

(** A newline in [STATE_SOL], [STATE_PRE_COLLECT] and
    [STATE_MULTILINE_PRE]; the end of input in [STATE_MULTILINE_PRE]. *)
Lemma feed_SOL_newline (h : PreHandler) (d : DataAttribs) p ip :
  alike h (machine STATE_SOL None p [] None None [] ip) ->
  alike (fst (feed h (NlTk d)))
        (machine STATE_SOL None (initPreTSR (NlTk d)) [] None None [] ip)
  /\ snd (feed h (NlTk d)) = [NlTk d].
Proof. intros H. to_machine H (NlTk d). split; reflexivity. Qed.

Lemma feed_PRE_COLLECT_newline (h : PreHandler) (d : DataAttribs)
    ln p toks pw mw sol ip :
  alike h (machine STATE_PRE_COLLECT ln p toks pw mw sol ip) ->
  alike (fst (feed h (NlTk d)))
        (machine STATE_MULTILINE_PRE (Some (NlTk d)) p toks pw mw sol ip)
  /\ snd (feed h (NlTk d)) = [].
Proof. intros H. to_machine H (NlTk d). split; reflexivity. Qed.

Lemma feed_MULTILINE_PRE_EOF (h : PreHandler) ln p toks pw mw sol ip :
  alike h (machine STATE_MULTILINE_PRE ln p toks pw mw sol ip) ->
  toks <> [] ->
  snd (feed h EOFTk)
  = preOpenTag p :: toks ++ preCloseTag :: optToList mw ++ optToList ln
    ++ sol ++ [EOFTk].
Proof.
  intros H Hne. to_machine H EOFTk.
  destruct toks as [|t0 toks]; [congruence|].
  destruct mw, ln; cbn; rewrite <- ?app_assoc; reflexivity.
Qed.

Lemma run_PRE_transparent (sols : list Token) :
  forall (h : PreHandler) ln p toks pw mw sol ip,
    alike h (machine STATE_PRE ln p toks pw mw sol ip) ->
    forallb isSolTransparent sols = true ->
    alike (fst (run h sols))
          (machine STATE_PRE ln p toks pw mw (sol ++ sols) ip)
    /\ snd (run h sols) = [].
Proof.
  induction sols as [|t sols IH]; intros h ln p toks pw mw sol ip H Hs.
  - cbn. rewrite app_nil_r. split; [assumption | reflexivity].
  - cbn [forallb] in Hs. apply andb_true_iff in Hs as [Ht Hs].
    destruct (feed_PRE_transparent h t _ _ _ _ _ _ _ H Ht) as [Ha Ho].
    cbn [Pre.run]. destruct (feed h t) as [h1 o1]. cbn [fst snd] in *.
    subst o1.
    destruct (IH h1 _ _ _ _ _ _ _ Ha Hs) as [Hb Hq].
    destruct (run h1 sols) as [h2 o2]. cbn [fst snd] in *. subst o2.
    rewrite <- app_assoc in Hb. split; [exact Hb | reflexivity].
Qed.

Lemma run_PRE_COLLECT (rest : list Token) :
  forall (h : PreHandler) ln p toks sol ip,
    alike h (machine STATE_PRE_COLLECT ln p toks None None sol ip) ->
    forallb (collectable isBlockTag) rest = true ->
    alike (fst (run h rest))
          (machine STATE_PRE_COLLECT ln p (toks ++ rest) None None sol
             (fold_left inPreAfter rest ip))
    /\ snd (run h rest) = [].
Proof.
  induction rest as [|t rest IH]; intros h ln p toks sol ip H Hs.
  - cbn. rewrite app_nil_r. split; [assumption | reflexivity].
  - cbn [forallb] in Hs. apply andb_true_iff in Hs as [Ht Hs].
    destruct (feed_PRE_COLLECT_token h t _ _ _ _ _ _ _ H Ht) as [Ha Ho].
    cbn [Pre.run]. destruct (feed h t) as [h1 o1]. cbn [fst snd] in *.
    subst o1.
    destruct (IH h1 _ _ _ _ _ Ha Hs) as [Hb Hq].
    destruct (run h1 rest) as [h2 o2]. cbn [fst snd] in *. subst o2.
    rewrite <- app_assoc in Hb. split; [exact Hb | reflexivity].
Qed.

(** The content of a line read in [STATE_PRE]: sol-transparent tokens, the
    token that starts the collection, and tokens that are collected. *)
Lemma run_PRE_line (sols rest : list Token) (first : Token)
    (h : PreHandler) ln p pw mw ip :
  alike h (machine STATE_PRE ln p [] pw mw [] ip) ->
  forallb isSolTransparent sols = true ->
  startsContent isTableTag isBlockTag first = true ->
  forallb (collectable isBlockTag) rest = true ->
  alike (fst (run h (sols ++ first :: rest)))
        (machine STATE_PRE_COLLECT ln p (sols ++ first :: rest) None None []
           (fold_left inPreAfter (first :: rest) ip))
  /\ snd (run h (sols ++ first :: rest)) = [].
Proof.
  intros H Hs Hf Hr. rewrite run_app.
  destruct (run_PRE_transparent sols h _ _ _ _ _ _ _ H Hs) as [Ha Ho].
  rewrite Ho. cbn [fst snd app] in *.
  set (h1 := fst (run h sols)) in *.
  destruct (feed_PRE_content h1 first _ _ _ _ _ _ _ Ha Hf) as [Hb Hp].
  cbn [Pre.run]. destruct (feed h1 first) as [h2 o2]. cbn [fst snd] in *.
  subst o2.
  destruct (run_PRE_COLLECT rest h2 _ _ _ _ _ Hb Hr) as [Hc Hq].
  destruct (run h2 rest) as [h3 o3]. cbn [fst snd] in *. subst o3.
  rewrite <- app_assoc in Hc. split; [exact Hc | reflexivity].
Qed.

(** [STATE_SOL], any handler: the space of a text that starts with one is
    not sent on, and what follows it is fed to the automaton as a token of
    its own. *)
Lemma feed_leading_space (h : PreHandler) (s : string) :
  state h = STATE_SOL -> inPre h = false -> anyTransform h = true ->
  snd (feed h (Str (String " " s))) = tokens h
  /\ alike (fst (feed h (Str (String " " s))))
           (fst (run (set_state STATE_PRE
                        (set_preWSToken (Some (Str " ")) (set_tokens [] h)))
                   (restOfText s))).
Proof.
  intros Hst Hip Hany.
  set (token := Str (String " " s)).
  assert (E : feed h token = passOn token (onAny h token))
    by (cbn [Pre.feed token]; now rewrite Hany).
  rewrite E. unfold Pre.onAny. cbn [Pre.onAny_fuel]. unfold Pre.onAny_body.
  change (trackInPre token h) with h.
  pose proof (traceStart_alike Warn_any h h token eq_refl) as _.
  assert (Hk : alike (traceStart Warn_any token h) h).
  { fields h. unfold traceStart; cbn. destruct trc, dbg; reflexivity. }
  set (k := traceStart Warn_any token h) in *.
  pose proof (alike_fields _ _ Hk) as (Ks & Kt & _ & _ & _ & Ki & _).
  rewrite Ks, Hst. unfold onAny_SOL. rewrite Ki, Hip.
  change (startsWithSpace token && negb false) with true.
  cbn [token firstChar JS.takeS sliced JS.slice1 JS.dropS].
  assert (Hk2 : alike (set_state STATE_PRE
                         (set_preWSToken (Some (Str " ")) (set_tokens [] k)))
                      (set_state STATE_PRE
                         (set_preWSToken (Some (Str " ")) (set_tokens [] h)))).
  { repeat (apply alike_set). exact Hk. }
  set (h2 := set_state STATE_PRE
               (set_preWSToken (Some (Str " ")) (set_tokens [] h))) in *.
  set (k2 := set_state STATE_PRE
               (set_preWSToken (Some (Str " ")) (set_tokens [] k))) in *.
  destruct s as [|c s].
  - cbn [isSingleSpace String.eqb Ascii.eqb Bool.eqb negb passOn fst snd
         restOfText Pre.run].
    split; [exact Kt|]. now rewrite debugEnd_quiet.
  - replace (isSingleSpace (Str (String " " (String c s)))) with false
      by reflexivity.
    cbn [negb passOn fst snd restOfText tokenLength String.length].
    split; [exact Kt|]. rewrite debugEnd_quiet, run_single. cbn [fst].
    assert (E2 : feed h2 (Str (String c s))
                 = passOn (Str (String c s)) (onAny h2 (Str (String c s)))).
    { assert (Ha2 : anyTransform h2 = true) by (subst h2; exact Hany).
      cbn [Pre.feed]. now rewrite Ha2. }
    rewrite E2, passOn_fst.
    apply (onAny_fuel_alike (S (String.length (String c s))) k2 h2 _ Hk2).
Qed.

(** C2.  A line that starts with one space.  For the stream Newline, a
    text that begins with a space, further tokens, Newline, where the text
    after its space and the further tokens hold content (sol-transparent
    tokens, then a token that is neither sol-transparent nor a table or
    HTML block tag, then tokens that are no HTML block tags): while the
    line is read only the first newline is sent on, and the machine holds
    the content, without the space, and the second newline; the end of
    input then closes the block, and the whole output is the first
    newline, one [pre] open tag, the content, one [pre] close tag, the
    second newline and the end of input.  The space itself is consumed by
    the transition to [STATE_PRE]: what the text holds after it is fed to
    the machine as a token of its own. *)
Theorem single_space_line_becomes_pre :
  forall (c : ParsoidConf) (d1 d2 : DataAttribs) (s : string)
         (toks sols rest : list Token) (first : Token),
    restOfText s ++ toks = sols ++ first :: rest ->
    forallb isSolTransparent sols = true ->
    startsContent isTableTag isBlockTag first = true ->
    forallb (collectable isBlockTag) rest = true ->
    let h0 := PreHandler_new c false in
    let line := [NlTk d1; Str (String " " s)] ++ toks ++ [NlTk d2] in
    snd (run h0 line) = [NlTk d1]
    /\ state (fst (run h0 line)) = STATE_MULTILINE_PRE
    /\ tokens (fst (run h0 line)) = restOfText s ++ toks
    /\ lastNlTk (fst (run h0 line)) = Some (NlTk d2)
    /\ snd (run h0 (line ++ [EOFTk]))
       = [NlTk d1; preOpenTag (initPreTSR (NlTk d1))]
         ++ (restOfText s ++ toks) ++ [preCloseTag; NlTk d2; EOFTk]
    /\ forall h : PreHandler,
         state h = STATE_SOL -> inPre h = false -> anyTransform h = true ->
         snd (feed h (Str (String " " s))) = tokens h
         /\ alike (fst (feed h (Str (String " " s))))
                  (fst (run (set_state STATE_PRE
                               (set_preWSToken (Some (Str " "))
                                  (set_tokens [] h)))
                          (restOfText s))).
Proof.
  intros c d1 d2 s toks sols rest first Hcontent Hs Hf Hr h0 line.
  set (p := initPreTSR (NlTk d1)).
  set (m2 := machine STATE_PRE None p [] (Some (Str " ")) None [] false).
  assert (H0 : alike h0 (machine STATE_SOL None 0 [] None None [] false))
    by reflexivity.
  (* the first newline *)
  destruct (feed_SOL_newline h0 d1 _ _ H0) as [H1 O1].
  (* the text *)
  pose proof (feed_SOL_space (fst (feed h0 (NlTk d1))) s _ _ _ _ _ _ H1)
    as [H2 O2]. fold m2 in H2.
  set (h2 := fst (feed (fst (feed h0 (NlTk d1))) (Str (String " " s)))) in *.
  (* the content *)
  destruct (run_alike toks h2 (fst (run m2 (restOfText s))) H2) as [H3 O3].
  pose proof (run_app (restOfText s) toks m2) as Happ.
  assert (Hm2 : alike m2 (machine STATE_PRE None p [] (Some (Str " ")) None
                            [] false)) by reflexivity.
  destruct (run_PRE_line sols rest first m2 _ _ _ _ _ Hm2 Hs Hf Hr)
    as [Hc Oc].
  rewrite <- Hcontent in Hc, Oc. rewrite Happ in Hc, Oc.
  cbn [fst snd] in Hc, Oc. apply app_eq_nil in Oc as [_ Oc].
  rewrite Oc in O3. rewrite <- H3 in Hc. clear H3 Happ.
  set (h3 := fst (run h2 toks)) in *.
  (* the second newline *)
  destruct (feed_PRE_COLLECT_newline h3 d2 _ _ _ _ _ _ _ Hc) as [H4 O4].
  set (h4 := fst (feed h3 (NlTk d2))) in *.
  assert (Eline : run h0 line = (h4, [NlTk d1])).
  { subst line. cbn [app Pre.run].
    destruct (feed h0 (NlTk d1)) as [a1 o1] eqn:E1. cbn [fst snd] in *.
    subst o1.
    destruct (feed a1 (Str (String " " s))) as [a2 o2] eqn:E2.
    cbn [fst snd] in *. subst o2. subst h2.
    rewrite run_app. fold h3. rewrite O3. rewrite run_single.
    fold h4. rewrite O4. reflexivity. }
  apply alike_fields in H4 as (Hst & Htk & Hln & _).
  cbn [machine state tokens lastNlTk] in Hst, Htk, Hln.
  repeat apply conj.
  - now rewrite Eline.
  - now rewrite Eline.
  - now rewrite Eline.
  - now rewrite Eline.
  - rewrite run_app, Eline, run_single. cbn [fst snd].
    assert (Hne : restOfText s ++ toks <> []).
    { rewrite Hcontent. now destruct sols. }
    assert (H4' : alike h4 (machine STATE_MULTILINE_PRE (Some (NlTk d2)) p
                              (restOfText s ++ toks) None None []
                              (fold_left inPreAfter (first :: rest) false))).
    { subst h4.
      now destruct (feed_PRE_COLLECT_newline h3 d2 _ _ _ _ _ _ _ Hc). }
    rewrite (feed_MULTILINE_PRE_EOF h4 _ _ _ _ _ _ _ H4' Hne).
    cbn [optToList app]. rewrite <- app_assoc. reflexivity.
  - intros h. apply feed_leading_space.
Qed.

(** *** A leading space in [STATE_MULTILINE_PRE] *)

(** C5.  In state MultilinePre a text token that starts with a space (the
    leading-whitespace token of the handler, its test being [/^ /]) releases
    the held-back newline into the accumulated tokens, followed by the
    buffered sol-transparent tokens and by what the text holds after its
    first space, and takes the machine to PreCollect; nothing is sent on. *)
Theorem multiline_pre_leading_space_continues :
  forall (h : PreHandler) (s : string),
    state h = STATE_MULTILINE_PRE ->
    snd (onAny h (Str (String " " s))) = None
    /\ state (fst (onAny h (Str (String " " s)))) = STATE_PRE_COLLECT
    /\ tokens (fst (onAny h (Str (String " " s))))
       = tokens h ++ optToList (lastNlTk h) ++ solTransparentTokens h
         ++ restOfText s
    /\ lastNlTk (fst (onAny h (Str (String " " s)))) = None
    /\ solTransparentTokens (fst (onAny h (Str (String " " s)))) = [].
Proof.
  intros h s Hs. unfold Pre.onAny.
  set (token := Str (String " " s)).
  destruct (onAny_fuel_alike (S (tokenLength token)) h (quiet h) token
              eq_refl) as [Ha Hr].
  apply alike_fields in Ha as (-> & -> & -> & _ & -> & _).
  rewrite Hr. clear Hr.
  fields h. cbn in Hs. subst st. subst token.
  unfold quiet, tokenLength.
  cbn [debug trace newlineTransform endTransform anyTransform state lastNlTk
       preTSR tokens preWSToken multiLinePreWSToken solTransparentTokens
       inPre console String.length].
  destruct s as [|c s], ln as [nl|]; cbv - [app String.length];
    rewrite ?app_nil_r, <- ?app_assoc; repeat split.
Qed.

(** *** The source range of the open tag *)











End PreTheorems.

(** *** The theorems at concrete streams *)

(** The line Newline, [ ab], [c], Newline and the end of input. *)
Lemma single_space_line_becomes_pre_witness :
  snd (Pre.run UtilModel.isTableTag UtilModel.isBlockTag
         (Pre.PreHandler_new (Pre.mkConf false None) false)
         (([NlTk (tsrDA 0 1); Str " ab"] ++ [Str "c"] ++ [NlTk (tsrDA 4 5)])
            ++ [EOFTk]))
  = [NlTk (tsrDA 0 1); TagTk "pre" [] (tsrDA 1 2); Str "ab"; Str "c";
     EndTagTk "pre" [] noDA; NlTk (tsrDA 4 5); EOFTk].
Proof.
  exact (proj1 (proj2 (proj2 (proj2 (proj2
           (single_space_line_becomes_pre
              UtilModel.isTableTag UtilModel.isBlockTag
              (Pre.mkConf false None) (tsrDA 0 1) (tsrDA 4 5) "ab"
              [Str "c"] [] [Str "c"] (Str "ab")
              eq_refl eq_refl eq_refl eq_refl)))))).
Defined.


(** The held newline and the text [ b] after a first line [a]. *)
Lemma multiline_pre_leading_space_continues_witness :
  Pre.state
    (fst (Pre.onAny UtilModel.isTableTag UtilModel.isBlockTag
            (PreSpec.machine Pre.STATE_MULTILINE_PRE (Some (NlTk noDA)) 1
               [Str "a"] None None [] false) (Str " b")))
  = Pre.STATE_PRE_COLLECT
  /\ Pre.tokens
       (fst (Pre.onAny UtilModel.isTableTag UtilModel.isBlockTag
               (PreSpec.machine Pre.STATE_MULTILINE_PRE (Some (NlTk noDA)) 1
                  [Str "a"] None None [] false) (Str " b")))
     = [Str "a"; NlTk noDA; Str "b"].
Proof.
  destruct (multiline_pre_leading_space_continues
              UtilModel.isTableTag UtilModel.isBlockTag
              (PreSpec.machine Pre.STATE_MULTILINE_PRE (Some (NlTk noDA)) 1
                 [Str "a"] None None [] false) "b" eq_refl)
    as (_ & Hst & Htk & _).
  split; [exact Hst | exact Htk].
Defined.

(** ** The serializer *)

(** *** The serializer and the tokenizer

    The serializer reads the tokenizer of its environment only through the
    tokens that it returns: with another tokenizer that returns the same
    tokens it does the same. *)

Section Tokenizer.
Import WS.

Variable env : Env.
Variable tokenize' : string -> list Token.
Hypothesis same_tokens : forall text, tokenize env text = tokenize' text.

Local Abbreviation env' := (SerSpec.withTokenizer tokenize' env).

Lemma escapeWikiText_tokenizer (text : string) (w : World) :
  escapeWikiText env text w = escapeWikiText env' text w.
Proof.
  unfold escapeWikiText, tokensToEscape, bind, getState.
  cbn [tokenize SerSpec.withTokenizer]. now rewrite same_tokens.
Qed.

Lemma dispatchToken_tokenizer (token : Token) (w : World) :
  dispatchToken env token w = dispatchToken env' token w.
Proof.
  destruct token; try reflexivity.
  unfold dispatchToken, bind, modifyState, getState, getProto.
  cbn [state proto].
  match goal with
  | |- context [if ?c then _ else _] => destruct c; [reflexivity |]
  end.
  now rewrite escapeWikiText_tokenizer.
Qed.

Lemma serializeToken_tokenizer (token : Token) (w : World) :
  _serializeToken env token w = _serializeToken env' token w.
Proof.
  unfold _serializeToken, bind, getState.
  rewrite dispatchToken_tokenizer.
  reflexivity.
Qed.

Lemma bind_tokenizer {A B : Type} (m m' : M A) (f f' : A -> M B) (w : World) :
  m w = m' w ->
  (forall a w1, f a w1 = f' a w1) ->
  bind m f w = bind m' f' w.
Proof.
  intros Hm Hf. unfold bind. rewrite Hm.
  destruct (m' w) as [[a|e] w1]; [apply Hf | reflexivity].
Qed.

Lemma serializeDOM_walk_tokenizer :
  forall (node : Node) (w : World),
    _serializeDOM env node w = _serializeDOM env' node w.
Proof.
  fix IH 1. intros [nodeName attributes children|data|data|nodeType] w.
  - cbn [_serializeDOM].
    apply bind_tokenizer; [reflexivity | intros tkRTInfo w1].
    apply bind_tokenizer; [apply serializeToken_tokenizer | intros [] w2].
    apply bind_tokenizer; [| intros [] w3; apply serializeToken_tokenizer].
    clear w w1. revert w2.
    induction children as [|child rest IHrest]; intros w2; [reflexivity |].
    apply bind_tokenizer; [apply IH | intros [] w3; apply IHrest].
  - apply serializeToken_tokenizer.
  - cbn [_serializeDOM].
    apply bind_tokenizer; [reflexivity | intros s w1].
    apply bind_tokenizer; [reflexivity | intros [] w2].
    apply bind_tokenizer; [apply serializeToken_tokenizer | reflexivity].
  - reflexivity.
Qed.

Lemma serializeDOM_tokenizer (w : Proto) (node : Node) :
  serializeDOM env w node = serializeDOM env' w node.
Proof.
  unfold serializeDOM.
  rewrite (bind_tokenizer (_serializeDOM env node) (_serializeDOM env' node)
             (fun _ => _serializeToken env EOFTk)
             (fun _ => _serializeToken env' EOFTk));
    [reflexivity | apply serializeDOM_walk_tokenizer
     | intros; apply serializeToken_tokenizer].
Qed.

End Tokenizer.


Section SerializerTheorems.
Import WS.

Variable env : Env.

(** *** The escaper without source ranges *)


Lemma escapeWikiText_returns (text : string) (w : World)
    (toks : list Token) :
  tokensToEscape env (state w) text = Ok toks ->
  escapeWikiText env text w
  = (let '(e, warned, exn) :=
       escapeTokens text (_inNewLineContext (state w)) None toks
         (mkEscaping [] [] 0%Z) in
     (Ok (unguarded (state w) e),
      mkWorld (proto w)
        (set_console (console (state w) ++ warned ++ caughtWarning exn)
           (state w)))).
Proof.
  intros Htoks. unfold escapeWikiText, bind, getState. rewrite Htoks.
  cbn [ret].
  destruct (escapeTokens text (_inNewLineContext (state w)) None toks
              (mkEscaping [] [] 0%Z)) as [[e warned] exn].
  reflexivity.
Qed.

Lemma escapeTokens_text (text : string) (inNl : bool) (pre rest : list Token) :
  forall e : Escaping,
    nonTextTokenAccum e = [] ->
    forallb isTextToken pre = true ->
    escapeTokens text inNl None (pre ++ rest) e
    = escapeTokens text inNl None rest
        (mkEscaping (outTexts e ++ map textOf pre) []
           (fold_left (fun n token => (n + JS.zlen (textOf token))%Z) pre
              (cursor e))).
Proof.
  induction pre as [|t pre IH]; intros e Hacc Hpre.
  - cbn. rewrite app_nil_r. destruct e; cbn in *. now subst.
  - cbn [forallb] in Hpre. apply andb_true_iff in Hpre as [Ht Hpre].
    cbn [app escapeTokens]. unfold wrapNonTextTokens. rewrite Hacc.
    destruct t; try discriminate; cbn [textOf map fold_left].
    + rewrite IH by assumption. cbn [outTexts nonTextTokenAccum cursor].
      rewrite <- app_assoc. cbn [app].
      now destruct (escapeTokens text inNl None rest _) as [[a b] c].
    + rewrite IH by assumption. cbn [outTexts nonTextTokenAccum cursor].
      rewrite <- app_assoc. cbn [app].
      now destruct (escapeTokens text inNl None rest _) as [[a b] c].
Qed.

Lemma escapeTokens_accumulate (text : string) (inNl : bool)
    (run rest : list Token) :
  forall e : Escaping,
    forallb accumulates run = true ->
    escapeTokens text inNl None (run ++ rest) e
    = escapeTokens text inNl None rest
        (mkEscaping (outTexts e) (nonTextTokenAccum e ++ run) (cursor e)).
Proof.
  induction run as [|t run IH]; intros e Hrun.
  - cbn. rewrite app_nil_r. now destruct e.
  - cbn [forallb] in Hrun. apply andb_true_iff in Hrun as [Ht Hrun].
    cbn [app escapeTokens].
    destruct t; try discriminate; cbn [accumulates] in Ht;
      try (apply negb_true_iff in Ht; rewrite Ht);
      rewrite IH by assumption; cbn [outTexts nonTextTokenAccum cursor];
      now rewrite <- app_assoc.
Qed.







(** *** What a token leaves in the state and in the sink *)

Lemma replaceAllFrom_no_newline (s : string) :
  forall skip, JS.hasChar JS.LF (JS.replaceAllFrom skip JS.nl " " s) = false.
Proof.
  induction s as [|c s IH]; intros skip; [reflexivity |].
  cbn [JS.replaceAllFrom]. destruct skip as [|k]; [| apply IH].
  cbn [JS.isPrefix JS.nl].
  destruct (Ascii.eqb_spec JS.LF c) as [<-|Hc].
  - cbn. apply IH.
  - cbn [andb JS.hasChar]. rewrite IH.
    destruct (Ascii.eqb_spec c JS.LF) as [->|_]; [now elim Hc | reflexivity].
Qed.

Lemma onOneLine_no_newline (s : State) (res : string) :
  0 < singleLineMode s ->
  JS.hasChar JS.LF (onOneLine s res) = false.
Proof.
  intros H. unfold onOneLine.
  destruct (Nat.ltb_spec 0 (singleLineMode s)); [| lia].
  apply replaceAllFrom_no_newline.
Qed.

Lemma emitText_chunk (handler : Handler) (res : string) (newNLCount : nat)
    (w : World) :
  exists (m : nat) (w' : World),
    emitText handler res newNLCount w = (Ok tt, w')
    /\ proto w' = proto w
    /\ chunks (state w')
       = chunks (state w)
         ++ [JS.newlines m +:+ onOneLine (state w) (withoutTail (state w) res)]
    /\ availableNewlineCount (state w') = newNLCount
    /\ singleLineMode (state w') = singleLineMode (state w)
    /\ availableNewlineCount (state w) <= m
    /\ (0 < singleLineMode (state w) ->
        m = availableNewlineCount (state w)
        /\ emitNewlineOnNextToken (state w')
           = emitNewlineOnNextToken (state w)).
Proof.
  destruct w as [p s].
  cbv beta iota zeta delta [emitText bind getState getProto when modifyState
                              chunkCB ret state proto].
  destruct (Nat.ltb_spec 0 (singleLineMode s)) as [Hs|Hs]; cbn [negb andb].
  - destruct (Nat.ltb_spec 0 (availableNewlineCount s));
      cbv beta iota zeta delta [state proto];
      destruct (JS.nonEmpty (onOneLine s (withoutTail s res)));
      destruct (negb (newlineTransparent (descOf p handler)));
      destruct s; cbn in *;
      (eexists _, _; split; [reflexivity |]; cbn;
       repeat split; try reflexivity; lia).
  - assert (Hone : forall s', singleLineMode s' = singleLineMode s ->
                              dropTail s' = dropTail s ->
                              onOneLine s' (withoutTail s' res)
                              = onOneLine s (withoutTail s res)).
    { intros s' H1 H2. unfold onOneLine, withoutTail. now rewrite H1, H2. }
    exists (if ((negb (JS.allSpace res) && emitNewlineOnNextToken s)
                || (startsNewline (descOf p handler)
                    && negb (onStartOfLine s)))
               && Nat.eqb (availableNewlineCount s) 0
            then 1 else availableNewlineCount s).
    destruct ((negb (JS.allSpace res) && emitNewlineOnNextToken s)
              || (startsNewline (descOf p handler) && negb (onStartOfLine s)));
      cbv beta iota zeta delta [state proto andb];
      [destruct (Nat.eqb_spec (availableNewlineCount s) 0) as [Hz|Hz] |];
      try (rewrite Hone by (destruct s; reflexivity));
      destruct (JS.nonEmpty (onOneLine s (withoutTail s res)));
      destruct (negb (newlineTransparent (descOf p handler)));
      destruct s; cbn in *;
      repeat match goal with
             | |- context [if ?c then _ else _] => destruct c eqn:?
             end;
      (eexists; split; [reflexivity |]; cbn;
       repeat split; try reflexivity; try lia).
Qed.

Lemma stripNewlines_state (res body : string) (newNLCount : nat)
    (w w2 : World) :
  stripNewlines res w = (Ok (body, newNLCount), w2) ->
  exists k : nat,
    w2 = mkWorld (proto w)
           (set_availableNewlineCount (availableNewlineCount (state w) + k)
              (state w)).
Proof.
  unfold stripNewlines. destruct w as [p s].
  destruct res as [|c res].
  - intros [= <- <- <-]. exists 0. destruct s; cbn.
    now rewrite Nat.add_0_r.
  - destruct (matchNewlines (String c res)) as [n|leading middle trailing|];
      cbv beta iota zeta delta [bind modifyState ret throw state proto];
      intros [= <- <- <-]; eexists; reflexivity.
Qed.

Lemma when_modifyState (c : bool) (f : State -> State) (w : World) :
  when c (modifyState f) w
  = (Ok tt, mkWorld (proto w) (if c then f (state w) else state w)).
Proof. destruct c, w; reflexivity. Qed.

Lemma modifyState_run (f : State -> State) (w : World) :
  modifyState f w = (Ok tt, mkWorld (proto w) (f (state w))).
Proof. reflexivity. Qed.

Lemma onOneLine_withoutTail_same (s s' : State) (res : string) :
  singleLineMode s' = singleLineMode s ->
  dropTail s' = dropTail s ->
  onOneLine s' (withoutTail s' res) = onOneLine s (withoutTail s res).
Proof. intros H1 H2. unfold onOneLine, withoutTail. now rewrite H1, H2. Qed.

Lemma afterHandler_pair (handler : Handler) (token : Token)
    (res body : string) (newNLCount : nat) (w w2 : World) :
  stripNewlines res w = (Ok (body, newNLCount), w2) ->
  0 < pairSepNLCount (descOf (proto w) handler) ->
  isPairOf (state w) token = true ->
  exists w' : World,
    afterHandler env handler token res w = (Ok tt, w')
    /\ if JS.nonEmpty body
       then exists m : nat,
           pairSepNLCount (descOf (proto w) handler) <= m
           /\ chunks (state w')
              = chunks (state w)
                ++ [JS.newlines m
                    +:+ onOneLine (state w) (withoutTail (state w) body)]
       else pairSepNLCount (descOf (proto w) handler)
            <= availableNewlineCount (state w')
            /\ chunks (state w') = chunks (state w).
Proof.
  intros Hstrip Hn Hpair.
  destruct (stripNewlines_state _ _ _ _ _ Hstrip) as [k ->].
  destruct w as [p s]. cbn [state proto] in *.
  unfold afterHandler.
  cbv beta iota zeta delta [bind]. rewrite Hstrip.
  cbv beta iota zeta delta [getProto getState separatePair bind state proto].
  unfold warn. rewrite !when_modifyState.
  cbv beta iota zeta delta [state proto].
  set (n := pairSepNLCount (descOf p handler)) in *.
  match goal with
  | |- context [if debug env then ?f ?paired else _] =>
      set (s3 := paired);
      assert (H3 : n <= availableNewlineCount s3
                   /\ chunks s3 = chunks s
                   /\ singleLineMode s3 = singleLineMode s
                   /\ dropTail s3 = dropTail s);
      [subst s3 | clearbody s3]
  end.
  { destruct (Nat.ltb_spec 0 n); [| lia]. cbn [andb].
    replace (isPairOf (set_availableNewlineCount
                         (availableNewlineCount s + k) s) token)
      with true by (rewrite <- Hpair; destruct s; reflexivity).
    cbn [andb].
    match goal with
    | |- context [if (?a <? n)%nat then _ else _] =>
        destruct (Nat.ltb_spec a n)
    end; destruct s; cbn in *; repeat split; lia. }
  match goal with
  | |- context [JS.nonEmpty body] =>
      set (s4 := if debug env
                 then set_console (console s3 ++ [Warn_debug token body]) s3
                 else s3)
  end.
  assert (H4 : n <= availableNewlineCount s4
               /\ chunks s4 = chunks s
               /\ singleLineMode s4 = singleLineMode s
               /\ dropTail s4 = dropTail s).
  { subst s4. destruct (debug env); [destruct s3; exact H3 | exact H3]. }
  clearbody s4. clear H3.
  destruct H4 as (Hc & Hch & Hsl & Hdt).
  destruct (JS.nonEmpty body).
  - destruct (emitText_chunk handler body newNLCount (mkWorld p s4))
      as (m & w' & -> & Hp & Hchunks & _ & _ & Hm & _).
    cbn [state proto] in *.
    rewrite !when_modifyState. cbv beta iota zeta delta [state proto].
    eexists. split; [reflexivity |].
    exists m. split; [lia |].
    cbn [state].
    rewrite <- (onOneLine_withoutTail_same s s4 body Hsl Hdt), <- Hch,
      <- Hchunks.
    destruct (endsLine (descOf p handler)),
      (0 <? singleLine (descOf p handler))%Z, w' as [p' [ ]]; reflexivity.
  - cbv beta. rewrite modifyState_run. cbv beta iota.
    rewrite !when_modifyState. cbv beta iota zeta delta [state proto].
    eexists. split; [reflexivity |]. cbn [state].
    destruct (startsNewline (descOf p handler) && negb (onStartOfLine s3)),
      (endsLine (descOf p handler)),
      (0 <? singleLine (descOf p handler))%Z, s4; cbn in *;
      (split; [lia | assumption]).
Qed.

Lemma serializeToken_run (token : Token) (w w1 : World) (handler : Handler)
    (res : string) :
  dispatchToken env token w = (Ok (handler, res), w1) ->
  _serializeToken env token w
  = if negb (dropContent (state w)) || negb (dropContent (state w1))
    then afterHandler env handler token res w1
    else (Ok tt, w1).
Proof.
  intros Hd. unfold _serializeToken.
  cbv beta iota zeta delta [bind getState]. rewrite Hd.
  now destruct (negb (dropContent (state w)) || negb (dropContent (state w1))).
Qed.

(** *** Two paragraphs *)

Lemma readingLetters_same :
  tokenize env "x" = SerSpec.plainTokens "x" ->
  tokenize env "y" = SerSpec.plainTokens "y" ->
  forall text, tokenize env text = SerSpec.readingLetters env text.
Proof.
  intros Hx Hy text. unfold SerSpec.readingLetters.
  destruct (String.eqb_spec text "x") as [->|_]; [exact Hx |].
  destruct (String.eqb_spec text "y") as [->|_]; [exact Hy | reflexivity].
Qed.

Lemma twoParagraphs_ok (w : Proto) :
  tokenize env "x" = SerSpec.plainTokens "x" ->
  tokenize env "y" = SerSpec.plainTokens "y" ->
  wikitext (serializeDOM env w SerSpec.twoParagraphs)
  = Some ("x" +:+ JS.nl +:+ JS.nl +:+ "y").
Proof.
  intros Hx Hy.
  rewrite (serializeDOM_tokenizer env (SerSpec.readingLetters env)
             (readingLetters_same Hx Hy)).
  clear Hx Hy. destruct env as [tok kv sp nt ts dbg dec jp].
  destruct w. destruct dbg; vm_compute; reflexivity.
Qed.

(** *** The pairing rule *)

(** C3 (amended).  A token whose content is not dropped (the flag
    [dropContent] is unset before or after its handler has run), whose
    handler has a [pairSepNLCount] and whose previous tag token is the end
    tag of the same name: the newlines owed are raised to the handler's
    [pairSepNLCount] at least.  If the token has a text, that many newlines
    or more are written in front of it; if it has none, they stay owed in
    [availableNewlineCount].  A token whose content is dropped changes
    nothing but what its handler changed.  And the two paragraphs [x] and
    [y] are serialized with one empty line between them, when the tokenizer
    reads the two letters as text. *)
Theorem pair_separated_unless_dropped :
  (forall (token : Token) (w w1 w2 : World) (handler : Handler)
          (res body : string) (newNLCount : nat),
      dispatchToken env token w = (Ok (handler, res), w1) ->
      dropContent (state w) && dropContent (state w1) = false ->
      stripNewlines res w1 = (Ok (body, newNLCount), w2) ->
      0 < pairSepNLCount (descOf (proto w1) handler) ->
      isPairOf (state w1) token = true ->
      exists w' : World,
        _serializeToken env token w = (Ok tt, w')
        /\ if JS.nonEmpty body
           then exists m : nat,
               pairSepNLCount (descOf (proto w1) handler) <= m
               /\ chunks (state w')
                  = chunks (state w1)
                    ++ [JS.newlines m
                        +:+ onOneLine (state w1)
                              (withoutTail (state w1) body)]
           else pairSepNLCount (descOf (proto w1) handler)
                <= availableNewlineCount (state w')
                /\ chunks (state w') = chunks (state w1))
  /\ (forall (token : Token) (w w1 : World) (handler : Handler)
             (res : string),
         dispatchToken env token w = (Ok (handler, res), w1) ->
         dropContent (state w) && dropContent (state w1) = true ->
         _serializeToken env token w = (Ok tt, w1))
  /\ (forall w : Proto,
         tokenize env "x" = SerSpec.plainTokens "x" ->
         tokenize env "y" = SerSpec.plainTokens "y" ->
         wikitext (serializeDOM env w SerSpec.twoParagraphs)
         = Some ("x" +:+ JS.nl +:+ JS.nl +:+ "y")).
Proof.
  repeat apply conj.
  - intros token w w1 w2 handler res body newNLCount Hd Hdrop Hstrip Hn Hpair.
    rewrite (serializeToken_run token w w1 handler res Hd).
    replace (negb (dropContent (state w)) || negb (dropContent (state w1)))
      with true
      by (destruct (dropContent (state w)), (dropContent (state w1));
          reflexivity || discriminate).
    exact (afterHandler_pair handler token res body newNLCount w1 w2
             Hstrip Hn Hpair).
  - intros token w w1 handler res Hd Hdrop.
    rewrite (serializeToken_run token w w1 handler res Hd).
    apply andb_true_iff in Hdrop as [-> ->]. reflexivity.
  - intros w Hx Hy. exact (twoParagraphs_ok w Hx Hy).
Qed.

(** *** Single-line mode *)








Local Arguments _listItemHandler : simpl never.
Local Arguments _listHandler : simpl never.





(** *** The list stack *)

(** C6.  A call of [serializeTokens] with the start of a list and of an
    item leaves the entry of the list on the stack of the prototype
    object.  The next call finds it there: the start of a list, which a
    new serializer writes as one bullet, throws, as there is no token
    before it, or is written with two bullets after a comment; and
    [serializeDOM] of a list with one empty item gives no wikitext, where a
    new serializer gives one bullet. *)
Theorem listStack_outlives_the_call :
  let stale := snd (serializeTokens env initialProto SerSpec.openList) in
  fst (serializeTokens env initialProto SerSpec.openList) = Ok ["*"]
  /\ listStack stale = [mkListCtx 1 "*" ""]
  /\ fst (serializeTokens env initialProto [TagTk "ul" [] noDA]) = Ok ["*"]
  /\ fst (serializeTokens env stale [TagTk "ul" [] noDA])
     = Throw (TypeError "token.constructor")
  /\ fst (serializeTokens env initialProto
            [CommentTk "c" noDA; TagTk "ul" [] noDA])
     = Ok ["<!--c-->"; "*"]
  /\ fst (serializeTokens env stale [CommentTk "c" noDA; TagTk "ul" [] noDA])
     = Ok ["<!--c-->"; "**"]
  /\ wikitext (serializeDOM env initialProto SerSpec.emptyItem) = Some "*"
  /\ wikitext (serializeDOM env stale SerSpec.emptyItem) = None.
Proof.
  destruct env as [tok kv sp nt ts dbg dec jp].
  destruct dbg; vm_compute; repeat split; reflexivity.
Qed.

End SerializerTheorems.






(** The second paragraph after a first one: two newlines are owed after
    its start tag; and the two paragraphs, read by a tokenizer that finds
    no markup. *)
Lemma pair_separated_unless_dropped_witness :
  (exists w' : WS.World,
      WS._serializeToken WS.plainEnv (TagTk "p" [] noDA)
        SerSpec.afterFirstParagraph = (WS.Ok tt, w')
      /\ 2 <= WS.availableNewlineCount (WS.state w')
      /\ WS.chunks (WS.state w') = ["x"])
  /\ WS.wikitext
       (WS.serializeDOM WS.plainEnv WS.initialProto SerSpec.twoParagraphs)
     = Some ("x" +:+ JS.nl +:+ JS.nl +:+ "y").
Proof.
  split.
  - exact (proj1 (pair_separated_unless_dropped WS.plainEnv)
             (TagTk "p" [] noDA) SerSpec.afterFirstParagraph
             (snd (WS.dispatchToken WS.plainEnv (TagTk "p" [] noDA)
                     SerSpec.afterFirstParagraph))
             (snd (WS.dispatchToken WS.plainEnv (TagTk "p" [] noDA)
                     SerSpec.afterFirstParagraph))
             (WS.TagHandler (WS.TableEntry "p") true) "" "" 0
             ltac:(vm_compute; reflexivity) ltac:(vm_compute; reflexivity)
             ltac:(vm_compute; reflexivity) ltac:(vm_compute; lia)
             ltac:(vm_compute; reflexivity)).
  - exact (proj2 (proj2 (pair_separated_unless_dropped WS.plainEnv))
             WS.initialProto ltac:(vm_compute; reflexivity)
             ltac:(vm_compute; reflexivity)).
Defined.

(** The start of a second paragraph inside a span of generated content:
    the handler of the paragraph has the count 2 and the previous tag token
    is the end tag of a paragraph, and no newline is owed afterwards. *)
Lemma pairing_skipped_for_dropped_content :
  WS.pairSepNLCount
    (WS.descOf (WS.proto SerSpec.afterGeneratedParagraph)
       (WS._getTokenHandler (WS.state SerSpec.afterGeneratedParagraph)
          (TagTk "p" [] noDA))) = 2
  /\ WS.currTagToken (WS.state SerSpec.afterGeneratedParagraph)
     = Some (EndTagTk "p" [] noDA)
  /\ WS.availableNewlineCount (WS.state SerSpec.afterGeneratedParagraph) = 0
  /\ fst (WS._serializeToken WS.plainEnv (TagTk "p" [] noDA)
            SerSpec.afterGeneratedParagraph) = WS.Ok tt
  /\ WS.prevTagToken
       (WS.state (snd (WS._serializeToken WS.plainEnv (TagTk "p" [] noDA)
                         SerSpec.afterGeneratedParagraph)))
     = Some (EndTagTk "p" [] noDA)
  /\ WS.availableNewlineCount
       (WS.state (snd (WS._serializeToken WS.plainEnv (TagTk "p" [] noDA)
                         SerSpec.afterGeneratedParagraph))) = 0
  /\ WS.chunks
       (WS.state (snd (WS._serializeToken WS.plainEnv (TagTk "p" [] noDA)
                         SerSpec.afterGeneratedParagraph)))
     = ["{{echo}}"].
Proof. vm_compute. repeat split; reflexivity. Qed.




(** ** More properties of the serializer *)

(** *** Strings *)

Section Nowiki.
Import WS.

Lemma isPrefix_String (a b : ascii) (p s : string) :
  JS.isPrefix (String a p) (String b s) = Ascii.eqb a b && JS.isPrefix p s.
Proof. reflexivity. Qed.

Lemma isPrefix_escapeNowiki (p : string) :
  JS.hasChar "<"%char p = false ->
  JS.hasChar "&"%char p = false ->
  forall s, JS.isPrefix p (escapeNowiki s) = JS.isPrefix p s.
Proof.
  unfold escapeNowiki.
  induction p as [|a p IH]; intros Hlt Hamp s; [reflexivity |].
  cbn [JS.hasChar] in Hlt, Hamp.
  apply orb_false_iff in Hlt as [Ha1 Hlt].
  apply orb_false_iff in Hamp as [Ha2 Hamp].
  destruct s as [|c s]; [reflexivity |].
  cbn [escapeNowikiFrom].
  destruct (JS.isPrefix "<nowiki>" (String c s)) eqn:H1.
  - cbn [JS.isPrefix] in H1. apply andb_true_iff in H1 as [Hc _].
    apply Ascii.eqb_eq in Hc. subst c.
    rewrite append_String. cbn [JS.isPrefix]. now rewrite Ha1, Ha2.
  - destruct (JS.isPrefix "</nowiki>" (String c s)) eqn:H2.
    + cbn [JS.isPrefix] in H2. apply andb_true_iff in H2 as [Hc _].
      apply Ascii.eqb_eq in Hc. subst c.
      rewrite append_String. cbn [JS.isPrefix]. now rewrite Ha1, Ha2.
    + cbn [JS.isPrefix]. now rewrite IH.
Qed.

Lemma includes_literal (m lit r : string) (c : ascii) :
  JS.isPrefix (String c "") m = true ->
  JS.hasChar c lit = false ->
  JSMore.includes m (lit +:+ r) = JSMore.includes m r.
Proof.
  intros Hm. induction lit as [|a lit IH]; intros Hlit.
  - now rewrite append_Empty.
  - cbn [JS.hasChar] in Hlit. apply orb_false_iff in Hlit as [Ha Hlit].
    rewrite append_String. cbn [JSMore.includes]. rewrite IH by assumption.
    destruct m as [|b m]; [discriminate |].
    cbn [JS.isPrefix] in Hm |- *.
    rewrite andb_true_r in Hm. apply Ascii.eqb_eq in Hm. subst b.
    rewrite Ascii.eqb_sym, Ha. reflexivity.
Qed.

Lemma escapeNowikiFrom_no_marker (m : string) :
  (m = "<nowiki>" \/ m = "</nowiki>") ->
  forall s skip, JSMore.includes m (escapeNowikiFrom skip s) = false.
Proof.
  intros Hm. induction s as [|c s IH]; intros skip.
  - destruct Hm as [-> | ->]; reflexivity.
  - cbn [escapeNowikiFrom]. destruct skip as [|k]; [| apply IH].
    destruct (JS.isPrefix "<nowiki>" (String c s)) eqn:H1.
    { rewrite (includes_literal m _ _ "<"%char);
        [apply IH | destruct Hm as [-> | ->]; reflexivity | reflexivity]. }
    destruct (JS.isPrefix "</nowiki>" (String c s)) eqn:H2.
    { rewrite (includes_literal m _ _ "<"%char);
        [apply IH | destruct Hm as [-> | ->]; reflexivity | reflexivity]. }
    cbn [JSMore.includes]. rewrite IH, orb_false_r.
    rewrite isPrefix_String in H1, H2.
    destruct Hm as [-> | ->]; rewrite isPrefix_String;
      (destruct (Ascii.eqb "<" c); [cbn [andb] in *| reflexivity]).
    + change (escapeNowikiFrom 0 s) with (escapeNowiki s).
      rewrite isPrefix_escapeNowiki by reflexivity. exact H1.
    + change (escapeNowikiFrom 0 s) with (escapeNowiki s).
      rewrite isPrefix_escapeNowiki by reflexivity. exact H2.
Qed.

(** X1.  What [escapeNowiki] returns holds neither the text [<nowiki>] nor
    the text [</nowiki>], whatever the text it is given: the wrapper that
    the escaper puts around the source of a run is not closed or opened
    again by that source. *)
Theorem escapeNowiki_has_no_marker (s : string) :
  JSMore.includes "<nowiki>" (escapeNowiki s) = false
  /\ JSMore.includes "</nowiki>" (escapeNowiki s) = false.
Proof.
  split; apply escapeNowikiFrom_no_marker; auto.
Qed.
End Nowiki.

Section Guard.
Import WS.
Variable env : Env.

Lemma replaceAll_guard_String (c : ascii) (t : string) :
  JS.replaceAll JS.nl (JS.nl +:+ "_") (String c t)
  = if Ascii.eqb JS.LF c
    then String JS.LF (String "_" (JS.replaceAll JS.nl (JS.nl +:+ "_") t))
    else String c (JS.replaceAll JS.nl (JS.nl +:+ "_") t).
Proof.
  unfold JS.replaceAll. cbn [JS.replaceAllFrom JS.isPrefix JS.nl].
  destruct (Ascii.eqb JS.LF c); cbn [andb]; reflexivity.
Qed.

Lemma replaceAll_guard_inverse (t : string) :
  JS.replaceAll (JS.nl +:+ "_") JS.nl (JS.replaceAll JS.nl (JS.nl +:+ "_") t)
  = t.
Proof.
  induction t as [|c t IH]; [reflexivity |].
  rewrite replaceAll_guard_String.
  destruct (Ascii.eqb_spec JS.LF c) as [<-|Hc].
  - unfold JS.replaceAll in *.
    change (JS.replaceAllFrom 0 (JS.nl +:+ "_") JS.nl
              (String JS.LF (String "_" ?r)))
      with (JS.nl +:+ JS.replaceAllFrom 0 (JS.nl +:+ "_") JS.nl r).
    rewrite IH. reflexivity.
  - assert (Hpre : forall r,
               JS.replaceAll (JS.nl +:+ "_") JS.nl (String c r)
               = String c (JS.replaceAll (JS.nl +:+ "_") JS.nl r)).
    { intros r. unfold JS.replaceAll.
      change (JS.nl +:+ "_") with (String JS.LF "_").
      cbn [JS.replaceAllFrom JS.isPrefix].
      destruct (Ascii.eqb_spec JS.LF c); [contradiction | reflexivity]. }
    rewrite Hpre, IH. reflexivity.
Qed.

Lemma takeS_all (s : string) : JS.takeS (String.length s) s = s.
Proof. induction s as [|x s IH]; [reflexivity |]. cbn. now rewrite IH. Qed.

Lemma substr_tail (c : ascii) (r : string) :
  JS.substr (String c r) 1 (JS.zlen (String c r)) = r.
Proof.
  unfold JS.substr, JS.zlen. cbn [String.length].
  replace (1 <? 0)%Z with false by reflexivity.
  set (n := String.length r).
  assert (Hmin : Z.min (Z.max (Z.of_nat (S n)) 0) (Z.of_nat (S n) - 1)
                 = Z.of_nat n) by lia.
  rewrite Hmin.
  destruct (Z.leb_spec (Z.of_nat n) 0) as [Hle|Hgt].
  - destruct r; [reflexivity | subst n; cbn [String.length] in Hle; lia].
  - rewrite Nat2Z.id. change (Z.to_nat 1) with 1. cbn [JS.dropS].
    apply takeS_all.
Qed.

Lemma escapeTokens_plain (text g : string) (inNl : bool) :
  escapeTokens text inNl None [Str g; EOFTk] (mkEscaping [] [] 0%Z)
  = (mkEscaping [g] [] (0 + JS.zlen g)%Z, [], None).
Proof. reflexivity. Qed.

Lemma join_one (g : string) : JS.join "" [g] = g.
Proof. reflexivity. Qed.

(** X2.  A text in which the tokenizer finds no markup is returned as it
    is, in every state: the guard that goes in front of it outside a newline
    context and after every newline inside an indent-pre is taken off
    again. *)
Theorem escapeWikiText_plain_text :
  forall (text : string) (w : World),
    tokenize env (guardedText (state w) text)
    = [Str (guardedText (state w) text); EOFTk] ->
    escapeWikiText env text w = (Ok text, w).
Proof.
  intros text w Htok.
  assert (Hw : forall s : State, set_console ((console s ++ []) ++ []) s = s)
    by (intros s; destruct s; cbn; now rewrite !app_nil_r).
  assert (Hret : forall e : Escaping,
             unguarded (state w) e = text ->
             (let '(e', warned, exn) := (e, @nil Console, @None Exn) in
              (Ok (unguarded (state w) e'),
               mkWorld (proto w)
                 (set_console (console (state w) ++ warned
                               ++ caughtWarning exn) (state w))))
             = (Ok text, w)).
  { intros e He. cbn [caughtWarning]. rewrite He.
    rewrite app_assoc, Hw. now destruct w. }
  destruct (_inNewLineContext (state w)) eqn:Hnl.
  - rewrite (escapeWikiText_returns env text w
               [Str (guardedText (state w) text); EOFTk]);
      [| unfold tokensToEscape; now rewrite Hnl, Htok].
    rewrite Hnl, escapeTokens_plain. apply Hret.
    unfold unguarded, guardedText. cbn [outTexts]. rewrite join_one, Hnl.
    destruct (inIndentPre (state w)); [apply replaceAll_guard_inverse |].
    reflexivity.
  - set (x := if inIndentPre (state w)
              then JS.replaceAll JS.nl (JS.nl +:+ "_") text else text).
    assert (Hg : guardedText (state w) text = String "_" x).
    { unfold guardedText. rewrite Hnl. subst x.
      rewrite append_String, append_Empty.
      destruct (inIndentPre (state w)); [| reflexivity].
      now rewrite replaceAll_guard_String. }
    assert (Hx : (if inIndentPre (state w)
                  then JS.replaceAll (JS.nl +:+ "_") JS.nl x else x) = text).
    { subst x. destruct (inIndentPre (state w)); [| reflexivity].
      apply replaceAll_guard_inverse. }
    rewrite Hg in Htok.
    destruct x as [|a x].
    + rewrite (escapeWikiText_returns env text w [EOFTk]);
        [| unfold tokensToEscape; now rewrite Hnl, Hg, Htok].
      apply Hret. unfold unguarded. cbn [outTexts JS.join String.concat].
      exact Hx.
    + rewrite (escapeWikiText_returns env text w [Str (String a x); EOFTk]);
        [| unfold tokensToEscape; rewrite Hnl, Hg, Htok;
           unfold stripGuard;
           replace (String "_" (String a x) =? "_")%string with false
             by (symmetry; apply String.eqb_neq; discriminate);
           now rewrite substr_tail].
      rewrite escapeTokens_plain. apply Hret.
      unfold unguarded. cbn [outTexts]. rewrite join_one. exact Hx.
Qed.
End Guard.

Section Newlines.
Import WS.
Variable env : Env.

Lemma append_assoc_s (a b c : string) : (a +:+ b) +:+ c = a +:+ (b +:+ c).
Proof.
  induction a as [|x a IH]; [now rewrite !append_Empty |].
  now rewrite !append_String, IH.
Qed.

Lemma append_Empty_r (a : string) : a +:+ "" = a.
Proof.
  induction a as [|x a IH]; [apply append_Empty |].
  now rewrite append_String, IH.
Qed.

Lemma revAppend_append (a b acc : string) :
  revAppend (a +:+ b) acc = revAppend b (revAppend a acc).
Proof.
  revert acc. induction a as [|x a IH]; intros acc.
  - now rewrite append_Empty.
  - rewrite append_String. cbn [revAppend]. apply IH.
Qed.

Lemma revAppend_acc (a acc : string) :
  revAppend a acc = revAppend a "" +:+ acc.
Proof.
  revert acc. induction a as [|x a IH]; intros acc.
  - cbn [revAppend]. now rewrite append_Empty.
  - cbn [revAppend]. rewrite (IH (String x acc)), (IH (String x "")).
    now rewrite append_assoc_s, append_String, append_Empty.
Qed.

Lemma reverse_append (a b : string) :
  reverse (a +:+ b) = reverse b +:+ reverse a.
Proof.
  unfold reverse. rewrite revAppend_append. apply revAppend_acc.
Qed.

Lemma reverse_String (c : ascii) (a : string) :
  reverse (String c a) = reverse a +:+ String c "".
Proof. unfold reverse. cbn [revAppend]. apply revAppend_acc. Qed.

Lemma reverse_involutive (a : string) : reverse (reverse a) = a.
Proof.
  induction a as [|x a IH]; [reflexivity |].
  rewrite reverse_String, reverse_append, IH.
  change (reverse (String x "")) with (String x "").
  now rewrite append_String, append_Empty.
Qed.

(** The leading line breaks of a text that ends in a carriage return
    leave a rest that ends in it. *)
Lemma leadingBreaks_CR (n : nat) :
  forall s, String.length s <= n ->
    exists k r, leadingBreaks (s +:+ String JS.CR "") = (k, r +:+ String JS.CR "").
Proof.
  induction n as [|n IH]; intros s Hlen.
  - destruct s; [| cbn in Hlen; lia]. exists 0, "". reflexivity.
  - destruct s as [|c s]; [exists 0, ""; reflexivity |].
    cbn [String.length] in Hlen. rewrite append_String.
    cbn [leadingBreaks].
    destruct (Ascii.eqb c JS.LF).
    + destruct (IH s ltac:(lia)) as (k & r & ->). now exists (S k), r.
    + destruct (Ascii.eqb c JS.CR); [| exists 0, (String c s);
                                        now rewrite append_String].
      destruct s as [|c' s].
      * rewrite append_Empty. cbn. exists 0, (String c "").
        now rewrite append_String, append_Empty.
      * rewrite append_String. destruct (Ascii.eqb c' JS.LF).
        -- cbn [String.length] in Hlen.
           destruct (IH s ltac:(lia)) as (k & r & ->). now exists (S k), r.
        -- exists 0, (String c (String c' s)). now rewrite !append_String.
Qed.

Lemma matchNewlines_CR (s : string) :
  matchNewlines (s +:+ String JS.CR "") = NoMatch.
Proof.
  unfold matchNewlines.
  destruct (leadingBreaks_CR (String.length s) s (le_n _)) as (k & r & ->).
  destruct (r +:+ String JS.CR "") eqn:Hr.
  - destruct r; [rewrite append_Empty in Hr | rewrite append_String in Hr];
      discriminate.
  - rewrite <- Hr, reverse_append. cbn [reverse revAppend].
    rewrite append_String, append_Empty. reflexivity.
Qed.

Lemma replaceAll_nl_append (rep a b : string) :
  JS.replaceAll JS.nl rep (a +:+ b)
  = JS.replaceAll JS.nl rep a +:+ JS.replaceAll JS.nl rep b.
Proof.
  unfold JS.replaceAll. induction a as [|c a IH].
  - now rewrite !append_Empty.
  - rewrite append_String.
    change (JS.replaceAllFrom 0 JS.nl rep (String c (a +:+ b)))
      with (if Ascii.eqb JS.LF c && true
            then rep +:+ JS.replaceAllFrom 0 JS.nl rep (a +:+ b)
            else String c (JS.replaceAllFrom 0 JS.nl rep (a +:+ b))).
    change (JS.replaceAllFrom 0 JS.nl rep (String c a))
      with (if Ascii.eqb JS.LF c && true
            then rep +:+ JS.replaceAllFrom 0 JS.nl rep a
            else String c (JS.replaceAllFrom 0 JS.nl rep a)).
    rewrite IH.
    destruct (Ascii.eqb JS.LF c); cbn [andb].
    + now rewrite append_assoc_s.
    + now rewrite append_String.
Qed.

(** X3.  Inside an HTML [pre] or a [nowiki], where a text is taken as it
    is, a text that ends in a carriage return makes [_serializeToken]
    throw a TypeError, unless its content is dropped: the pattern of line
    947 does not match it.  Nothing is sent to the sink. *)
Theorem text_ending_in_CR_throws :
  forall (text : string) (w : World),
    inNoWiki (state w) || inHTMLPre (state w) = true ->
    dropContent (state w) = false ->
    exists w' : World,
      _serializeToken env (Str (text +:+ String JS.CR "")) w
      = (Throw (TypeError "match[1]"), w')
      /\ chunks (state w') = chunks (state w)
      /\ proto w' = proto w.
Proof.
  intros text [p s] Hpre Hdrop. cbn [state proto] in *.
  set (token := Str (text +:+ String JS.CR "")).
  set (s1 := set_curToken (Some token) (set_prevToken (curToken s) s)).
  assert (Hs1 : inNoWiki s1 || inHTMLPre s1 = true)
    by (rewrite <- Hpre; destruct s; reflexivity).
  assert (Hd : exists res,
             dispatchToken env token (mkWorld p s)
             = (Ok (NoHandler, res +:+ String JS.CR ""), mkWorld p s1)).
  { unfold dispatchToken, token.
    cbv beta iota zeta delta [bind modifyState getState getProto state proto].
    fold token. fold s1. rewrite Hs1.
    cbv beta iota zeta delta [ret]. unfold applyTextHandler.
    destruct (textHandler s1).
    - rewrite replaceAll_nl_append. eexists. reflexivity.
    - eexists. reflexivity. }
  destruct Hd as [res Hd].
  rewrite (serializeToken_run env token _ _ NoHandler _ Hd).
  cbn [state]. rewrite Hdrop. cbn [negb orb].
  unfold afterHandler, stripNewlines.
  cbv beta iota zeta delta [bind].
  destruct (res +:+ String JS.CR "") eqn:Hres.
  { destruct res; [rewrite append_Empty in Hres
                  | rewrite append_String in Hres]; discriminate. }
  rewrite <- Hres, matchNewlines_CR.
  eexists. split; [reflexivity |].
  subst s1. destruct s; split; reflexivity.
Qed.

Lemma leadingBreaks_LF (s : string) :
  JS.hasChar JS.CR s = false ->
  exists k rest,
    leadingBreaks s = (k, rest)
    /\ s = JS.newlines k +:+ rest
    /\ JS.isPrefix JS.nl rest = false
    /\ JS.hasChar JS.CR rest = false.
Proof.
  induction s as [|c s IH]; intros Hcr.
  - exists 0, "". repeat split; reflexivity.
  - cbn [JS.hasChar] in Hcr. apply orb_false_iff in Hcr as [Hc Hcr].
    cbn [leadingBreaks]. destruct (Ascii.eqb_spec c JS.LF) as [->|Hlf].
    + destruct (IH Hcr) as (k & rest & -> & Hs & Hp & Hr).
      exists (S k), rest. cbn [JS.newlines]. rewrite append_String, <- Hs.
      repeat split; assumption.
    + rewrite Hc. exists 0, (String c s). cbn [JS.newlines].
      rewrite append_Empty. repeat split.
      * cbn [JS.isPrefix JS.nl].
        destruct (Ascii.eqb_spec JS.LF c); [congruence | reflexivity].
      * cbn [JS.hasChar]. now rewrite Hc, Hcr.
Qed.

Lemma trailingBreaksRev_LF (r : string) :
  JS.hasChar JS.CR r = false ->
  exists k rest,
    trailingBreaksRev r = (k, rest)
    /\ r = JS.newlines k +:+ rest
    /\ JS.isPrefix JS.nl rest = false.
Proof.
  induction r as [|c r IH]; intros Hcr.
  - exists 0, "". repeat split; reflexivity.
  - cbn [JS.hasChar] in Hcr. apply orb_false_iff in Hcr as [Hc Hcr].
    cbn [trailingBreaksRev]. destruct (Ascii.eqb_spec c JS.LF) as [->|Hlf].
    + destruct (IH Hcr) as (k & rest & Hk & Hs & Hp).
      destruct r as [|c' r].
      * exists 1, "". repeat split; reflexivity.
      * cbn [JS.hasChar] in Hcr. apply orb_false_iff in Hcr as [Hc' _].
        rewrite Hc', Hk. exists (S k), rest. cbn [JS.newlines].
        rewrite append_String, <- Hs. repeat split; assumption.
    + exists 0, (String c r). cbn [JS.newlines]. rewrite append_Empty.
      repeat split. cbn [JS.isPrefix JS.nl].
      destruct (Ascii.eqb_spec JS.LF c); [congruence | reflexivity].
Qed.

Lemma hasChar_append (c : ascii) (a b : string) :
  JS.hasChar c (a +:+ b) = JS.hasChar c a || JS.hasChar c b.
Proof.
  induction a as [|x a IH]; [now rewrite append_Empty |].
  rewrite append_String. cbn [JS.hasChar]. now rewrite IH, orb_assoc.
Qed.

Lemma hasChar_reverse (c : ascii) (a : string) :
  JS.hasChar c (reverse a) = JS.hasChar c a.
Proof.
  induction a as [|x a IH]; [reflexivity |].
  rewrite reverse_String, hasChar_append, IH. cbn [JS.hasChar].
  now rewrite orb_false_r, orb_comm.
Qed.

Lemma reverse_newlines (k : nat) : reverse (JS.newlines k) = JS.newlines k.
Proof.
  induction k as [|k IH]; [reflexivity |].
  cbn [JS.newlines]. rewrite reverse_String, IH.
  clear IH. induction k as [|k IH]; [reflexivity |].
  cbn [JS.newlines]. now rewrite append_String, IH.
Qed.

(** X4.  A text of code units below 256, as all strings of this
    development are, that holds no carriage return is always matched by
    the pattern of line 947 (a text that holds the line separators U+2028
    or U+2029 is no such text, and the pattern can fail on it), and
    nothing of it is lost: it is the line feeds that go to
    [availableNewlineCount], the body, and the line feeds that are counted
    for the next token.  The body, when there is one, neither starts nor
    ends with a line feed; a text of line feeds only has no body and counts
    none for the next token. *)
Theorem stripNewlines_splits_the_text :
  forall (res : string) (w : World),
    JS.hasChar JS.CR res = false ->
    exists (leading trailing : nat) (body : string),
      stripNewlines res w
      = (Ok (body, trailing),
         mkWorld (proto w)
           (set_availableNewlineCount
              (availableNewlineCount (state w) + leading) (state w)))
      /\ res = JS.newlines leading +:+ body +:+ JS.newlines trailing
      /\ JS.isPrefix JS.nl body = false
      /\ JS.isPrefix JS.nl (reverse body) = false
      /\ (body = "" -> trailing = 0).
Proof.
  intros res [p s] Hcr. cbn [state proto].
  assert (Hs : set_availableNewlineCount (availableNewlineCount s + 0) s = s)
    by (destruct s; cbn; now rewrite Nat.add_0_r).
  unfold stripNewlines. destruct res as [|c0 res0].
  { exists 0, 0, "". rewrite Hs. repeat split; reflexivity. }
  set (res := String c0 res0) in *.
  unfold matchNewlines.
  destruct (leadingBreaks_LF res Hcr) as (k & rest & -> & Hres & Hp & Hr).
  destruct rest as [|c rest].
  - exists k, 0, "". rewrite Hres, append_Empty.
    repeat split; reflexivity.
  - set (full := String c rest) in *.
    destruct (trailingBreaksRev_LF (reverse full)) as (t & mrev & -> & Hrev & Hm).
    { now rewrite hasChar_reverse. }
    assert (Hfull : full = reverse mrev +:+ JS.newlines t).
    { rewrite <- (reverse_involutive full), Hrev, reverse_append.
      now rewrite reverse_newlines. }
    destruct mrev as [|cm mrev].
    + exfalso. rewrite append_Empty in Hfull. subst full.
      destruct t; [discriminate |]. cbn [JS.newlines] in Hfull.
      injection Hfull as -> _. cbn in Hp. discriminate.
    + assert (Hcm : Ascii.eqb cm JS.CR = false).
      { assert (H : JS.hasChar JS.CR (reverse full) = false)
          by now rewrite hasChar_reverse.
        rewrite Hrev, hasChar_append in H.
        apply orb_false_iff in H as [_ H]. cbn [JS.hasChar] in H.
        now apply orb_false_iff in H as [H _]. }
      rewrite Hcm.
      cbv beta iota zeta delta [bind modifyState ret state proto].
      exists k, t, (reverse (String cm mrev)).
      repeat split.
      * now rewrite Hres, Hfull.
      * rewrite Hfull in Hp.
        destruct (reverse (String cm mrev)) eqn:Hb; [reflexivity |].
        rewrite append_String in Hp. exact Hp.
      * now rewrite reverse_involutive.
      * intros Hb. apply (f_equal reverse) in Hb.
        rewrite reverse_involutive in Hb. discriminate.
Qed.
End Newlines.

Section Keeping.
Import WS Frame.
Context {X : Type} (proj : World -> X).

Lemma keeps_ret {A : Type} (a : A) : keeps proj (ret a).
Proof. intros w. reflexivity. Qed.

Lemma keeps_throw {A : Type} (e : Exn) : keeps proj (@throw A e).
Proof. intros w. reflexivity. Qed.

Lemma keeps_getState : keeps proj getState.
Proof. intros w. reflexivity. Qed.

Lemma keeps_getProto : keeps proj getProto.
Proof. intros w. reflexivity. Qed.

Lemma keeps_bind {A B : Type} (m : M A) (f : A -> M B) :
  keeps proj m -> (forall a, keeps proj (f a)) -> keeps proj (bind m f).
Proof.
  intros Hm Hf w. unfold bind. specialize (Hm w).
  destruct (m w) as [[a|e] w1]; cbn [snd] in *.
  - now rewrite Hf.
  - exact Hm.
Qed.

Lemma keeps_when (c : bool) (m : M unit) :
  keeps proj m -> keeps proj (when c m).
Proof. intros Hm. destruct c; [exact Hm | apply keeps_ret]. Qed.

Lemma keeps_modifyState (f : State -> State) :
  (forall p s, proj (mkWorld p (f s)) = proj (mkWorld p s)) ->
  keeps proj (modifyState f).
Proof. intros H [p s]. apply H. Qed.

Lemma keeps_modifyProto (f : Proto -> Proto) :
  (forall p s, proj (mkWorld (f p) s) = proj (mkWorld p s)) ->
  keeps proj (modifyProto f).
Proof. intros H [p s]. apply H. Qed.
End Keeping.

Ltac keeps_leaf :=
  intros;
  repeat match goal with
         | p : WS.Proto |- _ => destruct p
         | s : WS.State |- _ => destruct s
         end;
  reflexivity.

Ltac keeps_step :=
  first
    [ apply keeps_ret | apply keeps_throw | apply keeps_getState
    | apply keeps_getProto
    | apply keeps_bind; [| intros ?]
    | apply keeps_when
    | apply keeps_modifyState; keeps_leaf
    | apply keeps_modifyProto; keeps_leaf
    | match goal with
      | |- Frame.keeps _ (if ?c then _ else _) => destruct c
      | |- Frame.keeps _ (match ?x with _ => _ end) => destruct x
      end ].

Ltac keeps_tac := repeat keeps_step.

Section Sink.
Import WS Frame.
Variable env : Env.

Lemma Token_eq_EOF (token : Token) : token = EOFTk \/ token <> EOFTk.
Proof. destruct token; (now left) || (right; discriminate). Qed.

Lemma serializeHTMLTag_keeps_sink token : keeps sinkOf (_serializeHTMLTag token).
Proof. unfold _serializeHTMLTag. keeps_tac. Qed.

Lemma runHandle_keeps_sink (h : Handle) (token : Token) :
  keeps sinkOf (runHandle env h token).
Proof.
  destruct h; unfold runHandle, _listHandler, _listEndHandler,
    _listItemHandler, _linkHandler, _linkEndHandler, _serializeHTMLTag,
    _serializeHTMLEndTag, setListStartsNewline, setItemStartsNewline,
    setCellStartsNewline, defined, warn; keeps_tac.
Qed.

Lemma keeps_sends {A : Type} (m : M A) (n : nat) :
  keeps sinkOf m -> sends n m.
Proof.
  intros H w. exists []. rewrite H, app_nil_r. split; [reflexivity | cbn; lia].
Qed.

Lemma sends_bind {A B : Type} (a b : nat) (m : M A) (f : A -> M B) :
  sends a m -> (forall x, sends b (f x)) -> sends (a + b) (bind m f).
Proof.
  intros Hm Hf w. unfold bind. destruct (Hm w) as (l1 & H1 & L1).
  destruct (m w) as [[x|e] w1]; cbn [snd] in *.
  - destruct (Hf x w1) as (l2 & H2 & L2).
    exists (l1 ++ l2). rewrite H2, H1, app_assoc, length_app.
    split; [reflexivity | lia].
  - exists l1. split; [assumption | lia].
Qed.

Lemma escapeWikiText_keeps_sink (text : string) :
  keeps sinkOf (escapeWikiText env text).
Proof. unfold escapeWikiText. keeps_tac. Qed.

Lemma stripNewlines_keeps_sink (res : string) :
  keeps sinkOf (stripNewlines res).
Proof. unfold stripNewlines. keeps_tac. Qed.

Lemma emitText_sends (handler : Handler) (res : string) (n : nat) :
  sends 1 (emitText handler res n).
Proof.
  intros w.
  destruct (emitText_chunk handler res n w) as (m & w' & -> & _ & Hch & _).
  eexists. split; [exact Hch | cbn; lia].
Qed.

Lemma afterHandler_sends (handler : Handler) (token : Token) (res : string) :
  sends 1 (afterHandler env handler token res).
Proof.
  unfold afterHandler.
  apply (sends_bind 0 1); [apply keeps_sends, stripNewlines_keeps_sink |].
  intros [body n].
  apply (sends_bind 0 1); [apply keeps_sends, keeps_getProto | intros p].
  apply (sends_bind 0 1);
    [apply keeps_sends; unfold separatePair; keeps_tac |intros _].
  apply (sends_bind 0 1); [apply keeps_sends, keeps_getState | intros s].
  apply (sends_bind 0 1);
    [apply keeps_sends; unfold warn; keeps_tac | intros _].
  apply (sends_bind 1 0).
  - destruct (JS.nonEmpty body); [apply emitText_sends |].
    apply keeps_sends. keeps_tac.
  - intros _. apply keeps_sends. keeps_tac.
Qed.

Lemma leadingBreaks_newlines (n : nat) :
  leadingBreaks (JS.newlines n) = (n, "").
Proof.
  induction n as [|n IH]; [reflexivity |].
  cbn [JS.newlines leadingBreaks].
  replace (Ascii.eqb JS.LF JS.LF) with true by reflexivity. now rewrite IH.
Qed.

Lemma stripNewlines_newlines (n : nat) (w : World) :
  fst (stripNewlines (JS.newlines n) w) = Ok ("", 0).
Proof.
  destruct n as [|n]; [reflexivity |].
  unfold stripNewlines, matchNewlines. rewrite leadingBreaks_newlines.
  reflexivity.
Qed.

Lemma dispatchToken_sends (token : Token) :
  token <> EOFTk -> sends 0 (dispatchToken env token).
Proof.
  intros Hne. apply keeps_sends. unfold dispatchToken.
  destruct token; try congruence; keeps_tac;
    try apply runHandle_keeps_sink; try apply escapeWikiText_keeps_sink.
Qed.

(** X5.  Whatever the token and the state, and whether it returns or
    throws, [_serializeToken] leaves the chunks that the sink has received
    and sends at most one more. *)
Theorem serializeToken_sends_one_chunk :
  forall (token : Token) (w : World),
    exists sent : list string,
      chunks (state (snd (_serializeToken env token w)))
      = chunks (state w) ++ sent
      /\ length sent <= 1.
Proof.
  intros token.
  enough (H : sends 1 (_serializeToken env token)) by exact H.
  destruct (Token_eq_EOF token) as [-> | Hne].
  - intros [p s]. unfold _serializeToken, dispatchToken.
    cbv beta iota zeta delta [bind getState modifyState getProto chunkCB ret
                                state proto].
    set (w1 := mkWorld p _).
    assert (H1 : sinkOf w1
                 = sinkOf (mkWorld p s)
                   ++ [JS.newlines (availableNewlineCount s)])
      by (subst w1; destruct s; reflexivity).
    match goal with
    | |- context [if ?c then _ else _] => destruct c
    end; [| exists [JS.newlines (availableNewlineCount s)];
            split; [exact H1 | cbn; lia]].
    exists [JS.newlines (availableNewlineCount s)].
    split; [| cbn; lia]. rewrite <- H1.
    unfold afterHandler. unfold bind at 1.
    pose proof (stripNewlines_newlines
                  (availableNewlineCount
                     (set_curToken (Some EOFTk)
                        (set_prevToken (curToken s) s))) w1) as Hstrip.
    pose proof (stripNewlines_keeps_sink
                  (JS.newlines (availableNewlineCount
                     (set_curToken (Some EOFTk)
                        (set_prevToken (curToken s) s)))) w1) as Hkeep.
    destruct (stripNewlines _ w1) as [[[body n]|e] w2]; cbn [fst snd] in *;
      [| discriminate].
    injection Hstrip as -> ->. rewrite <- Hkeep.
    cbn [JS.nonEmpty].
    match goal with
    | |- sinkOf (snd (?m w2)) = _ => assert (Hm : keeps sinkOf m)
    end.
    { keeps_tac; unfold separatePair, warn; keeps_tac. }
    apply Hm.
  - unfold _serializeToken.
    apply (sends_bind 0 1); [apply keeps_sends, keeps_getState | intros s0].
    apply (sends_bind 0 1); [now apply dispatchToken_sends | intros [h res]].
    apply (sends_bind 0 1); [apply keeps_sends, keeps_getState | intros s].
    destruct (negb (dropContent s0) || negb (dropContent s));
      [apply afterHandler_sends | apply keeps_sends, keeps_ret].
Qed.
End Sink.

Section Stack.
Import WS Frame.
Variable env : Env.

Lemma updateLast_length (f : ListCtx -> ListCtx) (l : list ListCtx) :
  length (updateLast f l) = length l.
Proof.
  induction l as [|c l IH]; [reflexivity |].
  destruct l as [|c' l]; [reflexivity |].
  change (updateLast f (c :: c' :: l)) with (c :: updateLast f (c' :: l)).
  cbn [length]. now rewrite IH.
Qed.

Lemma removelast_size (l : list ListCtx) :
  length (removelast l) = pred (length l).
Proof.
  induction l as [|c l IH]; [reflexivity |].
  destruct l as [|c' l]; [reflexivity |].
  change (removelast (c :: c' :: l)) with (c :: removelast (c' :: l)).
  cbn [length] in *. now rewrite IH.
Qed.

Ltac stack_leaf :=
  intros; unfold stackSize; cbn [proto state];
  repeat match goal with
         | p : Proto |- _ => destruct p
         | t : ListTag |- _ => destruct t
         | t : ItemTag |- _ => destruct t
         | t : CellTag |- _ => destruct t
         end;
  cbn; try apply updateLast_length; reflexivity.

Ltac stack_step :=
  first
    [ apply keeps_ret | apply keeps_throw | apply keeps_getState
    | apply keeps_getProto
    | apply keeps_bind; [| intros ?]
    | apply keeps_when
    | apply keeps_modifyState; stack_leaf
    | apply keeps_modifyProto; stack_leaf
    | match goal with
      | |- keeps _ (if ?c then _ else _) => destruct c
      | |- keeps _ (match ?x with _ => _ end) => destruct x
      end ].

Ltac stack_tac := repeat stack_step.

Lemma keeps_moves {A : Type} (m : M A) : keeps stackSize m -> moves id m.
Proof. intros H w. specialize (H w). now destruct (m w) as [[a|e] w']. Qed.

Lemma moves_bind {A B : Type} (g h : nat -> nat) (m : M A) (f : A -> M B) :
  moves g m -> (forall x, moves h (f x)) ->
  moves (fun n => h (g n)) (bind m f).
Proof.
  intros Hm Hf w. unfold bind. specialize (Hm w).
  destruct (m w) as [[x|e] w1]; [| exact I].
  specialize (Hf x w1). destruct (f x w1) as [[y|e] w2]; [| exact I].
  now rewrite Hf, Hm.
Qed.

Lemma moves_ext {A : Type} (g h : nat -> nat) (m : M A) :
  (forall n, g n = h n) -> moves g m -> moves h m.
Proof.
  intros Hgh Hm w. specialize (Hm w).
  destruct (m w) as [[x|e] w1]; [| exact I]. now rewrite <- Hgh.
Qed.

Lemma runHandle_keeps_stack (h : Handle) (token : Token) :
  (forall tag bullet, h <> H_list tag bullet) -> h <> H_listEnd ->
  keeps stackSize (runHandle env h token).
Proof.
  intros Hl He.
  destruct h; try (now elim He); try (now elim (Hl tag bullet));
    unfold runHandle, _listItemHandler, _linkHandler, _linkEndHandler,
      _serializeHTMLTag, _serializeHTMLEndTag, setListStartsNewline,
      setItemStartsNewline, setCellStartsNewline, defined, warn; stack_tac.
Qed.

Lemma listHandler_moves (tag : ListTag) (bullet : string) (token : Token) :
  moves S (_listHandler tag bullet token).
Proof.
  unfold _listHandler.
  apply (moves_ext (fun n => S (id n))); [reflexivity |].
  apply moves_bind; [apply keeps_moves, keeps_getState | intros s].
  apply (moves_ext (fun n => S (id n))); [reflexivity |].
  apply moves_bind; [apply keeps_moves; stack_tac | intros _].
  apply (moves_ext (fun n => S (id n))); [reflexivity |].
  apply moves_bind; [apply keeps_moves, keeps_getProto | intros p].
  apply (moves_ext (fun n => S (id n))); [reflexivity |].
  apply moves_bind.
  - apply keeps_moves. unfold setListStartsNewline, defined. stack_tac.
  - intros [bulletsNow res].
    apply (moves_ext (fun n => id (S n))); [reflexivity |].
    apply moves_bind; [| intros _; apply keeps_moves, keeps_ret].
    intros [p0 s0]. unfold modifyProto, stackSize. cbn [proto].
    destruct p0; cbn. rewrite length_app. cbn. lia.
Qed.

Lemma listEndHandler_moves : moves pred _listEndHandler.
Proof.
  unfold _listEndHandler.
  apply (moves_ext (fun n => id (pred n))); [reflexivity |].
  apply moves_bind; [| intros _; apply keeps_moves, keeps_ret].
  intros [p0 s0]. unfold modifyProto, stackSize. cbn [proto].
  destruct p0; cbn. apply removelast_size.
Qed.

Ltac by_name name :=
  repeat match goal with
         | |- context [String.eqb name ?lit] =>
             destruct (String.eqb_spec name lit) as [->|?]
         end.

Lemma start_handle (p : Proto) (s : State) (name : string) (a : list KV)
    (da : DataAttribs) :
  let d := descOf p (_getTokenHandler s (TagTk name a da)) in
  if opensList name da
  then ignore d = false /\ exists tag bullet, handle d = Some (H_list tag bullet)
  else (forall tag bullet, handle d <> Some (H_list tag bullet))
       /\ handle d <> Some H_listEnd.
Proof.
  unfold opensList, _getTokenHandler. cbn [tokenDA tokenName Pre.tagName].
  destruct (isStr (stx da) "html"); cbn [negb andb].
  { split; [intros tag bullet |]; discriminate. }
  unfold hasEntry, isInherited, tableNames, inheritedNames. cbn [existsb].
  by_name name; cbn [orb andb negb];
    try (split; [reflexivity | eexists _, _; reflexivity]);
    try (destruct (Nat.ltb 0 (singleLineMode s)));
    (split; [intros tag bullet |]; discriminate).
Qed.

Lemma end_handle (p : Proto) (s : State) (name : string) (a : list KV)
    (da : DataAttribs) :
  let d := descOf p (_getTokenHandler s (EndTagTk name a da)) in
  if opensList name da
  then ignore d = false /\ handle d = Some H_listEnd
  else (forall tag bullet, handle d <> Some (H_list tag bullet))
       /\ handle d <> Some H_listEnd.
Proof.
  unfold opensList, _getTokenHandler. cbn [tokenDA tokenName Pre.tagName].
  destruct (isStr (stx da) "html"); cbn [negb andb].
  { split; [intros tag bullet |]; discriminate. }
  unfold hasEntry, isInherited, tableNames, inheritedNames. cbn [existsb].
  by_name name; cbn [orb andb negb];
    try (split; reflexivity);
    try (destruct (Nat.ltb 0 (singleLineMode s)));
    (split; [intros tag bullet |]; discriminate).
Qed.

Lemma afterHandler_keeps_stack (handler : Handler) (token : Token)
    (res : string) :
  keeps stackSize (afterHandler env handler token res).
Proof.
  unfold afterHandler, stripNewlines, separatePair, emitText, chunkCB, warn.
  stack_tac.
Qed.

Lemma escapeWikiText_keeps_stack (text : string) :
  keeps stackSize (escapeWikiText env text).
Proof. unfold escapeWikiText. stack_tac. Qed.

Lemma moves_tail {A B : Type} (g : nat -> nat) (m : M A) (f : A -> M B) :
  moves g m -> (forall x, keeps stackSize (f x)) -> moves g (bind m f).
Proof.
  intros Hm Hf. apply (moves_ext (fun n => id (g n))); [reflexivity |].
  apply moves_bind; [exact Hm | intros x; apply keeps_moves, Hf].
Qed.

Lemma moves_head {A B : Type} (g : nat -> nat) (m : M A) (f : A -> M B) :
  keeps stackSize m -> (forall x, moves g (f x)) -> moves g (bind m f).
Proof.
  intros Hm Hf. apply (moves_ext (fun n => g (id n))); [reflexivity |].
  apply moves_bind; [apply keeps_moves, Hm | exact Hf].
Qed.

Lemma serializeToken_moves (g : nat -> nat) (token : Token) :
  moves g (dispatchToken env token) -> moves g (_serializeToken env token).
Proof.
  intros Hd. unfold _serializeToken.
  apply moves_head; [apply keeps_getState | intros s0].
  apply moves_tail; [exact Hd | intros [handler res]].
  apply keeps_bind; [apply keeps_getState | intros s].
  destruct (negb (dropContent s0) || negb (dropContent s));
    [apply afterHandler_keeps_stack | apply keeps_ret].
Qed.


Lemma startTag_moves (name : string) (a : list KV) (da : DataAttribs) :
  moves (fun n => n + listDelta name da)
    (_serializeToken env (TagTk name a da)).
Proof.
  apply serializeToken_moves. unfold dispatchToken.
  apply moves_head; [stack_tac | intros _].
  apply moves_head; [apply keeps_getState | intros s].
  apply moves_head; [apply keeps_getProto | intros p].
  pose proof (start_handle p s name a da) as H. cbv zeta in H.
  unfold listDelta. destruct (opensList name da).
  - destruct H as (-> & tag & bullet & ->). cbn [negb].
    apply moves_head; [stack_tac | intros _].
    apply moves_tail; [| intros res; apply keeps_ret].
    apply (moves_ext S); [intros n; lia |]. apply listHandler_moves.
  - destruct H as [Hl He].
    apply (moves_ext id); [intros n; unfold id; lia |]. apply keeps_moves.
    destruct (negb (ignore _)); [| apply keeps_ret].
    apply keeps_bind; [stack_tac | intros _].
    apply keeps_bind; [| intros res; apply keeps_ret].
    destruct (handle _) as [h|]; [| apply keeps_ret].
    apply runHandle_keeps_stack; [intros tag bullet Heq | intros Heq];
      subst h; [now elim (Hl tag bullet) | now elim He].
Qed.

Lemma endTag_moves (name : string) (a : list KV) (da : DataAttribs) :
  moves (fun n => n - listDelta name da)
    (_serializeToken env (EndTagTk name a da)).
Proof.
  apply serializeToken_moves. unfold dispatchToken.
  apply moves_head; [stack_tac | intros _].
  apply moves_head; [apply keeps_getState | intros s].
  apply moves_head; [apply keeps_getProto | intros p].
  pose proof (end_handle p s name a da) as H. cbv zeta in H.
  unfold listDelta. destruct (opensList name da).
  - destruct H as (-> & ->). cbn [negb].
    apply moves_head; [stack_tac | intros _].
    apply moves_head; [stack_tac | intros _].
    apply moves_tail; [| intros res; apply keeps_ret].
    apply (moves_ext pred); [intros n; lia |]. apply listEndHandler_moves.
  - destruct H as [Hl He].
    apply (moves_ext id); [intros n; unfold id; lia |]. apply keeps_moves.
    destruct (negb (ignore _)); [| apply keeps_ret].
    apply keeps_bind; [stack_tac | intros _].
    apply keeps_bind; [stack_tac | intros _].
    apply keeps_bind; [| intros res; apply keeps_ret].
    destruct (handle _) as [h|]; [| apply keeps_ret].
    apply runHandle_keeps_stack; [intros tag bullet Heq | intros Heq];
      subst h; [now elim (Hl tag bullet) | now elim He].
Qed.

Lemma otherToken_keeps_stack (token : Token) :
  match token with
  | Str _ | CommentTk _ _ | EOFTk => True
  | _ => False
  end ->
  keeps stackSize (_serializeToken env token).
Proof.
  intros Htok. unfold _serializeToken.
  apply keeps_bind; [apply keeps_getState | intros s0].
  apply keeps_bind.
  - unfold dispatchToken, chunkCB. destruct token; try contradiction;
      stack_tac; apply escapeWikiText_keeps_stack.
  - intros [handler res].
    apply keeps_bind; [apply keeps_getState | intros s].
    destruct (negb (dropContent s0) || negb (dropContent s));
      [apply afterHandler_keeps_stack | apply keeps_ret].
Qed.

Lemma serializeDOM_walk_moves :
  forall node : Node, moves id (_serializeDOM env node).
Proof.
  fix IH 1. intros [nodeName attributes children|data|data|nodeType].
  - cbn [_serializeDOM].
    apply moves_head; [unfold _getDOMRTInfo; stack_tac | intros da].
    set (name := toLowerCase nodeName).
    apply (moves_ext (fun n => (n + listDelta name da) - listDelta name da));
      [intros n; unfold id; lia |].
    apply (moves_bind (fun n => n + listDelta name da)
             (fun n => n - listDelta name da));
      [apply startTag_moves | intros _].
    apply (moves_ext (fun n => id n - listDelta name da)); [reflexivity |].
    apply (moves_bind id (fun n => n - listDelta name da));
      [| intros _; apply endTag_moves].
    clear -IH. induction children as [|child rest IHrest].
    + apply keeps_moves, keeps_ret.
    + apply (moves_ext (fun n => id (id n))); [reflexivity |].
      apply moves_bind; [apply IH | intros _; apply IHrest].
  - apply keeps_moves. now apply otherToken_keeps_stack.
  - cbn [_serializeDOM]. apply keeps_moves.
    apply keeps_bind; [apply keeps_getState | intros s].
    apply keeps_bind; [stack_tac | intros _].
    apply keeps_bind; [now apply otherToken_keeps_stack | intros _].
    stack_tac.
  - apply keeps_moves. cbn [_serializeDOM]. unfold warn. stack_tac.
Qed.

(** X6.  A call of [serializeDOM] that returns wikitext leaves the list
    stack of the prototype object as long as it found it: every list that
    the walker opens, it closes.  A stack that was empty is empty again. *)
Theorem serializeDOM_balances_the_list_stack :
  forall (w : Proto) (node : Node) (text : string),
    wikitext (serializeDOM env w node) = Some text ->
    length (listStack (protoAfter (serializeDOM env w node)))
    = length (listStack w)
    /\ (listStack w = [] ->
        listStack (protoAfter (serializeDOM env w node)) = []).
Proof.
  intros w node text Htext.
  assert (Hlen : length (listStack (protoAfter (serializeDOM env w node)))
                 = length (listStack w)).
  { unfold serializeDOM in *.
    assert (Hm : moves id (_serializeDOM env node
                           ;;; _serializeToken env EOFTk)).
    { apply moves_tail; [apply serializeDOM_walk_moves | intros _].
      now apply otherToken_keeps_stack. }
    specialize (Hm (newWorld w)).
    destruct ((_serializeDOM env node ;;; _serializeToken env EOFTk)
                (newWorld w)) as [[[]|e] w']; [exact Hm | discriminate]. }
  split; [exact Hlen |].
  intros Hnil. rewrite Hnil in Hlen.
  now destruct (listStack (protoAfter (serializeDOM env w node))).
Qed.
End Stack.

Section Walker.
Import WS.
Variable env : Env.

Lemma bind_assoc {A B C : Type} (m : M A) (f : A -> M B) (g : B -> M C)
    (w : World) :
  bind (bind m f) g w = bind m (fun a => bind (f a) g) w.
Proof. unfold bind. now destruct (m w) as [[a|e] w1]. Qed.

Lemma serializeEach_app (a b : list Token) (w : World) :
  serializeEach env (a ++ b) w
  = (serializeEach env a ;;; serializeEach env b) w.
Proof.
  revert w. induction a as [|t a IH]; intros w; [reflexivity |].
  cbn [app serializeEach]. unfold bind.
  destruct (_serializeToken env t w) as [[[]|e] w1]; [| reflexivity].
  rewrite IH. reflexivity.
Qed.

Lemma getDOMRTInfo_parsed (attribs : list KV) (da : DataAttribs) (w : World) :
  Walk.rtInfoOf env attribs = Some da ->
  _getDOMRTInfo env attribs w = (Ok da, w).
Proof.
  unfold Walk.rtInfoOf, _getDOMRTInfo.
  destruct (find _ attribs) as [kv|]; [| now intros [= <-]].
  destruct (v kv); [now intros [= <-] |].
  destruct (JSON_parse env _); [now intros [= <-] | discriminate].
Qed.

Lemma serializeDOM_walk_tokens :
  forall (node : Node) (toks : list Token) (w : World),
    Walk.tokensOf env node = Some toks ->
    _serializeDOM env node w = serializeEach env toks w.
Proof.
  fix IH 1. intros [nodeName attributes children|data|data|nodeType] toks w;
    try discriminate.
  - cbn [Walk.tokensOf _serializeDOM].
    destruct (Walk.rtInfoOf env attributes) as [da|] eqn:Hda; [| discriminate].
    match goal with
    | |- match ?all children with _ => _ end = _ -> _ =>
        set (tokensOfAll := all)
    end.
    destruct (tokensOfAll children) as [inner|] eqn:Hin; [| discriminate].
    intros [= <-].
    cbn [app serializeEach].
    unfold bind at 1. rewrite (getDOMRTInfo_parsed _ _ _ Hda).
    unfold bind at 1. unfold bind at 3.
    destruct (_serializeToken env _ w) as [[[]|e] w1]; [| reflexivity].
    rewrite serializeEach_app. cbn [serializeEach].
    unfold bind at 1. unfold bind at 2.
    match goal with
    | |- match ?walk children w1 with _ => _ end = _ =>
        assert (Hwalk : forall nodes inner' w',
                   tokensOfAll nodes = Some inner' ->
                   walk nodes w' = serializeEach env inner' w')
    end.
    { clear -IH. induction nodes as [|child rest IHrest]; intros inner' w'.
      - intros [= <-]. reflexivity.
      - cbn [tokensOfAll].
        destruct (Walk.tokensOf env child) as [a|] eqn:Ha; [| discriminate].
        fold tokensOfAll.
        destruct (tokensOfAll rest) as [b|] eqn:Hb; [| discriminate].
        intros [= <-]. rewrite serializeEach_app.
        unfold bind. rewrite (IH child a w' Ha).
        destruct (serializeEach env a w') as [[[]|e] w2]; [| reflexivity].
        now apply IHrest. }
    rewrite (Hwalk children inner w1 Hin).
    destruct (serializeEach env inner w1) as [[[]|e] w2]; [| reflexivity].
    unfold bind.
    now destruct (_serializeToken env _ w2) as [[[]|e] w3].
  - intros [= <-]. cbn [_serializeDOM serializeEach]. unfold bind.
    now destruct (_serializeToken env (Str data) w) as [[[]|e] w1].
Qed.

(** X7.  [serializeDOM] of a tree is [serializeTokens] of the tokens of the
    tree and the end of input: it returns the chunks of that call put
    together, or nothing where that call throws, and leaves the prototype
    object as that call leaves it. *)
Theorem serializeDOM_is_serializeTokens :
  forall (w : Proto) (node : Node) (toks : list Token),
    Walk.tokensOf env node = Some toks ->
    match serializeTokens env w (toks ++ [EOFTk]) with
    | (Ok out, after) =>
        wikitext (serializeDOM env w node) = Some (JS.join "" out)
        /\ sunk (serializeDOM env w node) = out
        /\ protoAfter (serializeDOM env w node) = after
    | (Throw e, after) =>
        wikitext (serializeDOM env w node) = None
        /\ protoAfter (serializeDOM env w node) = after
    end.
Proof.
  intros w node toks Htoks. unfold serializeDOM, serializeTokens.
  rewrite serializeEach_app. cbn [serializeEach].
  assert (H : (_serializeDOM env node ;;; _serializeToken env EOFTk)
                (newWorld w)
              = (serializeEach env toks
                 ;;; (_serializeToken env EOFTk ;;; ret tt)) (newWorld w)).
  { unfold bind. rewrite (serializeDOM_walk_tokens node toks _ Htoks).
    destruct (serializeEach env toks (newWorld w)) as [[[]|e] w1];
      [| reflexivity].
    now destruct (_serializeToken env EOFTk w1) as [[[]|e] w2]. }
  rewrite H.
  destruct ((serializeEach env toks
             ;;; (_serializeToken env EOFTk ;;; ret tt)) (newWorld w))
    as [[[]|e] w1]; repeat split; reflexivity.
Qed.

(** X8.  The start of an [li], [dt] or [dd] that is not marked as an HTML
    tag, with no list open: [_serializeToken] throws a TypeError, as there
    is no list context to count the item in.  Nothing is sent to the sink
    and the list stack stays empty. *)
Theorem list_item_outside_list_throws :
  forall (name : string) (attribs : list KV) (da : DataAttribs) (w : World),
    SerSpec.isItemName name = true ->
    isStr (stx da) "html" = false ->
    listStack (proto w) = [] ->
    exists w' : World,
      _serializeToken env (TagTk name attribs da) w
      = (Throw (TypeError "curList.itemCount"), w')
      /\ chunks (state w') = chunks (state w)
      /\ listStack (proto w') = [].
Proof.
  intros name attribs da [p s] Hname Hstx Hstack. cbn [state proto] in *.
  unfold _serializeToken, dispatchToken, _getTokenHandler.
  cbn [tokenDA tokenName Pre.tagName]. rewrite Hstx.
  unfold SerSpec.isItemName in Hname.
  apply orb_true_iff in Hname as [Hname|Hname];
    [apply orb_true_iff in Hname as [Hname|Hname] |];
    apply String.eqb_eq in Hname; subst name;
    cbv beta iota zeta delta [bind getState getProto modifyState state proto];
    cbn [hasEntry tableNames existsb String.eqb Ascii.eqb Bool.eqb orb
         descOf tableStart ignore handle negb runHandle];
    unfold _listItemHandler;
    cbv beta iota zeta delta [bind getState getProto modifyState state proto];
    rewrite Hstack; cbn [lastCtx];
    (eexists; split; [reflexivity |]; destruct s; split; [reflexivity |];
     exact Hstack).
Qed.
End Walker.

(** *** Comments *)

Section Comment.
Import WS.
Variable env : Env.

(** A text between two characters that are no line breaks is its own
    middle. *)
Lemma matchNewlines_framed (a b : ascii) (mid : string) :
  Ascii.eqb a JS.LF = false -> Ascii.eqb a JS.CR = false ->
  Ascii.eqb b JS.LF = false -> Ascii.eqb b JS.CR = false ->
  matchNewlines (String a (mid +:+ String b ""))
  = Stripped 0 (String a (mid +:+ String b "")) 0.
Proof.
  intros Ha1 Ha2 Hb1 Hb2. unfold matchNewlines.
  cbn [leadingBreaks]. rewrite Ha1, Ha2.
  set (full := String a (mid +:+ String b "")).
  assert (Hrev : reverse full = String b (reverse mid +:+ String a "")).
  { subst full. rewrite reverse_String, reverse_append.
    change (reverse (String b "")) with (String b "").
    now rewrite !append_String, append_Empty. }
  rewrite Hrev. cbn [trailingBreaksRev]. rewrite Hb1, Hb2.
  now rewrite <- Hrev, reverse_involutive.
Qed.

Lemma comment_text_framed (data : string) :
  "<!--" +:+ data +:+ "-->"
  = String "<" (("!--" +:+ data +:+ "--") +:+ String ">" "").
Proof.
  rewrite !append_String, !append_Empty. rewrite !append_assoc_s.
  now rewrite !append_String, !append_Empty.
Qed.

Lemma stripNewlines_comment (data : string) (w : World) :
  stripNewlines ("<!--" +:+ data +:+ "-->") w
  = (Ok ("<!--" +:+ data +:+ "-->", 0),
     mkWorld (proto w)
       (set_availableNewlineCount (availableNewlineCount (state w) + 0)
          (state w))).
Proof.
  rewrite comment_text_framed. unfold stripNewlines.
  now rewrite matchNewlines_framed by reflexivity.
Qed.

Lemma comment_nonEmpty (data : string) :
  JS.nonEmpty ("<!--" +:+ data +:+ "-->") = true.
Proof. now rewrite comment_text_framed. Qed.

Lemma dispatch_comment (data : string) (da : DataAttribs) (w : World) :
  dispatchToken env (CommentTk data da) w
  = (Ok (CommentHandler, "<!--" +:+ data +:+ "-->"),
     mkWorld (proto w)
       (set_curToken (Some (CommentTk data da))
          (set_prevToken (curToken (state w)) (state w)))).
Proof. reflexivity. Qed.

Lemma emitText_adds_no_newline (handler : Handler) (res : string)
    (newNLCount : nat) (w : World) :
  emitNewlineOnNextToken (state w) = false ->
  startsNewline (descOf (proto w) handler) = false ->
  exists w' : World,
    emitText handler res newNLCount w = (Ok tt, w')
    /\ proto w' = proto w
    /\ chunks (state w')
       = chunks (state w)
         ++ [JS.newlines (availableNewlineCount (state w))
             +:+ onOneLine (state w) (withoutTail (state w) res)]
    /\ availableNewlineCount (state w') = newNLCount
    /\ emitNewlineOnNextToken (state w') = false
    /\ (newlineTransparent (descOf (proto w) handler) = true ->
        onStartOfLine (state w) = true -> onStartOfLine (state w') = true).
Proof.
  destruct w as [p s]. cbn [state proto]. intros Hemit Hstart.
  cbv beta iota zeta delta [emitText bind getState getProto when modifyState
                              chunkCB ret state proto].
  rewrite Hemit, Hstart, andb_false_r. cbn [orb andb].
  rewrite andb_false_r. cbv beta iota.
  destruct (Nat.ltb 0 (availableNewlineCount s));
    cbv beta iota zeta delta [state proto];
    destruct (JS.nonEmpty (onOneLine s (withoutTail s res)));
    destruct (newlineTransparent (descOf p handler));
    (eexists; split; [reflexivity |]); destruct s; cbn in *;
    repeat split; try reflexivity; try assumption; intros; congruence.
Qed.

(** X9.  A comment node whose data is a string of code units below 256,
    as all strings of this development are (on a comment that holds the
    line separators U+2028 or U+2029 the pattern of line 947 can fail, and
    [_serializeToken] throws).  [_serializeDOM] returns; the pending line end
    ([emitNewlineOnNextToken]) is afterwards what it was before.  Unless
    its content is dropped, the comment is sent to the sink as one chunk,
    after the newlines that were owed and no other, with the tail of a link
    taken off and, in single-line mode, its newlines replaced by spaces;
    no newline is owed afterwards, and a start of line stays one. *)
Theorem comment_keeps_the_line_end_pending :
  forall (data : string) (w : World),
    exists w' : World,
      _serializeDOM env (CommentNode data) w = (Ok tt, w')
      /\ emitNewlineOnNextToken (state w')
         = emitNewlineOnNextToken (state w)
      /\ proto w' = proto w
      /\ if dropContent (state w)
         then chunks (state w') = chunks (state w)
         else chunks (state w')
              = chunks (state w)
                ++ [JS.newlines (availableNewlineCount (state w))
                    +:+ onOneLine (state w)
                          (withoutTail (state w)
                             ("<!--" +:+ data +:+ "-->"))]
              /\ availableNewlineCount (state w') = 0
              /\ (onStartOfLine (state w) = true ->
                  onStartOfLine (state w') = true).
Proof.
  intros data [p s]. cbn [_serializeDOM state proto].
  cbv beta iota zeta delta [bind getState modifyState state proto].
  rewrite (serializeToken_run env _ _ _ _ _ (dispatch_comment data noDA _)).
  cbn [state proto].
  destruct (dropContent s) eqn:Hdrop.
  - replace (dropContent (set_emitNewlineOnNextToken false s)) with true
      by (rewrite <- Hdrop; now destruct s).
    replace (dropContent
               (set_curToken (Some (CommentTk data noDA))
                  (set_prevToken
                     (curToken (set_emitNewlineOnNextToken false s))
                     (set_emitNewlineOnNextToken false s)))) with true
      by (rewrite <- Hdrop; now destruct s).
    cbn [negb orb]. eexists. split; [reflexivity |].
    destruct s; repeat split; reflexivity.
  - replace (dropContent (set_emitNewlineOnNextToken false s)) with false
      by (rewrite <- Hdrop; now destruct s).
    cbn [negb orb].
    unfold afterHandler. unfold bind at 1.
    rewrite stripNewlines_comment.
    cbv beta iota zeta delta [bind getState getProto separatePair state proto].
    cbn [descOf pairSepNLCount Nat.ltb Nat.leb andb startsNewline endsLine
         singleLine Z.ltb Z.compare newlineTransparent].
    unfold warn. rewrite !when_modifyState.
    cbv beta iota zeta delta [state proto].
    rewrite comment_nonEmpty.
    match goal with
    | |- context [emitText CommentHandler _ 0 (mkWorld p ?st)] =>
        set (s2 := st)
    end.
    assert (H2 : emitNewlineOnNextToken s2 = false
                 /\ chunks s2 = chunks s
                 /\ availableNewlineCount s2 = availableNewlineCount s
                 /\ singleLineMode s2 = singleLineMode s
                 /\ dropTail s2 = dropTail s
                 /\ onStartOfLine s2 = onStartOfLine s).
    { subst s2. destruct (debug env); destruct s; cbn;
        rewrite Nat.add_0_r; repeat split; reflexivity. }
    clearbody s2. destruct H2 as (He & Hc & Hn & Hsl & Hdt & Hsol).
    destruct (emitText_adds_no_newline CommentHandler
                ("<!--" +:+ data +:+ "-->") 0 (mkWorld p s2) He eq_refl)
      as (w' & -> & Hp & Hch & Hcount & _ & Hstay).
    cbn [state proto] in *.
    rewrite !when_modifyState. cbv beta iota zeta delta [state proto].
    eexists. split; [reflexivity |]. cbn [state proto].
    rewrite (onOneLine_withoutTail_same s s2 _ Hsl Hdt), Hc, Hn in Hch.
    rewrite Hsol in Hstay. specialize (Hstay eq_refl).
    destruct w' as [p' s']. cbn [state proto] in *.
    destruct s', s; cbn in *. subst. repeat split; assumption.
Qed.
End Comment.

(** *** The escaper on runs of tokens; tokens that are not text *)

Section Wrap.
Import WS.
Variable env : Env.

(** [wrapNonTextTokens] where both ends of the run have a source range. *)
Lemma wrapNonTextTokens_ranged (text : string) (inNl : bool) (e : Escaping)
    (first : Token) (more : list Token) (a a' b' b : Z) :
  nonTextTokenAccum e = first :: more ->
  tokenTsr first = Some (a, a') ->
  tokenTsr (List.last (first :: more) first) = Some (b', b) ->
  let from := if inNl then a else (a - 1)%Z in
  let to := if inNl then b else (b - 1)%Z in
  let wrapped := escapeNowiki (JS.substr text from (to - from)) in
  wrapNonTextTokens text inNl e
  = (mkEscaping (outTexts e ++ ["<nowiki>"; wrapped; "</nowiki>"]) []
       (from + 17 + JS.zlen wrapped)%Z, [], None).
Proof.
  intros Hacc Hf Hl. cbv zeta. unfold wrapNonTextTokens.
  rewrite Hacc, Hf, Hl. reflexivity.
Qed.

Lemma escapeTokens_flush (text : string) (inNl : bool) (trigger : Token)
    (post : list Token) (e e1 : Escaping) :
  isTextToken trigger = true ->
  wrapNonTextTokens text inNl e = (e1, [], None) ->
  nonTextTokenAccum e1 = [] ->
  escapeTokens text inNl None (trigger :: post) e
  = escapeTokens text inNl None (trigger :: post) e1.
Proof.
  intros Ht Hw He1.
  assert (Hw1 : wrapNonTextTokens text inNl e1 = (e1, [], None))
    by (unfold wrapNonTextTokens; now rewrite He1).
  destruct trigger; try discriminate; cbn [escapeTokens];
    rewrite Hw, Hw1; reflexivity.
Qed.

Lemma escapeTokens_end (text : string) (inNl : bool) (e : Escaping) :
  nonTextTokenAccum e = [] ->
  escapeTokens text inNl None [EOFTk] e = (e, [], None).
Proof.
  intros He. cbn [escapeTokens]. unfold wrapNonTextTokens. rewrite He.
  reflexivity.
Qed.


(** X10.  The tokens of a text are text tokens [pre], a run of non-text
    tokens of which the first and the last have a source range, text tokens
    [post] of which there is at least one, and the end of input.  The
    escaper returns the text of [pre], the source of the run between
    [<nowiki>] and [</nowiki>], cut from the text by the start of the first
    range and the end of the last (both less one for the guard outside a
    newline context), and the text of [post]; it writes nothing to the
    console. *)
Theorem escaper_wraps_the_source_of_a_run :
  forall (text : string) (w : World)
         (pre more post : list Token) (first trigger : Token) (a a' b' b : Z),
    tokensToEscape env (state w) text
    = Ok (pre ++ (first :: more) ++ (trigger :: post) ++ [EOFTk]) ->
    forallb isTextToken pre = true ->
    forallb accumulates (first :: more) = true ->
    forallb isTextToken (trigger :: post) = true ->
    tokenTsr first = Some (a, a') ->
    tokenTsr (List.last (first :: more) first) = Some (b', b) ->
    let from := if _inNewLineContext (state w) then a else (a - 1)%Z in
    let to := if _inNewLineContext (state w) then b else (b - 1)%Z in
    let wrapped := escapeNowiki (JS.substr text from (to - from)) in
    exists cursor' : Z,
      escapeWikiText env text w
      = (Ok (unguarded (state w)
               (mkEscaping
                  (map textOf pre ++ ["<nowiki>"; wrapped; "</nowiki>"]
                   ++ map textOf (trigger :: post)) [] cursor')),
         w).
Proof.
  intros text w pre more post first trigger a a' b' b
    Htoks Hpre Hrun Hpost Hf Hl. cbv zeta.
  rewrite (escapeWikiText_returns env text w _ Htoks).
  rewrite escapeTokens_text by (assumption || reflexivity).
  rewrite escapeTokens_accumulate by assumption.
  cbn [outTexts nonTextTokenAccum cursor app].
  erewrite escapeTokens_flush;
    [| now apply andb_true_iff in Hpost as [Ht _]
     | apply (wrapNonTextTokens_ranged _ _ _ first more a a' b' b);
       [reflexivity | exact Hf | exact Hl]
     | reflexivity].
  change (trigger :: post ++ [EOFTk]) with ((trigger :: post) ++ [EOFTk]).
  rewrite escapeTokens_text by (assumption || reflexivity).
  rewrite escapeTokens_end by reflexivity.
  cbn [outTexts nonTextTokenAccum cursor caughtWarning].
  eexists. rewrite !app_nil_r.
  replace (set_console (console (state w)) (state w)) with (state w)
    by now destruct (state w).
  rewrite <- app_assoc.
  destruct w; reflexivity.
Qed.
End Wrap.

Section Guarded.
Import WS.
Variable env : Env.

(** X11.  Outside a newline context, where the guard is taken off the first
    token: when the tokenizer returns no token, or a first token that is
    not a string, [escapeWikiText] throws a TypeError.  The guard is taken
    off before the [try] block, so the exception leaves the escaper, and
    [_serializeToken] with it; nothing is sent to the sink. *)
Theorem escaper_throws_without_first_string :
  forall (text : string) (w : World),
    _inNewLineContext (state w) = false ->
    inNoWiki (state w) || inHTMLPre (state w) = false ->
    match tokenize env (guardedText (state w) text) with
    | Str _ :: _ => False
    | _ => True
    end ->
    exists (what : string) (w' : World),
      escapeWikiText env text w = (Throw (TypeError what), w)
      /\ _serializeToken env (Str text) w = (Throw (TypeError what), w')
      /\ chunks (state w') = chunks (state w)
      /\ proto w' = proto w.
Proof.
  intros text [p s] Hnl Hpre Htok. cbn [state proto] in *.
  set (s1 := set_curToken (Some (Str text)) (set_prevToken (curToken s) s)).
  assert (Hnl1 : _inNewLineContext s1 = false)
    by (rewrite <- Hnl; now destruct s).
  assert (Hpre1 : inNoWiki s1 || inHTMLPre s1 = false)
    by (rewrite <- Hpre; now destruct s).
  assert (Hg : forall t, guardedText s1 t = guardedText s t)
    by (intros t; unfold guardedText; rewrite Hnl, Hnl1; now destruct s).
  assert (Hthrow : forall s' : State,
             _inNewLineContext s' = false ->
             guardedText s' text = guardedText s text ->
             exists what,
               escapeWikiText env text (mkWorld p s')
               = (Throw (TypeError what), mkWorld p s')).
  { intros s' Hnl' Hg'. unfold escapeWikiText, tokensToEscape.
    cbv beta iota zeta delta [bind getState state proto].
    rewrite Hnl', Hg'. unfold stripGuard.
    destruct (tokenize env (guardedText s text)) as [|[] rest];
      try contradiction; eexists; reflexivity. }
  destruct (Hthrow s Hnl eq_refl) as [what Hw].
  destruct (Hthrow s1 Hnl1 (Hg text)) as [what1 Hw1].
  assert (what1 = what).
  { unfold escapeWikiText, tokensToEscape in Hw, Hw1.
    cbv beta iota zeta delta [bind getState state proto] in Hw, Hw1.
    rewrite Hnl in Hw. rewrite Hnl1, Hg in Hw1.
    destruct (stripGuard (tokenize env (guardedText s text))) as [toks|e];
      [| cbn in Hw, Hw1; congruence].
    exfalso. cbn [ret] in Hw.
    destruct (escapeTokens _ _ _ _ _) as [[e' wr'] ex']. discriminate. }
  subst what1.
  exists what, (mkWorld p s1). split; [exact Hw |].
  split; [| subst s1; now destruct s].
  unfold _serializeToken, dispatchToken.
  cbv beta iota zeta delta [bind getState getProto modifyState state proto].
  fold s1. rewrite Hpre1, Hw1. reflexivity.
Qed.

(** X12.  A newline token is not written: outside an indent-pre, and unless
    its content is dropped, [_serializeToken] sends nothing to the sink and
    owes one newline more. *)
Theorem newline_token_is_owed :
  forall (da : DataAttribs) (w : World),
    textHandler (state w) = false ->
    dropContent (state w) = false ->
    exists w' : World,
      _serializeToken env (NlTk da) w = (Ok tt, w')
      /\ chunks (state w') = chunks (state w)
      /\ availableNewlineCount (state w')
         = S (availableNewlineCount (state w))
      /\ emitNewlineOnNextToken (state w')
         = emitNewlineOnNextToken (state w)
      /\ singleLineMode (state w') = singleLineMode (state w)
      /\ proto w' = proto w.
Proof.
  intros da [p s] Hth Hdrop. cbn [state proto] in *.
  unfold _serializeToken, dispatchToken, afterHandler, applyTextHandler.
  cbv beta iota zeta delta [bind getState getProto modifyState ret state
                              proto].
  replace (textHandler (set_curToken (Some (NlTk da))
                          (set_prevToken (curToken s) s))) with false
    by (rewrite <- Hth; now destruct s).
  rewrite Hdrop. cbn [negb orb].
  cbv beta iota zeta delta [stripNewlines matchNewlines bind modifyState ret
                              state proto JS.nl].
  cbn [leadingBreaks Ascii.eqb Bool.eqb JS.LF].
  cbv beta iota zeta delta [separatePair warn bind getState getProto
                              modifyState ret when state proto].
  cbn [descOf emptyDesc pairSepNLCount startsNewline endsLine singleLine
       Nat.ltb Nat.leb andb Z.ltb Z.compare JS.nonEmpty].
  destruct (debug env); cbv beta iota zeta delta [state proto];
    (eexists; split; [reflexivity |]);
    destruct s; cbn; repeat split; lia.
Qed.
End Guarded.

Section Tail.
Import WS.
Variable env : Env.

Lemma takeS_dropS (k : nat) (s : string) : JS.takeS k s +:+ JS.dropS k s = s.
Proof.
  revert s. induction k as [|k IH]; intros s.
  - cbn. now rewrite append_Empty.
  - destruct s as [|c s]; [reflexivity |].
    cbn [JS.takeS JS.dropS]. now rewrite append_String, IH.
Qed.

Lemma dropS_length (k : nat) (s : string) :
  String.length (JS.dropS k s) = String.length s - k.
Proof.
  revert s. induction k as [|k IH]; intros s; [cbn; lia |].
  destruct s as [|c s]; [reflexivity |]. cbn [JS.dropS String.length].
  apply IH.
Qed.

Lemma takeS_length_le (k : nat) (s : string) :
  String.length (JS.takeS k s) <= k.
Proof.
  revert s. induction k as [|k IH]; intros s; [cbn; lia |].
  destruct s as [|c s]; [cbn; lia |]. cbn [JS.takeS String.length].
  specialize (IH s). lia.
Qed.

Lemma takeS_whole (k : nat) (s : string) :
  String.length s <= k -> JS.takeS k s = s.
Proof.
  revert s. induction k as [|k IH]; intros s H.
  - destruct s; [reflexivity | cbn in H; lia].
  - destruct s as [|c s]; [reflexivity |]. cbn [JS.takeS String.length] in *.
    rewrite IH; [reflexivity | lia].
Qed.

Lemma endsWith_split (res t : string) :
  JS.nonEmpty t = true -> endsWith res t = true ->
  JS.substr res 0 (JS.zlen res - JS.zlen t) +:+ t = res.
Proof.
  intros Hne Hend. unfold endsWith in Hend. apply String.eqb_eq in Hend.
  assert (Ht : 0 < String.length t) by (destruct t; [discriminate | cbn; lia]).
  unfold JS.substr, JS.zlen in *.
  set (n := String.length res) in *. set (L := String.length t) in *.
  replace (- Z.of_nat L <? 0)%Z with true in Hend by lia.
  replace (0 <? 0)%Z with false by reflexivity.
  destruct (Nat.le_gt_cases L n) as [Hle|Hgt].
  - replace (Z.max (Z.of_nat n + - Z.of_nat L) 0) with (Z.of_nat (n - L))
      in Hend by lia.
    replace (Z.min (Z.max (Z.of_nat L) 0) (Z.of_nat n - Z.of_nat (n - L)))
      with (Z.of_nat L) in Hend by lia.
    replace (Z.of_nat L <=? 0)%Z with false in Hend by lia.
    rewrite !Nat2Z.id in Hend.
    rewrite takeS_whole in Hend by (rewrite dropS_length; subst n L; lia).
    replace (Z.min (Z.max (Z.of_nat n - Z.of_nat L) 0) (Z.of_nat n - 0))
      with (Z.of_nat (n - L)) by lia.
    destruct (Z.leb_spec (Z.of_nat (n - L)) 0) as [Hz|Hz].
    + assert (n - L = 0) by lia. rewrite append_Empty, <- Hend.
      replace (n - L) with 0 by lia. reflexivity.
    + rewrite Nat2Z.id. change (Z.to_nat 0) with 0. cbn [JS.dropS].
      rewrite <- Hend at 1. apply takeS_dropS.
  - exfalso.
    replace (Z.max (Z.of_nat n + - Z.of_nat L) 0) with 0%Z in Hend by lia.
    replace (Z.min (Z.max (Z.of_nat L) 0) (Z.of_nat n - 0))
      with (Z.of_nat n) in Hend by lia.
    assert (Hlen : String.length t <= n).
    { rewrite <- Hend. destruct (Z.of_nat n <=? 0)%Z; [cbn; lia |].
      rewrite Nat2Z.id. apply takeS_length_le. }
    subst L. lia.
Qed.

(** X13.  The tail of a link.  Where the text that is sent to the sink ends
    with the tail that the start of a link has set in [dropTail], the text
    without it and the tail make up the text again, so that the tail that
    the end of the link writes after the brackets is the one that was taken
    off; any other text is left as it is. *)
Theorem withoutTail_takes_off_the_tail :
  forall (s : State) (res t : string),
    dropTail s = Some t ->
    if JS.nonEmpty t && endsWith res t
    then withoutTail s res +:+ t = res
    else withoutTail s res = res.
Proof.
  intros s res t Hs. unfold withoutTail. rewrite Hs.
  destruct (JS.nonEmpty t) eqn:Hne; cbn [andb]; [| reflexivity].
  destruct (endsWith res t) eqn:Hend; [| reflexivity].
  now apply endsWith_split.
Qed.
End Tail.

(** ** More properties of the pre handler *)

Section Calm.
Import Pre PreSpec PreMore.
Variable isTableTag : Token -> bool.
Variable isBlockTag : string -> bool.
Local Abbreviation feed := (Pre.feed isTableTag isBlockTag).
Local Abbreviation run := (Pre.run isTableTag isBlockTag).

Lemma feed_calm_machine (t : Token) st p toks mw ip :
  startsWithSpace t = false ->
  (st = STATE_SOL \/ (st = STATE_IGNORE /\ toks = [])) ->
  calm (fst (feed (machine st None p toks None mw [] ip) t))
  /\ snd (feed (machine st None p toks None mw [] ip) t)
     ++ tokens (fst (feed (machine st None p toks None mw [] ip) t))
     = toks ++ [t].
Proof.
  intros Hsp [-> | [-> ->]].
  - destruct (isInline t) eqn:Hin.
    + rewrite (feed_machine isTableTag isBlockTag t) by (assumption || discriminate).
      cbv zeta. unfold onAny_SOL. rewrite Hsp. cbn [andb].
      destruct (isSolTransparent t).
      * cbn. split; [| reflexivity].
        eexists STATE_SOL, _, _, _, _. split; [reflexivity | now left].
      * cbn. split; [| now rewrite app_nil_r].
        eexists STATE_IGNORE, _, _, _, _. split; [reflexivity | now right].
    + destruct t; try discriminate; cbn.
      * split; [| now rewrite app_nil_r].
        eexists STATE_SOL, _, _, _, _. split; [reflexivity | now left].
      * split; [| now rewrite app_nil_r].
        eexists STATE_SOL, _, _, _, _. split; [reflexivity | now left].
  - destruct t; cbn;
      (split; [| reflexivity]);
      first [ eexists STATE_IGNORE, _, _, _, _; split;
              [reflexivity | now right]
            | eexists STATE_SOL, _, _, _, _; split;
              [reflexivity | now left] ].
Qed.

Lemma calm_tokens (h : PreHandler) st p toks mw ip :
  quiet h = machine st None p toks None mw [] ip -> tokens h = toks.
Proof. intros H. destruct h. unfold quiet, machine in H. cbn in *. congruence. Qed.

Lemma feed_calm (h : PreHandler) (t : Token) :
  calm h -> startsWithSpace t = false ->
  calm (fst (feed h t))
  /\ snd (feed h t) ++ tokens (fst (feed h t)) = tokens h ++ [t].
Proof.
  intros (st & p & toks & mw & ip & Hq & Hst) Hsp.
  assert (Hm : quiet h = quiet (machine st None p toks None mw [] ip))
    by (rewrite Hq; now destruct st).
  destruct (feed_alike isTableTag isBlockTag _ _ t Hm) as [Ha Ho].
  destruct (feed_calm_machine t st p toks mw ip Hsp Hst) as [Hc Hout].
  rewrite (calm_tokens h _ _ _ _ _ Hq), Ho. split.
  - destruct Hc as (st' & p' & toks' & mw' & ip' & Hq' & Hst').
    exists st', p', toks', mw', ip'. split; [congruence | assumption].
  - rewrite <- Hout. f_equal.
    destruct (alike_fields _ _ Ha) as (_ & Ht & _). exact Ht.
Qed.

Lemma run_calm (toks : list Token) :
  forall h : PreHandler,
    calm h ->
    forallb (fun t => negb (startsWithSpace t)) toks = true ->
    calm (fst (run h toks))
    /\ snd (run h toks) ++ tokens (fst (run h toks)) = tokens h ++ toks.
Proof.
  induction toks as [|t rest IH]; intros h Hc Hsp.
  - cbn. split; [assumption | now rewrite app_nil_r].
  - cbn [forallb] in Hsp. apply andb_true_iff in Hsp as [Ht Hrest].
    apply negb_true_iff in Ht.
    destruct (feed_calm h t Hc Ht) as [Hc1 Ho1].
    cbn [Pre.run]. destruct (feed h t) as [h1 o1]. cbn [fst snd] in *.
    destruct (IH h1 Hc1 Hrest) as [Hc2 Ho2].
    destruct (run h1 rest) as [h2 o2]. cbn [fst snd] in *.
    split; [assumption |].
    rewrite <- app_assoc, Ho2, app_assoc, Ho1, <- app_assoc. reflexivity.
Qed.

Lemma PreHandler_new_calm (c : ParsoidConf) : calm (PreHandler_new c false).
Proof.
  exists STATE_SOL, 0%Z, [], None, false. split; [reflexivity | now left].
Qed.

(** X14.  A stream in which no text starts with a space goes through the
    handler as it is.  Of the tokens that have come in, the handler has
    sent on all but the sol-transparent ones of the line it is in, which it
    holds in [tokens], in their order; with the end of input it has sent on
    them all. *)
Theorem stream_without_indent_is_unchanged :
  forall (c : ParsoidConf) (toks : list Token),
    forallb (fun t => negb (startsWithSpace t)) toks = true ->
    snd (run (PreHandler_new c false) toks)
    ++ tokens (fst (run (PreHandler_new c false) toks)) = toks
    /\ snd (run (PreHandler_new c false) (toks ++ [EOFTk]))
       = toks ++ [EOFTk].
Proof.
  intros c toks Hsp. split.
  - destruct (run_calm toks _ (PreHandler_new_calm c) Hsp) as [_ H].
    exact H.
  - assert (Hsp' : forallb (fun t => negb (startsWithSpace t))
                     (toks ++ [EOFTk]) = true)
      by (rewrite forallb_app, Hsp; reflexivity).
    destruct (run_calm _ _ (PreHandler_new_calm c) Hsp') as [Hc H].
    change (tokens (PreHandler_new c false)) with (@nil Token) in H.
    rewrite app_nil_l in H.
    assert (Hfresh : tokens (fst (run (PreHandler_new c false)
                                    (toks ++ [EOFTk]))) = []).
    { rewrite (run_app isTableTag isBlockTag). cbn [fst Pre.run].
      pose proof (run_wired isTableTag isBlockTag toks _
                    (PreHandler_new_wired c)) as W.
      pose proof (feed_EOF_fresh isTableTag isBlockTag _ c W) as E.
      destruct (feed (fst (run (PreHandler_new c false) toks)) EOFTk)
        as [h1 o1]. cbn [fst] in *.
      destruct (alike_fields _ _ E) as (_ & Ht & _). rewrite Ht.
      reflexivity. }
    rewrite Hfresh, app_nil_r in H. exact H.
Qed.
End Calm.

Section Paired.
Import Pre PreSpec PreTags.
Variable isTableTag : Token -> bool.
Variable isBlockTag : string -> bool.
Local Abbreviation onAny_fuel := (Pre.onAny_fuel isTableTag isBlockTag).
Local Abbreviation feed := (Pre.feed isTableTag isBlockTag).
Local Abbreviation run := (Pre.run isTableTag isBlockTag).

Lemma nesting_plain (toks : list Token) (open : bool) :
  forallb plain toks = true -> nesting open toks = Some open.
Proof.
  induction toks as [|t rest IH]; [reflexivity |].
  cbn [forallb nesting]. intros H. apply andb_true_iff in H as [Ht Hr].
  unfold plain in Ht. apply negb_true_iff in Ht. rewrite Ht. now apply IH.
Qed.

Lemma nesting_app (a b : list Token) (open : bool) :
  nesting open (a ++ b)
  = match nesting open a with
    | Some open' => nesting open' b
    | None => None
    end.
Proof.
  revert open. induction a as [|t a IH]; intros open; [reflexivity |].
  cbn [app nesting]. destruct (synthetic t); [| apply IH].
  destruct t, open; try reflexivity; apply IH.
Qed.

Lemma paired_app (a b : list Token) : paired a -> paired b -> paired (a ++ b).
Proof. unfold paired. intros Ha Hb. now rewrite nesting_app, Ha. Qed.

Lemma paired_plain (toks : list Token) : forallb plain toks = true -> paired toks.
Proof. apply nesting_plain. Qed.


Ltac fields h :=
  destruct h as [dbg trc nt et at_ st ln p toks pw mw sol ip con].

Ltac clean_hyp H :=
  unfold clean in H; cbn in H;
  repeat (apply andb_true_iff in H;
          let H' := fresh "Hc" in destruct H as [H H']).

Lemma getResultAndReset_clean (h : PreHandler) (t : Token) :
  clean h = true -> plain t = true ->
  clean (fst (getResultAndReset h t)) = true
  /\ forallb plain (snd (getResultAndReset h t)) = true.
Proof.
  intros Hc Ht. fields h. clean_hyp Hc. unfold getResultAndReset, popLastNL.
  destruct ln as [nl|], pw as [ws|], sol as [|s0 sol]; cbn in *;
    unfold clean; cbn;
    rewrite ?forallb_app; cbn [forallb];
    rewrite ?Hc, ?Hc0, ?Hc1, ?Hc2, ?Hc3, ?Ht; cbn;
    repeat match goal with
           | H : _ && _ = true |- _ => apply andb_true_iff in H as [? ?]
           end;
    repeat match goal with
           | H : ?x = true |- context [?x] => rewrite H
           end; cbn; split; reflexivity.
Qed.

Lemma synthetic_open (p : Z) : synthetic (preOpenTag p) = true.
Proof. unfold preOpenTag. now destruct (p =? -1)%Z. Qed.

Lemma paired_block (p : Z) (toks : list Token) :
  forallb plain toks = true ->
  paired ([preOpenTag p] ++ [] ++ toks ++ [preCloseTag]).
Proof.
  intros H. unfold paired. cbn [app nesting]. rewrite synthetic_open.
  unfold preOpenTag at 1. rewrite nesting_app, (nesting_plain _ _ H).
  reflexivity.
Qed.

Ltac plain_list :=
  rewrite ?forallb_app; cbn [forallb plainOpt];
  repeat match goal with
         | H : ?x = true |- context [?x] => rewrite H
         end; cbn [andb]; try reflexivity.

Lemma processPre_clean (h : PreHandler) (t : Token) :
  clean h = true -> plain t = true ->
  clean (fst (processPre h t)) = true /\ paired (snd (processPre h t)).
Proof.
  intros Hc Ht. fields h. clean_hyp Hc. unfold processPre, popLastNL.
  cbn [tokens multiLinePreWSToken lastNlTk solTransparentTokens preTSR
       set_multiLinePreWSToken set_lastNlTk] in *.
  assert (Hblock : paired match toks with
                          | [] => []
                          | _ :: _ => [preOpenTag p] ++ [] ++ toks
                                      ++ [preCloseTag]
                          end).
  { destruct toks; [reflexivity | now apply paired_block]. }
  destruct mw as [ws|], ln as [nl|]; cbn in *; split;
    try (unfold clean; cbn; plain_list);
    repeat (apply paired_app; [| apply paired_plain; plain_list]);
    exact Hblock.
Qed.

Lemma clean_log (e : Console) (h : PreHandler) : clean (log e h) = clean h.
Proof. now fields h. Qed.

Lemma clean_traceStart mk (t : Token) (h : PreHandler) :
  clean (traceStart mk t h) = clean h.
Proof. unfold traceStart. fields h. now destruct trc, dbg. Qed.

Lemma clean_debugEnd ret (h : PreHandler) : clean (debugEnd ret h) = clean h.
Proof. unfold debugEnd. fields h. now destruct dbg. Qed.

Lemma clean_trackInPre (t : Token) (h : PreHandler) :
  clean (trackInPre t h) = clean h.
Proof.
  unfold trackInPre. fields h. now destruct (isPreOpen t), (isPreClose t).
Qed.

Lemma clean_init (h : PreHandler) (b : bool) : clean (init h b) = true.
Proof. reflexivity. Qed.

Lemma clean_frame (f : PreHandler -> PreHandler) (h : PreHandler) :
  tokens (f h) = tokens h ->
  solTransparentTokens (f h) = solTransparentTokens h ->
  lastNlTk (f h) = lastNlTk h -> preWSToken (f h) = preWSToken h ->
  multiLinePreWSToken (f h) = multiLinePreWSToken h ->
  clean (f h) = clean h.
Proof. unfold clean. now intros -> -> -> -> ->. Qed.

Lemma onNewline_clean (h : PreHandler) (t : Token) :
  clean h = true -> plain t = true ->
  clean (fst (onNewline h t)) = true /\ pairedOpt (snd (onNewline h t)).
Proof.
  intros Hc Ht. unfold onNewline.
  rewrite <- (clean_traceStart Warn_nl t) in Hc.
  set (k := traceStart Warn_nl t h) in *. clearbody k.
  pose proof (getResultAndReset_clean k t Hc Ht) as [G1 G2].
  pose proof (processPre_clean k t Hc Ht) as [P1 P2].
  destruct (getResultAndReset k t) as [a ra], (processPre k t) as [b rb].
  cbn [fst snd] in *.
  destruct (state k); cbn [fst snd pairedOpt]; rewrite clean_debugEnd;
    split; try exact I; try (now apply paired_plain); try assumption.
  all: try (fields a; exact G1).
  all: try (fields b; exact P1).
  - fields k. clean_hyp Hc. unfold clean; cbn. plain_list.
  - reflexivity.
  - apply paired_plain. cbn. now rewrite Ht.
Qed.

Lemma onEnd_clean (h : PreHandler) (t : Token) :
  plain t = true ->
  clean (fst (onEnd h t)) = true /\ pairedOpt (snd (onEnd h t)).
Proof.
  intros Ht. unfold onEnd.
  destruct (state (set_inPre false h)); cbn [fst snd pairedOpt];
    (split; [reflexivity | apply paired_plain; cbn; now rewrite Ht]).
Qed.

Lemma onAny_EOF_clean (h : PreHandler) (t : Token) :
  clean h = true -> plain t = true ->
  clean (fst (onAny_EOF h t)) = true /\ pairedOpt (snd (onAny_EOF h t)).
Proof.
  intros Hc Ht. unfold onAny_EOF.
  pose proof (getResultAndReset_clean h t Hc Ht) as [G1 G2].
  pose proof (processPre_clean h t Hc Ht) as [P1 P2].
  destruct (getResultAndReset h t) as [a ra], (processPre h t) as [b rb].
  cbn [fst snd] in *.
  destruct (state h); cbn [fst snd pairedOpt];
    (split; [reflexivity |]); try exact I; try assumption;
    now apply paired_plain.
Qed.

Lemma clean_moveToIgnoreState (h : PreHandler) :
  clean (moveToIgnoreState h) = clean h.
Proof. now fields h. Qed.

Lemma onAny_PRE_clean (h : PreHandler) (t : Token) :
  clean h = true -> plain t = true ->
  clean (fst (onAny_PRE isTableTag isBlockTag h t)) = true
  /\ pairedOpt (snd (onAny_PRE isTableTag isBlockTag h t)).
Proof.
  intros Hc Ht. unfold onAny_PRE.
  pose proof (getResultAndReset_clean h t Hc Ht) as [G1 G2].
  destruct (getResultAndReset h t) as [a ra]. cbn [fst snd] in *.
  destruct (isSolTransparent t);
    [| destruct (isTableTag t || (isHTMLTag t && isBlockTag (tagName t)))];
    cbn [fst snd pairedOpt].
  - split; [| exact I]. fields h. clean_hyp Hc. unfold clean; cbn. plain_list.
  - rewrite clean_moveToIgnoreState. split; [assumption |].
    now apply paired_plain.
  - split; [| exact I]. fields h. clean_hyp Hc. unfold clean; cbn. plain_list.
Qed.

Lemma onAny_PRE_COLLECT_clean (h : PreHandler) (t : Token) :
  clean h = true -> plain t = true ->
  clean (fst (onAny_PRE_COLLECT isBlockTag h t)) = true
  /\ pairedOpt (snd (onAny_PRE_COLLECT isBlockTag h t)).
Proof.
  intros Hc Ht. unfold onAny_PRE_COLLECT.
  pose proof (processPre_clean h t Hc Ht) as [P1 P2].
  destruct (processPre h t) as [b rb]. cbn [fst snd] in *.
  destruct (isHTMLTag t && isBlockTag (tagName t)); cbn [fst snd pairedOpt].
  - rewrite clean_moveToIgnoreState. now split.
  - split; [| exact I]. fields h. clean_hyp Hc. unfold clean; cbn. plain_list.
Qed.

Lemma plain_Str (s : string) : plain (Str s) = true.
Proof. reflexivity. Qed.

Section Self.
Variable self : PreHandler -> Token -> PreHandler.
Hypothesis self_clean :
  forall h t, clean h = true -> plain t = true -> clean (self h t) = true.

Lemma onAny_SOL_clean (h : PreHandler) (t : Token) :
  clean h = true -> plain t = true ->
  clean (fst (onAny_SOL self h t)) = true
  /\ pairedOpt (snd (onAny_SOL self h t)).
Proof.
  intros Hc Ht. unfold onAny_SOL.
  pose proof (getResultAndReset_clean h t Hc Ht) as [G1 G2].
  destruct (getResultAndReset h t) as [a ra]. cbn [fst snd] in *.
  destruct (startsWithSpace t && negb (inPre h)) eqn:Hsp;
    [| destruct (isSolTransparent t)]; cbn [fst snd pairedOpt].
  - apply andb_true_iff in Hsp as [Hsp _].
    destruct t as [| | |s| | |]; try discriminate.
    assert (Hk : clean (set_state STATE_PRE
                          (set_preWSToken (Some (firstChar (Str s)))
                             (set_tokens [] h))) = true)
      by (fields h; clean_hyp Hc; unfold clean; cbn; plain_list).
    split.
    + destruct (negb (isSingleSpace (Str s))); [| exact Hk].
      apply self_clean; [exact Hk | reflexivity].
    + apply paired_plain. fields h. now clean_hyp Hc.
  - split; [| exact I]. fields h. clean_hyp Hc. unfold clean; cbn. plain_list.
  - rewrite clean_moveToIgnoreState. split; [assumption |].
    now apply paired_plain.
Qed.

Lemma onAny_MULTILINE_PRE_clean (h : PreHandler) (t : Token) :
  clean h = true -> plain t = true ->
  clean (fst (onAny_MULTILINE_PRE self h t)) = true
  /\ pairedOpt (snd (onAny_MULTILINE_PRE self h t)).
Proof.
  intros Hc Ht. unfold onAny_MULTILINE_PRE.
  pose proof (processPre_clean h t Hc Ht) as [P1 P2].
  destruct (processPre h t) as [b rb]. cbn [fst snd] in *.
  destruct (startsWithSpace t) eqn:Hsp;
    [| destruct (isSolTransparent t)].
  - destruct t as [| | |s| | |]; try discriminate.
    destruct (popLastNL h (tokens h)) as [h0 toks0] eqn:Hpop.
    assert (Hk : clean (set_multiLinePreWSToken (Some (firstChar (Str s)))
                          (set_solTransparentTokens []
                             (set_tokens
                                (tokens (set_state STATE_PRE_COLLECT
                                           (set_tokens toks0 h0))
                                 ++ solTransparentTokens
                                      (set_state STATE_PRE_COLLECT
                                         (set_tokens toks0 h0)))
                                (set_state STATE_PRE_COLLECT
                                   (set_tokens toks0 h0))))) = true).
    { fields h. clean_hyp Hc. unfold popLastNL in Hpop. cbn in Hpop.
      destruct ln as [nl|]; injection Hpop as <- <-; unfold clean; cbn;
        cbn [plainOpt] in *; plain_list. }
    cbn [fst snd pairedOpt]. split; [| exact I].
    destruct (negb (isSingleSpace (Str s))); [| exact Hk].
    apply self_clean; [exact Hk | reflexivity].
  - cbn [fst snd pairedOpt]. split; [| exact I].
    fields h. clean_hyp Hc. unfold clean; cbn. plain_list.
  - cbn [fst snd pairedOpt]. rewrite clean_moveToIgnoreState. now split.
Qed.
End Self.

Lemma debugEnd_pair (r : PreHandler * option (list Token)) :
  clean (fst r) = true /\ pairedOpt (snd r) ->
  clean (fst (let '(h, ret) := r in (debugEnd ret h, ret))) = true
  /\ pairedOpt (snd (let '(h, ret) := r in (debugEnd ret h, ret))).
Proof. destruct r as [h ret]. cbn [fst snd]. now rewrite clean_debugEnd. Qed.

Lemma onAny_fuel_clean (fuel : nat) :
  forall (h : PreHandler) (t : Token),
    clean h = true -> plain t = true ->
    clean (fst (onAny_fuel fuel h t)) = true
    /\ pairedOpt (snd (onAny_fuel fuel h t)).
Proof.
  induction fuel as [|fuel IH]; intros h t Hc Ht; [now split |].
  cbn [Pre.onAny_fuel]. unfold onAny_body.
  set (self := fun h' t' => fst (onAny_fuel fuel h' t')).
  assert (Hself : forall h' t', clean h' = true -> plain t' = true ->
                                clean (self h' t') = true)
    by (intros h' t' H1 H2; now apply IH).
  rewrite <- (clean_trackInPre t), <- (clean_traceStart Warn_any t) in Hc.
  set (k := traceStart Warn_any t (trackInPre t h)) in *. clearbody k.
  pose proof (onAny_EOF_clean k t Hc Ht) as E.
  pose proof (onAny_SOL_clean self Hself k t Hc Ht) as S1.
  pose proof (onAny_PRE_clean k t Hc Ht) as S2.
  pose proof (onAny_PRE_COLLECT_clean k t Hc Ht) as S3.
  pose proof (onAny_MULTILINE_PRE_clean self Hself k t Hc Ht) as S4.
  destruct (state k); destruct t;
    try (cbn [fst snd pairedOpt]; rewrite clean_log; now split);
    apply debugEnd_pair; assumption.
Qed.

Lemma feed_clean (h : PreHandler) (t : Token) :
  clean h = true -> plain t = true ->
  clean (fst (feed h t)) = true /\ paired (snd (feed h t)).
Proof.
  intros Hc Ht.
  assert (Hpass : forall r : PreHandler * option (list Token),
             clean (fst r) = true /\ pairedOpt (snd r) ->
             clean (fst (passOn t r)) = true /\ paired (snd (passOn t r))).
  { intros [h' [ret|]] [H1 H2]; cbn in *; now split. }
  assert (Hid : clean h = true /\ paired [t])
    by (split; [assumption | apply paired_plain; cbn; now rewrite Ht]).
  unfold Pre.feed, Pre.onAny.
  destruct t;
    repeat match goal with
           | |- context [if ?b then _ else _] => destruct b
           end;
    try exact Hid; apply Hpass;
    first [ now apply onAny_fuel_clean | now apply onNewline_clean
          | now apply onEnd_clean ].
Qed.

(** X15.  The [pre] tags that the handler makes come in pairs.  In what it
    sends on for a stream that brings no such tag of its own (a [pre] tag
    that is not marked as an HTML tag), every one of these start tags is
    followed by its end tag before the next start tag, and no end tag
    comes without its start tag; so it is in what every single token makes
    the handler send on. *)
Theorem synthesized_pre_tags_are_paired :
  forall (c : ParsoidConf) (noPre : bool) (toks : list Token),
    forallb plain toks = true ->
    paired (snd (run (PreHandler_new c noPre) toks))
    /\ forall (before : list Token) (t : Token),
         forallb plain before = true -> plain t = true ->
         paired (snd (feed (fst (run (PreHandler_new c noPre) before)) t)).
Proof.
  intros c noPre toks Hp.
  assert (Hrun : forall toks' h,
             clean h = true -> forallb plain toks' = true ->
             clean (fst (run h toks')) = true /\ paired (snd (run h toks'))).
  { induction toks' as [|t rest IH]; intros h Hc Hr; [now split |].
    cbn [forallb] in Hr. apply andb_true_iff in Hr as [Ht Hr].
    destruct (feed_clean h t Hc Ht) as [Hc1 Hp1].
    cbn [Pre.run]. destruct (feed h t) as [h1 o1]. cbn [fst snd] in *.
    destruct (IH h1 Hc1 Hr) as [Hc2 Hp2].
    destruct (run h1 rest) as [h2 o2]. cbn [fst snd] in *.
    split; [assumption | now apply paired_app]. }
  assert (Hnew : clean (PreHandler_new c noPre) = true)
    by now destruct noPre.
  split.
  - now apply Hrun.
  - intros before t Hb Ht. apply feed_clean; [| assumption].
    now apply Hrun.
Qed.
End Paired.

Section InsidePre.
Import Pre PreSpec PreMore PreLines TokenMore.
Variable isTableTag : Token -> bool.
Variable isBlockTag : string -> bool.
Local Abbreviation feed := (Pre.feed isTableTag isBlockTag).
Local Abbreviation run := (Pre.run isTableTag isBlockTag).

Lemma feed_restsInPre_machine (t : Token) (atStart : bool) p toks mw :
  endOfInput t = false ->
  atStart && isPreClose t = false ->
  (atStart = false -> toks = []) ->
  restsInPre (atStartAfter atStart t)
    (fst (feed (machine (stateAt atStart) None p toks None mw [] true) t))
  /\ snd (feed (machine (stateAt atStart) None p toks None mw [] true) t)
     ++ tokens (fst (feed (machine (stateAt atStart) None p toks None mw []
                             true) t))
     = toks ++ [t].
Proof.
  intros Heof Hclose Htoks. destruct atStart; cbn [stateAt andb] in *.
  - destruct (isInline t) eqn:Hin.
    + rewrite (feed_machine isTableTag isBlockTag t)
        by (assumption || discriminate).
      cbv zeta. unfold onAny_SOL.
      assert (Hip : inPreAfter true t = true).
      { unfold inPreAfter. rewrite Hclose. now destruct (isPreOpen t). }
      rewrite Hip.
      replace (inPre (machine STATE_SOL None p toks None mw [] true))
        with true by reflexivity.
      rewrite andb_false_r.
      assert (Hat : atStartAfter true t = isSolTransparent t)
        by (destruct t; try discriminate; reflexivity).
      rewrite Hat.
      destruct (isSolTransparent t).
      * cbn. split; [| reflexivity].
        eexists _, _, _. split; [reflexivity | discriminate].
      * cbn. split; [| now rewrite app_nil_r].
        eexists _, _, _. split; [reflexivity | reflexivity].
    + destruct t; try discriminate; cbn.
      split; [| now rewrite app_nil_r].
      eexists _, _, _. split; [reflexivity | discriminate].
  - rewrite (Htoks eq_refl).
    destruct t; try discriminate; cbn;
      (split; [| reflexivity]);
      eexists _, _, _; (split; [reflexivity |]);
      try discriminate; reflexivity.
Qed.

Lemma restsInPre_calm (atStart : bool) (h : PreHandler) :
  restsInPre atStart h -> calm h.
Proof.
  intros (p & toks & mw & Hq & Ht).
  exists (stateAt atStart), p, toks, mw, true. split; [exact Hq |].
  destruct atStart; [now left | right; split; [reflexivity | now apply Ht]].
Qed.

Lemma feed_restsInPre (h : PreHandler) (t : Token) (atStart : bool) :
  restsInPre atStart h ->
  endOfInput t = false ->
  atStart && isPreClose t = false ->
  restsInPre (atStartAfter atStart t) (fst (feed h t))
  /\ snd (feed h t) ++ tokens (fst (feed h t)) = tokens h ++ [t].
Proof.
  intros (p & toks & mw & Hq & Htoks) Heof Hclose.
  assert (Hm : quiet h
               = quiet (machine (stateAt atStart) None p toks None mw [] true))
    by (rewrite Hq; now destruct atStart).
  destruct (feed_alike isTableTag isBlockTag _ _ t Hm) as [Ha Ho].
  destruct (feed_restsInPre_machine t atStart p toks mw Heof Hclose Htoks)
    as [Hc Hout].
  rewrite (calm_tokens h _ _ _ _ _ Hq), Ho. split.
  - destruct Hc as (p' & toks' & mw' & Hq' & Ht').
    exists p', toks', mw'. split; [congruence | assumption].
  - rewrite <- Hout. f_equal.
    destruct (alike_fields _ _ Ha) as (_ & Ht & _). exact Ht.
Qed.

Lemma run_restsInPre (toks : list Token) :
  forall (h : PreHandler) (atStart : bool),
    restsInPre atStart h ->
    forallb (fun t => negb (endOfInput t)) toks = true ->
    closesPreAtStart atStart toks = false ->
    calm (fst (run h toks))
    /\ snd (run h toks) ++ tokens (fst (run h toks)) = tokens h ++ toks.
Proof.
  induction toks as [|t rest IH]; intros h atStart Hc Heof Hclose.
  - cbn. split; [now apply restsInPre_calm in Hc | now rewrite app_nil_r].
  - cbn [forallb] in Heof. apply andb_true_iff in Heof as [Ht Hrest].
    apply negb_true_iff in Ht.
    cbn [closesPreAtStart] in Hclose.
    apply orb_false_iff in Hclose as [Hnow Hlater].
    destruct (feed_restsInPre h t atStart Hc Ht Hnow) as [Hc1 Ho1].
    cbn [Pre.run]. destruct (feed h t) as [h1 o1]. cbn [fst snd] in *.
    destruct (IH h1 _ Hc1 Hrest Hlater) as [Hc2 Ho2].
    destruct (run h1 rest) as [h2 o2]. cbn [fst snd] in *.
    split; [assumption |].
    rewrite <- app_assoc, Ho2, app_assoc, Ho1, <- app_assoc. reflexivity.
Qed.

(** X16.  Inside an HTML [pre] no block is made.  After the start tag of an
    HTML [pre] at the start of the input, the handler sends on every token
    as it is, also the text that starts with a space, up to the end of
    input, as long as no end tag of an HTML [pre] comes at the start of a
    line.  An end tag that follows other content on its line does not end
    this: the handler is in [STATE_IGNORE] then and does not see it. *)
Theorem no_block_inside_html_pre :
  forall (c : ParsoidConf) (attribs : list KV) (da : DataAttribs)
         (toks : list Token),
    isPreOpen (TagTk "pre" attribs da) = true ->
    forallb (fun t => negb (endOfInput t)) toks = true ->
    closesPreAtStart false toks = false ->
    snd (run (PreHandler_new c false)
           (TagTk "pre" attribs da :: toks ++ [EOFTk]))
    = TagTk "pre" attribs da :: toks ++ [EOFTk].
Proof.
  intros c attribs da toks Hopen Heof Hclose.
  set (open := TagTk "pre" attribs da) in *.
  assert (Hfirst : restsInPre false (fst (feed (PreHandler_new c false) open))
                   /\ snd (feed (PreHandler_new c false) open) = [open]).
  { assert (Hm : quiet (PreHandler_new c false)
                 = quiet (machine STATE_SOL None 0 [] None None [] false))
      by reflexivity.
    destruct (feed_alike isTableTag isBlockTag _ _ open Hm) as [Ha Ho].
    rewrite Ho.
    rewrite (feed_machine isTableTag isBlockTag open) in Ha |- *
      by (reflexivity || discriminate).
    cbv zeta in Ha |- *. unfold onAny_SOL in Ha |- *.
    assert (Hip : inPreAfter false open = true)
      by (unfold inPreAfter; now rewrite Hopen).
    rewrite Hip in Ha |- *.
    cbn in Ha |- *. split; [| reflexivity].
    eexists _, _, _. split; [rewrite Ha; reflexivity | reflexivity]. }
  destruct Hfirst as [Hrest Hout].
  change (open :: toks ++ [EOFTk]) with ([open] ++ toks ++ [EOFTk]).
  rewrite !(run_app isTableTag isBlockTag).
  cbn [fst snd].
  assert (Hone : run (PreHandler_new c false) [open]
                 = (fst (feed (PreHandler_new c false) open), [open])).
  { cbn [Pre.run]. destruct (feed (PreHandler_new c false) open) as [h1 o1].
    cbn [fst snd] in *. now rewrite Hout, app_nil_r. }
  rewrite Hone. cbn [fst snd].
  set (h1 := fst (feed (PreHandler_new c false) open)) in *.
  destruct (run_restsInPre toks h1 false Hrest Heof Hclose) as [Hc Hconserve].
  assert (Hheld : tokens h1 = []).
  { destruct Hrest as (p & tk & mw & Hq & Ht).
    rewrite (calm_tokens h1 _ _ _ _ _ Hq). now apply Ht. }
  rewrite Hheld, app_nil_l in Hconserve.
  set (h2 := fst (run h1 toks)) in *.
  destruct (feed_calm isTableTag isBlockTag h2 EOFTk Hc eq_refl)
    as [_ Hlast].
  assert (W : wired h2).
  { apply (run_wired isTableTag isBlockTag).
    pose proof (feed_kept isTableTag isBlockTag (PreHandler_new c false) open
                  (PreHandler_new_wired c)) as [K _].
    exact (K (PreHandler_new_wired c)). }
  pose proof (feed_EOF_fresh isTableTag isBlockTag h2 c W) as E.
  assert (Hrun1 : run h2 [EOFTk] = (fst (feed h2 EOFTk), snd (feed h2 EOFTk))).
  { cbn [Pre.run]. destruct (feed h2 EOFTk) as [h3 o3]. cbn [fst snd].
    now rewrite app_nil_r. }
  rewrite Hrun1. cbn [snd].
  destruct (alike_fields _ _ E) as (_ & Ht & _).
  rewrite Ht in Hlast. change (tokens (PreHandler_new c false)) with (@nil Token) in Hlast.
  rewrite app_nil_r in Hlast.
  rewrite Hlast. cbn [app]. f_equal.
  rewrite <- Hconserve at 2. rewrite <- app_assoc. reflexivity.
Qed.
End InsidePre.

(** *** Dropped content *)

Section Dropping.
Import WS Frame Drop TokenMore.
Variable env : Env.

Lemma keeps_stays {A : Type} (m : M A) :
  keeps dropping m -> staysDropping m.
Proof. intros H w Hw. now rewrite H. Qed.

Lemma stays_bind {A B : Type} (m : M A) (f : A -> M B) :
  staysDropping m -> (forall a, staysDropping (f a)) ->
  staysDropping (bind m f).
Proof.
  intros Hm Hf w Hw. unfold bind. specialize (Hm w Hw).
  destruct (m w) as [[a|e] w1]; cbn [snd] in *; [now apply Hf | exact Hm].
Qed.

Lemma stays_set {A : Type} (a : A) :
  staysDropping (modifyState (set_dropContent true) ;;; ret a).
Proof. intros [p s] _. reflexivity. Qed.

Lemma serializeHTMLTag_keeps_dropping (token : Token) :
  keeps dropping (_serializeHTMLTag token).
Proof. unfold _serializeHTMLTag. keeps_tac. Qed.

Lemma linkHandler_stays (token : Token) :
  staysDropping (_linkHandler env token).
Proof.
  unfold _linkHandler.
  repeat match goal with
         | |- staysDropping (_serializeHTMLTag _) =>
             apply keeps_stays, serializeHTMLTag_keeps_dropping
         | |- staysDropping (modifyState (set_dropContent true) ;;; ret _) =>
             apply stays_set
         | |- staysDropping (ret _) => apply keeps_stays, keeps_ret
         | |- staysDropping (throw _) => apply keeps_stays, keeps_throw
         | |- staysDropping (bind _ _) =>
             apply stays_bind; [| intros ?]
         | |- staysDropping (modifyState (set_dropTail _)) =>
             apply keeps_stays; keeps_tac
         | |- staysDropping (if ?c then _ else _) => destruct c
         | |- staysDropping (match ?x with _ => _ end) => destruct x
         end.
Qed.

Lemma runHandle_stays (h : Handle) (token : Token) :
  h <> H_linkEnd -> h <> H_spanEnd ->
  staysDropping (runHandle env h token).
Proof.
  intros Hl Hs.
  destruct h; try (now elim Hl); try (now elim Hs);
    try (apply keeps_stays;
         unfold runHandle, _listHandler, _listEndHandler, _listItemHandler,
           _serializeHTMLTag, _serializeHTMLEndTag, setListStartsNewline,
           setItemStartsNewline, setCellStartsNewline, defined, warn;
         keeps_tac; fail).
  - cbn [runHandle].
    destruct (_ && _); [apply stays_set |].
    destruct (isStr _ _); [apply keeps_stays, keeps_ret |].
    apply keeps_stays, serializeHTMLTag_keeps_dropping.
  - apply linkHandler_stays.
Qed.

Lemma escapeWikiText_keeps_dropping (text : string) :
  keeps dropping (escapeWikiText env text).
Proof. unfold escapeWikiText. keeps_tac. Qed.

Ltac by_name name :=
  repeat match goal with
         | |- context [String.eqb name ?lit] =>
             destruct (String.eqb_spec name lit) as [->|?]
         end.

(** The handlers that end the dropping are those of the end tags of [a]
    and [span]. *)
Lemma handle_of_token (p : Proto) (s : State) (token : Token) :
  endsDropping token = false ->
  let d := descOf p (_getTokenHandler s token) in
  handle d <> Some H_linkEnd /\ handle d <> Some H_spanEnd.
Proof.
  intros Hend. unfold _getTokenHandler.
  destruct token as [name a da|name a da|name a da|text|value da|da|];
    cbn [tokenDA tokenName Pre.tagName endsDropping] in *.
  all: destruct (isStr (stx _) "html"); cbn [negb andb] in *;
    [split; discriminate |].
  all: unfold hasEntry, isInherited, tableNames, inheritedNames;
    cbn [existsb].
  all: try (by_name name; cbn [orb andb negb] in *; try discriminate;
            try (destruct (Nat.ltb 0 (singleLineMode s)));
            split; discriminate).
  all: cbn; split; discriminate.
Qed.

Lemma dispatchToken_stays (token : Token) :
  endsDropping token = false -> staysDropping (dispatchToken env token).
Proof.
  intros Hend. unfold dispatchToken.
  apply stays_bind; [apply keeps_stays; keeps_tac | intros _].
  apply stays_bind; [apply keeps_stays, keeps_getState | intros s].
  apply stays_bind; [apply keeps_stays, keeps_getProto | intros p].
  pose proof (handle_of_token p s token Hend) as [Hl Hs]. cbv zeta in Hl, Hs.
  destruct token as [name a da|name a da|name a da|text|value da|da|].
  - destruct (negb (ignore _)); [| apply keeps_stays, keeps_ret].
    apply stays_bind; [apply keeps_stays; keeps_tac | intros _].
    apply stays_bind; [| intros res; apply keeps_stays, keeps_ret].
    destruct (handle _) as [h|]; [| apply keeps_stays, keeps_ret].
    apply runHandle_stays; congruence.
  - destruct (negb (ignore _)); [| apply keeps_stays, keeps_ret].
    apply stays_bind; [apply keeps_stays; keeps_tac | intros _].
    apply stays_bind; [apply keeps_stays; keeps_tac | intros _].
    apply stays_bind; [| intros res; apply keeps_stays, keeps_ret].
    destruct (handle _) as [h|]; [| apply keeps_stays, keeps_ret].
    apply runHandle_stays; congruence.
  - destruct (negb (ignore _)); [| apply keeps_stays, keeps_ret].
    apply stays_bind; [apply keeps_stays; keeps_tac | intros _].
    apply stays_bind; [| intros res; apply keeps_stays, keeps_ret].
    destruct (handle _) as [h|]; [| apply keeps_stays, keeps_ret].
    apply runHandle_stays; congruence.
  - apply keeps_stays. keeps_tac; try apply escapeWikiText_keeps_dropping.
  - apply keeps_stays. keeps_tac.
  - apply keeps_stays. keeps_tac.
  - apply keeps_stays. unfold chunkCB. keeps_tac.
Qed.

(** X17.  While content is dropped, nothing is written.  A token that is
    serialized where [dropContent] is set, and that is neither the end of
    input nor the end tag of a link or span, leaves [dropContent] set and
    sends nothing to the sink, whether its handler returns or throws: the
    tokens between the start and the end of generated content run their
    handlers and leave no text. *)
Theorem dropped_content_is_not_sent :
  forall (token : Token) (w : World),
    dropContent (state w) = true ->
    endOfInput token = false ->
    endsDropping token = false ->
    dropContent (state (snd (_serializeToken env token w))) = true
    /\ chunks (state (snd (_serializeToken env token w))) = chunks (state w).
Proof.
  intros token w Hdrop Heof Hend.
  assert (Hne : token <> EOFTk) by (intros ->; discriminate).
  pose proof (dispatchToken_stays token Hend w Hdrop) as Hstay.
  pose proof (dispatchToken_sends env token Hne w) as (sent & Hsent & Hlen).
  destruct sent; [| cbn in Hlen; lia]. rewrite app_nil_r in Hsent.
  assert (Hrun : snd (_serializeToken env token w)
                 = snd (dispatchToken env token w)).
  { unfold _serializeToken, bind, getState.
    destruct (dispatchToken env token w) as [[[handler res]|e] w1];
      cbn [snd] in *; [| reflexivity].
    unfold dropping in Hstay. rewrite Hdrop, Hstay. reflexivity. }
  rewrite Hrun. split; assumption.
Qed.
End Dropping.

(** *** The flags that handlers write *)

Section FlagsDoNotLeak.
Import WS Flags.
Variable env : Env.

Lemma agree_refl (w : World) : agree w w.
Proof. split; reflexivity. Qed.

Lemma sim_weaken {A : Type} (P P' : Proto -> Proto -> Prop)
    (Q Q' : A -> Proto -> Proto -> Prop) (m1 m2 : M A) :
  (forall p1 p2, P' p1 p2 -> P p1 p2) ->
  (forall a p1 p2, Q a p1 p2 -> Q' a p1 p2) ->
  sim P Q m1 m2 -> sim P' Q' m1 m2.
Proof.
  intros HP HQ H w1 w2 Ha Hp.
  destruct (H w1 w2 Ha (HP _ _ Hp)) as (Hr & Hag & Hq).
  repeat split; try assumption; try apply Hag.
  intros a Hok. apply HQ, Hq, Hok.
Qed.

Lemma sim_bind {A B : Type} (P : Proto -> Proto -> Prop)
    (Q : A -> Proto -> Proto -> Prop) (S : B -> Proto -> Proto -> Prop)
    (m1 m2 : M A) (f1 f2 : A -> M B) :
  sim P Q m1 m2 ->
  (forall a, sim (Q a) S (f1 a) (f2 a)) ->
  sim P S (bind m1 f1) (bind m2 f2).
Proof.
  intros Hm Hf w1 w2 Ha Hp. unfold bind.
  destruct (Hm w1 w2 Ha Hp) as (Hr & Hag & Hq).
  destruct (m1 w1) as [[a|e] w1'], (m2 w2) as [[a'|e'] w2'];
    cbn [fst snd] in *; try discriminate.
  - injection Hr as <-. apply (Hf a); [assumption | now apply Hq].
  - injection Hr as <-. repeat split; try apply Hag. intros b [=].
Qed.

Lemma sim_throw {A : Type} (P : Proto -> Proto -> Prop)
    (Q : A -> Proto -> Proto -> Prop) (e : Exn) :
  sim P Q (throw e) (throw e).
Proof. intros w1 w2 Ha Hp. cbn. repeat split; try apply Ha. intros a [=]. Qed.

Lemma sim_ret {A : Type} (P : Proto -> Proto -> Prop)
    (Q : A -> Proto -> Proto -> Prop) (a : A) :
  (forall p1 p2, P p1 p2 -> Q a p1 p2) -> sim P Q (ret a) (ret a).
Proof.
  intros H w1 w2 Ha Hp. cbn. repeat split; try apply Ha.
  intros a' [= <-]. now apply H.
Qed.

Lemma sim_getState_bind {B : Type} (P : Proto -> Proto -> Prop)
    (Q : B -> Proto -> Proto -> Prop) (f : State -> M B) :
  (forall s, sim P Q (f s) (f s)) ->
  sim P Q (bind getState f) (bind getState f).
Proof.
  intros Hf w1 w2 Ha Hp. unfold bind, getState.
  destruct Ha as [Hs Hl]. rewrite Hs. apply Hf; [now split | assumption].
Qed.

(** Computations that keep a relation [I] on the flags. *)
Section Invariant.
Variable I : Proto -> Proto -> Prop.

Lemma keepsRel_ret {A : Type} (a : A) : keepsRel I (ret a).
Proof. intros w1 w2 Ha Hp. cbn. repeat split; try apply Ha. now intros. Qed.

Lemma keepsRel_throw {A : Type} (e : Exn) : keepsRel I (@throw A e).
Proof. intros w1 w2 Ha Hp. cbn. repeat split; try apply Ha. now intros. Qed.

Lemma keepsRel_bind {A B : Type} (m : M A) (f : A -> M B) :
  keepsRel I m -> (forall a, keepsRel I (f a)) -> keepsRel I (bind m f).
Proof. intros Hm Hf. apply (sim_bind I (fun _ => I)); assumption. Qed.

Lemma keepsRel_getState_bind {B : Type} (f : State -> M B) :
  (forall s, keepsRel I (f s)) -> keepsRel I (bind getState f).
Proof.
  intros Hf w1 w2 Ha Hp. unfold bind, getState.
  destruct Ha as [Hs Hl]. rewrite Hs. apply Hf; [now split | assumption].
Qed.

Lemma keepsRel_modifyState (f : State -> State) : keepsRel I (modifyState f).
Proof.
  intros [p1 s1] [p2 s2] [Hs Hl] Hp. cbn in *. subst s2.
  repeat split; try assumption. now intros.
Qed.

Lemma keepsRel_when (c : bool) (m : M unit) :
  keepsRel I m -> keepsRel I (when c m).
Proof. intros H. destruct c; [exact H | apply keepsRel_ret]. Qed.

Lemma keepsRel_modifyProto (g : Proto -> Proto) :
  (forall p1 p2, listStack p1 = listStack p2 -> I p1 p2 ->
                 listStack (g p1) = listStack (g p2) /\ I (g p1) (g p2)) ->
  keepsRel I (modifyProto g).
Proof.
  intros Hg [p1 s1] [p2 s2] [Hs Hl] Hp. cbn in *.
  destruct (Hg p1 p2 Hl Hp) as [Hl' Hp'].
  repeat split; try assumption. now intros.
Qed.

(** After [getProto] the two runs go on with two prototype objects. *)
Lemma sim_getProto_bind {B : Type} (Q : B -> Proto -> Proto -> Prop)
    (f : Proto -> M B) :
  (forall p1 p2, listStack p1 = listStack p2 -> I p1 p2 ->
                 sim I Q (f p1) (f p2)) ->
  sim I Q (bind getProto f) (bind getProto f).
Proof.
  intros Hf w1 w2 Ha Hp. unfold bind, getProto.
  apply (Hf (proto w1) (proto w2)); try assumption. apply Ha.
Qed.
End Invariant.

Ltac as_keepsRel :=
  match goal with
  | |- sim ?I (fun _ => ?I) ?m ?m => change (keepsRel I m)
  | |- keepsRel _ _ => idtac
  end.

Ltac rel_step :=
  as_keepsRel;
  first
    [ apply keepsRel_ret | apply keepsRel_throw
    | apply keepsRel_getState_bind; intros ?
    | apply keepsRel_bind; [| intros ?]
    | apply keepsRel_when
    | apply keepsRel_modifyState
    | match goal with
      | |- keepsRel _ (if ?c then _ else _) => destruct c
      | |- keepsRel _ (match ?x with _ => _ end) => destruct x
      end ].

Ltac rel_tac := repeat rel_step.

Lemma keepsRel_escapeWikiText I (text : string) :
  keepsRel I (escapeWikiText env text).
Proof. unfold escapeWikiText. rel_tac. Qed.

Lemma keepsRel_stripNewlines I (res : string) :
  keepsRel I (stripNewlines res).
Proof. unfold stripNewlines. rel_tac. Qed.

Lemma keepsRel_serializeHTMLTag I (token : Token) :
  keepsRel I (_serializeHTMLTag token).
Proof. unfold _serializeHTMLTag. rel_tac. Qed.

Lemma keepsRel_serializeHTMLEndTag I (token : Token) :
  keepsRel I (_serializeHTMLEndTag token).
Proof. unfold _serializeHTMLEndTag. rel_tac. Qed.

Lemma keepsRel_linkHandler I (token : Token) :
  keepsRel I (_linkHandler env token).
Proof.
  unfold _linkHandler. rel_tac; apply keepsRel_serializeHTMLTag.
Qed.

Lemma keepsRel_linkEndHandler I (token : Token) :
  keepsRel I (_linkEndHandler env token).
Proof.
  unfold _linkEndHandler. rel_tac; apply keepsRel_serializeHTMLEndTag.
Qed.

(** A write to the prototype object that makes [Q] hold. *)
Lemma sim_modifyProto (P Q : Proto -> Proto -> Prop) (g : Proto -> Proto) :
  (forall p1 p2, listStack p1 = listStack p2 -> P p1 p2 ->
                 listStack (g p1) = listStack (g p2) /\ Q (g p1) (g p2)) ->
  sim P (fun _ => Q) (modifyProto g) (modifyProto g).
Proof.
  intros Hg [p1 s1] [p2 s2] [Hs Hl] Hp. cbn in *.
  destruct (Hg p1 p2 Hl Hp) as [Hl' Hq].
  repeat split; try assumption. now intros.
Qed.

Lemma sim_then_ret {A : Type} (P Q : Proto -> Proto -> Prop) (m : M unit)
    (a : A) :
  sim P (fun _ => Q) m m -> sim P (fun _ => Q) (m ;;; ret a) (m ;;; ret a).
Proof.
  intros H. apply (sim_bind P (fun _ => Q)); [exact H | intros _].
  apply keepsRel_ret.
Qed.

Lemma setList_sim (tag : ListTag) (bullet : string) (b : bool) :
  sim anyFlags (fun _ => writtenBy (H_list tag bullet))
    (setListStartsNewline tag b) (setListStartsNewline tag b).
Proof.
  apply sim_modifyProto. intros [] [] Hl _.
  destruct tag; cbn in *; split; (assumption || reflexivity).
Qed.

Lemma setItem_sim (tag : ItemTag) (bullet : string) (b : bool) :
  sim anyFlags (fun _ => writtenBy (H_listItem tag bullet))
    (setItemStartsNewline tag b) (setItemStartsNewline tag b).
Proof.
  apply sim_modifyProto. intros [] [] Hl _.
  destruct tag; cbn in *; split; (assumption || reflexivity).
Qed.

Lemma setCell_sim (tag : CellTag) (a b : string) (flag : bool) :
  sim anyFlags (fun _ => writtenBy (H_cell tag a b))
    (setCellStartsNewline tag flag) (setCellStartsNewline tag flag).
Proof.
  apply sim_modifyProto. intros [] [] Hl _.
  destruct tag; cbn in *; split; (assumption || reflexivity).
Qed.

Lemma keepsRel_listStack (h : Handle)
    (g : list ListCtx -> list ListCtx) :
  keepsRel (writtenBy h)
    (modifyProto (fun w => set_listStack (g (listStack w)) w)).
Proof.
  apply keepsRel_modifyProto. intros [] [] Hl Hw. cbn in *.
  split; [now rewrite Hl |].
  destruct h; try exact I;
    repeat match goal with
           | t : ListTag |- _ => destruct t
           | t : ItemTag |- _ => destruct t
           | t : CellTag |- _ => destruct t
           end; exact Hw.
Qed.

Lemma keepsRel_listStack_any (g : list ListCtx -> list ListCtx) :
  keepsRel anyFlags
    (modifyProto (fun w => set_listStack (g (listStack w)) w)).
Proof.
  apply keepsRel_modifyProto. intros [] [] Hl _. cbn in *.
  split; [now rewrite Hl | exact Logic.I].
Qed.

Lemma listHandler_sim (tag : ListTag) (bullet : string) (token : Token) :
  sim anyFlags (fun _ => writtenBy (H_list tag bullet))
    (_listHandler tag bullet token) (_listHandler tag bullet token).
Proof.
  unfold _listHandler.
  apply sim_getState_bind; intros s.
  apply (sim_bind anyFlags (fun _ => anyFlags)); [rel_tac | intros _].
  apply sim_getProto_bind. intros p1 p2 Hl _. rewrite Hl.
  apply (sim_bind anyFlags (fun _ => writtenBy (H_list tag bullet))).
  - destruct (lastCtx (listStack p2)) as [curList|].
    + apply (sim_bind anyFlags (fun _ => anyFlags));
        [apply (keepsRel_listStack_any
                  (updateLast (fun c => mkListCtx (S (itemCount c))
                                          (bullets c) (itemBullet c))))
        | intros _].
      apply (sim_bind anyFlags (fun _ => anyFlags));
        [unfold defined; rel_tac | intros nested].
      destruct nested; apply sim_then_ret, setList_sim.
    + apply sim_then_ret, setList_sim.
  - intros [bulletsNow res].
    apply keepsRel_bind; [| intros _; apply keepsRel_ret].
    apply (keepsRel_listStack (H_list tag bullet)
             (fun l => l ++ [mkListCtx 0 bulletsNow ""])).
Qed.

Lemma listItemHandler_sim (tag : ItemTag) (bullet : string) (token : Token) :
  sim anyFlags (fun _ => writtenBy (H_listItem tag bullet))
    (_listItemHandler tag bullet token) (_listItemHandler tag bullet token).
Proof.
  unfold _listItemHandler.
  apply sim_getProto_bind. intros p1 p2 Hl _. rewrite Hl.
  destruct (lastCtx (listStack p2)) as [curList|]; [| apply sim_throw].
  apply (sim_bind anyFlags (fun _ => anyFlags));
    [apply (keepsRel_listStack_any
              (updateLast (fun c => mkListCtx (S (itemCount c))
                                      (bullets c) bullet)))
    | intros _].
  apply sim_getState_bind; intros s.
  apply (sim_bind anyFlags (fun _ => anyFlags));
    [unfold defined; rel_tac | intros prefixed].
  destruct prefixed; apply sim_then_ret, setItem_sim.
Qed.

Lemma keepsRel_sim {A : Type} (Q : Proto -> Proto -> Prop) (m : M A) :
  (forall p1 p2, Q p1 p2) -> keepsRel anyFlags m ->
  sim anyFlags (fun _ => Q) m m.
Proof.
  intros HQ H. apply (sim_weaken anyFlags _ (fun _ => anyFlags));
    [now intros | intros; apply HQ | exact H].
Qed.

Lemma runHandle_sim (h : Handle) (token : Token) :
  sim anyFlags (fun _ => writtenBy h)
    (runHandle env h token) (runHandle env h token).
Proof.
  destruct h; cbn [runHandle];
    try (apply keepsRel_sim; [intros; exact Logic.I |];
         unfold defined, warn; rel_tac;
         first [ apply keepsRel_linkHandler | apply keepsRel_linkEndHandler
               | apply keepsRel_serializeHTMLTag
               | apply keepsRel_serializeHTMLEndTag ]; fail).
  - apply listHandler_sim.
  - apply keepsRel_sim; [intros; exact Logic.I |].
    unfold _listEndHandler.
    apply keepsRel_bind; [| intros _; apply keepsRel_ret].
    apply (keepsRel_listStack_any (@removelast ListCtx)).
  - apply listItemHandler_sim.
  - apply sim_getState_bind; intros s. apply sim_then_ret.
    apply sim_modifyProto. intros [] [] Hl _. cbn in *.
    split; [assumption | reflexivity].
  - destruct (isStr _ _); apply sim_then_ret, setCell_sim.
  - set (argDict := KVtoHash env (tokenAttribs token)).
    destruct (isStr (argDict !! "typeof") "mw:tag").
    { apply (sim_bind anyFlags (fun _ => writtenBy H_meta)).
      - apply sim_modifyProto. intros [] [] Hl _. cbn in *.
        split; [assumption | reflexivity].
      - intros _. unfold warn. rel_tac. }
    destruct (isStr (argDict !! "typeof") "mw:noinclude").
    { apply (sim_bind anyFlags (fun _ => writtenBy H_meta)).
      - apply sim_modifyProto. intros [] [] Hl _. cbn in *.
        split; [assumption | reflexivity].
      - intros _. rel_tac. }
    apply (sim_bind anyFlags (fun _ => writtenBy H_meta)).
    + apply sim_modifyProto. intros [] [] Hl _. cbn in *.
      split; [assumption | reflexivity].
    + intros _. apply keepsRel_serializeHTMLTag.
Qed.

Lemma table_miss (name : string) :
  hasEntry name = false ->
  forall p, tableStart p name = None /\ tableEnd p name = None.
Proof.
  unfold hasEntry, tableNames. cbn [existsb]. intros H p.
  repeat (apply orb_false_iff in H; destruct H as [?H H]).
  unfold tableStart, tableEnd.
  repeat match goal with
         | Hx : String.eqb name _ = false |- _ => rewrite Hx; clear Hx
         end.
  cbn. split; reflexivity.
Qed.

(** The descriptors of the table, name by name.  What [dispatchToken]
    reads of a descriptor before the handler runs does not depend on the
    flags; a descriptor whose handler has written its flag, or that has no
    handler, is the same in both; so is one that is ignored. *)
Lemma descOf_facts (handler : Handler) (p q1 q2 : Proto) :
  (ignore (descOf q1 handler) = ignore (descOf q2 handler)
   /\ handle (descOf q1 handler) = handle (descOf q2 handler)
   /\ singleLine (descOf q1 handler) = singleLine (descOf q2 handler))
  /\ ((forall h, handle (descOf p handler) = Some h -> writtenBy h q1 q2) ->
      sameDesc handler q1 q2)
  /\ (ignore (descOf q1 handler) = true -> sameDesc handler q1 q2).
Proof.
  unfold sameDesc.
  destruct handler as [| |[|name|] [|]]; cbn [descOf].
  1-4, 7-8: (repeat split; reflexivity).
  all: destruct (hasEntry name) eqn:Hentry;
    [| destruct (table_miss name Hentry p) as [Hp1 Hp2];
       destruct (table_miss name Hentry q1) as [H11 H12];
       destruct (table_miss name Hentry q2) as [H21 H22];
       rewrite ?Hp1, ?Hp2, ?H11, ?H12, ?H21, ?H22;
       repeat split; reflexivity].
  all: unfold hasEntry in Hentry; apply existsb_exists in Hentry;
    destruct Hentry as (lit & Hin & Heq); apply String.eqb_eq in Heq;
    subst lit; unfold tableNames in Hin; cbn [In] in Hin.
  all: repeat (destruct Hin as [<- | Hin];
               [ cbn; repeat split; try reflexivity; try discriminate;
                 intros H; specialize (H _ eq_refl); cbn in H; rewrite H;
                 reflexivity
               | ]).
  all: contradiction.
Qed.

Lemma dispatchToken_sim (token : Token) :
  sim anyFlags (fun found => sameDesc (fst found))
    (dispatchToken env token) (dispatchToken env token).
Proof.
  unfold dispatchToken.
  apply (sim_bind anyFlags (fun _ => anyFlags)); [rel_tac | intros _].
  apply sim_getState_bind; intros s.
  apply sim_getProto_bind. intros p1 p2 Hl _.
  assert (Htag :
    forall tk : Token,
      sim anyFlags (fun found => sameDesc (fst found))
        (res <- match handle (descOf p2 (_getTokenHandler s tk)) with
                | Some h => runHandle env h token
                | None => ret ""
                end ;; ret (_getTokenHandler s tk, res))
        (res <- match handle (descOf p2 (_getTokenHandler s tk)) with
                | Some h => runHandle env h token
                | None => ret ""
                end ;; ret (_getTokenHandler s tk, res))).
  { intros tk.
    apply (sim_bind anyFlags
             (fun _ => sameDesc (_getTokenHandler s tk))).
    - destruct (handle (descOf p2 (_getTokenHandler s tk))) as [h|] eqn:Hh.
      + apply (sim_weaken anyFlags _ (fun _ => writtenBy h));
          [now intros | | apply runHandle_sim].
        intros _ q1 q2 Hw.
        apply (proj1 (proj2 (descOf_facts _ p2 q1 q2))).
        intros h' Hh'. congruence.
      + apply sim_ret. intros q1 q2 _.
        apply (proj1 (proj2 (descOf_facts _ p2 q1 q2))).
        intros h' Hh'. congruence.
    - intros res. apply sim_ret. now intros. }
  assert (Hskip :
    forall (handler : Handler),
      ignore (descOf p2 handler) = true ->
      sim anyFlags (fun found => sameDesc (fst found))
        (ret (handler, "")) (ret (handler, ""))).
  { intros handler Hig. apply sim_ret. intros q1 q2 _. cbn [fst].
    apply (proj2 (proj2 (descOf_facts handler p2 q1 q2))).
    destruct (descOf_facts handler p2 q1 p2) as ((-> & _) & _). exact Hig. }
  assert (Hnone :
    forall (res : string),
      sim anyFlags (fun found => sameDesc (fst found))
        (ret (NoHandler, res)) (ret (NoHandler, res))).
  { intros res. apply sim_ret. intros q1 q2 _. reflexivity. }
  destruct token as [name a da|name a da|name a da|text|value da|da|].
  - destruct (descOf_facts (_getTokenHandler s (TagTk name a da)) p2 p1 p2)
      as ((-> & -> & _) & _).
    destruct (ignore _) eqn:Hig; cbn [negb]; [now apply Hskip |].
    apply (sim_bind anyFlags (fun _ => anyFlags)); [rel_tac | intros _].
    apply Htag.
  - destruct (descOf_facts (_getTokenHandler s (EndTagTk name a da)) p2 p1 p2)
      as ((-> & -> & ->) & _).
    destruct (ignore _) eqn:Hig; cbn [negb]; [now apply Hskip |].
    apply (sim_bind anyFlags (fun _ => anyFlags)); [rel_tac | intros _].
    apply (sim_bind anyFlags (fun _ => anyFlags)); [rel_tac | intros _].
    apply Htag.
  - destruct (descOf_facts (_getTokenHandler s (SelfclosingTagTk name a da))
                p2 p1 p2) as ((-> & -> & _) & _).
    destruct (ignore _) eqn:Hig; cbn [negb]; [now apply Hskip |].
    apply (sim_bind anyFlags (fun _ => anyFlags)); [rel_tac | intros _].
    apply Htag.
  - apply (sim_bind anyFlags (fun _ => anyFlags));
      [| intros res; apply Hnone].
    destruct (inNoWiki s || inHTMLPre s);
      [apply keepsRel_ret | apply keepsRel_escapeWikiText].
  - apply sim_ret. intros q1 q2 _. reflexivity.
  - apply Hnone.
  - apply (sim_bind anyFlags (fun _ => anyFlags));
      [unfold chunkCB; rel_tac | intros _; apply Hnone].
Qed.

Lemma emitText_sim (handler : Handler) (res : string) (n : nat) :
  keepsRel (sameDesc handler) (emitText handler res n).
Proof.
  unfold emitText.
  apply keepsRel_getState_bind; intros s.
  apply sim_getProto_bind. intros p1 p2 Hl Hd. unfold sameDesc in Hd.
  cbv zeta. rewrite Hd. unfold chunkCB. rel_tac.
Qed.

Lemma afterHandler_sim (handler : Handler) (token : Token) (res : string) :
  keepsRel (sameDesc handler) (afterHandler env handler token res).
Proof.
  unfold afterHandler.
  apply keepsRel_bind; [apply keepsRel_stripNewlines | intros [body n]].
  apply sim_getProto_bind. intros p1 p2 Hl Hd. unfold sameDesc in Hd.
  rewrite Hd. unfold separatePair, warn.
  repeat first [apply emitText_sim | rel_step].
Qed.

Lemma serializeToken_sim (token : Token) :
  keepsRel anyFlags (_serializeToken env token).
Proof.
  unfold _serializeToken.
  apply keepsRel_getState_bind; intros s0.
  apply (sim_bind anyFlags (fun found => sameDesc (fst found)));
    [apply dispatchToken_sim | intros [handler res]]. cbn [fst].
  apply (sim_weaken (sameDesc handler) _ (fun _ => sameDesc handler));
    [now intros | now intros |].
  apply keepsRel_getState_bind; intros s.
  destruct (negb (dropContent s0) || negb (dropContent s));
    [apply afterHandler_sim | apply keepsRel_ret].
Qed.

Lemma serializeEach_sim (toks : list Token) :
  keepsRel anyFlags (serializeEach env toks).
Proof.
  induction toks as [|t rest IH]; cbn [serializeEach];
    [apply keepsRel_ret |].
  apply keepsRel_bind; [apply serializeToken_sim | intros _; exact IH].
Qed.

Lemma serializeDOM_walk_sim :
  forall node : Node, keepsRel anyFlags (_serializeDOM env node).
Proof.
  fix IH 1. intros [nodeName attributes children|data|data|nodeType].
  - cbn [_serializeDOM].
    apply keepsRel_bind; [unfold _getDOMRTInfo; rel_tac | intros da].
    apply keepsRel_bind; [apply serializeToken_sim | intros _].
    apply keepsRel_bind; [| intros _; apply serializeToken_sim].
    clear -IH. induction children as [|child rest IHrest].
    + apply keepsRel_ret.
    + apply keepsRel_bind; [apply IH | intros _; apply IHrest].
  - apply serializeToken_sim.
  - cbn [_serializeDOM]. apply keepsRel_getState_bind; intros s.
    apply keepsRel_bind; [apply keepsRel_modifyState | intros _].
    apply keepsRel_bind; [apply serializeToken_sim | intros _].
    apply keepsRel_modifyState.
  - cbn [_serializeDOM]. unfold warn. apply keepsRel_modifyState.
Qed.

(** X18.  The flags that handlers write to their descriptors in the
    prototype object ([startsNewline] of the lists, list items, table
    cells and of the end of a table, [newlineTransparent] of [meta]) do not
    pass from one call to the next: every handler writes its flag before
    the flag is read.  Calls of [serializeDOM], and of [serializeTokens],
    on two prototype objects with the same list stack return the same,
    send the same chunks, write the same to the console and leave the same
    list stack; the console of [serializeTokens] is that of the loop over
    the tokens that it runs, [serializeEach]. *)
Theorem handler_flags_do_not_pass_between_calls :
  forall (w1 w2 : Proto) (node : Node) (toks : list Token),
    listStack w1 = listStack w2 ->
    (wikitext (serializeDOM env w1 node) = wikitext (serializeDOM env w2 node)
     /\ sunk (serializeDOM env w1 node) = sunk (serializeDOM env w2 node)
     /\ warned (serializeDOM env w1 node) = warned (serializeDOM env w2 node)
     /\ listStack (protoAfter (serializeDOM env w1 node))
        = listStack (protoAfter (serializeDOM env w2 node)))
    /\ fst (serializeTokens env w1 toks) = fst (serializeTokens env w2 toks)
    /\ listStack (snd (serializeTokens env w1 toks))
       = listStack (snd (serializeTokens env w2 toks))
    /\ console (state (snd (serializeEach env toks (newWorld w1))))
       = console (state (snd (serializeEach env toks (newWorld w2)))).
Proof.
  intros w1 w2 node toks Hl.
  assert (Ha : agree (newWorld w1) (newWorld w2)) by (split; [reflexivity | exact Hl]).
  split.
  - assert (Hm : keepsRel anyFlags
                   (_serializeDOM env node ;;; _serializeToken env EOFTk)).
    { apply keepsRel_bind; [apply serializeDOM_walk_sim | intros _].
      apply serializeToken_sim. }
    destruct (Hm _ _ Ha Logic.I) as (Hr & [Hs Hls] & _).
    unfold serializeDOM.
    destruct ((_serializeDOM env node ;;; _serializeToken env EOFTk)
                (newWorld w1)) as [[[]|e1] v1],
             ((_serializeDOM env node ;;; _serializeToken env EOFTk)
                (newWorld w2)) as [[[]|e2] v2];
      cbn [fst snd] in *; try discriminate;
      cbn [wikitext sunk warned protoAfter]; rewrite Hs;
      repeat split; try assumption; try congruence.
  - destruct (serializeEach_sim toks _ _ Ha Logic.I) as (Hr & [Hs Hls] & _).
    unfold serializeTokens.
    destruct (serializeEach env toks (newWorld w1)) as [[[]|e1] v1],
             (serializeEach env toks (newWorld w2)) as [[[]|e2] v2];
      cbn [fst snd] in *; try discriminate; rewrite ?Hs;
      repeat split; try assumption; try congruence.
Qed.
End FlagsDoNotLeak.

(** ** Properties of the earlier variant of the pre handler *)

Section OldPre.
Import PreOld PreOldSpec.
Variable isBlockTag : string -> bool.
Local Abbreviation onAny := (PreOld.onAny isBlockTag).
Local Abbreviation feed := (PreOld.feed isBlockTag).
Local Abbreviation run := (PreOld.run isBlockTag).

Lemma old_run_app (a b : list Token) (h : PreHandler) :
  run h (a ++ b)
  = (fst (run (fst (run h a)) b), snd (run h a) ++ snd (run (fst (run h a)) b)).
Proof.
  revert h. induction a as [|t a IH]; intros h; cbn [app PreOld.run].
  - cbn. now destruct (run h b).
  - destruct (feed h t) as [h1 o1]. rewrite IH.
    destruct (run h1 a) as [h2 o2]. cbn [fst snd].
    destruct (run h2 b) as [h3 o3]. cbn [fst snd].
    now rewrite app_assoc.
Qed.

Ltac old_fields h :=
  destruct h as [nt et at_ st lN ln toks sol con].

(** Every transform keeps [sound]. *)
Lemma old_feed_sound (h : PreHandler) (t : Token) :
  sound h -> sound (fst (feed h t)).
Proof.
  intros (Hn & He & Ha & Hst). old_fields h. cbn in Hn, He, Ha, Hst.
  subst nt et at_.
  destruct st, t; cbn in Hst |- *;
    repeat match goal with
           | H : _ /\ _ |- _ => destruct H
           end; subst;
    unfold PreOld.feed, PreOld.onAny, PreOld.onNewline, PreOld.onEnd,
      getResultAndReset, processPre, popLastNL, moveToIgnoreState, init;
    cbn;
    repeat match goal with
           | |- context [if ?c then _ else _] => destruct c; cbn
           | |- context [match ?x with _ => _ end] =>
               is_var x; destruct x; cbn
           end;
    unfold sound; cbn; repeat split;
      try congruence; try discriminate;
      try (intros Hnil; apply app_eq_nil in Hnil as [_ Hnil]; discriminate);
      try (intros Hnil; now apply app_eq_nil in Hnil as [Hnil _]).
Qed.

Lemma old_run_sound (toks : list Token) :
  forall h, sound h -> sound (fst (run h toks)).
Proof.
  induction toks as [|t rest IH]; intros h Hs; [exact Hs |].
  cbn [PreOld.run]. pose proof (old_feed_sound h t Hs) as H1.
  destruct (feed h t) as [h1 o1]. cbn [fst] in *.
  specialize (IH h1 H1). destruct (run h1 rest) as [h2 o2]. exact IH.
Qed.

(** X19.  The earlier variant of the handler holds a newline back in
    [STATE_MULTILINE_PRE] and in no other state, and it holds tokens of a
    block whenever it collects or is in [STATE_MULTILINE_PRE], after every
    stream.  So [init], which does not clear [lastNlTk] (it writes
    [lastNLTk]), never leaves a newline behind, and [processPre] is never
    asked for a block when there are no tokens, where it would drop the
    newline. *)
Theorem old_handler_holds_newline_in_multiline_pre_only :
  forall toks : list Token,
    let h := fst (run PreHandler_new toks) in
    (lastNlTk h <> None <-> state h = Pre.STATE_MULTILINE_PRE)
    /\ (state h = Pre.STATE_PRE_COLLECT \/ state h = Pre.STATE_MULTILINE_PRE ->
        tokens h <> [])
    /\ (anyTransform h = false <-> state h = Pre.STATE_IGNORE).
Proof.
  intros toks h.
  assert (Hs : sound h).
  { apply old_run_sound. unfold sound. cbn. repeat split. }
  destruct Hs as (_ & _ & Ha & Hst).
  destruct (state h) eqn:E; repeat split; intros;
    repeat match goal with
           | H : _ /\ _ |- _ => destruct H
           | H : _ \/ _ |- _ => destruct H
           end;
    try congruence; try discriminate; try tauto.
Qed.

(** The handler at the start of a line, or in [STATE_IGNORE], fed a token
    that is no text starting with white-space. *)
Lemma old_feed_rest (t : Token) (st : Pre.State) (toks : list Token) :
  startsWithWhitespace t = false ->
  (st = Pre.STATE_SOL \/ (st = Pre.STATE_IGNORE /\ toks = [])) ->
  exists st' toks' out,
    feed (machine st None toks []) t = (machine st' None toks' [], out)
    /\ (st' = Pre.STATE_SOL \/ (st' = Pre.STATE_IGNORE /\ toks' = []))
    /\ out ++ toks' = toks ++ [t].
Proof.
  intros Hws [-> | [-> ->]].
  - destruct (isSolTransparent t) eqn:Hsol.
    + exists Pre.STATE_SOL, (toks ++ [t]), [].
      destruct t; try discriminate; cbn in Hws, Hsol |- *;
        unfold PreOld.feed, PreOld.onAny; cbn;
        rewrite ?Hws, ?Hsol; cbn;
        (split; [reflexivity | split; [now left | reflexivity]]).
    + destruct t; cbn in Hws, Hsol |- *; try discriminate;
        unfold PreOld.feed, PreOld.onAny, PreOld.onNewline,
          getResultAndReset, popLastNL, moveToIgnoreState, init; cbn;
        rewrite ?Hws, ?Hsol; cbn;
        first
          [ exists Pre.STATE_IGNORE, []; eexists; split;
            [reflexivity | split; [now right | now rewrite app_nil_r]]
          | exists Pre.STATE_SOL, []; eexists; split;
            [reflexivity | split; [now left | now rewrite app_nil_r]] ].
  - destruct t; cbn;
      first
        [ exists Pre.STATE_IGNORE, []; eexists; split;
          [reflexivity | split; [now right | reflexivity]]
        | exists Pre.STATE_SOL, []; eexists; split;
          [reflexivity | split; [now left | reflexivity]] ].
Qed.

Lemma old_run_rest (toks : list Token) :
  forall (st : Pre.State) (held : list Token),
    forallb (fun t => negb (startsWithWhitespace t)) toks = true ->
    (st = Pre.STATE_SOL \/ (st = Pre.STATE_IGNORE /\ held = [])) ->
    exists st' held',
      fst (run (machine st None held []) toks) = machine st' None held' []
      /\ (st' = Pre.STATE_SOL \/ (st' = Pre.STATE_IGNORE /\ held' = []))
      /\ snd (run (machine st None held []) toks) ++ held' = held ++ toks.
Proof.
  induction toks as [|t rest IH]; intros st held Hws Hst.
  - exists st, held. cbn. rewrite app_nil_r. repeat split; assumption.
  - cbn [forallb] in Hws. apply andb_true_iff in Hws as [Ht Hrest].
    apply negb_true_iff in Ht.
    destruct (old_feed_rest t st held Ht Hst)
      as (st1 & held1 & o1 & Hf & Hst1 & Ho).
    cbn [PreOld.run]. rewrite Hf.
    destruct (IH st1 held1 Hrest Hst1) as (st2 & held2 & Hh & Hst2 & Ho2).
    destruct (run (machine st1 None held1 []) rest) as [h2 o2].
    cbn [fst snd] in *. exists st2, held2. repeat split; try assumption.
    rewrite <- app_assoc, Ho2, app_assoc, Ho, <- app_assoc. reflexivity.
Qed.

(** X20.  A stream in which no text starts with white-space goes through
    the earlier variant of the handler as it is: it has sent on all the
    tokens but the sol-transparent ones of the line it is in, which it
    holds in [tokens], and with the end of input it has sent on them
    all. *)
Theorem old_stream_without_indent_is_unchanged :
  forall toks : list Token,
    forallb (fun t => negb (startsWithWhitespace t)) toks = true ->
    snd (run PreHandler_new toks) ++ tokens (fst (run PreHandler_new toks))
    = toks
    /\ snd (run PreHandler_new (toks ++ [EOFTk])) = toks ++ [EOFTk].
Proof.
  intros toks Hws.
  change PreHandler_new with (machine Pre.STATE_SOL None [] []).
  split.
  - destruct (old_run_rest toks Pre.STATE_SOL [] Hws (or_introl eq_refl))
      as (st & held & Hh & _ & Ho).
    rewrite Hh. exact Ho.
  - assert (Hws' : forallb (fun t => negb (startsWithWhitespace t))
                     (toks ++ [EOFTk]) = true)
      by (rewrite forallb_app, Hws; reflexivity).
    destruct (old_run_rest toks Pre.STATE_SOL [] Hws (or_introl eq_refl))
      as (st & held & Hh & Hst & Ho).
    rewrite old_run_app. cbn [snd]. rewrite Hh.
    cbn [app] in Ho. rewrite <- Ho at 2. rewrite <- app_assoc. f_equal.
    destruct Hst as [-> | [-> ->]]; cbn; now rewrite ?app_nil_r.
Qed.

(** [STATE_PRE] takes the sol-transparent tokens aside. *)
Lemma old_run_PRE (sols : list Token) :
  forall (ln : option Token) (toks sol : list Token),
    forallb isSolTransparent sols = true ->
    run (machine Pre.STATE_PRE ln toks sol) sols
    = (machine Pre.STATE_PRE ln toks (sol ++ sols), []).
Proof.
  induction sols as [|t rest IH]; intros ln toks sol Hsol.
  - cbn. now rewrite app_nil_r.
  - cbn [forallb] in Hsol.
    apply andb_true_iff in Hsol as [Ht Hrest].
    cbn [PreOld.run].
    assert (Hf : feed (machine Pre.STATE_PRE ln toks sol) t
                 = (machine Pre.STATE_PRE ln toks (sol ++ [t]), [])).
    { destruct t; try discriminate; cbn in Ht |- *;
        unfold PreOld.feed, PreOld.onAny; cbn; rewrite ?Ht; reflexivity. }
    rewrite Hf, (IH ln toks (sol ++ [t]) Hrest), <- app_assoc.
    reflexivity.
Qed.

(** [STATE_PRE_COLLECT] collects. *)
Lemma old_run_PRE_COLLECT (rest : list Token) :
  forall (toks : list Token),
    forallb (collectable isBlockTag) rest = true ->
    run (machine Pre.STATE_PRE_COLLECT None toks []) rest
    = (machine Pre.STATE_PRE_COLLECT None (toks ++ rest) [], []).
Proof.
  induction rest as [|t rest IH]; intros toks Hc.
  - cbn. now rewrite app_nil_r.
  - cbn [forallb] in Hc. apply andb_true_iff in Hc as [Ht Hrest].
    unfold collectable in Ht. apply andb_true_iff in Ht as [Hi Hb].
    apply negb_true_iff in Hb.
    cbn [PreOld.run].
    assert (Hf : feed (machine Pre.STATE_PRE_COLLECT None toks []) t
                 = (machine Pre.STATE_PRE_COLLECT None (toks ++ [t]) [], [])).
    { destruct t; try discriminate;
        unfold PreOld.feed, PreOld.onAny;
        cbn [machine anyTransform state]; rewrite ?Hb; reflexivity. }
    rewrite Hf, (IH (toks ++ [t]) Hrest), <- app_assoc. reflexivity.
Qed.

(** X21.  An indented line in the earlier variant.  A text that starts with
    white-space at the start of a line, a token that is not sol-transparent,
    tokens that are collected, and two newlines: the handler sends on the
    start tag of a [pre], the tokens after the text, the end tag and the
    two newlines.  The text itself is sent on nowhere, whatever follows the
    white-space in it. *)
Theorem old_indented_line_becomes_pre :
  forall (s : string) (first : Token) (rest : list Token)
         (d1 d2 : DataAttribs),
    startsWithWhitespace (Str s) = true ->
    startsContent first = true ->
    forallb (collectable isBlockTag) rest = true ->
    snd (run PreHandler_new
           ([Str s] ++ [first] ++ rest ++ [NlTk d1; NlTk d2]))
    = [TagTk "pre" [] noDA] ++ [first] ++ rest
      ++ [EndTagTk "pre" [] noDA; NlTk d1; NlTk d2].
Proof.
  intros s first rest d1 d2 Hws Hfirst Hrest.
  unfold startsContent in Hfirst. apply andb_true_iff in Hfirst as [Hi Hsol].
  apply negb_true_iff in Hsol.
  change PreHandler_new with (machine Pre.STATE_SOL None [] []).
  rewrite !old_run_app.
  assert (H1 : run (machine Pre.STATE_SOL None [] []) [Str s]
               = (machine Pre.STATE_PRE None [] [], [])).
  { cbn [PreOld.run]. unfold PreOld.feed, PreOld.onAny.
    cbn [machine anyTransform state]. rewrite Hws. reflexivity. }
  rewrite H1. cbn [fst snd].
  assert (H2 : run (machine Pre.STATE_PRE None [] []) [first]
               = (machine Pre.STATE_PRE_COLLECT None [first] [], [])).
  { cbn [PreOld.run].
    destruct first; try discriminate; unfold PreOld.feed, PreOld.onAny;
      cbn [machine anyTransform state]; rewrite ?Hsol; reflexivity. }
  rewrite H2. cbn [fst snd].
  rewrite (old_run_PRE_COLLECT rest [first] Hrest). cbn [fst snd].
  cbn. rewrite ?app_nil_r, <- ?app_assoc. reflexivity.
Qed.

(** X22.  A blank line in the earlier variant.  A text that starts with
    white-space at the start of a line, sol-transparent tokens and a
    newline: the handler sends on one space and the sol-transparent
    tokens, or nothing when there are none, and the newline.  What the text
    holds is lost. *)
Theorem old_blank_line_loses_its_text :
  forall (s : string) (sols : list Token) (d : DataAttribs),
    startsWithWhitespace (Str s) = true ->
    forallb isSolTransparent sols = true ->
    snd (run PreHandler_new ([Str s] ++ sols ++ [NlTk d]))
    = blankLine sols ++ [NlTk d].
Proof.
  intros s sols d Hws Hsol.
  change PreHandler_new with (machine Pre.STATE_SOL None [] []).
  rewrite !old_run_app.
  assert (H1 : run (machine Pre.STATE_SOL None [] []) [Str s]
               = (machine Pre.STATE_PRE None [] [], [])).
  { cbn [PreOld.run]. unfold PreOld.feed, PreOld.onAny.
    cbn [machine anyTransform state]. rewrite Hws. reflexivity. }
  rewrite H1. cbn [fst snd].
  rewrite (old_run_PRE sols None [] [] Hsol). cbn [fst snd app].
  destruct sols as [|t sols]; cbn; rewrite ?app_nil_r; reflexivity.
Qed.
End OldPre.

(** *** Elements around a text *)

Section Markup.
Import WS Line.
Variable env : Env.

Lemma leadingBreaks_plain (c : ascii) (r : string) :
  Ascii.eqb c JS.LF = false -> Ascii.eqb c JS.CR = false ->
  leadingBreaks (String c r) = (0, String c r).
Proof. intros H1 H2. cbn [leadingBreaks]. now rewrite H1, H2. Qed.

Lemma matchNewlines_plain (text : string) :
  plainText text = true -> matchNewlines text = Stripped 0 text 0.
Proof.
  unfold plainText. intros H.
  apply andb_true_iff in H as [H Hcr]. apply andb_true_iff in H as [Hne Hlf].
  apply negb_true_iff in Hcr, Hlf.
  destruct text as [|c r]; [discriminate |].
  assert (Hrev : JS.hasChar JS.LF (reverse (String c r)) = false
                 /\ JS.hasChar JS.CR (reverse (String c r)) = false)
    by (now rewrite !hasChar_reverse).
  destruct Hrev as [Hrlf Hrcr].
  cbn [JS.hasChar] in Hlf, Hcr.
  apply orb_false_iff in Hlf as [Hc1 _]. apply orb_false_iff in Hcr as [Hc2 _].
  unfold matchNewlines. rewrite leadingBreaks_plain by assumption.
  destruct (reverse (String c r)) as [|b m] eqn:Hr.
  - apply (f_equal reverse) in Hr. rewrite reverse_involutive in Hr.
    discriminate.
  - cbn [JS.hasChar] in Hrlf, Hrcr.
    apply orb_false_iff in Hrlf as [Hb1 _].
    apply orb_false_iff in Hrcr as [Hb2 _].
    cbn [trailingBreaksRev]. rewrite Hb1, Hb2.
    now rewrite <- Hr, reverse_involutive.
Qed.

(** The escaper outside a newline context and outside an indent-pre, on a
    text that the tokenizer reads as it is. *)
Lemma escapeWikiText_guarded (text : string) (p : Proto) (s : State) :
  _inNewLineContext s = false ->
  inIndentPre s = false ->
  JS.nonEmpty text = true ->
  tokenize env ("_" +:+ text) = [Str ("_" +:+ text); EOFTk] ->
  escapeWikiText env text (mkWorld p s) = (Ok text, mkWorld p s).
Proof.
  intros Hnl Hip Hne Htok.
  destruct text as [|c r]; [discriminate |].
  assert (Hg : guardedText s (String c r) = String "_" (String c r)).
  { unfold guardedText. rewrite Hnl, Hip.
    now rewrite append_String, append_Empty. }
  rewrite append_String, append_Empty in Htok.
  rewrite (escapeWikiText_returns env _ _ [Str (String c r); EOFTk]).
  - cbn [state proto]. rewrite Hnl, escapeTokens_plain.
    cbn [caughtWarning]. unfold unguarded. rewrite Hip.
    cbn [outTexts]. rewrite join_one, !app_nil_r. now destruct s.
  - cbn [state]. unfold tokensToEscape. rewrite Hnl, Hg, Htok.
    unfold stripGuard.
    replace (String "_" (String c r) =? "_")%string with false
      by (symmetry; apply String.eqb_neq; discriminate).
    now rewrite substr_tail.
Qed.

(** In single-line mode the line breaks of a text become spaces: a text
    without line breaks stays as it is. *)
Lemma replaceAll_plain (res : string) :
  JS.hasChar JS.LF res = false -> JS.replaceAll JS.nl " " res = res.
Proof.
  unfold JS.replaceAll. induction res as [|c r IH]; [reflexivity |].
  cbn [JS.hasChar]. intros H. apply orb_false_iff in H as [Hc Hr].
  cbn [JS.replaceAllFrom JS.isPrefix JS.nl].
  rewrite Ascii.eqb_sym, Hc. cbn [andb]. now rewrite IH.
Qed.

(** What follows the handler, for a text without line breaks inside a
    line. *)
Lemma afterHandler_inline (handler : Handler) (token : Token) (res : string)
    (p : Proto) (s : State) (mode : nat) (sol : bool) (out : list string) :
  inline s mode sol false out ->
  plainText res = true ->
  pairSepNLCount (descOf p handler) = 0 ->
  singleLine (descOf p handler) = 0%Z ->
  (mode = 0 -> startsNewline (descOf p handler) && negb sol = false) ->
  exists s' : State,
    afterHandler env handler token res (mkWorld p s) = (Ok tt, mkWorld p s')
    /\ inline s' mode (newlineTransparent (descOf p handler) && sol)
         (endsLine (descOf p handler)) (out ++ [res])
    /\ onNewline s' = false.
Proof.
  intros (Hsol & Hemit & Hout & Hav & Hslm & Hdrop & Htail & Hnw & Hhp & Hip
          & Hth) Hplain Hpair Hsingle Hstart.
  pose proof (matchNewlines_plain res Hplain) as Hmatch.
  assert (Hne : JS.nonEmpty res = true).
  { unfold plainText in Hplain. now destruct (JS.nonEmpty res). }
  assert (Hone : JS.replaceAll JS.nl " " res = res).
  { apply replaceAll_plain. unfold plainText in Hplain.
    destruct (JS.hasChar JS.LF res); [| reflexivity].
    now rewrite andb_false_r in Hplain. }
  destruct s as [onl osl av slm emit drop tail pt ct ptt ctt nw hp ip th ch
                 con].
  cbn in Hsol, Hemit, Hout, Hav, Hslm, Hdrop, Htail, Hnw, Hhp, Hip, Hth.
  subst.
  unfold afterHandler, stripNewlines.
  destruct res as [|c r]; [discriminate |]. rewrite Hmatch.
  set (res := String c r) in *.
  cbv beta iota zeta delta [bind ret modifyState getProto getState
                              separatePair when warn state proto].
  rewrite Hpair. cbn [Nat.ltb Nat.leb andb].
  cbv beta iota zeta delta [bind ret modifyState getProto getState when
                              state proto].
  rewrite Hne.
  unfold emitText.
  cbv beta iota zeta delta [bind ret modifyState getProto getState when
                              chunkCB state proto].
  rewrite Hsingle.
  destruct mode as [|m]; [specialize (Hstart eq_refl) |];
    destruct (debug env);
    cbn [set_availableNewlineCount set_console availableNewlineCount
         onNewline onStartOfLine singleLineMode emitNewlineOnNextToken
         dropContent dropTail prevToken curToken prevTagToken currTagToken
         inNoWiki inHTMLPre inIndentPre textHandler chunks console
         Nat.add Nat.ltb Nat.leb negb andb orb Nat.eqb];
    rewrite ?andb_false_r; cbn [orb andb]; rewrite ?Hstart;
    cbv beta iota zeta delta [bind ret modifyState getProto getState when
                                chunkCB state proto];
    cbn [set_availableNewlineCount set_console availableNewlineCount
         onNewline onStartOfLine singleLineMode emitNewlineOnNextToken
         dropContent dropTail prevToken curToken prevTagToken currTagToken
         inNoWiki inHTMLPre inIndentPre textHandler chunks console
         Nat.add Nat.ltb Nat.leb negb andb orb Nat.eqb JS.newlines
         onOneLine withoutTail];
    rewrite ?Hone, append_Empty, Hne;
    destruct (newlineTransparent (descOf p handler)),
      (endsLine (descOf p handler));
    cbn; (eexists; split; [reflexivity |]);
    unfold inline; cbn; repeat split; reflexivity.
Qed.

(** The handler of a tag with an entry in the table. *)
Lemma getTokenHandler_entry (s : State) (token : Token) :
  isStr (stx (tokenDA token)) "html" = false ->
  hasEntry (tokenName token) = true ->
  String.eqb (tokenName token) "p" = false ->
  _getTokenHandler s token
  = TagHandler (TableEntry (tokenName token))
      (match token with
       | TagTk _ _ _ | SelfclosingTagTk _ _ _ => true
       | _ => false
       end).
Proof.
  intros Hhtml Hentry Hp. unfold _getTokenHandler.
  rewrite Hhtml, Hentry, Hp. now destruct token.
Qed.

(** A tag whose handler returns a text and leaves the world as it is,
    inside a line. *)
Lemma serializeTag_quiet (token : Token) (handler : Handler) (h : Handle)
    (marks : string) (p : Proto) (s : State) (mode : nat) (sol : bool)
    (out : list string) :
  match token with
  | TagTk _ _ _ | EndTagTk _ _ _ => True
  | _ => False
  end ->
  (forall st, _getTokenHandler st token = handler) ->
  ignore (descOf p handler) = false ->
  handle (descOf p handler) = Some h ->
  (forall v, runHandle env h token v = (Ok marks, v)) ->
  pairSepNLCount (descOf p handler) = 0 ->
  singleLine (descOf p handler) = 0%Z ->
  (mode = 0 -> startsNewline (descOf p handler) && negb sol = false) ->
  plainText marks = true ->
  inline s mode sol false out ->
  exists s' : State,
    _serializeToken env token (mkWorld p s) = (Ok tt, mkWorld p s')
    /\ inline s' mode (newlineTransparent (descOf p handler) && sol)
         (endsLine (descOf p handler)) (out ++ [marks])
    /\ onNewline s' = false.
Proof.
  intros Htag Hhandler Hig Hhandle Hrun Hpair Hsingle Hstart Hplain Hin.
  assert (Hd : exists s1,
             dispatchToken env token (mkWorld p s)
             = (Ok (handler, marks), mkWorld p s1)
             /\ inline s1 mode sol false out).
  { destruct token as [name a da|name a da| | | | |]; try contradiction;
      unfold dispatchToken;
      cbv beta iota zeta delta [bind ret modifyState getProto getState when
                                  state proto];
      rewrite Hhandler, Hig; cbn [negb];
      cbv beta iota zeta delta [bind ret modifyState getProto getState when
                                  state proto];
      rewrite ?Hsingle, Hhandle; cbn [Z.ltb Z.compare andb];
      cbv beta iota zeta delta [bind ret modifyState getProto getState when
                                  state proto];
      rewrite Hrun;
      (eexists; split; [reflexivity |]);
      destruct s; exact Hin. }
  destruct Hd as (s1 & Hd & Hin1).
  rewrite (serializeToken_run env _ _ _ _ _ Hd). cbn [state].
  destruct Hin as (_ & _ & _ & _ & _ & -> & _). cbn [negb orb].
  now apply afterHandler_inline.
Qed.

(** A text that the tokenizer reads as it is, inside a line. *)
Lemma serializeText_inline (text : string) (p : Proto) (s : State)
    (mode : nat) (sol : bool) (out : list string) :
  tokenize env ("_" +:+ text) = [Str ("_" +:+ text); EOFTk] ->
  plainText text = true ->
  onNewline s = false ->
  inline s mode sol false out ->
  exists s' : State,
    _serializeToken env (Str text) (mkWorld p s) = (Ok tt, mkWorld p s')
    /\ inline s' mode false false (out ++ [text])
    /\ onNewline s' = false.
Proof.
  intros Htok Hplain Hnl Hin.
  pose proof Hin as (Hsol & Hemit & Hout & Hav & Hslm & Hdrop & Htail & Hnw
                     & Hhp & Hip & Hth).
  set (s1 := set_curToken (Some (Str text)) (set_prevToken (curToken s) s)).
  assert (Hin1 : inline s1 mode sol false out /\ onNewline s1 = false)
    by (subst s1; destruct s; split; assumption).
  destruct Hin1 as [Hin1 Hnl1].
  assert (Hesc : escapeWikiText env text (mkWorld p s1)
                 = (Ok text, mkWorld p s1)).
  { destruct Hin1 as (_ & He1 & _ & Ha1 & _ & _ & _ & _ & _ & Hi1 & _).
    apply escapeWikiText_guarded; try assumption.
    - unfold _inNewLineContext. now rewrite Hnl1, He1, Ha1.
    - unfold plainText in Hplain. now destruct (JS.nonEmpty text). }
  assert (Hd : dispatchToken env (Str text) (mkWorld p s)
               = (Ok (NoHandler, text), mkWorld p s1)).
  { unfold dispatchToken.
    cbv beta iota zeta delta [bind ret modifyState getProto getState
                                state proto].
    fold s1.
    destruct Hin1 as (_ & _ & _ & _ & _ & _ & _ & Hn1 & Hh1 & _ & Ht1).
    rewrite Hn1, Hh1. cbn [orb]. rewrite Hesc.
    unfold applyTextHandler. now rewrite Ht1. }
  rewrite (serializeToken_run env _ _ _ _ _ Hd). cbn [state].
  rewrite Hdrop. cbn [negb orb].
  destruct (afterHandler_inline NoHandler (Str text) text p s1 mode sol out
              Hin1 Hplain eq_refl eq_refl (fun _ => eq_refl))
    as (s' & Hrun & Hin' & Hnl').
  cbn [descOf emptyDesc newlineTransparent endsLine andb] in Hin'.
  exists s'. split; [exact Hrun | split; [exact Hin' | exact Hnl']].
Qed.

(** The end of input inside a line. *)
Lemma serializeEOF_inline (p : Proto) (s : State) (mode : nat)
    (sol emit : bool) (out : list string) :
  inline s mode sol emit out ->
  exists s' : State,
    _serializeToken env EOFTk (mkWorld p s) = (Ok tt, mkWorld p s')
    /\ chunks s' = out ++ [""].
Proof.
  intros (Hsol & Hemit & Hout & Hav & Hslm & Hdrop & Htail & Hnw & Hhp & Hip
          & Hth).
  destruct s as [onl osl av slm em drop tail pt ct ptt ctt nw hp ip th ch
                 con].
  cbn in Hsol, Hemit, Hout, Hav, Hslm, Hdrop, Htail, Hnw, Hhp, Hip, Hth.
  subst.
  unfold _serializeToken, dispatchToken, afterHandler, stripNewlines,
    separatePair, chunkCB, warn.
  cbv beta iota zeta delta [bind ret modifyState getProto getState when
                              state proto].
  destruct (debug env); cbn; (eexists; split; [reflexivity |]); reflexivity.
Qed.

(** X23.  Bold, italic and the headings.  An element that is not marked as
    an HTML tag and whose handlers in the table return a constant text at
    its start and at its end ([b], [i] and [h1] to [h6]), with one child, a
    text without line breaks that the tokenizer reads as it is:
    [serializeDOM] returns the text between the two constants, and nothing
    else, whatever the attributes of the element. *)
Theorem markup_wraps_plain_text :
  forall (w : Proto) (nodeName : string) (attribs : list KV)
         (da : DataAttribs) (opening closing text : string),
    Walk.rtInfoOf env attribs = Some da ->
    isStr (stx da) "html" = false ->
    handle (descOf w (TagHandler (TableEntry (toLowerCase nodeName)) true))
    = Some (H_id opening) ->
    handle (descOf w (TagHandler (TableEntry (toLowerCase nodeName)) false))
    = Some (H_id closing) ->
    tokenize env ("_" +:+ text) = [Str ("_" +:+ text); EOFTk] ->
    plainText text = true ->
    wikitext (serializeDOM env w (Element nodeName attribs [TextNode text]))
    = Some (opening +:+ text +:+ closing)
    /\ sunk (serializeDOM env w (Element nodeName attribs [TextNode text]))
       = [opening; text; closing; ""].
Proof.
  intros w nodeName attribs da opening closing text Hrt Hhtml Hopen Hclose
    Htok Hplain.
  set (name := toLowerCase nodeName) in *.
  set (a := _getDOMAttribs attribs).
  assert (Hchunks :
    exists s3 s' : State,
      (_serializeToken env (TagTk name a da) ;;;
       (_serializeToken env (Str text) ;;; ret tt) ;;;
       _serializeToken env (EndTagTk name a da)) (newWorld w)
      = (Ok tt, mkWorld w s3)
      /\ _serializeToken env EOFTk (mkWorld w s3) = (Ok tt, mkWorld w s')
      /\ chunks s' = [opening; text; closing; ""]).
  { destruct (hasEntry name) eqn:Hentry.
    2: { destruct (table_miss name Hentry w) as [Hs _].
         cbn [descOf] in Hopen. rewrite Hs in Hopen. discriminate. }
    unfold hasEntry in Hentry. apply existsb_exists in Hentry.
    destruct Hentry as (lit & Hin & Heq). apply String.eqb_eq in Heq.
    clearbody name. subst lit. unfold tableNames in Hin. cbn [In] in Hin.
    repeat (destruct Hin as [<- | Hin];
            [ cbn in Hopen, Hclose; try discriminate;
              injection Hopen as <-; injection Hclose as <-
            | ]); try contradiction;
    match goal with
    | |- context [TagTk ?n a da] =>
        destruct (serializeTag_quiet (TagTk n a da)
                    (TagHandler (TableEntry n) true) _ _ w initialState
                    0 true [] Logic.I
                    (fun st => getTokenHandler_entry st (TagTk n a da)
                                 Hhtml eq_refl eq_refl)
                    eq_refl eq_refl (fun v => eq_refl) eq_refl eq_refl
                    (fun _ => andb_false_r _) eq_refl
                    ltac:(unfold inline; cbn; repeat split; reflexivity))
          as (s1 & H1 & Hin1 & Hnl1);
        destruct (serializeText_inline text w s1 _ _ _ Htok Hplain Hnl1
                    Hin1) as (s2 & H2 & Hin2 & Hnl2);
        destruct (serializeTag_quiet (EndTagTk n a da)
                    (TagHandler (TableEntry n) false) _ _ w s2
                    0 false _ Logic.I
                    (fun st => getTokenHandler_entry st (EndTagTk n a da)
                                 Hhtml eq_refl eq_refl)
                    eq_refl eq_refl (fun v => eq_refl) eq_refl eq_refl
                    (fun _ => eq_refl) eq_refl Hin2)
          as (s3 & H3 & Hin3 & Hnl3);
        destruct (serializeEOF_inline w s3 _ _ _ _ Hin3)
          as (s4 & H4 & Hch4)
    end;
    exists s3, s4; unfold bind at 1; unfold newWorld; rewrite H1;
    unfold bind at 1; unfold bind at 1; rewrite H2;
    cbv beta iota zeta delta [ret];
    (split; [exact H3 | split; [exact H4 | exact Hch4]]). }
  destruct Hchunks as (s3 & s' & Hrun & Heof & Hch).
  assert (Hwalk : _serializeDOM env (Element nodeName attribs [TextNode text])
                    (newWorld w) = (Ok tt, mkWorld w s3)).
  { cbn [_serializeDOM]. unfold bind at 1.
    rewrite (getDOMRTInfo_parsed env attribs da (newWorld w) Hrt).
    exact Hrun. }
  unfold serializeDOM, bind. rewrite Hwalk, Heof.
  cbn [wikitext sunk state]. rewrite Hch. split; [| reflexivity].
  cbn [JS.join String.concat].
  now rewrite !append_Empty, !append_Empty_r.
Qed.

(** The handler of a tag that is marked as an HTML tag. *)
Lemma getTokenHandler_html (s : State) (token : Token) :
  isStr (stx (tokenDA token)) "html" = true ->
  _getTokenHandler s token
  = TagHandler DefaultHandler
      (match token with
       | TagTk _ _ _ | SelfclosingTagTk _ _ _ => true
       | _ => false
       end).
Proof.
  intros Hhtml. unfold _getTokenHandler. rewrite Hhtml. now destruct token.
Qed.

Lemma plainText_append (x y : string) :
  JS.nonEmpty x = true ->
  JS.hasChar JS.LF x = false -> JS.hasChar JS.CR x = false ->
  JS.hasChar JS.LF y = false -> JS.hasChar JS.CR y = false ->
  plainText (x +:+ y) = true.
Proof.
  intros Hne H1 H2 H3 H4. unfold plainText.
  rewrite !hasChar_append, H1, H2, H3, H4.
  destruct x; [discriminate | reflexivity].
Qed.

(** X24.  An element that is marked as an HTML tag, other than [pre] and
    the empty elements, with one child, a text without line breaks that the
    tokenizer reads as it is: [serializeDOM] returns the start tag with the
    attributes, the text and the end tag, and nothing else.  The name and
    the attributes are taken to hold no line break. *)
Theorem html_element_wraps_plain_text :
  forall (w : Proto) (nodeName : string) (attribs : list KV)
         (da : DataAttribs) (text : string),
    Walk.rtInfoOf env attribs = Some da ->
    isStr (stx da) "html" = true ->
    String.eqb (toLowerCase nodeName) "pre" = false ->
    _emptyTags (toLowerCase nodeName) = false ->
    JS.hasChar JS.LF (toLowerCase nodeName) = false ->
    JS.hasChar JS.CR (toLowerCase nodeName) = false ->
    JS.hasChar JS.LF (Attributes._serializeAttributes (_getDOMAttribs attribs))
    = false ->
    JS.hasChar JS.CR (Attributes._serializeAttributes (_getDOMAttribs attribs))
    = false ->
    tokenize env ("_" +:+ text) = [Str ("_" +:+ text); EOFTk] ->
    plainText text = true ->
    wikitext (serializeDOM env w (Element nodeName attribs [TextNode text]))
    = Some (("<" +:+ toLowerCase nodeName
             +:+ match _getDOMAttribs attribs with
                 | [] => ""
                 | a => " " +:+ Attributes._serializeAttributes a
                 end +:+ ">")
            +:+ text +:+ ("</" +:+ toLowerCase nodeName +:+ ">")).
Proof.
  intros w nodeName attribs da text Hrt Hhtml Hpre Hempty Hn1 Hn2 Ha1 Ha2
    Htok Hplain.
  set (name := toLowerCase nodeName) in *.
  set (a := _getDOMAttribs attribs) in *.
  set (opening := "<" +:+ name
                  +:+ match a with
                      | [] => ""
                      | _ => " " +:+ Attributes._serializeAttributes a
                      end +:+ ">").
  set (closing := "</" +:+ name +:+ ">").
  assert (Hopen : forall v,
             runHandle env H_htmlTag (TagTk name a da) v = (Ok opening, v)).
  { intros v. cbn [runHandle]. unfold _serializeHTMLTag.
    cbn [tokenName Pre.tagName tokenAttribs]. rewrite Hempty, Hpre.
    subst opening. destruct a as [|kv a']; destruct v; cbn [when bind ret];
      unfold bind, ret; rewrite ?append_Empty; reflexivity. }
  assert (Hclose : forall v,
             runHandle env H_htmlEndTag (EndTagTk name a da) v
             = (Ok closing, v)).
  { intros v. cbn [runHandle]. unfold _serializeHTMLEndTag.
    cbn [tokenName Pre.tagName]. rewrite Hempty, Hpre.
    destruct v; reflexivity. }
  assert (Hpo : plainText opening = true).
  { subst opening. apply plainText_append; try reflexivity.
    - rewrite !hasChar_append, Hn1.
      destruct a; [reflexivity |]. now rewrite hasChar_append, Ha1.
    - rewrite !hasChar_append, Hn2.
      destruct a; [reflexivity |]. now rewrite hasChar_append, Ha2. }
  assert (Hpc : plainText closing = true).
  { subst closing. apply plainText_append; try reflexivity.
    - now rewrite hasChar_append, Hn1.
    - now rewrite hasChar_append, Hn2. }
  destruct (serializeTag_quiet (TagTk name a da)
              (TagHandler DefaultHandler true) H_htmlTag opening w
              initialState 0 true [] Logic.I
              (fun st => getTokenHandler_html st (TagTk name a da) Hhtml)
              eq_refl eq_refl Hopen eq_refl eq_refl (fun _ => eq_refl) Hpo
              ltac:(unfold inline; cbn; repeat split; reflexivity))
    as (s1 & H1 & Hin1 & Hnl1).
  destruct (serializeText_inline text w s1 _ _ _ Htok Hplain Hnl1 Hin1)
    as (s2 & H2 & Hin2 & Hnl2).
  destruct (serializeTag_quiet (EndTagTk name a da)
              (TagHandler DefaultHandler false) H_htmlEndTag closing w s2
              0 false _ Logic.I
              (fun st => getTokenHandler_html st (EndTagTk name a da) Hhtml)
              eq_refl eq_refl Hclose eq_refl eq_refl (fun _ => eq_refl) Hpc
              Hin2)
    as (s3 & H3 & Hin3 & Hnl3).
  destruct (serializeEOF_inline w s3 _ _ _ _ Hin3) as (s4 & H4 & Hch4).
  assert (Hwalk : _serializeDOM env (Element nodeName attribs [TextNode text])
                    (newWorld w) = (Ok tt, mkWorld w s3)).
  { cbn [_serializeDOM]. unfold bind at 1.
    rewrite (getDOMRTInfo_parsed env attribs da (newWorld w) Hrt).
    fold name a. unfold bind at 1. unfold newWorld. rewrite H1.
    unfold bind at 1. unfold bind at 1. rewrite H2.
    cbv beta iota zeta delta [ret]. exact H3. }
  unfold serializeDOM, bind. rewrite Hwalk, H4.
  cbn [wikitext state]. rewrite Hch4.
  cbn [app JS.join String.concat].
  rewrite ?append_Empty, ?append_Empty_r.
  subst opening. clearbody a. now destruct a.
Qed.

(** *** Flat lists *)

Lemma list_start (name b : string) (a : list KV) (da : DataAttribs)
    (w : Proto) :
  (name = "ul" /\ b = "*") \/ (name = "ol" /\ b = "#") ->
  isStr (stx da) "html" = false ->
  listStack w = [] ->
  exists (p' : Proto) (s' : State),
    _serializeToken env (TagTk name a da) (newWorld w)
    = (Ok tt, mkWorld p' s')
    /\ listStack p' = [mkListCtx 0 b ""]
    /\ inline s' 0 true false [b] /\ onNewline s' = false
    /\ currTagToken s' = Some (TagTk name a da).
Proof.
  intros Hname Hhtml Hstack. destruct w. cbn [listStack] in Hstack.
  subst.
  unfold newWorld, _serializeToken, dispatchToken, afterHandler,
    _getTokenHandler.
  cbn [tokenDA tokenName Pre.tagName]. rewrite Hhtml.
  destruct Hname as [[-> ->] | [-> ->]]; destruct (debug env);
    match goal with
    | |- exists p' s', ?m ?w = _ /\ _ =>
        destruct (m w) as [r w'] eqn:Ha; vm_compute in Ha;
        injection Ha as <- <-
    end;
    (eexists _, _; split; [reflexivity |]);
    cbn [listStack]; (split; [reflexivity |]);
    (split; [| split; reflexivity]);
    unfold inline; cbn; repeat split; reflexivity.
Qed.


Ltac run_step :=
  match goal with
  | |- exists p' s', ?m ?w = _ /\ _ =>
      destruct (m w) as [r w'] eqn:Ha; vm_compute in Ha;
      injection Ha as <- <-; eexists _, _; split; [reflexivity |]
  | |- exists s', ?m ?w = _ /\ _ =>
      destruct (m w) as [r w'] eqn:Ha; vm_compute in Ha;
      injection Ha as <- <-; eexists; split; [reflexivity |]
  end.

Ltac open_inline H :=
  let Hsol := fresh in let Hemit := fresh in let Hout := fresh in
  let Hav := fresh in let Hslm := fresh in let Hdrop := fresh in
  let Htail := fresh in let Hnw := fresh in let Hhp := fresh in
  let Hip := fresh in let Hth := fresh in
  destruct H as (Hsol & Hemit & Hout & Hav & Hslm & Hdrop & Htail & Hnw
                 & Hhp & Hip & Hth);
  cbn in Hsol, Hemit, Hout, Hav, Hslm, Hdrop, Htail, Hnw, Hhp, Hip, Hth.

Lemma item_open_first (b : string) (a : list KV) (da : DataAttribs)
    (p : Proto) (s : State) (out : list string) (name0 : string)
    (a0 : list KV) (da0 : DataAttribs) :
  isStr (stx da) "html" = false ->
  listStack p = [mkListCtx 0 b ""] ->
  inline s 0 true false out -> onNewline s = false ->
  currTagToken s = Some (TagTk name0 a0 da0) ->
  exists (p' : Proto) (s' : State),
    _serializeToken env (TagTk "li" a da) (mkWorld p s)
    = (Ok tt, mkWorld p' s')
    /\ listStack p' = [mkListCtx 1 b ""]
    /\ inline s' 1 true false out /\ onNewline s' = false.
Proof.
  intros Hhtml Hstack Hin Hnl Htag. destruct p, s. cbn in Hstack, Hnl, Htag.
  open_inline Hin. subst.
  unfold _serializeToken, dispatchToken, afterHandler, _getTokenHandler.
  cbn [tokenDA tokenName Pre.tagName]. rewrite Hhtml.
  destruct (debug env); run_step;
    (split; [reflexivity |]); (split; [| reflexivity]);
    unfold inline; cbn; repeat split; reflexivity.
Qed.

Lemma item_open_next (b : string) (n : nat) (a : list KV) (da : DataAttribs)
    (p : Proto) (s : State) (out : list string) :
  b = "*" \/ b = "#" ->
  isStr (stx da) "html" = false ->
  listStack p = [mkListCtx (S n) b ""] ->
  Flat.afterItem s out ->
  exists (p' : Proto) (s' : State),
    _serializeToken env (TagTk "li" a da) (mkWorld p s)
    = (Ok tt, mkWorld p' s')
    /\ listStack p' = [mkListCtx (S (S n)) b ""]
    /\ inline s' 1 false false (out ++ [JS.nl +:+ b])
    /\ onNewline s' = false.
Proof.
  intros Hb Hhtml Hstack (Hin & Hnl & a0 & da0 & Hcur & Htag).
  destruct p, s. cbn in Hstack, Hnl, Hcur, Htag.
  open_inline Hin. subst.
  unfold _serializeToken, dispatchToken, afterHandler, _getTokenHandler.
  cbn [tokenDA tokenName Pre.tagName]. rewrite Hhtml.
  destruct Hb as [-> | ->]; destruct (debug env); run_step;
    (split; [reflexivity |]); (split; [| reflexivity]);
    unfold inline; cbn; repeat split; reflexivity.
Qed.

Lemma item_close (a : list KV) (da : DataAttribs) (p : Proto) (s : State)
    (sol : bool) (out : list string) :
  isStr (stx da) "html" = false ->
  inline s 1 sol false out -> onNewline s = false ->
  exists s' : State,
    _serializeToken env (EndTagTk "li" a da) (mkWorld p s)
    = (Ok tt, mkWorld p s')
    /\ inline s' 0 sol false out /\ onNewline s' = false
    /\ curToken s' = Some (EndTagTk "li" a da)
    /\ currTagToken s' = Some (EndTagTk "li" a da).
Proof.
  intros Hhtml Hin Hnl. destruct s. cbn in Hnl. open_inline Hin. subst.
  unfold _serializeToken, dispatchToken, afterHandler, _getTokenHandler.
  cbn [tokenDA tokenName Pre.tagName]. rewrite Hhtml.
  destruct (debug env); run_step;
    (split; [| repeat split; reflexivity]);
    unfold inline; cbn; repeat split; reflexivity.
Qed.

Lemma list_close (name : string) (a : list KV) (da : DataAttribs)
    (p : Proto) (s : State) (c : ListCtx) (sol : bool) (out : list string) :
  name = "ul" \/ name = "ol" ->
  isStr (stx da) "html" = false ->
  listStack p = [c] ->
  inline s 0 sol false out ->
  exists (p' : Proto) (s' : State),
    _serializeToken env (EndTagTk name a da) (mkWorld p s)
    = (Ok tt, mkWorld p' s')
    /\ listStack p' = [] /\ inline s' 0 sol true out.
Proof.
  intros Hname Hhtml Hstack Hin. destruct p, s. cbn in Hstack.
  open_inline Hin. subst.
  unfold _serializeToken, dispatchToken, afterHandler, _getTokenHandler.
  cbn [tokenDA tokenName Pre.tagName]. rewrite Hhtml.
  destruct Hname as [-> | ->]; destruct (debug env); run_step;
    (split; [reflexivity |]);
    unfold inline; cbn; repeat split; reflexivity.
Qed.


Lemma join_empty_cons (x : string) (xs : list string) :
  JS.join "" (x :: xs) = x +:+ JS.join "" xs.
Proof.
  destruct xs as [|y ys]; cbn [JS.join String.concat].
  - now rewrite append_Empty_r.
  - now rewrite append_Empty.
Qed.

Lemma join_empty_app (xs ys : list string) :
  JS.join "" (xs ++ ys) = JS.join "" xs +:+ JS.join "" ys.
Proof.
  induction xs as [|x xs IH]; [reflexivity |].
  cbn [app]. now rewrite !join_empty_cons, IH, append_assoc_s.
Qed.

Lemma join_lines (sep t : string) (rest : list string) :
  JS.join "" (t :: concat (map (fun x => [sep; x]) rest))
  = JS.join sep (t :: rest).
Proof.
  revert t. induction rest as [|x rest IH]; intros t; [reflexivity |].
  cbn [map concat app]. rewrite !join_empty_cons.
  rewrite <- join_empty_cons, IH. reflexivity.
Qed.

Lemma first_item (b : string) (e : Flat.Entry) (p : Proto) (s : State)
    (out : list string) (name0 : string) (a0 : list KV) (da0 : DataAttribs) :
  Flat.plain env e ->
  listStack p = [mkListCtx 0 b ""] ->
  inline s 0 true false out -> onNewline s = false ->
  currTagToken s = Some (TagTk name0 a0 da0) ->
  exists (p' : Proto) (s' : State),
    _serializeDOM env (Flat.node e) (mkWorld p s) = (Ok tt, mkWorld p' s')
    /\ listStack p' = [mkListCtx 1 b ""]
    /\ Flat.afterItem s' (out ++ [Flat.entryText e]).
Proof.
  intros (Hname & (da & Hrt & Hhtml) & Htok & Hplain) Hstack Hin Hnl Htag.
  set (a := _getDOMAttribs (Flat.entryAttribs e)).
  destruct (item_open_first b a da p s out name0 a0 da0 Hhtml Hstack Hin Hnl
              Htag) as (p1 & s1 & H1 & Hstack1 & Hin1 & Hnl1).
  destruct (serializeText_inline (Flat.entryText e) p1 s1 _ _ _ Htok Hplain
              Hnl1 Hin1) as (s2 & H2 & Hin2 & Hnl2).
  destruct (item_close a da p1 s2 _ _ Hhtml Hin2 Hnl2)
    as (s3 & H3 & Hin3 & Hnl3 & Hcur3 & Htag3).
  exists p1, s3. split; [| split; [exact Hstack1 |]].
  - unfold Flat.node. cbn [_serializeDOM]. rewrite Hname.
    unfold bind at 1. rewrite (getDOMRTInfo_parsed env _ da _ Hrt).
    fold a. unfold bind at 1. rewrite H1.
    unfold bind at 1; unfold bind at 1. rewrite H2.
    cbv beta iota zeta delta [ret]. exact H3.
  - split; [exact Hin3 | split; [exact Hnl3 |]]. now exists a, da.
Qed.

Lemma next_item (b : string) (n : nat) (e : Flat.Entry) (p : Proto)
    (s : State) (out : list string) :
  b = "*" \/ b = "#" ->
  Flat.plain env e ->
  listStack p = [mkListCtx (S n) b ""] ->
  Flat.afterItem s out ->
  exists (p' : Proto) (s' : State),
    _serializeDOM env (Flat.node e) (mkWorld p s) = (Ok tt, mkWorld p' s')
    /\ listStack p' = [mkListCtx (S (S n)) b ""]
    /\ Flat.afterItem s' (out ++ [JS.nl +:+ b; Flat.entryText e]).
Proof.
  intros Hb (Hname & (da & Hrt & Hhtml) & Htok & Hplain) Hstack Hafter.
  set (a := _getDOMAttribs (Flat.entryAttribs e)).
  destruct (item_open_next b n a da p s out Hb Hhtml Hstack Hafter)
    as (p1 & s1 & H1 & Hstack1 & Hin1 & Hnl1).
  destruct (serializeText_inline (Flat.entryText e) p1 s1 _ _ _ Htok Hplain
              Hnl1 Hin1) as (s2 & H2 & Hin2 & Hnl2).
  destruct (item_close a da p1 s2 _ _ Hhtml Hin2 Hnl2)
    as (s3 & H3 & Hin3 & Hnl3 & Hcur3 & Htag3).
  exists p1, s3. split; [| split; [exact Hstack1 |]].
  - unfold Flat.node. cbn [_serializeDOM]. rewrite Hname.
    unfold bind at 1. rewrite (getDOMRTInfo_parsed env _ da _ Hrt).
    fold a. unfold bind at 1. rewrite H1.
    unfold bind at 1; unfold bind at 1. rewrite H2.
    cbv beta iota zeta delta [ret]. exact H3.
  - rewrite <- app_assoc in Hin3. cbn [app] in Hin3.
    split; [exact Hin3 | split; [exact Hnl3 |]]. now exists a, da.
Qed.

Lemma more_items (b : string) (items : list Flat.Entry) :
  b = "*" \/ b = "#" ->
  Forall (Flat.plain env) items ->
  forall (p : Proto) (s : State) (n : nat) (out : list string),
    listStack p = [mkListCtx (S n) b ""] ->
    Flat.afterItem s out ->
    exists (p' : Proto) (s' : State),
      (fix serializeChildren (nodes : list Node) : M unit :=
         match nodes with
         | [] => ret tt
         | child :: rest =>
             _serializeDOM env child ;;; serializeChildren rest
         end) (map Flat.node items) (mkWorld p s)
      = (Ok tt, mkWorld p' s')
      /\ listStack p' = [mkListCtx (S n + length items) b ""]
      /\ Flat.afterItem s'
           (out ++ concat (map (fun t => [JS.nl +:+ b; t])
                             (map Flat.entryText items))).
Proof.
  intros Hb Hall.
  match goal with
  | |- forall p s n out, _ -> _ -> exists p' s', ?f _ _ = _ /\ _ =>
      set (walk := f)
  end.
  induction Hall as [|e items He Hall IH]; intros p s n out Hstack Hafter.
  - exists p, s. cbn [map concat length]. rewrite app_nil_r, Nat.add_0_r.
    split; [reflexivity | split; [exact Hstack | exact Hafter]].
  - destruct (next_item b n e p s out Hb He Hstack Hafter)
      as (p1 & s1 & H1 & Hstack1 & Hafter1).
    destruct (IH p1 s1 (S n) _ Hstack1 Hafter1)
      as (p2 & s2 & H2 & Hstack2 & Hafter2).
    exists p2, s2. split; [| split].
    + cbn [map].
      change (walk (Flat.node e :: map Flat.node items))
        with (_serializeDOM env (Flat.node e) ;;; walk (map Flat.node items)).
      unfold bind at 1. rewrite H1. exact H2.
    + rewrite Hstack2. cbn [length]. do 2 f_equal. lia.
    + cbn [map concat]. rewrite <- app_assoc in Hafter2. exact Hafter2.
Qed.

(** X25.  A list [ul] or [ol] that is not marked as an HTML tag, with items
    [li] that each hold one text without line breaks: on a prototype
    object whose list stack is empty, [serializeDOM] returns the bullet and
    the texts of the items, with a line break and the bullet between one
    text and the next, and leaves the list stack empty.  A list without
    items gives the bullet alone. *)
Theorem flat_list_has_a_line_per_item :
  forall (w : Proto) (nodeName bullet : string) (attribs : list KV)
         (da : DataAttribs) (items : list Flat.Entry),
    (toLowerCase nodeName = "ul" /\ bullet = "*")
    \/ (toLowerCase nodeName = "ol" /\ bullet = "#") ->
    Walk.rtInfoOf env attribs = Some da ->
    isStr (stx da) "html" = false ->
    listStack w = [] ->
    Forall (Flat.plain env) items ->
    wikitext (serializeDOM env w
                (Element nodeName attribs (map Flat.node items)))
    = Some (bullet
            +:+ JS.join (JS.nl +:+ bullet) (map Flat.entryText items))
    /\ listStack (protoAfter (serializeDOM env w
                    (Element nodeName attribs (map Flat.node items)))) = [].
Proof.
  intros w nodeName bullet attribs da items Hname Hrt Hhtml Hstack Hall.
  set (name := toLowerCase nodeName) in *.
  set (a := _getDOMAttribs attribs).
  assert (Hb : bullet = "*" \/ bullet = "#") by (destruct Hname; tauto).
  assert (Hn : name = "ul" \/ name = "ol") by (destruct Hname; tauto).
  destruct (list_start name bullet a da w Hname Hhtml Hstack)
    as (p1 & s1 & H1 & Hstack1 & Hin1 & Hnl1 & Htag1).
  assert (Hwalk :
    exists (p' : Proto) (s' : State) (sol : bool),
      _serializeDOM env (Element nodeName attribs (map Flat.node items))
        (newWorld w) = (Ok tt, mkWorld p' s')
      /\ listStack p' = []
      /\ inline s' 0 sol true
           (bullet :: match map Flat.entryText items with
                      | [] => []
                      | t :: rest =>
                          t :: concat (map (fun x => [JS.nl +:+ bullet; x])
                                         rest)
                      end)).
  { cbn [_serializeDOM]. fold name a. unfold bind at 1.
    rewrite (getDOMRTInfo_parsed env attribs da (newWorld w) Hrt).
    unfold bind at 1. rewrite H1.
    destruct Hall as [|e items He Hall].
    - destruct (list_close name a da p1 s1 _ _ _ Hn Hhtml Hstack1 Hin1)
        as (p2 & s2 & H2 & Hstack2 & Hin2).
      exists p2, s2, true. cbn [map]. unfold bind at 1.
      cbv beta iota zeta delta [ret].
      split; [exact H2 | split; [exact Hstack2 | exact Hin2]].
    - destruct (first_item bullet e p1 s1 _ _ _ _ He Hstack1 Hin1 Hnl1 Htag1)
        as (p2 & s2 & H2 & Hstack2 & Hafter2).
      destruct (more_items bullet items Hb Hall p2 s2 0 _ Hstack2 Hafter2)
        as (p3 & s3 & H3 & Hstack3 & (Hin3 & _)).
      destruct (list_close name a da p3 s3 _ _ _ Hn Hhtml Hstack3 Hin3)
        as (p4 & s4 & H4 & Hstack4 & Hin4).
      exists p4, s4, false. cbn [map].
      unfold bind at 1; unfold bind at 1. rewrite H2, H3.
      split; [exact H4 | split; [exact Hstack4 | exact Hin4]]. }
  destruct Hwalk as (p' & s' & sol & Hrun & Hstack' & Hin').
  destruct (serializeEOF_inline p' s' _ _ _ _ Hin') as (s'' & Heof & Hch).
  unfold serializeDOM, bind. rewrite Hrun, Heof.
  cbn [wikitext protoAfter state proto]. split; [| exact Hstack'].
  rewrite Hch. f_equal.
  rewrite join_empty_app, join_empty_cons.
  cbn [JS.join String.concat]. rewrite append_Empty_r. f_equal.
  destruct (map Flat.entryText items) as [|t rest]; [reflexivity |].
  apply join_lines.
Qed.

End Markup.

(** *** Paragraphs *)

Section Paragraphs.
Import WS Line.
Variable env : Env.

(** The escaper in a newline context and outside an indent-pre, on a text
    that the tokenizer reads as it is. *)
Lemma escapeWikiText_unguarded (text : string) (p : Proto) (s : State) :
  _inNewLineContext s = true ->
  inIndentPre s = false ->
  tokenize env text = [Str text; EOFTk] ->
  escapeWikiText env text (mkWorld p s) = (Ok text, mkWorld p s).
Proof.
  intros Hnl Hip Htok.
  assert (Hg : guardedText s text = text).
  { unfold guardedText. now rewrite Hnl, Hip. }
  rewrite (escapeWikiText_returns env _ _ [Str text; EOFTk]).
  - cbn [state proto]. rewrite Hnl, escapeTokens_plain.
    cbn [caughtWarning]. unfold unguarded. rewrite Hip.
    cbn [outTexts]. rewrite join_one, !app_nil_r. now destruct s.
  - cbn [state]. unfold tokensToEscape. now rewrite Hnl, Hg, Htok.
Qed.

Lemma afterHandler_owed (text : string) (p : Proto) (s : State) (n : nat)
    (sol e : bool) (out : list string) :
  plainText text = true ->
  owing s n sol e out ->
  exists s' : State,
    afterHandler env NoHandler (Str text) text (mkWorld p s)
    = (Ok tt, mkWorld p s')
    /\ owing s' 0 false (e && JS.allSpace text)
         (out ++ [JS.newlines
                    (if negb (JS.allSpace text) && e && Nat.eqb n 0
                     then 1 else n) +:+ text])
    /\ onNewline s' = false.
Proof.
  intros Hplain Hin.
  pose proof (matchNewlines_plain text Hplain) as Hmatch.
  assert (Hne : JS.nonEmpty text = true).
  { unfold plainText in Hplain. now destruct (JS.nonEmpty text). }
  destruct Hin as (Hsol & Hemit & Hout & Hav & Hslm & Hdrop & Htail & Hnw
                   & Hhp & Hip & Hth).
  destruct s as [onl osl av slm emit drop tail pt ct ptt ctt nw hp ip th ch
                 con].
  cbn in Hsol, Hemit, Hout, Hav, Hslm, Hdrop, Htail, Hnw, Hhp, Hip, Hth.
  subst.
  unfold afterHandler, stripNewlines.
  destruct text as [|c r]; [discriminate |]. rewrite Hmatch.
  set (res := String c r) in *.
  unfold emitText, separatePair, warn.
  cbv beta iota zeta delta [bind ret modifyState getProto getState when
                              chunkCB state proto].
  cbn [descOf emptyDesc pairSepNLCount startsNewline endsLine singleLine
       newlineTransparent Z.ltb Z.compare
       set_availableNewlineCount set_console availableNewlineCount
       onNewline onStartOfLine singleLineMode emitNewlineOnNextToken
       dropContent dropTail prevToken curToken prevTagToken currTagToken
       inNoWiki inHTMLPre inIndentPre textHandler chunks console
       Nat.ltb Nat.leb negb andb orb].
  rewrite Hne, !Nat.add_0_r.
  destruct (debug env), (JS.allSpace res), e, n as [|n];
    cbv beta iota zeta delta [bind ret modifyState getProto getState when
                                chunkCB state proto];
    cbn [set_emitNewlineOnNextToken
         set_onStartOfLine set_onNewline set_chunks
         set_availableNewlineCount set_console availableNewlineCount
         onNewline onStartOfLine singleLineMode emitNewlineOnNextToken
         dropContent dropTail prevToken curToken prevTagToken currTagToken
         inNoWiki inHTMLPre inIndentPre textHandler chunks console
         Nat.add Nat.ltb Nat.leb negb andb orb Nat.eqb
         onOneLine withoutTail];
    rewrite ?Hne;
    cbn; (eexists; split; [reflexivity |]);
    unfold owing; cbn; repeat split; reflexivity.
Qed.

Lemma serializeText_owed (text : string) (p : Proto) (s : State) (n : nat)
    (sol e : bool) (out : list string) :
  tokenize env text = [Str text; EOFTk] ->
  plainText text = true ->
  owing s n sol e out ->
  onNewline s || e || Nat.ltb 0 n = true ->
  exists s' : State,
    _serializeToken env (Str text) (mkWorld p s) = (Ok tt, mkWorld p s')
    /\ owing s' 0 false (e && JS.allSpace text)
         (out ++ [JS.newlines
                    (if negb (JS.allSpace text) && e && Nat.eqb n 0
                     then 1 else n) +:+ text])
    /\ onNewline s' = false.
Proof.
  intros Htok Hplain Hin Hctx.
  set (s1 := set_curToken (Some (Str text)) (set_prevToken (curToken s) s)).
  assert (Hin1 : owing s1 n sol e out /\ onNewline s1 = onNewline s)
    by (subst s1; destruct s; split; [assumption | reflexivity]).
  destruct Hin1 as [Hin1 Hnl1].
  pose proof Hin1 as (Hsol & Hemit & Hout & Hav & Hslm & Hdrop & Htail & Hnw
                      & Hhp & Hip & Hth).
  assert (Hesc : escapeWikiText env text (mkWorld p s1)
                 = (Ok text, mkWorld p s1)).
  { apply escapeWikiText_unguarded; try assumption.
    unfold _inNewLineContext. now rewrite Hnl1, Hemit, Hav. }
  assert (Hd : dispatchToken env (Str text) (mkWorld p s)
               = (Ok (NoHandler, text), mkWorld p s1)).
  { unfold dispatchToken.
    cbv beta iota zeta delta [bind ret modifyState getProto getState
                                state proto].
    fold s1. rewrite Hnw, Hhp. cbn [orb]. rewrite Hesc.
    unfold applyTextHandler. now rewrite Hth. }
  rewrite (serializeToken_run env _ _ _ _ _ Hd). cbn [state].
  replace (dropContent s) with false by (destruct Hin as (_ & _ & _ & _ & _ & -> & _); reflexivity).
  cbn [negb orb].
  exact (afterHandler_owed text p s1 n sol e out Hplain Hin1).
Qed.


Ltac run_tag :=
  match goal with
  | |- exists s', ?m ?w = _ /\ _ =>
      destruct (m w) as [r w'] eqn:Ha; vm_compute in Ha;
      injection Ha as <- <-; eexists; split; [reflexivity |]
  end.

Ltac open_owing H :=
  let Hsol := fresh in let Hemit := fresh in let Hout := fresh in
  let Hav := fresh in let Hslm := fresh in let Hdrop := fresh in
  let Htail := fresh in let Hnw := fresh in let Hhp := fresh in
  let Hip := fresh in let Hth := fresh in
  destruct H as (Hsol & Hemit & Hout & Hav & Hslm & Hdrop & Htail & Hnw
                 & Hhp & Hip & Hth);
  cbn in Hsol, Hemit, Hout, Hav, Hslm, Hdrop, Htail, Hnw, Hhp, Hip, Hth.

Ltac start_tag Hhtml :=
  unfold _serializeToken, dispatchToken, afterHandler, _getTokenHandler;
  cbn [tokenDA tokenName Pre.tagName]; rewrite Hhtml.

Lemma body_open (a : list KV) (da : DataAttribs) (w : Proto) :
  isStr (stx da) "html" = false ->
  exists s' : State,
    _serializeToken env (TagTk "body" a da) (newWorld w)
    = (Ok tt, mkWorld w s')
    /\ owing s' 0 true false [] /\ onNewline s' = true
    /\ currTagToken s' = Some (TagTk "body" a da).
Proof.
  intros Hhtml. unfold newWorld. start_tag Hhtml.
  destruct (debug env); run_tag;
    (split; [| split; reflexivity]);
    unfold owing; cbn; repeat split; reflexivity.
Qed.

Lemma body_close (a : list KV) (da : DataAttribs) (p : Proto) (s : State)
    (sol e : bool) (out : list string) :
  isStr (stx da) "html" = false ->
  owing s 0 sol e out ->
  exists s' : State,
    _serializeToken env (EndTagTk "body" a da) (mkWorld p s)
    = (Ok tt, mkWorld p s')
    /\ owing s' 0 sol e out.
Proof.
  intros Hhtml Hin. destruct s. open_owing Hin. subst. start_tag Hhtml.
  destruct (debug env); run_tag;
    unfold owing; cbn; repeat split; reflexivity.
Qed.

Lemma paragraph_open_first (a : list KV) (da : DataAttribs) (p : Proto)
    (s : State) (out : list string) (name0 : string) (a0 : list KV)
    (da0 : DataAttribs) :
  isStr (stx da) "html" = false ->
  owing s 0 true false out -> onNewline s = true ->
  currTagToken s = Some (TagTk name0 a0 da0) ->
  exists s' : State,
    _serializeToken env (TagTk "p" a da) (mkWorld p s)
    = (Ok tt, mkWorld p s')
    /\ owing s' 0 true false out /\ onNewline s' = true.
Proof.
  intros Hhtml Hin Hnl Htag. destruct s. cbn in Hnl, Htag. open_owing Hin.
  subst. start_tag Hhtml.
  destruct (debug env); run_tag;
    (split; [| reflexivity]);
    unfold owing; cbn; repeat split; reflexivity.
Qed.

Lemma paragraph_open_next (a : list KV) (da : DataAttribs) (p : Proto)
    (s : State) (out : list string) :
  isStr (stx da) "html" = false ->
  Para.afterParagraph s out ->
  exists s' : State,
    _serializeToken env (TagTk "p" a da) (mkWorld p s)
    = (Ok tt, mkWorld p s')
    /\ owing s' 2 false true out.
Proof.
  intros Hhtml (Hin & a0 & da0 & Htag). destruct s. cbn in Htag.
  open_owing Hin. subst. start_tag Hhtml.
  destruct (debug env); run_tag;
    unfold owing; cbn; repeat split; reflexivity.
Qed.

Lemma paragraph_close (a : list KV) (da : DataAttribs) (p : Proto)
    (s : State) (e : bool) (out : list string) :
  isStr (stx da) "html" = false ->
  owing s 0 false e out ->
  exists s' : State,
    _serializeToken env (EndTagTk "p" a da) (mkWorld p s)
    = (Ok tt, mkWorld p s')
    /\ Para.afterParagraph s' out.
Proof.
  intros Hhtml Hin. destruct s. open_owing Hin. subst. start_tag Hhtml.
  destruct (debug env); run_tag;
    (split; [| now exists a, da]);
    unfold owing; cbn; repeat split; reflexivity.
Qed.

Lemma first_paragraph (e : Flat.Entry) (p : Proto) (s : State)
    (out : list string) (name0 : string) (a0 : list KV) (da0 : DataAttribs) :
  Para.plain env e ->
  owing s 0 true false out -> onNewline s = true ->
  currTagToken s = Some (TagTk name0 a0 da0) ->
  exists s' : State,
    _serializeDOM env (Flat.node e) (mkWorld p s) = (Ok tt, mkWorld p s')
    /\ Para.afterParagraph s' (out ++ [Flat.entryText e]).
Proof.
  intros (Hname & (da & Hrt & Hhtml) & Htok & Hplain) Hin Hnl Htag.
  set (a := _getDOMAttribs (Flat.entryAttribs e)).
  destruct (paragraph_open_first a da p s out name0 a0 da0 Hhtml Hin Hnl
              Htag) as (s1 & H1 & Hin1 & Hnl1).
  destruct (serializeText_owed (Flat.entryText e) p s1 _ _ _ _ Htok Hplain
              Hin1 ltac:(now rewrite Hnl1))
    as (s2 & H2 & Hin2 & Hnl2).
  rewrite andb_false_r in Hin2. cbn [andb JS.newlines] in Hin2.
  rewrite append_Empty in Hin2.
  destruct (paragraph_close a da p s2 _ _ Hhtml Hin2) as (s3 & H3 & Hafter).
  exists s3. split; [| exact Hafter].
  unfold Flat.node. cbn [_serializeDOM]. rewrite Hname.
  unfold bind at 1. rewrite (getDOMRTInfo_parsed env _ da _ Hrt).
  fold a. unfold bind at 1. rewrite H1.
  unfold bind at 1; unfold bind at 1. rewrite H2.
  cbv beta iota zeta delta [ret]. exact H3.
Qed.

Lemma next_paragraph (e : Flat.Entry) (p : Proto) (s : State)
    (out : list string) :
  Para.plain env e ->
  Para.afterParagraph s out ->
  exists s' : State,
    _serializeDOM env (Flat.node e) (mkWorld p s) = (Ok tt, mkWorld p s')
    /\ Para.afterParagraph s'
         (out ++ [(JS.nl +:+ JS.nl) +:+ Flat.entryText e]).
Proof.
  intros (Hname & (da & Hrt & Hhtml) & Htok & Hplain) Hafter.
  set (a := _getDOMAttribs (Flat.entryAttribs e)).
  destruct (paragraph_open_next a da p s out Hhtml Hafter)
    as (s1 & H1 & Hin1).
  destruct (serializeText_owed (Flat.entryText e) p s1 _ _ _ _ Htok Hplain
              Hin1 ltac:(now rewrite orb_true_r))
    as (s2 & H2 & Hin2 & Hnl2).
  cbn [Nat.eqb] in Hin2. rewrite andb_false_r in Hin2.
  destruct (paragraph_close a da p s2 _ _ Hhtml Hin2) as (s3 & H3 & Hafter3).
  exists s3. split; [| exact Hafter3].
  unfold Flat.node. cbn [_serializeDOM]. rewrite Hname.
  unfold bind at 1. rewrite (getDOMRTInfo_parsed env _ da _ Hrt).
  fold a. unfold bind at 1. rewrite H1.
  unfold bind at 1; unfold bind at 1. rewrite H2.
  cbv beta iota zeta delta [ret]. exact H3.
Qed.

Lemma more_paragraphs (items : list Flat.Entry) :
  Forall (Para.plain env) items ->
  forall (p : Proto) (s : State) (out : list string),
    Para.afterParagraph s out ->
    exists s' : State,
      (fix serializeChildren (nodes : list Node) : M unit :=
         match nodes with
         | [] => ret tt
         | child :: rest =>
             _serializeDOM env child ;;; serializeChildren rest
         end) (map Flat.node items) (mkWorld p s)
      = (Ok tt, mkWorld p s')
      /\ Para.afterParagraph s'
           (out ++ map (fun t => (JS.nl +:+ JS.nl) +:+ t)
                     (map Flat.entryText items)).
Proof.
  intros Hall.
  match goal with
  | |- forall p s out, _ -> exists s', ?f _ _ = _ /\ _ => set (walk := f)
  end.
  induction Hall as [|e items He Hall IH]; intros p s out Hafter.
  - exists s. cbn [map]. rewrite app_nil_r.
    split; [reflexivity | exact Hafter].
  - destruct (next_paragraph e p s out He Hafter) as (s1 & H1 & Hafter1).
    destruct (IH p s1 _ Hafter1) as (s2 & H2 & Hafter2).
    exists s2. split.
    + cbn [map].
      change (walk (Flat.node e :: map Flat.node items))
        with (_serializeDOM env (Flat.node e) ;;; walk (map Flat.node items)).
      unfold bind at 1. rewrite H1. exact H2.
    + cbn [map]. rewrite <- app_assoc in Hafter2. exact Hafter2.
Qed.

Lemma join_separated (sep t : string) (rest : list string) :
  JS.join "" (t :: map (fun x => sep +:+ x) rest) = JS.join sep (t :: rest).
Proof.
  revert t. induction rest as [|x rest IH]; intros t; [reflexivity |].
  cbn [map]. rewrite join_empty_cons. 
  assert (Hr : JS.join sep (t :: x :: rest)
               = t +:+ sep +:+ JS.join sep (x :: rest)) by reflexivity.
  rewrite Hr, <- IH, !join_empty_cons. now rewrite append_assoc_s.
Qed.

(** X26.  A body whose children are paragraphs that each hold one text
    without line breaks: [serializeDOM] returns the texts with an empty
    line between one and the next, whatever the prototype object holds.
    The body and the paragraphs are not marked as HTML tags. *)
Theorem paragraphs_are_separated_by_an_empty_line :
  forall (w : Proto) (nodeName : string) (attribs : list KV)
         (da : DataAttribs) (items : list Flat.Entry),
    toLowerCase nodeName = "body" ->
    Walk.rtInfoOf env attribs = Some da ->
    isStr (stx da) "html" = false ->
    Forall (Para.plain env) items ->
    wikitext (serializeDOM env w
                (Element nodeName attribs (map Flat.node items)))
    = Some (JS.join (JS.nl +:+ JS.nl) (map Flat.entryText items)).
Proof.
  intros w nodeName attribs da items Hname Hrt Hhtml Hall.
  set (a := _getDOMAttribs attribs).
  destruct (body_open a da w Hhtml) as (s1 & H1 & Hin1 & Hnl1 & Htag1).
  assert (Hwalk :
    exists (s' : State) (sol e : bool),
      _serializeDOM env (Element nodeName attribs (map Flat.node items))
        (newWorld w) = (Ok tt, mkWorld w s')
      /\ inline s' 0 sol e
           match map Flat.entryText items with
           | [] => []
           | t :: rest => t :: map (fun x => (JS.nl +:+ JS.nl) +:+ x) rest
           end).
  { cbn [_serializeDOM]. rewrite Hname. fold a. unfold bind at 1.
    rewrite (getDOMRTInfo_parsed env attribs da (newWorld w) Hrt).
    unfold bind at 1. rewrite H1.
    destruct Hall as [|e items He Hall].
    - destruct (body_close a da w s1 _ _ _ Hhtml Hin1) as (s2 & H2 & Hin2).
      exists s2, true, false. cbn [map]. unfold bind at 1.
      cbv beta iota zeta delta [ret]. split; [exact H2 | exact Hin2].
    - destruct (first_paragraph e w s1 _ _ _ _ He Hin1 Hnl1 Htag1)
        as (s2 & H2 & Hafter2).
      destruct (more_paragraphs items Hall w s2 _ Hafter2)
        as (s3 & H3 & (Hin3 & _)).
      destruct (body_close a da w s3 _ _ _ Hhtml Hin3) as (s4 & H4 & Hin4).
      exists s4, false, true. cbn [map].
      unfold bind at 1; unfold bind at 1. rewrite H2, H3.
      split; [exact H4 | exact Hin4]. }
  destruct Hwalk as (s' & sol & e & Hrun & Hin').
  destruct (serializeEOF_inline env w s' _ _ _ _ Hin') as (s'' & Heof & Hch).
  unfold serializeDOM, bind. rewrite Hrun, Heof.
  cbn [wikitext state]. rewrite Hch. f_equal.
  rewrite join_empty_app. cbn [JS.join String.concat].
  rewrite append_Empty_r.
  destruct (map Flat.entryText items) as [|t rest]; [reflexivity |].
  apply join_separated.
Qed.

End Paragraphs.

(** *** Tables *)

Section Tables.
Import WS Line.
Variable env : Env.

Ltac run_tag :=
  match goal with
  | |- exists p' s', ?m ?w = _ /\ _ =>
      destruct (m w) as [r w'] eqn:Ha; vm_compute in Ha;
      injection Ha as <- <-; eexists _, _; split; [reflexivity |]
  | |- exists s', ?m ?w = _ /\ _ =>
      destruct (m w) as [r w'] eqn:Ha; vm_compute in Ha;
      injection Ha as <- <-; eexists; split; [reflexivity |]
  end.

Ltac open_owing H :=
  let Hsol := fresh in let Hemit := fresh in let Hout := fresh in
  let Hav := fresh in let Hslm := fresh in let Hdrop := fresh in
  let Htail := fresh in let Hnw := fresh in let Hhp := fresh in
  let Hip := fresh in let Hth := fresh in
  destruct H as (Hsol & Hemit & Hout & Hav & Hslm & Hdrop & Htail & Hnw
                 & Hhp & Hip & Hth);
  cbn in Hsol, Hemit, Hout, Hav, Hslm, Hdrop, Htail, Hnw, Hhp, Hip, Hth.

Ltac start_tag :=
  unfold _serializeToken, dispatchToken, afterHandler.

Ltac owing_tac := unfold owing; cbn; repeat split; reflexivity.

Lemma table_open (w : Proto) :
  exists s' : State,
    _serializeToken env (TagTk "table" [] noDA) (newWorld w)
    = (Ok tt, mkWorld w s')
    /\ owing s' 0 false false ["{|"] /\ onNewline s' = false
    /\ currTagToken s' = Some (TagTk "table" [] noDA).
Proof.
  unfold newWorld. start_tag.
  destruct (debug env); run_tag;
    (split; [| split; reflexivity]); owing_tac.
Qed.

Lemma tbody_open (p : Proto) (s : State) (out : list string) :
  owing s 0 false false out ->
  exists s' : State,
    _serializeToken env (TagTk "tbody" [] noDA) (mkWorld p s)
    = (Ok tt, mkWorld p s')
    /\ owing s' 0 false false out
    /\ curToken s' = Some (TagTk "tbody" [] noDA)
    /\ currTagToken s' = currTagToken s.
Proof.
  intros Hin. destruct s. open_owing Hin. subst. start_tag.
  destruct (debug env); run_tag;
    (split; [| split; reflexivity]); owing_tac.
Qed.

Lemma tbody_close (p : Proto) (s : State) (e : bool) (out : list string) :
  owing s 0 false e out ->
  exists s' : State,
    _serializeToken env (EndTagTk "tbody" [] noDA) (mkWorld p s)
    = (Ok tt, mkWorld p s')
    /\ owing s' 0 false e out
    /\ currTagToken s' = currTagToken s.
Proof.
  intros Hin. destruct s. open_owing Hin. subst. start_tag.
  destruct (debug env); run_tag;
    (split; [| reflexivity]); owing_tac.
Qed.

Lemma tr_open_first (p : Proto) (s : State) (out : list string) :
  owing s 0 false false out ->
  curToken s = Some (TagTk "tbody" [] noDA) ->
  exists s' : State,
    _serializeToken env (TagTk "tr" [] noDA) (mkWorld p s)
    = (Ok tt, mkWorld p s')
    /\ owing s' 0 false true out.
Proof.
  intros Hin Hcur. destruct s. cbn in Hcur. open_owing Hin. subst.
  start_tag.
  destruct (debug env); run_tag; owing_tac.
Qed.

Lemma tr_open_next (p : Proto) (s : State) (out : list string) :
  Grid.afterRow s out ->
  exists s' : State,
    _serializeToken env (TagTk "tr" [] noDA) (mkWorld p s)
    = (Ok tt, mkWorld p s')
    /\ owing s' 0 false false (out ++ [JS.nl +:+ "|-"]).
Proof.
  intros ((e & Hin) & Hcur & Htag). destruct s. cbn in Hcur, Htag.
  open_owing Hin. subst. start_tag.
  destruct e, (debug env); run_tag; owing_tac.
Qed.

Lemma tr_close (p : Proto) (s : State) (e : bool) (out : list string) :
  owing s 0 false e out ->
  exists s' : State,
    _serializeToken env (EndTagTk "tr" [] noDA) (mkWorld p s)
    = (Ok tt, mkWorld p s')
    /\ Grid.afterRow s' out.
Proof.
  intros Hin. destruct s. open_owing Hin. subst. start_tag.
  destruct (debug env); run_tag;
    (split; [exists e; owing_tac | split; reflexivity]).
Qed.

Lemma td_open (p : Proto) (s : State) (e : bool) (out : list string) :
  owing s 0 false e out ->
  exists (p' : Proto) (s' : State),
    _serializeToken env (TagTk "td" [] noDA) (mkWorld p s)
    = (Ok tt, mkWorld p' s')
    /\ owing s' 0 false false (out ++ [JS.nl +:+ "|"])
    /\ onNewline s' = false.
Proof.
  intros Hin. destruct p, s. open_owing Hin. subst. start_tag.
  destruct e, (debug env); run_tag;
    (split; [| reflexivity]); owing_tac.
Qed.

Lemma td_close (p : Proto) (s : State) (out : list string) :
  owing s 0 false false out ->
  exists s' : State,
    _serializeToken env (EndTagTk "td" [] noDA) (mkWorld p s)
    = (Ok tt, mkWorld p s')
    /\ owing s' 0 false false out.
Proof.
  intros Hin. destruct s. open_owing Hin. subst. start_tag.
  destruct (debug env); run_tag; owing_tac.
Qed.

Lemma table_close (p : Proto) (s : State) (e : bool) (out : list string) :
  owing s 0 false e out ->
  currTagToken s = Some (EndTagTk "tr" [] noDA) ->
  exists (p' : Proto) (s' : State),
    _serializeToken env (EndTagTk "table" [] noDA) (mkWorld p s)
    = (Ok tt, mkWorld p' s')
    /\ owing s' 0 false false (out ++ [JS.nl +:+ "|}"]).
Proof.
  intros Hin Htag. destruct p, s. cbn in Htag.
  open_owing Hin. subst. start_tag.
  destruct e, (debug env); run_tag; owing_tac.
Qed.

Lemma table_close_empty (p : Proto) (s : State) (out : list string) :
  owing s 0 false false out ->
  currTagToken s = Some (TagTk "table" [] noDA) ->
  exists (p' : Proto) (s' : State),
    _serializeToken env (EndTagTk "table" [] noDA) (mkWorld p s)
    = (Ok tt, mkWorld p' s')
    /\ owing s' 0 false false (out ++ ["|}"]).
Proof.
  intros Hin Htag. destruct p, s. cbn in Htag.
  open_owing Hin. subst. start_tag.
  destruct (debug env); run_tag; owing_tac.
Qed.


Lemma cell_run (text : string) (p : Proto) (s : State) (e : bool)
    (out : list string) :
  Grid.plain env text ->
  owing s 0 false e out ->
  exists (p' : Proto) (s' : State),
    _serializeDOM env (Grid.cell text) (mkWorld p s)
    = (Ok tt, mkWorld p' s')
    /\ owing s' 0 false false (out ++ [JS.nl +:+ "|"; text]).
Proof.
  intros (Htok & Hplain) Hin.
  destruct (td_open p s e out Hin) as (p1 & s1 & H1 & Hin1 & Hnl1).
  destruct (serializeText_inline env text p1 s1 _ _ _ Htok Hplain Hnl1 Hin1)
    as (s2 & H2 & Hin2 & Hnl2).
  destruct (td_close p1 s2 _ Hin2) as (s3 & H3 & Hin3).
  exists p1, s3. split.
  - unfold Grid.cell. cbn [_serializeDOM]. unfold bind at 1.
    cbn [_getDOMRTInfo find ret]. change (_getDOMAttribs []) with (@nil KV).
    change (toLowerCase "TD") with "td".
    unfold bind at 1. rewrite H1.
    unfold bind at 1; unfold bind at 1. rewrite H2.
    cbv beta iota zeta delta [ret]. exact H3.
  - rewrite <- app_assoc in Hin3. exact Hin3.
Qed.

Lemma cells_run (cells : list string) :
  Forall (Grid.plain env) cells ->
  forall (p : Proto) (s : State) (e : bool) (out : list string),
    owing s 0 false e out ->
    exists (p' : Proto) (s' : State) (e' : bool),
      (fix serializeChildren (nodes : list Node) : M unit :=
         match nodes with
         | [] => ret tt
         | child :: rest =>
             _serializeDOM env child ;;; serializeChildren rest
         end) (map Grid.cell cells) (mkWorld p s)
      = (Ok tt, mkWorld p' s')
      /\ owing s' 0 false e'
           (out ++ concat (map (fun t => [JS.nl +:+ "|"; t]) cells)).
Proof.
  intros Hall.
  match goal with
  | |- forall p s e out, _ -> exists p' s' e', ?f _ _ = _ /\ _ =>
      set (walk := f)
  end.
  induction Hall as [|t cells Ht Hall IH]; intros p s e out Hin.
  - exists p, s, e. cbn [map concat]. rewrite app_nil_r.
    split; [reflexivity | exact Hin].
  - destruct (cell_run t p s e out Ht Hin) as (p1 & s1 & H1 & Hin1).
    destruct (IH p1 s1 _ _ Hin1) as (p2 & s2 & e2 & H2 & Hin2).
    exists p2, s2, e2. split.
    + cbn [map].
      change (walk (Grid.cell t :: map Grid.cell cells))
        with (_serializeDOM env (Grid.cell t) ;;; walk (map Grid.cell cells)).
      unfold bind at 1. rewrite H1. exact H2.
    + cbn [map concat]. rewrite <- app_assoc in Hin2. exact Hin2.
Qed.

Lemma element_walk (nodeName name : string) (children : list Node)
    (w w1 w2 w3 : World) :
  toLowerCase nodeName = name ->
  _serializeToken env (TagTk name [] noDA) w = (Ok tt, w1) ->
  (fix serializeChildren (nodes : list Node) : M unit :=
     match nodes with
     | [] => ret tt
     | child :: rest => _serializeDOM env child ;;; serializeChildren rest
     end) children w1
  = (Ok tt, w2) ->
  _serializeToken env (EndTagTk name [] noDA) w2 = (Ok tt, w3) ->
  _serializeDOM env (Element nodeName [] children) w = (Ok tt, w3).
Proof.
  intros Hname H1 H2 H3. cbn [_serializeDOM]. unfold bind at 1.
  cbn [_getDOMRTInfo find ret]. change (_getDOMAttribs []) with (@nil KV).
  rewrite Hname.
  unfold bind at 1. rewrite H1. unfold bind at 1. rewrite H2. exact H3.
Qed.

Lemma first_row (cells : list string) (p : Proto) (s : State)
    (out : list string) :
  Forall (Grid.plain env) cells ->
  owing s 0 false false out ->
  curToken s = Some (TagTk "tbody" [] noDA) ->
  exists (p' : Proto) (s' : State),
    _serializeDOM env (Grid.row cells) (mkWorld p s)
    = (Ok tt, mkWorld p' s')
    /\ Grid.afterRow s'
         (out ++ concat (map (fun t => [JS.nl +:+ "|"; t]) cells)).
Proof.
  intros Hall Hin Hcur.
  destruct (tr_open_first p s out Hin Hcur) as (s1 & H1 & Hin1).
  destruct (cells_run cells Hall p s1 _ _ Hin1)
    as (p2 & s2 & e2 & H2 & Hin2).
  destruct (tr_close p2 s2 _ _ Hin2) as (s3 & H3 & Hafter).
  exists p2, s3. split; [| exact Hafter].
  exact (element_walk "TR" "tr" _ _ _ _ _ eq_refl H1 H2 H3).
Qed.

Lemma next_row (cells : list string) (p : Proto) (s : State)
    (out : list string) :
  Forall (Grid.plain env) cells ->
  Grid.afterRow s out ->
  exists (p' : Proto) (s' : State),
    _serializeDOM env (Grid.row cells) (mkWorld p s)
    = (Ok tt, mkWorld p' s')
    /\ Grid.afterRow s'
         (out ++ (JS.nl +:+ "|-")
                 :: concat (map (fun t => [JS.nl +:+ "|"; t]) cells)).
Proof.
  intros Hall Hafter.
  destruct (tr_open_next p s out Hafter) as (s1 & H1 & Hin1).
  destruct (cells_run cells Hall p s1 _ _ Hin1)
    as (p2 & s2 & e2 & H2 & Hin2).
  destruct (tr_close p2 s2 _ _ Hin2) as (s3 & H3 & Hafter3).
  exists p2, s3. split.
  - exact (element_walk "TR" "tr" _ _ _ _ _ eq_refl H1 H2 H3).
  - rewrite <- app_assoc in Hafter3. exact Hafter3.
Qed.

Lemma more_rows (rows : list (list string)) :
  Forall (Forall (Grid.plain env)) rows ->
  forall (p : Proto) (s : State) (out : list string),
    Grid.afterRow s out ->
    exists (p' : Proto) (s' : State),
      (fix serializeChildren (nodes : list Node) : M unit :=
         match nodes with
         | [] => ret tt
         | child :: rest =>
             _serializeDOM env child ;;; serializeChildren rest
         end) (map Grid.row rows) (mkWorld p s)
      = (Ok tt, mkWorld p' s')
      /\ Grid.afterRow s'
           (out ++ concat
                     (map (fun cells =>
                             (JS.nl +:+ "|-")
                             :: concat (map (fun t => [JS.nl +:+ "|"; t])
                                          cells)) rows)).
Proof.
  intros Hall.
  match goal with
  | |- forall p s out, _ -> exists p' s', ?f _ _ = _ /\ _ => set (walk := f)
  end.
  induction Hall as [|cells rows Hc Hall IH]; intros p s out Hafter.
  - exists p, s. cbn [map concat]. rewrite app_nil_r.
    split; [reflexivity | exact Hafter].
  - destruct (next_row cells p s out Hc Hafter) as (p1 & s1 & H1 & Hafter1).
    destruct (IH p1 s1 _ Hafter1) as (p2 & s2 & H2 & Hafter2).
    exists p2, s2. split.
    + cbn [map].
      change (walk (Grid.row cells :: map Grid.row rows))
        with (_serializeDOM env (Grid.row cells) ;;; walk (map Grid.row rows)).
      unfold bind at 1. rewrite H1. exact H2.
    + cbn [map concat]. rewrite <- app_assoc in Hafter2. exact Hafter2.
Qed.

Lemma join_pairs (mark : string) (cells : list string) :
  JS.join "" (concat (map (fun t => [mark; t]) cells))
  = JS.join "" (map (fun t => mark +:+ t) cells).
Proof.
  induction cells as [|t cells IH]; [reflexivity |].
  cbn [map concat app]. rewrite !join_empty_cons, IH.
  now rewrite append_assoc_s.
Qed.

Lemma join_groups (sep : string) (f : list string -> list string)
    (rows : list (list string)) (x : list string) :
  JS.join "" (x ++ concat (map (fun r => sep :: f r) rows))
  = JS.join sep (JS.join "" x :: map (fun r => JS.join "" (f r)) rows).
Proof.
  revert x. induction rows as [|r rows IH]; intros x.
  - cbn [map concat]. now rewrite app_nil_r.
  - cbn [map concat].
    assert (Hr : forall a b l, JS.join sep (a :: b :: l)
                               = a +:+ sep +:+ JS.join sep (b :: l))
      by reflexivity.
    rewrite Hr, <- IH, !join_empty_app, join_empty_cons.
    now rewrite append_assoc_s.
Qed.

(** X27.  A table of rows of cells that each hold one text without line
    breaks, where no element has an attribute: [serializeDOM] returns the
    table between its two marks, with every cell on a line of its own
    after a bar and a line with the row mark between one row and the
    next.  A table without rows gives the two marks on one line. *)
Theorem table_has_a_line_per_cell :
  forall (w : Proto) (rows : list (list string)),
    Forall (Forall (Grid.plain env)) rows ->
    wikitext (serializeDOM env w (Grid.table rows))
    = Some ("{|"
            +:+ JS.join (JS.nl +:+ "|-")
                  (map (fun cells =>
                          JS.join "" (map (fun t => (JS.nl +:+ "|") +:+ t)
                                        cells)) rows)
            +:+ match rows with [] => "" | _ :: _ => JS.nl end
            +:+ "|}").
Proof.
  intros w rows Hall.
  destruct (table_open w) as (s1 & H1 & Hin1 & Hnl1 & Htag1).
  destruct (tbody_open w s1 _ Hin1) as (s2 & H2 & Hin2 & Hcur2 & Htag2).
  rewrite Htag1 in Htag2.
  assert (Hwalk :
    exists (p' : Proto) (s' : State),
      _serializeDOM env (Grid.table rows) (newWorld w)
      = (Ok tt, mkWorld p' s')
      /\ owing s' 0 false false
           ("{|" :: match rows with
                    | [] => ["|}"]
                    | cells :: rest =>
                        (concat (map (fun t => [JS.nl +:+ "|"; t]) cells)
                         ++ concat
                              (map (fun cells =>
                                      (JS.nl +:+ "|-")
                                      :: concat
                                           (map (fun t => [JS.nl +:+ "|"; t])
                                              cells)) rest))
                        ++ [JS.nl +:+ "|}"]
                    end)).
  { destruct Hall as [|cells rows Hc Hall].
    - destruct (tbody_close w s2 _ _ Hin2) as (s3 & H3 & Hin3 & Htag3).
      rewrite Htag2 in Htag3.
      destruct (table_close_empty w s3 _ Hin3 Htag3)
        as (p4 & s4 & H4 & Hin4).
      exists p4, s4. split; [| exact Hin4].
      pose proof (element_walk "TBODY" "tbody" (map Grid.row [])
                    (mkWorld w s1) (mkWorld w s2) (mkWorld w s2)
                    (mkWorld w s3) eq_refl H2 eq_refl H3) as Hbody.
      refine (element_walk "TABLE" "table" _ (newWorld w) (mkWorld w s1)
                (mkWorld w s3) (mkWorld p4 s4) eq_refl H1 _ H4).
      unfold bind. now rewrite Hbody.
    - destruct (first_row cells w s2 _ Hc Hin2 Hcur2)
        as (p3 & s3 & H3 & Hafter3).
      destruct (more_rows rows Hall p3 s3 _ Hafter3)
        as (p4 & s4 & H4 & ((e4 & Hin4) & Hcur4 & Htag4)).
      destruct (tbody_close p4 s4 _ _ Hin4) as (s5 & H5 & Hin5 & Htag5).
      rewrite Htag4 in Htag5.
      destruct (table_close p4 s5 _ _ Hin5 Htag5) as (p6 & s6 & H6 & Hin6).
      exists p6, s6. split; [| exact Hin6].
      assert (Hbody : _serializeDOM env
                        (Element "TBODY" [] (map Grid.row (cells :: rows)))
                        (mkWorld w s1) = (Ok tt, mkWorld p4 s5)).
      { refine (element_walk "TBODY" "tbody" _ (mkWorld w s1) (mkWorld w s2)
                  (mkWorld p4 s4) (mkWorld p4 s5) eq_refl H2 _ H5).
        cbn [map]. unfold bind at 1. rewrite H3. exact H4. }
      refine (element_walk "TABLE" "table" _ (newWorld w) (mkWorld w s1)
                (mkWorld p4 s5) (mkWorld p6 s6) eq_refl H1 _ H6).
      unfold bind. now rewrite Hbody. }
  destruct Hwalk as (p' & s' & Hrun & Hin').
  destruct (serializeEOF_inline env p' s' _ _ _ _ Hin') as (s'' & Heof & Hch).
  unfold serializeDOM, bind. rewrite Hrun, Heof.
  cbn [wikitext state]. rewrite Hch. f_equal.
  rewrite join_empty_app, join_empty_cons.
  cbn [JS.join String.concat]. rewrite append_Empty_r. f_equal.
  destruct rows as [|cells rest].
  - cbn [map JS.join String.concat]. now rewrite !append_Empty.
  - rewrite join_empty_app. cbn [JS.join String.concat]. f_equal.
    rewrite (join_groups _ (fun cells =>
                              concat (map (fun t => [JS.nl +:+ "|"; t])
                                        cells))).
    rewrite join_pairs. cbn [map]. do 2 f_equal.
    apply map_ext. intros r. apply join_pairs.
Qed.

End Tables.

(** *** Terms and descriptions *)

Section DefinitionLists.
Import WS Line.
Variable env : Env.

Ltac run_tag :=
  match goal with
  | |- exists p' s', ?m ?w = _ /\ _ =>
      destruct (m w) as [r w'] eqn:Ha; vm_compute in Ha;
      injection Ha as <- <-; eexists _, _; split; [reflexivity |]
  | |- exists s', ?m ?w = _ /\ _ =>
      destruct (m w) as [r w'] eqn:Ha; vm_compute in Ha;
      injection Ha as <- <-; eexists; split; [reflexivity |]
  end.

Ltac open_owing H :=
  let Hsol := fresh in let Hemit := fresh in let Hout := fresh in
  let Hav := fresh in let Hslm := fresh in let Hdrop := fresh in
  let Htail := fresh in let Hnw := fresh in let Hhp := fresh in
  let Hip := fresh in let Hth := fresh in
  destruct H as (Hsol & Hemit & Hout & Hav & Hslm & Hdrop & Htail & Hnw
                 & Hhp & Hip & Hth);
  cbn in Hsol, Hemit, Hout, Hav, Hslm, Hdrop, Htail, Hnw, Hhp, Hip, Hth.

Ltac start_tag Hhtml :=
  unfold _serializeToken, dispatchToken, afterHandler, _getTokenHandler;
  cbn [tokenDA tokenName Pre.tagName]; rewrite Hhtml.

Ltac owing_tac := unfold owing, inline; cbn; repeat split; reflexivity.

Local Arguments isStr : simpl never.

Lemma dd_open (n : nat) (b0 : string) (a : list KV) (da : DataAttribs)
    (p : Proto) (s : State) (out : list string) :
  isStr (stx da) "html" = false ->
  listStack p = [mkListCtx (S n) "" b0] ->
  Terms.afterTerm s out ->
  exists (p' : Proto) (s' : State),
    _serializeToken env (TagTk "dd" a da) (mkWorld p s)
    = (Ok tt, mkWorld p' s')
    /\ listStack p' = [mkListCtx (S (S n)) "" ":"]
    /\ inline s' 1 (negb (isStr (stx da) "row")) false
         (out ++ [if isStr (stx da) "row" then ":" else JS.nl +:+ ":"])
    /\ onNewline s' = false.
Proof.
  intros Hhtml Hstack (Hin & Hnl & a0 & da0 & Hcur & Htag).
  destruct p, s. cbn in Hstack, Hnl, Hcur, Htag.
  open_owing Hin. subst.
  start_tag Hhtml.
  destruct (isStr (stx da) "row") eqn:Hrow; destruct (debug env);
    match goal with
    | |- exists p' s', ?m ?w = _ /\ _ =>
        destruct (m w) as [r w'] eqn:Ha; cbn in Ha;
        unfold _listItemHandler in Ha;
        cbn [tokenName tokenDA Pre.tagName] in Ha;
        rewrite Hrow in Ha; vm_compute in Ha;
        injection Ha as <- <-; eexists _, _; split; [reflexivity |]
    end;
    (split; [reflexivity |]); (split; [| reflexivity]); owing_tac.
Qed.

Lemma dl_open (a : list KV) (da : DataAttribs) (w : Proto) :
  isStr (stx da) "html" = false ->
  listStack w = [] ->
  exists (p' : Proto) (s' : State),
    _serializeToken env (TagTk "dl" a da) (newWorld w)
    = (Ok tt, mkWorld p' s')
    /\ listStack p' = [mkListCtx 0 "" ""]
    /\ owing s' 0 true false []
    /\ currTagToken s' = Some (TagTk "dl" a da).
Proof.
  intros Hhtml Hstack. destruct w. cbn [listStack] in Hstack. subst.
  unfold newWorld. start_tag Hhtml.
  destruct (debug env); run_tag;
    (split; [reflexivity |]); (split; [| reflexivity]); owing_tac.
Qed.

Lemma dl_close (a : list KV) (da : DataAttribs) (p : Proto) (s : State)
    (c : ListCtx) (sol e : bool) (out : list string) :
  isStr (stx da) "html" = false ->
  listStack p = [c] ->
  owing s 0 sol e out ->
  exists (p' : Proto) (s' : State),
    _serializeToken env (EndTagTk "dl" a da) (mkWorld p s)
    = (Ok tt, mkWorld p' s')
    /\ listStack p' = [] /\ owing s' 0 sol true out.
Proof.
  intros Hhtml Hstack Hin. destruct p, s. cbn in Hstack.
  open_owing Hin. subst. start_tag Hhtml.
  destruct (debug env); run_tag;
    (split; [reflexivity |]); owing_tac.
Qed.

Lemma dt_open_first (a : list KV) (da : DataAttribs) (p : Proto) (s : State)
    (out : list string) (name0 : string) (a0 : list KV) (da0 : DataAttribs) :
  isStr (stx da) "html" = false ->
  listStack p = [mkListCtx 0 "" ""] ->
  owing s 0 true false out ->
  currTagToken s = Some (TagTk name0 a0 da0) ->
  exists (p' : Proto) (s' : State),
    _serializeToken env (TagTk "dt" a da) (mkWorld p s)
    = (Ok tt, mkWorld p' s')
    /\ listStack p' = [mkListCtx 1 "" ";"]
    /\ inline s' 1 true false (out ++ [";"]) /\ onNewline s' = false.
Proof.
  intros Hhtml Hstack Hin Htag. destruct p, s. cbn in Hstack, Htag.
  open_owing Hin. subst. start_tag Hhtml.
  destruct (debug env); run_tag;
    (split; [reflexivity |]); (split; [| reflexivity]); owing_tac.
Qed.

Lemma dt_open_next (n : nat) (b0 : string) (a : list KV) (da : DataAttribs)
    (p : Proto) (s : State) (out : list string) :
  isStr (stx da) "html" = false ->
  listStack p = [mkListCtx (S n) "" b0] ->
  Terms.afterDescription s out ->
  exists (p' : Proto) (s' : State),
    _serializeToken env (TagTk "dt" a da) (mkWorld p s)
    = (Ok tt, mkWorld p' s')
    /\ listStack p' = [mkListCtx (S (S n)) "" ";"]
    /\ inline s' 1 true false (out ++ [JS.nl +:+ ";"])
    /\ onNewline s' = false.
Proof.
  intros Hhtml Hstack (Hin & a0 & da0 & Htag).
  destruct p, s. cbn in Hstack, Htag.
  open_owing Hin. subst. start_tag Hhtml.
  destruct (debug env); run_tag;
    (split; [reflexivity |]); (split; [| reflexivity]); owing_tac.
Qed.

Lemma dt_close (a : list KV) (da : DataAttribs) (p : Proto) (s : State)
    (out : list string) :
  isStr (stx da) "html" = false ->
  inline s 1 false false out -> onNewline s = false ->
  exists s' : State,
    _serializeToken env (EndTagTk "dt" a da) (mkWorld p s)
    = (Ok tt, mkWorld p s')
    /\ Terms.afterTerm s' out.
Proof.
  intros Hhtml Hin Hnl. destruct s. cbn in Hnl. open_owing Hin. subst.
  start_tag Hhtml.
  destruct (debug env); run_tag;
    (split; [owing_tac | split; [reflexivity | now exists a, da]]).
Qed.

Lemma dd_close (a : list KV) (da : DataAttribs) (p : Proto) (s : State)
    (out : list string) :
  isStr (stx da) "html" = false ->
  inline s 1 false false out ->
  exists s' : State,
    _serializeToken env (EndTagTk "dd" a da) (mkWorld p s)
    = (Ok tt, mkWorld p s')
    /\ Terms.afterDescription s' out.
Proof.
  intros Hhtml Hin. destruct s. open_owing Hin. subst.
  start_tag Hhtml.
  destruct (debug env); run_tag;
    (split; [owing_tac | now exists a, da]).
Qed.

(** An element with one text, from the runs of its three tokens. *)
Lemma entry_walk (e : Flat.Entry) (name : string) (da : DataAttribs)
    (w w1 w2 w3 : World) :
  toLowerCase (Flat.entryTag e) = name ->
  Walk.rtInfoOf env (Flat.entryAttribs e) = Some da ->
  _serializeToken env (TagTk name (_getDOMAttribs (Flat.entryAttribs e)) da) w
  = (Ok tt, w1) ->
  _serializeToken env (Str (Flat.entryText e)) w1 = (Ok tt, w2) ->
  _serializeToken env
    (EndTagTk name (_getDOMAttribs (Flat.entryAttribs e)) da) w2
  = (Ok tt, w3) ->
  _serializeDOM env (Flat.node e) w = (Ok tt, w3).
Proof.
  intros Hname Hrt H1 H2 H3.
  unfold Flat.node. cbn [_serializeDOM]. rewrite Hname.
  unfold bind at 1. rewrite (getDOMRTInfo_parsed env _ da _ Hrt).
  unfold bind at 1. rewrite H1.
  unfold bind at 1; unfold bind at 1. rewrite H2.
  cbv beta iota zeta delta [ret]. exact H3.
Qed.

Lemma onRow_parsed (e : Flat.Entry) (da : DataAttribs) :
  Walk.rtInfoOf env (Flat.entryAttribs e) = Some da ->
  Terms.onRow env e = isStr (stx da) "row".
Proof. intros H. unfold Terms.onRow. now rewrite H. Qed.


(** The chunks of a term and its description after the mark of the
    term. *)
Lemma pair_after_mark (t d : Flat.Entry) (n : nat) (da : DataAttribs)
    (w : World) (p1 : Proto) (s1 : State) (out : list string) :
  Terms.plainPair env (t, d) ->
  Walk.rtInfoOf env (Flat.entryAttribs t) = Some da ->
  isStr (stx da) "html" = false ->
  _serializeToken env
    (TagTk "dt" (_getDOMAttribs (Flat.entryAttribs t)) da) w
  = (Ok tt, mkWorld p1 s1) ->
  listStack p1 = [mkListCtx (S n) "" ";"] ->
  inline s1 1 true false out -> onNewline s1 = false ->
  exists (p' : Proto) (s' : State),
    (_serializeDOM env (Flat.node t) ;;; _serializeDOM env (Flat.node d)) w
    = (Ok tt, mkWorld p' s')
    /\ listStack p' = [mkListCtx (S (S n)) "" ":"]
    /\ Terms.afterDescription s'
         (out ++ [Flat.entryText t;
                  if Terms.onRow env d then ":" else JS.nl +:+ ":";
                  Flat.entryText d]).
Proof.
  intros [(Hnt & _ & Htokt & Hplt) (Hnd & (dd & Hrtd & Hhtmld) & Htokd & Hpld)]
    Hrt Hhtml H1 Hstack1 Hin1 Hnl1.
  cbn [fst snd] in *.
  destruct (serializeText_inline env (Flat.entryText t) p1 s1 _ _ _ Htokt
              Hplt Hnl1 Hin1) as (s2 & H2 & Hin2 & Hnl2).
  destruct (dt_close (_getDOMAttribs (Flat.entryAttribs t)) da p1 s2 _ Hhtml
              Hin2 Hnl2) as (s3 & H3 & Hafter3).
  destruct (dd_open n ";" (_getDOMAttribs (Flat.entryAttribs d)) dd p1 s3 _
              Hhtmld Hstack1 Hafter3)
    as (p4 & s4 & H4 & Hstack4 & Hin4 & Hnl4).
  destruct (serializeText_inline env (Flat.entryText d) p4 s4 _ _ _ Htokd
              Hpld Hnl4 Hin4) as (s5 & H5 & Hin5 & Hnl5).
  destruct (dd_close (_getDOMAttribs (Flat.entryAttribs d)) dd p4 s5 _ Hhtmld
              Hin5) as (s6 & H6 & Hafter6).
  exists p4, s6. split; [| split; [exact Hstack4 |]].
  - unfold bind at 1.
    rewrite (entry_walk t "dt" da _ _ _ _ Hnt Hrt H1 H2 H3).
    exact (entry_walk d "dd" dd _ _ _ _ Hnd Hrtd H4 H5 H6).
  - rewrite (onRow_parsed d dd Hrtd).
    rewrite <- !app_assoc in Hafter6. exact Hafter6.
Qed.

Lemma first_pair (pr : Flat.Entry * Flat.Entry) (p : Proto) (s : State)
    (out : list string) (name0 : string) (a0 : list KV) (da0 : DataAttribs) :
  Terms.plainPair env pr ->
  listStack p = [mkListCtx 0 "" ""] ->
  owing s 0 true false out ->
  currTagToken s = Some (TagTk name0 a0 da0) ->
  exists (p' : Proto) (s' : State) (n : nat) (b : string),
    (_serializeDOM env (Flat.node (fst pr)) ;;;
     _serializeDOM env (Flat.node (snd pr))) (mkWorld p s)
    = (Ok tt, mkWorld p' s')
    /\ listStack p' = [mkListCtx (S n) "" b]
    /\ Terms.afterDescription s'
         (out ++ [";"; Flat.entryText (fst pr);
                  if Terms.onRow env (snd pr) then ":" else JS.nl +:+ ":";
                  Flat.entryText (snd pr)]).
Proof.
  destruct pr as [t d]. intros Hpair Hstack Hin Htag. cbn [fst snd].
  pose proof Hpair as [(_ & (da & Hrt & Hhtml) & _) _].
  cbn [fst snd] in *.
  destruct (dt_open_first (_getDOMAttribs (Flat.entryAttribs t)) da p s out
              name0 a0 da0 Hhtml Hstack Hin Htag)
    as (p1 & s1 & H1 & Hstack1 & Hin1 & Hnl1).
  destruct (pair_after_mark t d 0 da _ p1 s1 _ Hpair Hrt Hhtml H1 Hstack1
              Hin1 Hnl1) as (p' & s' & Hrun & Hstack' & Hafter).
  exists p', s', 1, ":". split; [exact Hrun | split; [exact Hstack' |]].
  rewrite <- app_assoc in Hafter. exact Hafter.
Qed.

Lemma next_pair (pr : Flat.Entry * Flat.Entry) (n : nat) (b0 : string)
    (p : Proto) (s : State) (out : list string) :
  Terms.plainPair env pr ->
  listStack p = [mkListCtx (S n) "" b0] ->
  Terms.afterDescription s out ->
  exists (p' : Proto) (s' : State) (n' : nat) (b : string),
    (_serializeDOM env (Flat.node (fst pr)) ;;;
     _serializeDOM env (Flat.node (snd pr))) (mkWorld p s)
    = (Ok tt, mkWorld p' s')
    /\ listStack p' = [mkListCtx (S n') "" b]
    /\ Terms.afterDescription s'
         (out ++ [JS.nl +:+ ";"; Flat.entryText (fst pr);
                  if Terms.onRow env (snd pr) then ":" else JS.nl +:+ ":";
                  Flat.entryText (snd pr)]).
Proof.
  destruct pr as [t d]. intros Hpair Hstack Hafter. cbn [fst snd].
  pose proof Hpair as [(_ & (da & Hrt & Hhtml) & _) _].
  cbn [fst snd] in *.
  destruct (dt_open_next n b0 (_getDOMAttribs (Flat.entryAttribs t)) da p s
              out Hhtml Hstack Hafter)
    as (p1 & s1 & H1 & Hstack1 & Hin1 & Hnl1).
  destruct (pair_after_mark t d (S n) da _ p1 s1 _ Hpair Hrt Hhtml H1 Hstack1
              Hin1 Hnl1) as (p' & s' & Hrun & Hstack' & Hafter').
  exists p', s', (S (S n)), ":".
  split; [exact Hrun | split; [exact Hstack' |]].
  rewrite <- app_assoc in Hafter'. exact Hafter'.
Qed.

Lemma more_pairs (pairs : list (Flat.Entry * Flat.Entry)) :
  Forall (Terms.plainPair env) pairs ->
  forall (p : Proto) (s : State) (n : nat) (b0 : string)
         (out : list string),
    listStack p = [mkListCtx (S n) "" b0] ->
    Terms.afterDescription s out ->
    exists (p' : Proto) (s' : State) (c : ListCtx),
      (fix serializeChildren (nodes : list Node) : M unit :=
         match nodes with
         | [] => ret tt
         | child :: rest =>
             _serializeDOM env child ;;; serializeChildren rest
         end) (Terms.nodes pairs) (mkWorld p s)
      = (Ok tt, mkWorld p' s')
      /\ listStack p' = [c]
      /\ Terms.afterDescription s'
           (out ++ concat
                     (map (fun pr =>
                             [JS.nl +:+ ";"; Flat.entryText (fst pr);
                              if Terms.onRow env (snd pr)
                              then ":" else JS.nl +:+ ":";
                              Flat.entryText (snd pr)]) pairs)).
Proof.
  intros Hall.
  match goal with
  | |- forall p s n b0 out, _ -> _ -> exists p' s' c, ?f _ _ = _ /\ _ =>
      set (walk := f)
  end.
  induction Hall as [|pr pairs Hp Hall IH]; intros p s n b0 out Hstack Hafter.
  - exists p, s, (mkListCtx (S n) "" b0). cbn [map concat].
    rewrite app_nil_r.
    split; [reflexivity | split; [exact Hstack | exact Hafter]].
  - destruct (next_pair pr n b0 p s out Hp Hstack Hafter)
      as (p1 & s1 & n1 & b1 & H1 & Hstack1 & Hafter1).
    destruct (IH p1 s1 n1 b1 _ Hstack1 Hafter1)
      as (p2 & s2 & c & H2 & Hstack2 & Hafter2).
    exists p2, s2, c. split; [| split; [exact Hstack2 |]].
    + unfold Terms.nodes in *. cbn [flat_map app].
      change (walk (Flat.node (fst pr) :: Flat.node (snd pr)
                    :: flat_map (fun pr => [Flat.node (fst pr);
                                            Flat.node (snd pr)]) pairs))
        with (_serializeDOM env (Flat.node (fst pr)) ;;;
              (_serializeDOM env (Flat.node (snd pr)) ;;;
               walk (flat_map (fun pr => [Flat.node (fst pr);
                                          Flat.node (snd pr)]) pairs))).
      unfold bind at 1 in H1. unfold bind at 1.
      destruct (_serializeDOM env (Flat.node (fst pr)) (mkWorld p s))
        as [[[]|ex] wt]; [| discriminate].
      unfold bind at 1. rewrite H1. exact H2.
    + cbn [map concat]. rewrite <- app_assoc in Hafter2. exact Hafter2.
Qed.

Lemma join_marked_lines {A : Type} (sep : string) (line : A -> string)
    (g : A -> list string) :
  (forall a : A, JS.join "" (g a) = sep +:+ line a) ->
  forall (x : string) (rest : list A),
    x +:+ JS.join "" (concat (map g rest)) = JS.join sep (x :: map line rest).
Proof.
  intros Hg x rest. revert x.
  induction rest as [|a rest IH]; intros x.
  - cbn [map concat JS.join String.concat]. apply append_Empty_r.
  - cbn [map concat].
    assert (Hr : forall u v l, JS.join sep (u :: v :: l)
                               = u +:+ sep +:+ JS.join sep (v :: l))
      by reflexivity.
    rewrite Hr, <- IH, join_empty_app, Hg. now rewrite append_assoc_s.
Qed.

(** X28.  A list of terms that each have one description, where the term
    and the description hold one text without line breaks: on a prototype
    object whose list stack is empty, [serializeDOM] returns a line for
    every term, which starts with the mark of the term; the description
    follows after its mark on the same line if it is marked as written
    on the row of the term, and on a line of its own if not. *)
Theorem description_follows_its_term :
  forall (w : Proto) (nodeName : string) (attribs : list KV)
         (da : DataAttribs) (pairs : list (Flat.Entry * Flat.Entry)),
    toLowerCase nodeName = "dl" ->
    Walk.rtInfoOf env attribs = Some da ->
    isStr (stx da) "html" = false ->
    listStack w = [] ->
    Forall (Terms.plainPair env) pairs ->
    wikitext (serializeDOM env w
                (Element nodeName attribs (Terms.nodes pairs)))
    = Some (JS.join JS.nl
              (map (fun pr =>
                      ";" +:+ Flat.entryText (fst pr)
                      +:+ (if Terms.onRow env (snd pr)
                           then ":" else JS.nl +:+ ":")
                      +:+ Flat.entryText (snd pr)) pairs))
    /\ listStack (protoAfter (serializeDOM env w
                    (Element nodeName attribs (Terms.nodes pairs)))) = [].
Proof.
  intros w nodeName attribs da pairs Hname Hrt Hhtml Hstack Hall.
  set (a := _getDOMAttribs attribs).
  set (chunksOf := fun (mark : string) (pr : Flat.Entry * Flat.Entry) =>
         [mark; Flat.entryText (fst pr);
          if Terms.onRow env (snd pr) then ":" else JS.nl +:+ ":";
          Flat.entryText (snd pr)]).
  destruct (dl_open a da w Hhtml Hstack)
    as (p1 & s1 & H1 & Hstack1 & Hin1 & Htag1).
  assert (Hwalk :
    exists (p' : Proto) (s' : State) (sol : bool),
      _serializeDOM env (Element nodeName attribs (Terms.nodes pairs))
        (newWorld w) = (Ok tt, mkWorld p' s')
      /\ listStack p' = []
      /\ inline s' 0 sol true
           match pairs with
           | [] => []
           | pr :: rest =>
               chunksOf ";" pr
               ++ concat (map (chunksOf (JS.nl +:+ ";")) rest)
           end).
  { cbn [_serializeDOM]. rewrite Hname. fold a. unfold bind at 1.
    rewrite (getDOMRTInfo_parsed env attribs da (newWorld w) Hrt).
    unfold bind at 1. rewrite H1.
    destruct Hall as [|pr pairs Hp Hall].
    - destruct (dl_close a da p1 s1 _ _ _ _ Hhtml Hstack1 Hin1)
        as (p2 & s2 & H2 & Hstack2 & Hin2).
      exists p2, s2, true. cbn [Terms.nodes flat_map]. unfold bind at 1.
      cbv beta iota zeta delta [ret].
      split; [exact H2 | split; [exact Hstack2 | exact Hin2]].
    - destruct (first_pair pr p1 s1 _ _ _ _ Hp Hstack1 Hin1 Htag1)
        as (p2 & s2 & n2 & b2 & H2 & Hstack2 & Hafter2).
      destruct (more_pairs pairs Hall p2 s2 n2 b2 _ Hstack2 Hafter2)
        as (p3 & s3 & c & H3 & Hstack3 & (Hin3 & _)).
      destruct (dl_close a da p3 s3 _ _ _ _ Hhtml Hstack3 Hin3)
        as (p4 & s4 & H4 & Hstack4 & Hin4).
      exists p4, s4, false. unfold Terms.nodes in *. cbn [flat_map app].
      unfold bind at 1 in H2.
      unfold bind at 1; unfold bind at 1.
      destruct (_serializeDOM env (Flat.node (fst pr)) (mkWorld p1 s1))
        as [[[]|ex] wt]; [| discriminate].
      unfold bind at 1. rewrite H2, H3.
      split; [exact H4 | split; [exact Hstack4 | exact Hin4]]. }
  destruct Hwalk as (p' & s' & sol & Hrun & Hstack' & Hin').
  destruct (serializeEOF_inline env p' s' _ _ _ _ Hin') as (s'' & Heof & Hch).
  unfold serializeDOM, bind. rewrite Hrun, Heof.
  cbn [wikitext protoAfter state proto]. split; [| exact Hstack'].
  rewrite Hch. f_equal.
  rewrite join_empty_app. cbn [JS.join String.concat].
  rewrite append_Empty_r.
  destruct pairs as [|pr rest]; [reflexivity |].
  rewrite join_empty_app. cbn [map].
  apply (join_marked_lines JS.nl
           (fun pr => ";" +:+ Flat.entryText (fst pr)
                      +:+ (if Terms.onRow env (snd pr)
                           then ":" else JS.nl +:+ ":")
                      +:+ Flat.entryText (snd pr))
           (chunksOf (JS.nl +:+ ";"))).
  intros x. subst chunksOf. cbn [JS.join String.concat].
  now rewrite !append_Empty, append_assoc_s.
Qed.

End DefinitionLists.

(** ** The properties at concrete inputs *)

Section AtInputs.
Import WS.

Lemma escapeWikiText_plain_text_witness :
  escapeWikiText plainEnv ("a" +:+ JS.nl +:+ "b") Sample.midLineOfIndentPre
  = (Ok ("a" +:+ JS.nl +:+ "b"), Sample.midLineOfIndentPre).
Proof.
  exact (escapeWikiText_plain_text plainEnv ("a" +:+ JS.nl +:+ "b")
           Sample.midLineOfIndentPre ltac:(vm_compute; reflexivity)).
Defined.

Lemma text_ending_in_CR_throws_witness :
  exists w' : World,
    _serializeToken plainEnv (Str ("a" +:+ String JS.CR ""))
      Sample.insideHTMLPre
    = (Throw (TypeError "match[1]"), w')
    /\ chunks (state w') = []
    /\ proto w' = initialProto.
Proof.
  exact (text_ending_in_CR_throws plainEnv "a" Sample.insideHTMLPre
           ltac:(vm_compute; reflexivity) ltac:(vm_compute; reflexivity)).
Defined.

Lemma stripNewlines_splits_the_text_witness :
  exists (leading trailing : nat) (body : string),
    fst (stripNewlines (JS.nl +:+ "a" +:+ JS.nl +:+ JS.nl)
           (newWorld initialProto))
    = Ok (body, trailing)
    /\ JS.nl +:+ "a" +:+ JS.nl +:+ JS.nl
       = JS.newlines leading +:+ body +:+ JS.newlines trailing
    /\ JS.isPrefix JS.nl body = false
    /\ JS.isPrefix JS.nl (reverse body) = false.
Proof.
  destruct (stripNewlines_splits_the_text
              (JS.nl +:+ "a" +:+ JS.nl +:+ JS.nl) (newWorld initialProto)
              ltac:(vm_compute; reflexivity))
    as (leading & trailing & body & Hrun & Htext & Hstart & Hend & _).
  exists leading, trailing, body. rewrite Hrun.
  repeat split; assumption.
Defined.

Lemma serializeDOM_balances_the_list_stack_witness :
  length (listStack (protoAfter
                       (serializeDOM plainEnv initialProto SerSpec.nestedList)))
  = 0.
Proof.
  exact (proj1 (serializeDOM_balances_the_list_stack plainEnv initialProto
                  SerSpec.nestedList ("*a" +:+ JS.nl +:+ "**b")
                  ltac:(vm_compute; reflexivity))).
Defined.

Lemma serializeDOM_is_serializeTokens_witness :
  match
    serializeTokens plainEnv initialProto
      ([TagTk "body" [] noDA; TagTk "p" [] noDA; Str "x";
        EndTagTk "p" [] noDA; TagTk "p" [] noDA; Str "y";
        EndTagTk "p" [] noDA; EndTagTk "body" [] noDA] ++ [EOFTk])
  with
  | (Ok out, after) =>
      wikitext (serializeDOM plainEnv initialProto SerSpec.twoParagraphs)
      = Some (JS.join "" out)
      /\ sunk (serializeDOM plainEnv initialProto SerSpec.twoParagraphs) = out
      /\ protoAfter (serializeDOM plainEnv initialProto SerSpec.twoParagraphs)
         = after
  | (Throw e, after) =>
      wikitext (serializeDOM plainEnv initialProto SerSpec.twoParagraphs)
      = None
      /\ protoAfter (serializeDOM plainEnv initialProto SerSpec.twoParagraphs)
         = after
  end.
Proof.
  exact (serializeDOM_is_serializeTokens plainEnv initialProto
           SerSpec.twoParagraphs
           [TagTk "body" [] noDA; TagTk "p" [] noDA; Str "x";
            EndTagTk "p" [] noDA; TagTk "p" [] noDA; Str "y";
            EndTagTk "p" [] noDA; EndTagTk "body" [] noDA]
           ltac:(vm_compute; reflexivity)).
Defined.

Lemma list_item_outside_list_throws_witness :
  exists w' : World,
    _serializeToken plainEnv (TagTk "li" [] noDA) (newWorld initialProto)
    = (Throw (TypeError "curList.itemCount"), w')
    /\ chunks (state w') = []
    /\ listStack (proto w') = [].
Proof.
  exact (list_item_outside_list_throws plainEnv "li" [] noDA
           (newWorld initialProto) ltac:(vm_compute; reflexivity)
           ltac:(vm_compute; reflexivity) ltac:(vm_compute; reflexivity)).
Defined.

Lemma escaper_wraps_the_source_of_a_run_witness :
  fst (escapeWikiText Sample.rangedEnv "a'''c" Sample.midLine)
  = Ok "a<nowiki>'''</nowiki>c".
Proof.
  destruct (escaper_wraps_the_source_of_a_run Sample.rangedEnv "a'''c"
              Sample.midLine [Str "a"] [] [] (TagTk "b" [] (tsrDA 2 5))
              (Str "c") 2 5 2 5
              ltac:(vm_compute; reflexivity) ltac:(vm_compute; reflexivity)
              ltac:(vm_compute; reflexivity) ltac:(vm_compute; reflexivity)
              ltac:(vm_compute; reflexivity) ltac:(vm_compute; reflexivity))
    as [cursor' Hrun].
  rewrite Hrun. vm_compute. reflexivity.
Defined.

Lemma escaper_throws_without_first_string_witness :
  exists (what : string) (w' : World),
    escapeWikiText Sample.tagFirstEnv "x" Sample.midLine
    = (Throw (TypeError what), Sample.midLine)
    /\ _serializeToken Sample.tagFirstEnv (Str "x") Sample.midLine
       = (Throw (TypeError what), w')
    /\ chunks (state w') = []
    /\ proto w' = initialProto.
Proof.
  exact (escaper_throws_without_first_string Sample.tagFirstEnv "x"
           Sample.midLine ltac:(vm_compute; reflexivity)
           ltac:(vm_compute; reflexivity) ltac:(vm_compute; exact I)).
Defined.

Lemma newline_token_is_owed_witness :
  exists w' : World,
    _serializeToken plainEnv (NlTk noDA) Sample.midLine = (Ok tt, w')
    /\ chunks (state w') = []
    /\ availableNewlineCount (state w') = 1.
Proof.
  destruct (newline_token_is_owed plainEnv noDA Sample.midLine
              ltac:(vm_compute; reflexivity) ltac:(vm_compute; reflexivity))
    as (w' & Hrun & Hch & Hnl & _).
  exists w'. repeat split; assumption.
Defined.

Lemma withoutTail_takes_off_the_tail_witness :
  withoutTail Sample.insideLinkWithTail "cats" = "cat"
  /\ withoutTail Sample.insideLinkWithTail "cats" +:+ "s" = "cats".
Proof.
  split; [vm_compute; reflexivity |].
  exact (withoutTail_takes_off_the_tail Sample.insideLinkWithTail "cats" "s"
           ltac:(vm_compute; reflexivity)).
Defined.

Lemma dropped_content_is_not_sent_witness :
  dropContent
    (state (snd (_serializeToken plainEnv (TagTk "ul" [] noDA)
                   Sample.insideGenerated))) = true
  /\ chunks
       (state (snd (_serializeToken plainEnv (TagTk "ul" [] noDA)
                      Sample.insideGenerated))) = [].
Proof.
  exact (dropped_content_is_not_sent plainEnv (TagTk "ul" [] noDA)
           Sample.insideGenerated ltac:(vm_compute; reflexivity)
           ltac:(vm_compute; reflexivity) ltac:(vm_compute; reflexivity)).
Defined.

Lemma stream_without_indent_is_unchanged_witness :
  snd (Pre.run UtilModel.isTableTag UtilModel.isBlockTag
         (Pre.PreHandler_new (Pre.mkConf false None) false)
         (Sample.twoLines ++ [EOFTk]))
  = Sample.twoLines ++ [EOFTk].
Proof.
  exact (proj2 (stream_without_indent_is_unchanged
                  UtilModel.isTableTag UtilModel.isBlockTag
                  (Pre.mkConf false None) Sample.twoLines
                  ltac:(vm_compute; reflexivity))).
Defined.

Lemma synthesized_pre_tags_are_paired_witness :
  PreTags.paired
    (snd (Pre.run UtilModel.isTableTag UtilModel.isBlockTag
            (Pre.PreHandler_new (Pre.mkConf false None) false)
            Sample.indentedLine))
  /\ snd (Pre.run UtilModel.isTableTag UtilModel.isBlockTag
            (Pre.PreHandler_new (Pre.mkConf false None) false)
            Sample.indentedLine)
     = [NlTk noDA; TagTk "pre" [] noDA; Str "a"; EndTagTk "pre" [] noDA;
        NlTk noDA; Str "b"].
Proof.
  split; [| vm_compute; reflexivity].
  exact (proj1 (synthesized_pre_tags_are_paired
                  UtilModel.isTableTag UtilModel.isBlockTag
                  (Pre.mkConf false None) false Sample.indentedLine
                  ltac:(vm_compute; reflexivity))).
Defined.

Lemma no_block_inside_html_pre_witness :
  snd (Pre.run UtilModel.isTableTag UtilModel.isBlockTag
         (Pre.PreHandler_new (Pre.mkConf false None) false)
         (TagTk "pre" [] Sample.htmlDA :: Sample.afterHTMLPre ++ [EOFTk]))
  = TagTk "pre" [] Sample.htmlDA :: Sample.afterHTMLPre ++ [EOFTk].
Proof.
  exact (no_block_inside_html_pre UtilModel.isTableTag UtilModel.isBlockTag
           (Pre.mkConf false None) [] Sample.htmlDA Sample.afterHTMLPre
           ltac:(vm_compute; reflexivity) ltac:(vm_compute; reflexivity)
           ltac:(vm_compute; reflexivity)).
Defined.

Lemma old_stream_without_indent_is_unchanged_witness :
  snd (PreOld.run UtilModel.isBlockTag PreOld.PreHandler_new
         (Sample.twoLines ++ [EOFTk]))
  = Sample.twoLines ++ [EOFTk].
Proof.
  exact (proj2 (old_stream_without_indent_is_unchanged UtilModel.isBlockTag
                  Sample.twoLines ltac:(vm_compute; reflexivity))).
Defined.

Lemma old_indented_line_becomes_pre_witness :
  snd (PreOld.run UtilModel.isBlockTag PreOld.PreHandler_new
         ([Str " foo"] ++ [Str "a"] ++ [Str "b"] ++ [NlTk noDA; NlTk noDA]))
  = [TagTk "pre" [] noDA] ++ [Str "a"] ++ [Str "b"]
    ++ [EndTagTk "pre" [] noDA; NlTk noDA; NlTk noDA].
Proof.
  exact (old_indented_line_becomes_pre UtilModel.isBlockTag " foo" (Str "a")
           [Str "b"] noDA noDA ltac:(vm_compute; reflexivity)
           ltac:(vm_compute; reflexivity) ltac:(vm_compute; reflexivity)).
Defined.

Lemma old_blank_line_loses_its_text_witness :
  snd (PreOld.run UtilModel.isBlockTag PreOld.PreHandler_new
         ([Str " foo"] ++ [CommentTk "c" noDA] ++ [NlTk noDA]))
  = [Str " "; CommentTk "c" noDA; NlTk noDA].
Proof.
  exact (old_blank_line_loses_its_text UtilModel.isBlockTag " foo"
           [CommentTk "c" noDA] noDA ltac:(vm_compute; reflexivity)
           ltac:(vm_compute; reflexivity)).
Defined.

Lemma handler_flags_do_not_pass_between_calls_witness :
  wikitext (serializeDOM plainEnv initialProto SerSpec.nestedList)
  = wikitext (serializeDOM plainEnv Sample.flagsSet SerSpec.nestedList)
  /\ fst (serializeTokens plainEnv initialProto SerSpec.firstParagraph)
     = fst (serializeTokens plainEnv Sample.flagsSet SerSpec.firstParagraph).
Proof.
  destruct (handler_flags_do_not_pass_between_calls plainEnv initialProto
              Sample.flagsSet SerSpec.nestedList SerSpec.firstParagraph
              ltac:(vm_compute; reflexivity))
    as ((Htext & _) & Htoks & _).
  split; [exact Htext | exact Htoks].
Defined.

Lemma markup_wraps_plain_text_witness :
  wikitext
    (serializeDOM plainEnv initialProto
       (Element "H2" [mkKV "id" "x"] [TextNode "Title"]))
  = Some ("==" +:+ "Title" +:+ "==").
Proof.
  exact (proj1 (markup_wraps_plain_text plainEnv initialProto "H2"
                  [mkKV "id" "x"] noDA "==" "==" "Title"
                  ltac:(vm_compute; reflexivity) ltac:(vm_compute; reflexivity)
                  ltac:(vm_compute; reflexivity) ltac:(vm_compute; reflexivity)
                  ltac:(vm_compute; reflexivity)
                  ltac:(vm_compute; reflexivity))).
Defined.

Lemma html_element_wraps_plain_text_witness :
  wikitext
    (serializeDOM Sample.htmlEnv initialProto
       (Element "SPAN"
          [mkKV "class" "x"; mkKV "data-mw" (Sample.stxJSON "html")]
          [TextNode "Title"]))
  = Some ("<span class=" +:+ JS.dquote +:+ "x" +:+ JS.dquote
          +:+ ">Title</span>").
Proof.
  exact (html_element_wraps_plain_text Sample.htmlEnv initialProto "SPAN"
           [mkKV "class" "x"; mkKV "data-mw" (Sample.stxJSON "html")]
           Sample.htmlDA "Title"
           ltac:(vm_compute; reflexivity) ltac:(vm_compute; reflexivity)
           ltac:(vm_compute; reflexivity) ltac:(vm_compute; reflexivity)
           ltac:(vm_compute; reflexivity) ltac:(vm_compute; reflexivity)
           ltac:(vm_compute; reflexivity) ltac:(vm_compute; reflexivity)
           ltac:(vm_compute; reflexivity) ltac:(vm_compute; reflexivity)).
Defined.

Lemma flat_list_has_a_line_per_item_witness :
  wikitext
    (serializeDOM plainEnv initialProto
       (Element "UL" [] (map Flat.node Sample.twoItems)))
  = Some ("*a" +:+ JS.nl +:+ "*b").
Proof.
  exact (proj1 (flat_list_has_a_line_per_item plainEnv initialProto "UL" "*"
                  [] noDA Sample.twoItems
                  ltac:(left; split; reflexivity)
                  ltac:(vm_compute; reflexivity) ltac:(vm_compute; reflexivity)
                  ltac:(vm_compute; reflexivity)
                  ltac:(repeat (apply List.Forall_cons
                                || apply List.Forall_nil);
                        (split; [reflexivity |]);
                        (split; [exists noDA; split; vm_compute; reflexivity |]);
                        split; vm_compute; reflexivity))).
Defined.

Lemma paragraphs_are_separated_by_an_empty_line_witness :
  wikitext
    (serializeDOM plainEnv initialProto
       (Element "BODY" [] (map Flat.node Sample.twoTexts)))
  = Some ("a" +:+ JS.nl +:+ JS.nl +:+ "b").
Proof.
  exact (paragraphs_are_separated_by_an_empty_line plainEnv initialProto
           "BODY" [] noDA Sample.twoTexts
           ltac:(reflexivity)
           ltac:(vm_compute; reflexivity) ltac:(vm_compute; reflexivity)
           ltac:(repeat (apply List.Forall_cons || apply List.Forall_nil);
                 (split; [reflexivity |]);
                 (split; [exists noDA; split; vm_compute; reflexivity |]);
                 split; vm_compute; reflexivity)).
Defined.

Lemma table_has_a_line_per_cell_witness :
  wikitext (serializeDOM plainEnv initialProto (Grid.table Sample.twoRows))
  = Some ("{|" +:+ JS.nl +:+ "|a" +:+ JS.nl +:+ "|b" +:+ JS.nl +:+ "|-"
          +:+ JS.nl +:+ "|c" +:+ JS.nl +:+ "|}").
Proof.
  exact (table_has_a_line_per_cell plainEnv initialProto Sample.twoRows
           ltac:(repeat (apply List.Forall_cons || apply List.Forall_nil);
                 split; vm_compute; reflexivity)).
Defined.

Lemma description_follows_its_term_witness :
  wikitext
    (serializeDOM Sample.rowEnv initialProto
       (Element "DL" [] (Terms.nodes Sample.twoTerms)))
  = Some (";x" +:+ JS.nl +:+ ":a" +:+ JS.nl +:+ ";y:b").
Proof.
  exact (proj1 (description_follows_its_term Sample.rowEnv initialProto
                  "DL" [] noDA Sample.twoTerms
                  ltac:(reflexivity)
                  ltac:(vm_compute; reflexivity) ltac:(vm_compute; reflexivity)
                  ltac:(vm_compute; reflexivity)
                  ltac:(repeat (apply List.Forall_cons
                                || apply List.Forall_nil);
                        split;
                        (split; [reflexivity |]);
                        (split; [eexists; split; vm_compute; reflexivity |]);
                        split; vm_compute; reflexivity))).
Defined.
End AtInputs.
